(* ===== verification/_CoqProject ===== *)
-Q . S2P
Prelude.v
EngineOptions.v
Options.v
Slot.v
Reaper.v
SessionPool.v
SessionPoolInv.v
SessionPoolLive.v
Errors.v
WorkerState.v
Shutdown.v
WorkerPool.v
WorkerPoolInv.v
WorkerPoolProps.v
Bson.v
Response.v
Effects.v
Client.v
Find.v
CursorLife.v
Insert.v
Async.v
Limits.v
Text.v
Wire.v
WireFormat.v
Marker.v
Repair.v
RepairProps.v
Handle.v
Registry.v
RegistryInv.v
Bridge.v
NativeClient.v
Sound.v
Open.v
LimitsLock.v
AsyncProps.v
Bindings.v
BlockOn.v
WorkerPoolAbandon.v
Futures.v
Search.v
BuildHost.v
Prebuilt.v
Glibc.v
PrebuiltRace.v
Exports.v
Freshness.v
BuildNative.v
BuildScript.v
Facade.v
JavaApi.v
Rendezvous.v
BenchDir.v
BenchMeasure.v
BenchRss.v
BenchSeed.v
BenchReport.v
Benchmark.v
