(* ===== verification/Prelude.v ===== *)
(** * Embedded MongoDB: a verification development

    The program is a Rust workspace that runs MongoDB's storage and query engine inside the
    process of its caller. This library models the workspace's own logic in Rocq and proves what
    makes it correct. The engine itself (C++), the [bson] package, the JVM, the file system and
    the operating system's threads are given: they are arguments of the definitions or classes,
    with the behaviour their documentation states as laws, and every theorem that has such a law
    as a hypothesis comes with a witness on a concrete instance.

    ** The parts, and how they interact

    The engine is reached through [embedded-mongodb-sys]: one runtime handle per process, and
    sessions on it, each of which runs one command at a time. Both are shared by reference
    counts. The safe crate ([src/]) keeps a pool of sessions ([src/pool]) so that any number of
    threads can run commands on one client, lets a caller interrupt the command it started, moves
    two process-wide server parameters ([src/limits]) and, on the first open of a directory an
    older build wrote, repairs its indexes ([src/repair]). The async client ([src/nonblocking])
    queues every call for a pool of worker threads that use the blocking client. The bindings sit
    on top: [embedded-mongodb-android] keeps a registry of open clients behind 64-bit handles;
    [embedded-mongodb-node] and [embedded-mongodb-python] read a driver's wire messages
    ([embedded-mongodb-wire]) and answer them.

    ** Files, and the sources they model

    - [Prelude]: results, machine integers, threads as lists, [reachable], tactics and hints.
    - [EngineOptions] ([embedded-mongodb-sys/src/options.rs]), [Options] ([src/options.rs]): the
      limits of an open, their range checks and builders, the struct that crosses the FFI.
    - [Slot] ([src/pool/slot.rs]), [Reaper] ([src/pool/reaper.rs]), [SessionPool] and
      [SessionPoolInv] ([src/pool/sessions.rs]): the interrupt, the idle sessions and the reaper's
      decisions as functions; the pool, its callers and the reaper thread as a transition system
      whose steps are critical sections, native calls and wakeups. [SessionPoolLive]: how much
      work the system can do, and that it ends with every caller served.
    - [Errors], [Response] ([src/error.rs], [embedded-mongodb-sys/src/error.rs]): the error types,
      what they say, and the reading of a reply.
    - [WorkerState] ([src/nonblocking/state.rs]), [Shutdown] ([shutdown.rs]), [WorkerPool],
      [WorkerPoolInv], [WorkerPoolProps] ([queue.rs], [workers.rs], [engine.rs]): the worker
      pool's decisions on [u32] counts, the rendezvous of a close, and the whole as a transition
      system. [WorkerPoolAbandon]: the same pool once nobody holds the engine any more.
      [Futures] ([engine.rs]): the task that awaits one command, its worker, and the slot and
      channel between them.
    - [Bson]: the operations of the [bson] package the sources use, and their laws.
    - [Effects]: a call returns, blocks, panics, or the model runs out of fuel; the state monad
      the sequential models are written in.
    - [Client] ([src/client.rs]), [Find] ([src/find.rs], [src/aggregate.rs]), [CursorLife],
      [Insert] ([src/insert.rs]): commands on pooled sessions, cursors, inserts.
    - [Async] ([src/nonblocking/client.rs], [find.rs], [insert.rs], [aggregate.rs]): the same
      calls as jobs of the worker pool, the kill of a dropped cursor a job that nobody waits for
      and that a schedule runs later; [AsyncProps]: each beside the call it wraps. [Facade] ([src/database.rs], [src/collection.rs] and
      their counterparts in [src/nonblocking]; the log lines of [embedded-mongodb-sys/src/ffi.rs]):
      the handles users hold.
    - [Limits], [LimitsLock] ([src/limits]): the free-disk floors, on their own and from many
      threads at once. [Rendezvous] ([src/limits/rendezvous.rs]): where the engine of their tests
      holds a mover.
    - [Text]: strings and UTF-8 as the standard library has them. [Wire], [WireFormat]
      ([embedded-mongodb-wire/src/lib.rs]): the parser on bytes, and the grammar of what it reads.
    - [Marker] ([src/repair/marker.rs], [origin.rs]), [Repair], [RepairProps] ([src/repair]): the
      marker file on a disk that can fail and lose power, and the repair pass.
    - [NativeClient] ([embedded-mongodb-sys/src/client.rs]): who owns the engine.
    - [Sound], [Open] ([src/client.rs]): an open and a close, composed of everything above.
    - [Handle], [Registry], [RegistryInv] ([embedded-mongodb-android/src/handle.rs],
      [registry.rs]), [Bridge] ([error.rs], [options.rs], [bridge.rs], [jvm.rs]): the JNI layer.
      [JavaApi] ([bridge.rs]): its four methods, from their arguments to what Java gets.
    - [Bindings] ([embedded-mongodb-node/src/lib.rs], [embedded-mongodb-python/src]), [BlockOn]
      ([embedded-mongodb-python/src/wait.rs]).
    - The build script of [embedded-mongodb-sys]. [Search]: the operations on [str] and bytes it
      uses. [BuildHost]: the machine it runs on, files, links, programs and environment, and
      programs as trees of the questions they put to it; [exec] runs one on given answers,
      [runs] on any, [fleet_step] many at once, one operation at a time. [Prebuilt] ([prebuilt.rs],
      [build_cache.rs], [build_download.rs], [build_glibc.rs]), [Glibc], [PrebuiltRace], [Exports]
      ([build_exports.rs]), [Freshness] ([build_freshness.rs]), [BuildNative] ([build_native.rs],
      [build_android.rs], [build_logging.rs]), [BuildScript] ([build.rs], [build_link.rs]).
    - The places benchmark ([examples/places-benchmark]), a program on top of the blocking client.
      [BenchDir] ([datadir.rs]): the directory it deletes and measures, as a tree. [BenchMeasure]
      ([measure.rs]), [BenchRss] ([rss.rs]): what it measures, and the thread that samples memory.
      [BenchSeed] ([seed.rs], [queries.rs]): what it loads and asks, with the arithmetic of [f64]
      on [spec_float]. [BenchReport] ([report.rs]): what it prints. [Benchmark] ([main.rs],
      [cold.rs]): its command line, the run as a whole and the cold open.

    Interfaces between components are classes: [NativeLib] (what the pool needs of the native
    client, implemented by [Open]'s [Native_NativeLib] on [NativeClient]), [Commands] and
    [AdminCommands] (what cursors, the repair pass and the floors need of a client), [FloorEngine]
    and [CursorEngine] (what an engine does with floors and cursors), [BsonLib]/[BsonLaws],
    [EngineLib], [Driven] (what the bindings need of a client), [FutureLib]/[FutureLaws],
    [Sha2]/[Sha2Laws] and [Unicode] (what the build script takes from the [sha2] package and from
    the Unicode tables).

    ** What the theorems show

    - Session pool: under every interleaving the ceiling holds and the count is exact, a session
      has one owner, an interrupt only ever hits the command it was armed for, no parked caller
      is stranded, and the sessions there are fall short of the floor by no more than the opens
      under way and those the engine refused; that they can fall short while an open is under
      way, and for good once one was refused, are theorems too. Every schedule without new
      callers does a bounded amount of work and ends with every caller served; and with one
      worker per session a checkout waits only for a session that is being destroyed.
    - Worker pool: the ceiling, every accepted job taken once and in order, none stranded, every
      close ends under every schedule with every job done, and what it reports; an engine nobody
      holds any more is let go under every schedule. A command is interrupted only because its
      own future was dropped while it ran, and one dropped before it began never begins.
    - Ownership: every interleaving of opens, commands, kills, drops and closes is a legal
      sequence of native calls; the engine goes last, exactly once. An open leaves a working
      client or nothing at all; a close reports what the engine said.
    - Commands: cursors yield every document once and in order and do not outlive their handles;
      an insert of many succeeds only when all went in; async calls answer what blocking ones do
      and leave the same client, where a cursor was dropped once its kill has been run.
      Whatever is done with a collection, its commands name it and its database only.
    - Floors: a refused move is put back or reported, no floor outlives the client that named it,
      and no interleaving of moves, reads and opens mixes two callers' pairs, which moves that do
      not take the lock can.
    - Wire: the parser answers every buffer and accepts exactly the grammar; through the Node
      binding a driver converses with the engine itself, in its order and up to its close, but
      for the handshake, which is the engine's at open and is answered after the close too.
    - Repair: the marker is never half written, also where a power loss takes the rename, is only
      written by a run that checked every collection, nothing is moved or deleted silently, and
      the pass comes back on every engine whose commands do and whose cursors end; a recorded
      directory is left alone by every later open.
    - JNI: the registry under any interleaving refines a contract in which handles are fresh and
      a close waits for the commands inside and happens once; every schedule of the calls inside
      is short and ends with everybody outside; an id is its process's tag and its turn; error
      codes and option slots cross unchanged. What Java sees of any sequence of calls is a table
      of open handles, and after a failure the exception the JVM left or the error's own.
    - Build script: however many builds share a cache, what is installed in it is what the
      manifest names, as long as no name there is a symbolic link, and a build links the file it
      resolved, whose bytes it checked, with all of the header's entry points or with none that
      could be read; a checkout that git says differs from the published
      library is refused, and so is a host whose glibc is older than the library's. Two ways in
      which the script falls short of its comments are theorems too: a racing build can take a
      good entry away, and a comparison git does not answer passes in silence.
    - Benchmark: it deletes only a directory with its marker, an empty one or a forced one, and
      ends at once, having done nothing, where it may not; the
      child it spawns opens the directory it wrote; a load inserts every copy of every place once,
      under ids that differ; the searches without an index are measured before any index exists;
      the numbers of a measurement summarise its samples and no sum or division of them panics;
      a footprint splits the directory without wrapping; a field of the kernel's is read as it is
      written, and a peak belongs to its phase but for one sample that may be late.

    ** Bounds and fuel

    [u32], [i32] and [i64] are [Z] with their wrap-around written out; the invariants show where
    no wrap happens. A [Duration] or [Instant] is a number of nanoseconds. Loops whose length the
    engine decides (a cursor that answers empty batches) take fuel, and running out of it is a
    value of its own, [NoFuel], apart from every answer: the cursor theorems say how much a
    conversation needs ([drains]), the repair pass has enough of it on every engine that has
    finitely many batches to give, and [Open] keeps its invariant in that case too. The wire
    parser's loops take the length of the buffer as fuel and are shown never to run out. The
    build script waits for Bazel for as many rounds as its fuel says and answers [None] beyond
    them; its theorem is about builds that finish. The string searches take the length of the
    text as fuel, which their lemmas show is enough, and so does the reading of a seed. The
    liveness theorems bound the work that is left by a measure of the state ([budget],
    [calls_left]) and need no fairness but that spurious wakeups end. Threads are lists of any
    length; nothing is bounded by the number of them.

    ** Not modelled

    Tracing spans and log texts other than the repair pass's events; the [cxx] bridge's
    declarations; the texts of the build script's panics (their causes are values of [Refusal]);
    the generated and native-language halves of the bindings (Kotlin, Python, JavaScript); tests,
    the short examples and the criterion benchmark, which call the crate and decide nothing; the
    paragraph the places benchmark prints last. The blocking client's calls are modelled one at a time, their
    interleaving in [SessionPool]; a poisoned lock is recovered by the sources everywhere, so a
    lock is always granted.

    ** What is left

    No part of the program's own logic; what could still grow are the laws of the parts that are
    given (the engine, the JVM), towards more of their documentation. *)
From Stdlib Require Export ZArith Lia.
From stdpp Require Export gmap strings option base tactics list.

#[export] Set Default Goal Selector "!".
Global Open Scope Z_scope.

(** ** Results: the shape of every fallible call of the sources *)

Inductive result (E A : Type) : Type :=
| Ok (a : A)
| Err (e : E).
Arguments Ok {E A} a.
Arguments Err {E A} e.

Declare Scope emongo_scope.
Delimit Scope emongo_scope with emongo.
Global Open Scope emongo_scope.

(** [let? x := m in k] is the source's [let x = m?; k]. *)
Definition result_bind {E A B : Type} (m : result E A) (k : A → result E B) : result E B :=
  match m with Ok a => k a | Err e => Err e end.
Notation "'let?' x := m 'in' k" := (result_bind m (fun x => k))
  (at level 10, x binder, m at level 100, k at level 200) : emongo_scope.

Definition map_ok {E A B : Type} (f : A → B) (m : result E A) : result E B :=
  match m with Ok a => Ok (f a) | Err e => Err e end.

Definition map_err {E F A : Type} (f : E → F) (m : result E A) : result F A :=
  match m with Ok a => Ok a | Err e => Err (f e) end.

Definition ok_or {E A : Type} (e : E) (o : option A) : result E A :=
  match o with Some a => Ok a | None => Err e end.

Definition result_ok {E A : Type} (m : result E A) : option A :=
  match m with Ok a => Some a | Err _ => None end.

Definition is_ok {E A : Type} (m : result E A) : bool :=
  match m with Ok _ => true | Err _ => false end.

#[export] Instance result_eq_dec {E A} `{EqDecision E, EqDecision A} : EqDecision (result E A).
Proof. solve_decision. Defined.

(** ** Machine integers

    A [u32] is a [Z] in [0 .. 2^32-1]; [+=] and [-=] wrap, as they do in a release build (a
    debug build panics instead: the invariants below show that neither happens). *)

Definition u32_modulus : Z := 2 ^ 32.
Definition u32_max : Z := u32_modulus - 1.
Definition is_u32 (z : Z) : Prop := 0 ≤ z ≤ u32_max.
Definition u32_wrap (z : Z) : Z := z mod u32_modulus.
Definition u32_add (a b : Z) : Z := u32_wrap (a + b).
Definition u32_sub (a b : Z) : Z := u32_wrap (a - b).
Definition saturating_sub (a b : Z) : Z := Z.max 0 (a - b).

Definition i32_min : Z := - 2 ^ 31.
Definition i32_max : Z := 2 ^ 31 - 1.
Definition i64_min : Z := - 2 ^ 63.
Definition i64_max : Z := 2 ^ 63 - 1.
Definition i64_wrap (z : Z) : Z := (z + 2 ^ 63) mod 2 ^ 64 - 2 ^ 63.

#[export] Instance is_u32_dec z : Decision (is_u32 z).
Proof. unfold is_u32; apply _. Defined.

Lemma u32_wrap_id z : is_u32 z → u32_wrap z = z.
Proof. unfold is_u32, u32_wrap, u32_max, u32_modulus. intros. apply Z.mod_small. lia. Qed.

Lemma u32_add_exact a b : is_u32 (a + b) → u32_add a b = a + b.
Proof. apply u32_wrap_id. Qed.

Lemma u32_sub_exact a b : is_u32 (a - b) → u32_sub a b = a - b.
Proof. apply u32_wrap_id. Qed.

Lemma u32_wrap_range z : is_u32 (u32_wrap z).
Proof.
  unfold is_u32, u32_wrap, u32_max.
  assert (0 ≤ z mod u32_modulus < u32_modulus); [|lia].
  apply Z.mod_pos_bound. reflexivity.
Qed.

(** ** Threads as a list of program counters

    A concurrent component is a shared state and a list of threads, a thread being named by its
    position. Replacing one thread's entry is described by one splitting lemma, and everything
    counted or collected over the threads by its lemmas on [++] and [::]. *)

Lemma list_insert_split {A} (l : list A) (i : nat) (x : A) :
  l !! i = Some x →
  ∃ l1 l2, l = l1 ++ x :: l2 ∧ length l1 = i ∧ ∀ y, <[i:=y]> l = l1 ++ y :: l2.
Proof.
  intros H. exists (take i l), (drop (S i) l). split_and!.
  - by rewrite take_drop_middle.
  - apply length_take_le. apply lookup_lt_Some in H. lia.
  - intros y. apply insert_take_drop. by eapply lookup_lt_Some.
Qed.

(** How many elements a test holds of, as the [Z] the counters are kept in. *)
Fixpoint count {A} (f : A → bool) (l : list A) : Z :=
  match l with
  | [] => 0
  | x :: l' => (if f x then 1 else 0) + count f l'
  end.

Lemma count_app {A} (f : A → bool) l1 l2 : count f (l1 ++ l2) = count f l1 + count f l2.
Proof. induction l1 as [|x l1 IH]; simpl; [done|]. rewrite IH. lia. Qed.

Lemma count_nonneg {A} (f : A → bool) l : 0 ≤ count f l.
Proof. induction l as [|x l IH]; simpl; [done|]. destruct (f x); lia. Qed.

Lemma count_pos {A} (f : A → bool) l : 0 < count f l ↔ ∃ x, x ∈ l ∧ f x = true.
Proof.
  induction l as [|y l IH]; simpl; split.
  - lia.
  - intros (x & Hx & _). by apply not_elem_of_nil in Hx.
  - destruct (f y) eqn:E; intros H.
    + exists y. split; [left|done].
    + destruct (proj1 IH) as (x & Hx & Hf); [lia|]. exists x. split; [by right|done].
  - intros (x & Hx & Hf). pose proof (count_nonneg f l).
    apply elem_of_cons in Hx as [->|Hx]; [rewrite Hf; lia|].
    assert (0 < count f l) by (apply IH; eauto). destruct (f y); lia.
Qed.

Lemma count_le_length {A} (f : A → bool) l : count f l ≤ Z.of_nat (length l).
Proof. induction l as [|x l IH]; simpl; [done|]. destruct (f x); lia. Qed.

Lemma count_zero {A} (f : A → bool) l : count f l = 0 ↔ ∀ x, x ∈ l → f x = false.
Proof.
  split.
  - intros H x Hx. destruct (f x) eqn:E; [|done].
    assert (0 < count f l); [|lia]. apply count_pos. eauto.
  - intros H. pose proof (count_nonneg f l).
    destruct (decide (count f l = 0)) as [|Hn]; [done|].
    destruct (proj1 (count_pos f l)) as (x & Hx & Hf); [lia|].
    by rewrite (H x Hx) in Hf.
Qed.

Lemma count_replicate {A} (f : A → bool) n x :
  count f (replicate n x) = if f x then Z.of_nat n else 0.
Proof. induction n as [|n IH]; simpl; [by destruct (f x)|]. rewrite IH. destruct (f x); lia. Qed.

Lemma count_insert {A} (f : A → bool) l (i : nat) x y :
  l !! i = Some x →
  count f (<[i:=y]> l) = count f l + (if f y then 1 else 0) - (if f x then 1 else 0).
Proof.
  intros H. destruct (list_insert_split _ _ _ H) as (l1 & l2 & -> & _ & ->).
  rewrite !count_app. simpl. lia.
Qed.

Lemma count_fmap {A B} (f : B → bool) (g : A → B) l :
  count f (g <$> l) = count (λ x, f (g x)) l.
Proof. induction l as [|x l IH]; csimpl; [done|]. by rewrite IH. Qed.

#[export] Instance count_perm {A} (f : A → bool) : Proper ((≡ₚ) ==> (=)) (count f).
Proof.
  intros l1 l2 H. induction H; simpl; [done|lia..].
Qed.

Lemma count_ext {A} (f g : A → bool) l : (∀ x, x ∈ l → f x = g x) → count f l = count g l.
Proof.
  induction l as [|x l IH]; simpl; intros H; [done|].
  rewrite (H x) by left. rewrite IH; [done|]. intros. apply H. by right.
Qed.

Create HintDb emongo.
Create Rewrite HintDb emongo.
#[export] Hint Rewrite @count_app @omap_app @length_app @fmap_app
  @count_replicate @length_replicate : emongo.
#[export] Hint Resolve count_nonneg u32_wrap_range : emongo.

(** ** Transition systems: an inductive invariant holds of every reachable state *)

Section reachability.
Context {S : Type} (step : S → S → Prop).

Definition reachable (init : S → Prop) (s : S) : Prop := ∃ s0, init s0 ∧ rtc step s0 s.

Definition inductive_invariant (init inv : S → Prop) : Prop :=
  (∀ s, init s → inv s) ∧ (∀ s s', inv s → step s s' → inv s').

Lemma invariant_reachable init inv s :
  inductive_invariant init inv → reachable init s → inv s.
Proof.
  intros [Hinit Hstep] (s0 & H0 & Hrtc). apply Hinit in H0.
  induction Hrtc; eauto.
Qed.

Lemma reachable_init (init : S → Prop) s : init s → reachable init s.
Proof. intros. exists s. split; [done|apply rtc_refl]. Qed.

Lemma reachable_step init s s' : reachable init s → step s s' → reachable init s'.
Proof. intros (s0 & H0 & Hr) Hs. exists s0. split; [done|]. by eapply rtc_r. Qed.
End reachability.

(** ** The development's tactics *)

(** Replaces a thread lookup by the splitting of the thread list around that thread. *)
Ltac split_thread H :=
  let l1 := fresh "before" in let l2 := fresh "after" in
  let E := fresh "Eq" in let Hins := fresh "Hins" in let Hlen := fresh "Hlen" in
  destruct (list_insert_split _ _ _ H) as (l1 & l2 & E & Hlen & Hins);
  clear H; rewrite ?Hins in *; clear Hins Hlen; subst.

(** Case analysis on the boolean and option tests a goal or a hypothesis branches on. *)
Ltac case_tests :=
  repeat (case_match; simplify_eq/=).

(** Drives the counts over a split thread list to [lia]. *)
Ltac solve_counts := autorewrite with emongo in *; simpl in *; lia.
