(* ===== verification/EngineOptions.v ===== *)
(** * The storage limits fixed while WiredTiger is being opened

    [embedded-mongodb-sys/src/options.rs]: the range check every limit of the workspace goes
    through, the three limits of the native library, the builder that collects them and the
    struct they cross the FFI in. A Rust newtype over [u32] is a record with one [Z] field; the
    well-formedness predicates below are what its checked constructor establishes. *)
From stdpp Require Import pretty.
From S2P Require Import Prelude.

(** ** The range check *)

Record OutOfRange := mkOutOfRange {
  oor_name : string;
  oor_unit : string;
  oor_value : Z;
  oor_low : Z;
  oor_high : Z;
}.

Definition check_range (name unit : string) (value low high : Z) : result OutOfRange Z :=
  if (low <=? value) && (value <=? high) then Ok value
  else Err (mkOutOfRange name unit value low high).

(** [#[error("{name} must be between {low} and {high} {unit}, got {value}")]] *)
Definition OutOfRange_to_string (e : OutOfRange) : string :=
  oor_name e +:+ " must be between " +:+ pretty (oor_low e) +:+ " and " +:+ pretty (oor_high e)
    +:+ " " +:+ oor_unit e +:+ ", got " +:+ pretty (oor_value e).

(** ** The three limits *)

Record CacheSize := mkCacheSize { CacheSize_mebibytes : Z }.
Record JournalFileSize := mkJournalFileSize { JournalFileSize_kibibytes : Z }.
Inductive Preallocation := Enabled | Disabled.

Definition CacheSize_MIN_MEBIBYTES : Z := 1.
Definition CacheSize_MAX_MEBIBYTES : Z := 10000000.
Definition JournalFileSize_MIN_KIBIBYTES : Z := 100.
Definition JournalFileSize_MAX_KIBIBYTES : Z := 2 * 1024 * 1024.

Definition CacheSize_from_mebibytes (mebibytes : Z) : result OutOfRange CacheSize :=
  map_ok mkCacheSize
    (check_range "cache size" "MiB" mebibytes CacheSize_MIN_MEBIBYTES CacheSize_MAX_MEBIBYTES).

Definition JournalFileSize_from_kibibytes (kibibytes : Z) : result OutOfRange JournalFileSize :=
  map_ok mkJournalFileSize
    (check_range "journal file size" "KiB" kibibytes
       JournalFileSize_MIN_KIBIBYTES JournalFileSize_MAX_KIBIBYTES).

Definition Preallocation_native (p : Preallocation) : Z :=
  match p with Enabled => 1 | Disabled => 2 end.

(** ** The builder *)

Record EngineOptions := mkEngineOptions {
  eo_cache : option CacheSize;
  eo_journal_file_size : option JournalFileSize;
  eo_journal_preallocation : option Preallocation;
}.

Definition EngineOptions_new : EngineOptions := mkEngineOptions None None None.

Definition EngineOptions_cache_size (o : EngineOptions) (cache : CacheSize) : EngineOptions :=
  mkEngineOptions (Some cache) (eo_journal_file_size o) (eo_journal_preallocation o).

Definition EngineOptions_journal_file_size (o : EngineOptions) (size : JournalFileSize)
    : EngineOptions :=
  mkEngineOptions (eo_cache o) (Some size) (eo_journal_preallocation o).

Definition EngineOptions_journal_preallocation (o : EngineOptions) (p : Preallocation)
    : EngineOptions :=
  mkEngineOptions (eo_cache o) (eo_journal_file_size o) (Some p).

(** ** The FFI struct, where zero is "the engine's default" in every field *)

Record NativeOpenOptions := mkNativeOpenOptions {
  cache_size_mb : Z;
  journal_file_max_kb : Z;
  journal_prealloc : Z;
}.

Definition map_or {A B : Type} (d : B) (f : A → B) (o : option A) : B :=
  match o with Some a => f a | None => d end.

Definition to_ffi (o : EngineOptions) : NativeOpenOptions :=
  mkNativeOpenOptions
    (map_or 0 CacheSize_mebibytes (eo_cache o))
    (map_or 0 JournalFileSize_kibibytes (eo_journal_file_size o))
    (map_or 0 Preallocation_native (eo_journal_preallocation o)).

(** ** What the checked constructors establish *)

Definition CacheSize_wf (c : CacheSize) : Prop :=
  CacheSize_MIN_MEBIBYTES ≤ CacheSize_mebibytes c ≤ CacheSize_MAX_MEBIBYTES.
Definition JournalFileSize_wf (j : JournalFileSize) : Prop :=
  JournalFileSize_MIN_KIBIBYTES ≤ JournalFileSize_kibibytes j ≤ JournalFileSize_MAX_KIBIBYTES.

Definition EngineOptions_wf (o : EngineOptions) : Prop :=
  (∀ c, eo_cache o = Some c → CacheSize_wf c) ∧
  (∀ j, eo_journal_file_size o = Some j → JournalFileSize_wf j).

#[export] Instance Preallocation_eq_dec : EqDecision Preallocation.
Proof. solve_decision. Defined.
#[export] Instance CacheSize_eq_dec : EqDecision CacheSize.
Proof. solve_decision. Defined.
#[export] Instance JournalFileSize_eq_dec : EqDecision JournalFileSize.
Proof. solve_decision. Defined.
#[export] Instance EngineOptions_eq_dec : EqDecision EngineOptions.
Proof. solve_decision. Defined.
#[export] Instance OutOfRange_eq_dec : EqDecision OutOfRange.
Proof. solve_decision. Defined.

Lemma check_range_ok name unit value low high :
  low ≤ value ≤ high → check_range name unit value low high = Ok value.
Proof.
  intros [H1 H2]. unfold check_range. apply Z.leb_le in H1, H2. by rewrite H1, H2.
Qed.

Lemma check_range_err name unit value low high :
  ¬ low ≤ value ≤ high →
  check_range name unit value low high = Err (mkOutOfRange name unit value low high).
Proof.
  intros H. unfold check_range.
  destruct (low <=? value) eqn:E1, (value <=? high) eqn:E2; try done.
  apply Z.leb_le in E1, E2. lia.
Qed.

Lemma check_range_inv name unit value low high v :
  check_range name unit value low high = Ok v → v = value ∧ low ≤ value ≤ high.
Proof.
  intros H. destruct (decide (low ≤ value ≤ high)) as [Hd|Hd].
  - rewrite check_range_ok in H by done. by simplify_eq.
  - by rewrite check_range_err in H.
Qed.
#[export] Hint Resolve check_range_ok check_range_err : emongo.

Lemma CacheSize_from_wf m c : CacheSize_from_mebibytes m = Ok c → CacheSize_wf c.
Proof.
  unfold CacheSize_from_mebibytes, CacheSize_wf.
  destruct (check_range _ _ _ _ _) as [v|] eqn:E; simpl; intros; simplify_eq/=.
  apply check_range_inv in E as [-> E]. done.
Qed.

Lemma JournalFileSize_from_wf k j : JournalFileSize_from_kibibytes k = Ok j → JournalFileSize_wf j.
Proof.
  unfold JournalFileSize_from_kibibytes, JournalFileSize_wf.
  destruct (check_range _ _ _ _ _) as [v|] eqn:E; simpl; intros; simplify_eq/=.
  apply check_range_inv in E as [-> E]. done.
Qed.

(** The reading the native side documents: zero is unset, anything else is the value asked for. *)
Definition from_ffi (n : NativeOpenOptions) : option EngineOptions :=
  let unset z := z =? 0 in
  match journal_prealloc n with
  | 0 => Some None
  | 1 => Some (Some Enabled)
  | 2 => Some (Some Disabled)
  | _ => None
  end ≫= λ p,
  Some (mkEngineOptions
          (if unset (cache_size_mb n) then None else Some (mkCacheSize (cache_size_mb n)))
          (if unset (journal_file_max_kb n) then None
           else Some (mkJournalFileSize (journal_file_max_kb n)))
          p).

(** The zero that stands for an unset option in the native struct is never a value an
    option can have: the options can be read back from what crosses the FFI. *)
Theorem to_ffi_roundtrip (o : EngineOptions) :
  EngineOptions_wf o → from_ffi (to_ffi o) = Some o.
Proof.
  destruct o as [[[c]|] [[j]|] [[]|]]; intros [Hc Hj]; simpl in *;
    unfold from_ffi, to_ffi; simpl;
    try (specialize (Hc _ eq_refl); unfold CacheSize_wf, CacheSize_MIN_MEBIBYTES in Hc; simpl in Hc);
    try (specialize (Hj _ eq_refl);
         unfold JournalFileSize_wf, JournalFileSize_MIN_KIBIBYTES in Hj; simpl in Hj);
    repeat (rewrite (proj2 (Z.eqb_neq _ _)) by lia); done.
Qed.

Lemma to_ffi_roundtrip_witness :
  from_ffi (to_ffi (mkEngineOptions (Some (mkCacheSize 48)) None (Some Disabled)))
  = Some (mkEngineOptions (Some (mkCacheSize 48)) None (Some Disabled)).
Proof.
  apply to_ffi_roundtrip. split; simpl; intros ? [= <-]; vm_compute; split; discriminate.
Defined.
