(* ===== verification/Options.v ===== *)
(** * What an open can be told: the concurrency policy and the options object

    [src/options.rs]. A [Duration] is a count of nanoseconds; [as_millis] is the division the
    standard library documents, and the conversion to [u32] saturates as the source's does. *)
From S2P Require Import Prelude EngineOptions.

(** ** The concurrency policy *)

Record Concurrency := mkConcurrency {
  conc_min : Z;
  conc_max : Z;
  conc_idle_timeout : option Z; (* nanoseconds *)
}.

Definition MIN_COUNT : Z := 1.
Definition MAX_COUNT : Z := 256.
Definition DEFAULT_COUNT : Z := 8.

Definition preallocated (count : Z) : Concurrency := mkConcurrency count count None.

Definition Concurrency_DEFAULT : Concurrency := preallocated DEFAULT_COUNT.

Definition from_count (count : Z) : result OutOfRange Concurrency :=
  map_ok preallocated (check_range "concurrency" "sessions" count MIN_COUNT MAX_COUNT).

Definition as_millis (duration : Z) : Z := duration / 1000000.

(** [u32::try_from(millis).unwrap_or(u32::MAX)] *)
Definition u32_saturated (z : Z) : Z := if decide (is_u32 z) then z else u32_max.

Definition dynamic (min max idle_timeout : Z) : result OutOfRange Concurrency :=
  let? max := check_range "maximum concurrency" "sessions" max MIN_COUNT MAX_COUNT in
  let? min := check_range "minimum concurrency" "sessions" min MIN_COUNT max in
  let millis := u32_saturated (as_millis idle_timeout) in
  let? _ := check_range "idle timeout" "milliseconds" millis 1 u32_max in
  if min =? max then Ok (preallocated min)
  else Ok (mkConcurrency min max (Some idle_timeout)).

(** ** The options object *)

Record FreeDiskFloor := mkFreeDiskFloor { floor_mebibytes : Z }.

Record OpenOptions := mkOpenOptions {
  oo_engine : EngineOptions;
  oo_free_disk_floor : option FreeDiskFloor;
  oo_concurrency : option Concurrency;
}.

Definition OpenOptions_new : OpenOptions := mkOpenOptions EngineOptions_new None None.

Definition OpenOptions_cache_size (o : OpenOptions) (cache : CacheSize) : OpenOptions :=
  mkOpenOptions (EngineOptions_cache_size (oo_engine o) cache)
    (oo_free_disk_floor o) (oo_concurrency o).

Definition OpenOptions_journal_file_size (o : OpenOptions) (size : JournalFileSize) : OpenOptions :=
  mkOpenOptions (EngineOptions_journal_file_size (oo_engine o) size)
    (oo_free_disk_floor o) (oo_concurrency o).

Definition OpenOptions_journal_preallocation (o : OpenOptions) (p : Preallocation) : OpenOptions :=
  mkOpenOptions (EngineOptions_journal_preallocation (oo_engine o) p)
    (oo_free_disk_floor o) (oo_concurrency o).

Definition OpenOptions_free_disk_floor (o : OpenOptions) (floor : FreeDiskFloor) : OpenOptions :=
  mkOpenOptions (oo_engine o) (Some floor) (oo_concurrency o).

Definition OpenOptions_concurrency (o : OpenOptions) (c : Concurrency) : OpenOptions :=
  mkOpenOptions (oo_engine o) (oo_free_disk_floor o) (Some c).

Definition resolve_concurrency (options : option OpenOptions) : Concurrency :=
  default Concurrency_DEFAULT (options ≫= oo_concurrency).

#[export] Instance Concurrency_eq_dec : EqDecision Concurrency.
Proof. solve_decision. Defined.
#[export] Instance FreeDiskFloor_eq_dec : EqDecision FreeDiskFloor.
Proof. solve_decision. Defined.
#[export] Instance OpenOptions_eq_dec : EqDecision OpenOptions.
Proof. solve_decision. Defined.

(** ** The policy's invariant

    What the session pool, its reaper and the async workers rely on: at least one session, a
    floor below a ceiling of at most 256, and a timeout exactly where there is room between the
    two -- a timeout long enough that the reaper's wait cannot be zero. *)
Definition Concurrency_wf (c : Concurrency) : Prop :=
  MIN_COUNT ≤ conc_min c ≤ conc_max c ∧ conc_max c ≤ MAX_COUNT ∧
  match conc_idle_timeout c with
  | None => conc_min c = conc_max c
  | Some t => conc_min c < conc_max c ∧ 1000000 ≤ t
  end.

(** A policy no constructor was asked to build a timed pool with has a non-negative timeout:
    a [Duration] cannot be negative. *)
Definition is_duration (t : Z) : Prop := 0 ≤ t.

Lemma preallocated_wf n : MIN_COUNT ≤ n ≤ MAX_COUNT → Concurrency_wf (preallocated n).
Proof. intros ?. unfold Concurrency_wf, preallocated; simpl. lia. Qed.

Lemma from_count_spec n :
  from_count n =
    if decide (MIN_COUNT ≤ n ≤ MAX_COUNT) then Ok (preallocated n)
    else Err (mkOutOfRange "concurrency" "sessions" n MIN_COUNT MAX_COUNT).
Proof.
  unfold from_count. case_decide.
  - by rewrite check_range_ok.
  - by rewrite check_range_err.
Qed.

Lemma u32_saturated_pos t :
  is_duration t → 1 ≤ u32_saturated (as_millis t) ≤ u32_max ↔ 1000000 ≤ t.
Proof.
  unfold is_duration, u32_saturated, as_millis. intros Ht. case_decide as Hu.
  - unfold is_u32 in Hu. split.
    + intros [H _]. destruct (decide (1000000 ≤ t)) as [|Hn]; [done|].
      rewrite Z.div_small in H; lia.
    + intros H. split; [|apply Hu]. apply Z.div_le_lower_bound; lia.
  - assert (0 ≤ t / 1000000) by (apply Z.div_pos; lia).
    assert (u32_max < t / 1000000) as Hbig.
    { destruct (decide (t / 1000000 ≤ u32_max)); [exfalso; apply Hu; split; lia|lia]. }
    split; intros _; [|unfold u32_max, u32_modulus in *; lia].
    pose proof (Z.mul_div_le t 1000000 ltac:(lia)).
    unfold u32_max, u32_modulus in *. lia.
Qed.

Lemma dynamic_spec min max t :
  is_duration t →
  dynamic min max t =
    if decide (MIN_COUNT ≤ max ≤ MAX_COUNT) then
      if decide (MIN_COUNT ≤ min ≤ max) then
        if decide (1000000 ≤ t) then
          Ok (if min =? max then preallocated min else mkConcurrency min max (Some t))
        else Err (mkOutOfRange "idle timeout" "milliseconds"
                    (u32_saturated (as_millis t)) 1 u32_max)
      else Err (mkOutOfRange "minimum concurrency" "sessions" min MIN_COUNT max)
    else Err (mkOutOfRange "maximum concurrency" "sessions" max MIN_COUNT MAX_COUNT).
Proof.
  intros Ht. unfold dynamic. case_decide; [|by rewrite check_range_err].
  rewrite check_range_ok by done. simpl. case_decide; [|by rewrite check_range_err].
  rewrite check_range_ok by done. simpl. pose proof (u32_saturated_pos t Ht).
  case_decide.
  - rewrite check_range_ok by tauto. simpl. by destruct (min =? max).
  - by rewrite check_range_err by tauto.
Qed.

(** C18. Every policy the constructors answer has a floor of at least one, a ceiling of at most
    256 and a timeout exactly when there is room between them. *)
Theorem concurrency_constructors_wf (c : Concurrency) (n min max t : Z) :
  is_duration t →
  (from_count n = Ok c ∨ dynamic min max t = Ok c ∨ Concurrency_DEFAULT = c) →
  Concurrency_wf c.
Proof.
  intros Ht [H|[H|<-]].
  - rewrite from_count_spec in H. case_decide; simplify_eq. by apply preallocated_wf.
  - rewrite dynamic_spec in H by done. repeat case_decide; simplify_eq.
    destruct (Z.eqb_spec min max); simplify_eq.
    + apply preallocated_wf. unfold MIN_COUNT, MAX_COUNT in *. lia.
    + unfold Concurrency_wf; simpl. unfold MIN_COUNT, MAX_COUNT in *. lia.
  - apply preallocated_wf. unfold MIN_COUNT, MAX_COUNT, DEFAULT_COUNT. lia.
Qed.

Lemma concurrency_constructors_wf_witness :
  Concurrency_wf (mkConcurrency 2 16 (Some 60000000000)).
Proof.
  apply (concurrency_constructors_wf _ 3 2 16 60000000000); [by vm_compute|].
  right; left. vm_compute. reflexivity.
Defined.

(** An elastic policy is accepted exactly when the floor is at least one and at most the
    ceiling, the ceiling at most 256 and the timeout at least a millisecond. *)
Theorem dynamic_accepts_exactly (min max t : Z) :
  is_duration t →
  (∃ c, dynamic min max t = Ok c) ↔
  MIN_COUNT ≤ min ≤ max ∧ max ≤ MAX_COUNT ∧ 1000000 ≤ t.
Proof.
  intros Ht. rewrite dynamic_spec by done. unfold MIN_COUNT, MAX_COUNT.
  repeat case_decide; split; try (intros [c Hc]; simplify_eq); try lia; eauto.
Qed.

Lemma dynamic_accepts_exactly_witness : ∃ c, dynamic 1 8 1000000 = Ok c.
Proof. apply dynamic_accepts_exactly; vm_compute; repeat split; discriminate. Defined.

(** An open always resolves to a usable policy, whatever options it was given, as long as the
    policy inside them came from a constructor. *)
Lemma resolve_concurrency_wf (o : option OpenOptions) :
  (∀ o' c, o = Some o' → oo_concurrency o' = Some c → Concurrency_wf c) →
  Concurrency_wf (resolve_concurrency o).
Proof.
  intros H. unfold resolve_concurrency. destruct o as [o'|]; simpl.
  - destruct (oo_concurrency o') as [c|] eqn:E; simpl; [by eapply H|].
    by apply preallocated_wf.
  - by apply preallocated_wf.
Qed.

Example a_floor_above_its_ceiling_names_the_floor :
  map_err OutOfRange_to_string (dynamic 9 8 60000000000)
  = Err "minimum concurrency must be between 1 and 8 sessions, got 9".
Proof. reflexivity. Qed.
