(* ===== verification/Slot.v ===== *)
(** * The interrupt that lets a caller stop the command it started

    [src/pool/slot.rs]. A slot is a four-state machine behind one mutex, so each operation is
    one atomic step; the interrupt a running command can be stopped with is an abstract value
    [I], and [cancel] answers the interrupt it fired, if any. *)
From S2P Require Import Prelude.

Inductive Slot (I : Type) : Type :=
| Waiting
| Running (interrupt : I)
| Finished
| Cancelled.
Arguments Waiting {I}.
Arguments Running {I} interrupt.
Arguments Finished {I}.
Arguments Cancelled {I}.

#[export] Instance Slot_eq_dec {I} `{EqDecision I} : EqDecision (Slot I).
Proof. solve_decision. Defined.

Section slot.
Context {I : Type}.
Implicit Types (s : Slot I).

Definition CommandSlot_new : Slot I := Waiting.

(** Interrupts the command, if one is running, and refuses it a session otherwise. *)
Definition cancel s : option I * Slot I :=
  match s with
  | Running interrupt => (Some interrupt, Cancelled)
  | _ => (None, Cancelled)
  end.

(** Hands the slot the means to interrupt; [false] once it has been cancelled. *)
Definition start (interrupt : I) s : bool * Slot I :=
  match s with
  | Waiting => (true, Running interrupt)
  | _ => (false, s)
  end.

Definition finish s : Slot I :=
  match s with
  | Running _ => Finished
  | _ => s
  end.

(** [Disarm::drop] *)
Definition Disarm_drop s : Slot I := finish s.
End slot.

(** ** A slot under any interleaving of its three operations *)

Inductive slot_op (I : Type) : Type :=
| OpStart (interrupt : I)
| OpFinish
| OpCancel.
Arguments OpStart {I} interrupt.
Arguments OpFinish {I}.
Arguments OpCancel {I}.

Section trace.
Context {I : Type}.

(** The interrupts fired, in order, by a sequence of operations on one slot. *)
Fixpoint fired (ops : list (slot_op I)) (s : Slot I) : list I :=
  match ops with
  | [] => []
  | OpStart i :: ops' => fired ops' (snd (start i s))
  | OpFinish :: ops' => fired ops' (Disarm_drop s)
  | OpCancel :: ops' =>
      match cancel s with
      | (Some i, s') => i :: fired ops' s'
      | (None, s') => fired ops' s'
      end
  end.

(** What the interrupt is specified to do: fire once, for the first command to be armed, when a
    cancel arrives after that arming and before the command gave its interrupt up. *)
Definition interrupted_while_armed (ops : list (slot_op I)) (i : I) : Prop :=
  ∃ queued running rest,
    ops = queued ++ OpStart i :: running ++ OpCancel :: rest ∧
    Forall (fun op => op = OpFinish) queued ∧
    Forall (fun op => ∃ j, op = OpStart j) running.

Lemma fired_spent ops s : s = Finished ∨ s = Cancelled → fired ops s = [].
Proof.
  revert s. induction ops as [|[i| |] ops IH]; intros s Hs; [done|..];
    destruct Hs as [->| ->]; simpl; auto.
Qed.

Lemma fired_running ops i j :
  fired ops (Running i) = [j] ↔
  i = j ∧ ∃ running rest, ops = running ++ OpCancel :: rest ∧
                          Forall (fun op => ∃ k, op = OpStart k) running.
Proof.
  induction ops as [|[k| |] ops IH]; simpl.
  - split; [done|]. intros (_ & [|] & ? & ? & _); simplify_eq/=.
  - rewrite IH. split.
    + intros (-> & running & rest & -> & H). split; [done|].
      exists (OpStart k :: running), rest. split; [done|]. constructor; eauto.
    + intros (-> & running & rest & Heq & H). split; [done|].
      destruct running as [|x running]; simplify_eq/=. inversion H; subst. eauto.
  - rewrite fired_spent by auto. split; [done|].
    intros (_ & running & rest & Heq & H). destruct running as [|x running]; simplify_eq/=.
    by apply Forall_cons in H as [(? & ?) _].
  - rewrite fired_spent by auto. split.
    + intros [= ->]. split; [done|]. by exists [], ops.
    + by intros (-> & _).
Qed.

Lemma fired_running_cases ops i :
  fired ops (Running i) = [] ∨ fired ops (Running i) = [i].
Proof.
  induction ops as [|[k| |] ops IH]; simpl; auto; rewrite fired_spent; auto.
Qed.

Lemma fired_waiting ops j :
  fired ops Waiting = [j] ↔ interrupted_while_armed ops j.
Proof.
  unfold interrupted_while_armed.
  induction ops as [|[k| |] ops IH]; simpl.
  - split; [done|]. intros ([|] & ? & ? & ? & _); simplify_eq/=.
  - rewrite fired_running. split.
    + intros (-> & running & rest & -> & H). by exists [], running, rest.
    + intros (queued & running & rest & Heq & Hq & Hr).
      destruct queued as [|x queued]; simplify_eq/=; [by eauto 6|].
      by apply Forall_cons in Hq as [? _].
  - rewrite IH. split.
    + intros (queued & running & rest & -> & Hq & Hr).
      exists (OpFinish :: queued), running, rest. split_and!; [done| |done]. by constructor.
    + intros (queued & running & rest & Heq & Hq & Hr).
      destruct queued as [|x queued]; simplify_eq/=. apply Forall_cons in Hq as [_ Hq]. eauto 6.
  - rewrite fired_spent by auto. split; [done|].
    intros (queued & running & rest & Heq & Hq & Hr).
    destruct queued as [|x queued]; simplify_eq/=. by apply Forall_cons in Hq as [? _].
Qed.

(** Over every sequence of start, finish and cancel, an interrupt fires exactly when a
    cancel arrives while that interrupt is armed, and at most once. *)
Theorem slot_fires_exactly_when_armed (ops : list (slot_op I)) :
  (length (fired ops CommandSlot_new) ≤ 1)%nat ∧
  ∀ i, i ∈ fired ops CommandSlot_new ↔ interrupted_while_armed ops i.
Proof.
  unfold CommandSlot_new.
  assert (fired ops Waiting = [] ∨ ∃ i, fired ops Waiting = [i]) as Hc.
  { induction ops as [|[k| |] ops IH]; simpl; auto.
    - destruct (fired_running_cases ops k); eauto.
    - rewrite fired_spent; auto. }
  split.
  - destruct Hc as [->|[i ->]]; simpl; lia.
  - intros i. rewrite <- fired_waiting. destruct Hc as [Hn|[j Hj]].
    + rewrite Hn. split; [by intros ?%not_elem_of_nil|done].
    + rewrite Hj, list_elem_of_singleton. split; [by intros ->|by intros [= ->]].
Qed.
End trace.
