(* ===== verification/Reaper.v ===== *)
(** * Which sessions are free, since when, and which of them are closed

    [src/pool/reaper.rs]: the bookkeeping the session pool keeps under its mutex and the
    decisions the reaper thread makes about it. An [Instant] is a point on a monotonic clock,
    in nanoseconds; a [Duration] a count of them. The session type is abstract, as it is in the
    source. *)
From Stdlib Require Import Sorted.
From S2P Require Import Prelude.

Record Idle (S : Type) := mkIdle { idle_session : S; idle_since : Z }.
Arguments mkIdle {S} _ _.
Arguments idle_session {S} _.
Arguments idle_since {S} _.

Record State (S : Type) := mkState {
  idle : list (Idle S);   (* least recently used first *)
  open : Z;               (* u32: idle, checked out, reserved or being destroyed *)
  closing : bool;
}.
Arguments mkState {S} _ _ _.
Arguments idle {S} _.
Arguments open {S} _.
Arguments closing {S} _.

Section reaper.
Context {S : Type}.
Implicit Types (st : State S) (entry : Idle S).

Definition Idle_taken (session : S) (now : Z) : Idle S := mkIdle session now.

(** [Idles::new]: every session idle since the moment the pool was opened. *)
Definition Idles_new (sessions : list S) (open : Z) (now : Z) : State S :=
  mkState ((fun s => Idle_taken s now) <$> sessions) open false.

(** [Idles::give_back], less the wakeup: the entry is stamped with the lock already held. *)
Definition give_back (session : S) (now : Z) st : State S :=
  mkState (idle st ++ [Idle_taken session now]) (open st) (closing st).

(** [Idles::stop_reaping], less the wakeup. *)
Definition stop_reaping st : State S := mkState (idle st) (open st) true.

(** [State::take]: [Vec::pop], the most recently returned session. *)
Definition State_take st : option S * State S :=
  match last (idle st) with
  | Some entry =>
      (Some (idle_session entry),
       mkState (take (length (idle st) - 1) (idle st)) (open st) (closing st))
  | None => (None, st)
  end.

Definition saturating_duration_since (now since : Z) : Z := saturating_sub now since.

(** The body of [State::reap]'s loop, over what is left of the idle list. Answers the sessions
    expired, the entries kept and the wait. *)
Fixpoint reap_loop (timeout now spare wait : Z) (entries : list (Idle S))
    : list S * list (Idle S) * Z :=
  match entries with
  | [] => ([], [], wait)
  | entry :: rest =>
      let waited := saturating_duration_since now (idle_since entry) in
      if (0 <? spare) && (timeout <=? waited) then
        let '(expired, kept, wait') := reap_loop timeout now (spare - 1) wait rest in
        (idle_session entry :: expired, kept, wait')
      else
        let wait := if 0 <? spare then Z.min wait (timeout - waited) else wait in
        let '(expired, kept, wait') := reap_loop timeout now spare wait rest in
        (expired, entry :: kept, wait')
  end.

Definition State_reap (min timeout now : Z) st : list S * Z * State S :=
  let spare := saturating_sub (open st) min in
  if (spare =? 0) || (match idle st with [] => true | _ => false end)
  then ([], timeout, st)
  else
    let '(expired, kept, wait) := reap_loop timeout now spare timeout (idle st) in
    (expired, wait, mkState kept (open st) (closing st)).

(** [State::closed]: counts sessions the reaper has finished destroying. *)
Definition State_closed (sessions : Z) st : State S :=
  mkState (idle st) (u32_sub (open st) sessions) (closing st).

(** ** Bookkeeping lemmas *)

(** Oldest return first: what [take]'s LIFO and the stamps keep true. *)
Definition lru_sorted (entries : list (Idle S)) : Prop :=
  StronglySorted (fun a b => idle_since a ≤ idle_since b) entries.

Lemma State_take_Some st s st' :
  State_take st = (Some s, st') →
  ∃ e, idle st = idle st' ++ [e] ∧ idle_session e = s ∧
       open st' = open st ∧ closing st' = closing st.
Proof.
  unfold State_take. destruct (last (idle st)) as [e|] eqn:E; [|done].
  intros H. simplify_eq/=. exists e. split_and!; try done.
  apply last_Some in E as [l ->]. rewrite length_app; simpl.
  replace (length l + 1 - 1)%nat with (length l) by lia. by rewrite take_app_length.
Qed.

Lemma State_take_None st st' : State_take st = (None, st') → idle st = [] ∧ st' = st.
Proof.
  unfold State_take. destruct (last (idle st)) eqn:E; [done|].
  intros [= <-]. by apply last_None in E.
Qed.

(** The loop splits the list it walks, keeping both orders. *)
Lemma reap_loop_length timeout now spare wait l expired kept wait' :
  reap_loop timeout now spare wait l = (expired, kept, wait') →
  (length expired + length kept = length l)%nat ∧
  Z.of_nat (length expired) ≤ Z.max 0 spare ∧
  idle_session <$> l ≡ₚ expired ++ (idle_session <$> kept).
Proof.
  revert spare wait expired kept wait'.
  induction l as [|e l IH]; simpl; intros spare wait expired kept wait' H;
    [simplify_eq/=; split_and!; [done|lia|done]|].
  destruct ((0 <? spare) && (timeout <=? _)) eqn:Hc.
  - apply andb_prop in Hc as [H0%Z.ltb_lt _].
    destruct (reap_loop timeout now (spare - 1) wait l) as [[ex kp] w] eqn:E.
    simplify_eq/=. apply IH in E as (? & ? & Hp). split_and!; [lia|lia|].
    by apply perm_skip.
  - destruct (reap_loop timeout now spare _ l) as [[ex kp] w] eqn:E.
    simplify_eq/=. apply IH in E as (? & ? & Hp). split_and!; [lia|lia|].
    rewrite Hp. by rewrite Permutation_middle.
Qed.

Lemma reap_loop_sub timeout now spare wait l expired kept wait' :
  reap_loop timeout now spare wait l = (expired, kept, wait') → kept `sublist_of` l.
Proof.
  revert spare wait expired kept wait'.
  induction l as [|e l IH]; simpl; intros spare wait expired kept wait' H; [by simplify_eq/=|].
  destruct ((0 <? spare) && (timeout <=? _)) eqn:Hc.
  - destruct (reap_loop timeout now (spare - 1) wait l) as [[ex kp] w] eqn:E.
    simplify_eq/=. apply sublist_cons. eauto.
  - destruct (reap_loop timeout now spare _ l) as [[ex kp] w] eqn:E.
    simplify_eq/=. apply sublist_skip. eauto.
Qed.

(** The wait the loop answers is positive and reaches the next entry to come due. *)
Lemma reap_loop_wait timeout now spare wait l expired kept wait' :
  0 < wait ≤ timeout →
  reap_loop timeout now spare wait l = (expired, kept, wait') →
  0 < wait' ≤ wait ∧
  (Z.of_nat (length expired) < spare →
   Forall (fun e => wait' ≤ timeout - saturating_duration_since now (idle_since e)) kept).
Proof.
  revert spare wait expired kept wait'.
  induction l as [|e l IH]; simpl; intros spare wait expired kept wait' Hw H; 
    [simplify_eq/=; split; [lia|constructor]|].
  set (waited := saturating_duration_since now (idle_since e)) in *.
  destruct ((0 <? spare) && (timeout <=? waited)) eqn:Hc.
  - destruct (reap_loop timeout now (spare - 1) wait l) as [[ex kp] w] eqn:E.
    simplify_eq/=. apply IH in E as [? HF]; [|done]. split; [done|].
    intros. apply HF. lia.
  - destruct (reap_loop timeout now spare _ l) as [[ex kp] w] eqn:E.
    simplify_eq/=. destruct (0 <? spare) eqn:Hs; simpl in Hc.
    + apply Z.leb_gt in Hc. apply IH in E as [? HF]; [|lia].
      split; [lia|]. intros Hl. specialize (HF Hl). constructor; [|done]. fold waited. lia.
    + apply Z.ltb_ge in Hs. apply IH in E as [? HF]; [|done]. split; [done|].
      intros. pose proof (Zle_0_nat (length expired)). lia.
Qed.

(** On a list ordered by age, what expires is a prefix: the longest one the floor can spare and
    the timeout condemns. *)
Lemma reap_loop_prefix timeout now spare wait l expired kept wait' :
  lru_sorted l →
  reap_loop timeout now spare wait l = (expired, kept, wait') →
  idle_session <$> take (length expired) l = expired ∧ kept = drop (length expired) l ∧
  Forall (fun e => timeout ≤ saturating_duration_since now (idle_since e)) (take (length expired) l) ∧
  (Z.of_nat (length expired) < spare →
   Forall (fun e => saturating_duration_since now (idle_since e) < timeout) kept).
Proof.
  revert spare wait expired kept wait'.
  induction l as [|e l IH]; simpl; intros spare wait expired kept wait' Hsort H;
    [simplify_eq/=; split_and!; constructor|].
  inversion Hsort as [|? ? Hsort' Hall]; subst.
  destruct ((0 <? spare) && (timeout <=? _)) eqn:Hc.
  - destruct (reap_loop timeout now (spare - 1) wait l) as [[ex kp] w] eqn:E.
    apply andb_prop in Hc as [_ Hc%Z.leb_le].
    simplify_eq/=. apply IH in E as (H1 & H2 & H3 & H4); [|done].
    split_and!; [by rewrite H1|done|by constructor|]. intros. apply H4. lia.
  - destruct (reap_loop timeout now spare _ l) as [[ex kp] w] eqn:E.
    simplify_eq/=. pose proof E as E'. apply IH in E' as (H1 & H2 & H3 & H4); [|done].
    destruct expired as [|x expired]; simpl.
    + rewrite H2, drop_0 in *. split_and!; [done|done|constructor|].
      intros Hs. rewrite (proj2 (Z.ltb_lt 0 spare) Hs) in Hc. simpl in Hc.
      apply Z.leb_gt in Hc. constructor; [done|]. by apply H4.
    + exfalso. apply reap_loop_length in E as (_ & Hsp & _). simpl in Hsp.
      destruct l as [|e' l]; [done|]. simpl in H3. apply Forall_cons in H3 as [H3 _].
      apply Forall_cons in Hall as [Hall _].
      assert (0 < spare) as Hs by lia. apply Z.ltb_lt in Hs. rewrite Hs in Hc. simpl in Hc.
      apply Z.leb_gt in Hc. unfold saturating_duration_since, saturating_sub in *. lia.
Qed.
End reaper.

(** ** What one reaping does *)

Section reap_properties.
Context {S : Type}.
Implicit Types (st : State S).

Lemma reap_facts
    (min timeout now : Z) (st st' : State S) (expired : list S) (wait : Z) :
  lru_sorted (idle st) → 0 < timeout →
  State_reap min timeout now st = (expired, wait, st') →
  let n := length expired in
  expired = idle_session <$> take n (idle st) ∧ idle st' = drop n (idle st) ∧
  open st' = open st ∧ closing st' = closing st ∧
  (expired ≠ [] → min ≤ open st - Z.of_nat n) ∧
  Forall (fun e => timeout ≤ now - idle_since e) (take n (idle st)) ∧
  (min < open st - Z.of_nat n →
   Forall (fun e => saturating_duration_since now (idle_since e) < timeout) (idle st')).
Proof.
  intros Hsort Ht H n. unfold State_reap in H.
  destruct ((saturating_sub (open st) min =? 0) || _) eqn:Hc.
  - simplify_eq/=. rewrite drop_0. split_and!; try done.
    intros Hsp. apply orb_prop in Hc as [Hc|Hc].
    + apply Z.eqb_eq in Hc. unfold saturating_sub in Hc. simpl in Hsp. lia.
    + destruct (idle st'); [constructor|done].
  - apply orb_false_elim in Hc as [Hs%Z.eqb_neq _].
    destruct (reap_loop _ _ _ _ _) as [[ex kp] w] eqn:E. simplify_eq/=.
    pose proof E as (Hlen & Hle & _)%reap_loop_length.
    apply reap_loop_prefix in E as (H1 & H2 & H3 & H4); [|done].
    unfold saturating_sub in *. split_and!; try done.
    + lia.
    + eapply Forall_impl; [exact H3|]. intros e He.
      unfold saturating_duration_since, saturating_sub in He. lia.
    + intros. apply H4. lia.
Qed.

(** A reap closes a prefix of the idle list: as many of the longest-idle sessions as are
    past the timeout, and never so many that fewer than the minimum stay open. *)
Theorem reap_closes_the_oldest_down_to_the_floor
    (min timeout now : Z) (st st' : State S) (expired : list S) (wait : Z) :
  lru_sorted (idle st) → 0 < timeout →
  State_reap min timeout now st = (expired, wait, st') →
  let n := length expired in
  expired = idle_session <$> take n (idle st) ∧ idle st' = drop n (idle st) ∧
  open st' = open st ∧ closing st' = closing st ∧
  (expired ≠ [] → min ≤ open st - Z.of_nat n) ∧
  Forall (fun e => timeout ≤ now - idle_since e) (take n (idle st)) ∧
  (min < open st - Z.of_nat n →
   Forall (fun e => saturating_duration_since now (idle_since e) < timeout) (idle st')).
Proof. apply reap_facts. Qed.

(** The wait a reap answers is never zero and never past the timeout, and no kept session
    that could be spared comes due before it. *)
Theorem reap_wait_is_positive_and_prompt
    (min timeout now : Z) (st st' : State S) (expired : list S) (wait : Z) :
  0 < timeout →
  State_reap min timeout now st = (expired, wait, st') →
  0 < wait ≤ timeout ∧
  (min < open st - Z.of_nat (length expired) → idle st ≠ [] →
   Forall (fun e => wait ≤ timeout - saturating_duration_since now (idle_since e)) (idle st')).
Proof.
  intros Ht H. unfold State_reap in H.
  destruct ((saturating_sub (open st) min =? 0) || _) eqn:Hc.
  - simplify_eq/=. split; [lia|]. intros Hsp Hne. apply orb_prop in Hc as [Hc|Hc].
    + apply Z.eqb_eq in Hc. unfold saturating_sub in Hc. lia.
    + by destruct (idle st').
  - destruct (reap_loop _ _ _ _ _) as [[ex kp] w] eqn:E. simplify_eq/=.
    apply reap_loop_wait in E as [? HF]; [|lia]. split; [done|].
    intros. apply HF. unfold saturating_sub in *. lia.
Qed.
End reap_properties.

Lemma lru_sorted_singleton_witness : lru_sorted [mkIdle 7%nat 0; mkIdle 8%nat 90].
Proof. repeat constructor. simpl. lia. Qed.

Lemma reap_closes_the_oldest_witness :
  let st := mkState [mkIdle 7%nat 0; mkIdle 8%nat 90] 3 false in
  [7%nat] = idle_session <$> take 1 (idle st) ∧ 1 ≤ 3 - 1.
Proof.
  intros st.
  destruct (reap_closes_the_oldest_down_to_the_floor 1 60 100 st
              (mkState [mkIdle 8%nat 90] 3 false) [7%nat] 50) as (H & _ & _ & _ & Hmin & _).
  - exact lru_sorted_singleton_witness.
  - lia.
  - vm_compute. reflexivity.
  - split; [exact H|]. apply Hmin. discriminate.
Defined.

Lemma reap_wait_witness : 0 < 50 ≤ 60.
Proof.
  apply (reap_wait_is_positive_and_prompt (S := nat) 1 60 100
           (mkState [mkIdle 7%nat 0; mkIdle 8%nat 90] 3 false)
           (mkState [mkIdle 8%nat 90] 3 false) [7%nat] 50).
  - lia.
  - vm_compute. reflexivity.
Defined.
