(* ===== verification/SessionPool.v ===== *)
(** * The session pool, driven by any number of threads at once

    [src/pool/sessions.rs] over [src/pool/reaper.rs] and [src/pool/slot.rs].

    The pool's decisions are the functions of the first section, each the body of one critical
    section. The second section runs them: a state is the bookkeeping behind the mutex, the
    callers -- each a program counter and the slot its command can be interrupted through -- and
    the reaper thread; a step is one critical section, one call into the engine or one wakeup.
    Condition variables wake spuriously, [notify_one] wakes some parked caller, and the engine
    may refuse to open a session. Sessions are named by the order the engine opened them in. *)
From Stdlib Require Import Sorted.
From S2P Require Import Prelude EngineOptions Options Slot Reaper.

Abbreviation sid := nat (only parsing).

(** ** The pool's critical sections *)

Section pool.
Context {S E NE : Type}.
(** [NativeClient::open_session] of the engine below. *)
Context (open_session : E → E * result NE S).

(** Dropping a session that was opened. *)
Context (drop_session : S → E → E).

(** The loop that fills the floor; [sessions] is the vector so far, which a refusal drops. *)
Fixpoint open_sessions (n : nat) (sessions : list S) (engine : E) : E * result NE (list S) :=
  match n with
  | O => (engine, Ok sessions)
  | Datatypes.S n' =>
      match open_session engine with
      | (engine, Err e) => (foldl (λ engine s, drop_session s engine) engine sessions, Err e)
      | (engine, Ok s) => open_sessions n' (sessions ++ [s]) engine
      end
  end.

(** [SessionPool::open]: the floor of sessions, and whether a reaper is to be started. *)
Definition SessionPool_open (engine : E) (limits : Concurrency) (now : Z)
    : E * result NE (State S * option Z) :=
  match open_sessions (Z.to_nat (conc_min limits)) [] engine with
  | (engine, Err e) => (engine, Err e)
  | (engine, Ok sessions) =>
      (engine, Ok (Idles_new sessions (conc_min limits) now, conc_idle_timeout limits))
  end.

(** One turn of [checkout]'s loop, with the lock held. *)
Inductive Checkout_turn := Take (session : S) | Grow | Wait.

Definition checkout (max : Z) (st : State S) : Checkout_turn * State S :=
  match State_take st with
  | (Some session, st') => (Take session, st')
  | (None, _) =>
      if open st <? max then (Grow, mkState (idle st) (u32_add (open st) 1) (closing st))
      else (Wait, st)
  end.

(** [grow]'s failure: the reservation goes back. *)
Definition grow_failed (st : State S) : State S :=
  mkState (idle st) (u32_sub (open st) 1) (closing st).
End pool.
Arguments Take {S} session.
Arguments Grow {S}.
Arguments Wait {S}.

(** ** The pool as a concurrent system *)

Inductive caller_pc :=
| PEnter                (* about to lock, in [checkout] *)
| PParked               (* waiting on [returned] *)
| PSignalled            (* woken, about to lock again *)
| PGrow                 (* reserved; inside [open_session] *)
| PHold (s : sid)       (* checked out; not yet armed *)
| PRun (s : sid)        (* armed; inside [run_command] *)
| PRan (s : sid)        (* [run_command] returned or unwound *)
| PRelease (s : sid)    (* disarmed; [Checkout::drop] to come *)
| PNotify               (* the session or the reservation is back; [notify_one] to come *)
| PDone.

Record caller := mkCaller { pc : caller_pc; slot : Slot sid }.

Inductive reaper_pc :=
| RAbsent                      (* a fixed pool, or a thread that could not be started *)
| RWait                        (* between two looks at the idle list *)
| RDestroy (expired : list sid) (* dropping sessions, unlocked *)
| RStopped.

Record system := mkSystem {
  st : State sid;
  callers : list caller;
  reaper : reaper_pc;
  clock : Z;
  next_sid : sid;      (* the next session the engine opens *)
  refusals : Z;        (* ghost: opens the engine refused *)
}.

Definition with_pc (c : caller) (p : caller_pc) : caller := mkCaller p (slot c).

(** [Condvar::notify_all] on [returned]. *)
Definition notify_all (cs : list caller) : list caller :=
  (λ c, match pc c with PParked => with_pc c PSignalled | _ => c end) <$> cs.

(** [Condvar::notify_one] on [returned]: some parked caller, when there is one. *)
Inductive notify_one : list caller → list caller → Prop :=
| notify_nobody cs : (∀ c, c ∈ cs → pc c ≠ PParked) → notify_one cs cs
| notify_somebody cs j c :
    cs !! j = Some c → pc c = PParked → notify_one cs (<[j := with_pc c PSignalled]> cs).

(** Where a turn of the checkout loop leaves its caller. *)
Definition after_turn (t : @Checkout_turn sid) : caller_pc :=
  match t with Take s => PHold s | Grow => PGrow | Wait => PParked end.

Section system.
Context (limits : Concurrency).

Inductive step : system → system → Prop :=
| SArrive s :
    step s (mkSystem (st s) (callers s ++ [mkCaller PEnter CommandSlot_new])
              (reaper s) (clock s) (next_sid s) (refusals s))
| SClock s t :
    clock s ≤ t →
    step s (mkSystem (st s) (callers s) (reaper s) t (next_sid s) (refusals s))
| SCheckout s i c turn st' :
    callers s !! i = Some c → pc c = PEnter ∨ pc c = PSignalled →
    checkout (conc_max limits) (st s) = (turn, st') →
    step s (mkSystem st' (<[i := with_pc c (after_turn turn)]> (callers s))
              (reaper s) (clock s) (next_sid s) (refusals s))
| SSpurious s i c :
    callers s !! i = Some c → pc c = PParked →
    step s (mkSystem (st s) (<[i := with_pc c PSignalled]> (callers s))
              (reaper s) (clock s) (next_sid s) (refusals s))
| SGrown s i c :
    callers s !! i = Some c → pc c = PGrow →
    step s (mkSystem (st s) (<[i := with_pc c (PHold (next_sid s))]> (callers s))
              (reaper s) (clock s) (S (next_sid s)) (refusals s))
| SGrowRefused s i c :
    callers s !! i = Some c → pc c = PGrow →
    step s (mkSystem (grow_failed (st s)) (<[i := with_pc c PNotify]> (callers s))
              (reaper s) (clock s) (next_sid s) (refusals s + 1))
| SStart s i c session ok slot' :
    callers s !! i = Some c → pc c = PHold session →
    start session (slot c) = (ok, slot') →
    step s (mkSystem (st s)
              (<[i := mkCaller (if ok : bool then PRun session else PRelease session) slot']>
                 (callers s))
              (reaper s) (clock s) (next_sid s) (refusals s))
| SRan s i c session :
    callers s !! i = Some c → pc c = PRun session →
    step s (mkSystem (st s) (<[i := with_pc c (PRan session)]> (callers s))
              (reaper s) (clock s) (next_sid s) (refusals s))
| SDisarm s i c session :
    callers s !! i = Some c → pc c = PRan session →
    step s (mkSystem (st s)
              (<[i := mkCaller (PRelease session) (Disarm_drop (slot c))]> (callers s))
              (reaper s) (clock s) (next_sid s) (refusals s))
| SGiveBack s i c session :
    callers s !! i = Some c → pc c = PRelease session →
    step s (mkSystem (give_back session (clock s) (st s)) (<[i := with_pc c PNotify]> (callers s))
              (reaper s) (clock s) (next_sid s) (refusals s))
| SNotify s i c cs' :
    callers s !! i = Some c → pc c = PNotify →
    notify_one (<[i := with_pc c PDone]> (callers s)) cs' →
    step s (mkSystem (st s) cs' (reaper s) (clock s) (next_sid s) (refusals s))
| SCancel s i c :
    callers s !! i = Some c →
    step s (mkSystem (st s) (<[i := mkCaller (pc c) (snd (cancel (slot c)))]> (callers s))
              (reaper s) (clock s) (next_sid s) (refusals s))
| SReap s timeout expired wait st' :
    conc_idle_timeout limits = Some timeout →
    reaper s = RWait → closing (st s) = false →
    State_reap (conc_min limits) timeout (clock s) (st s) = (expired, wait, st') →
    step s (mkSystem st' (callers s)
              (match expired with [] => RWait | _ => RDestroy expired end)
              (clock s) (next_sid s) (refusals s))
| SReaped s expired :
    reaper s = RDestroy expired →
    step s (mkSystem (State_closed (Z.of_nat (length expired)) (st s)) (notify_all (callers s))
              RWait (clock s) (next_sid s) (refusals s))
| SDrop s :
    (∀ c, c ∈ callers s → pc c = PDone) → reaper s ≠ RAbsent →
    step s (mkSystem (stop_reaping (st s)) (callers s) (reaper s)
              (clock s) (next_sid s) (refusals s))
| SReaperStops s :
    reaper s = RWait → closing (st s) = true →
    step s (mkSystem (st s) (callers s) RStopped (clock s) (next_sid s) (refusals s)).

(** A freshly opened pool over an engine that hands out its first sessions. *)
Definition allocator (n : sid) : sid * result unit sid := (S n, Ok n).

Definition initial (s : system) : Prop :=
  ∃ timeout next,
    SessionPool_open allocator (λ _ n, n) O limits (clock s) = (next, Ok (st s, timeout)) ∧
    callers s = [] ∧ refusals s = 0 ∧ next_sid s = next ∧
    (reaper s = RAbsent ∨ (timeout ≠ None ∧ reaper s = RWait)).
End system.

(** ** Schedules

    The same steps as an executable function of a schedule, for concrete runs. [notify_one]'s
    choice is the position to wake; a choice that is not a parked caller is only allowed where
    nobody is parked. *)

Inductive action :=
| AArrive
| AClock (t : Z)
| ACheckout (i : nat)
| AGrown (i : nat)
| AGrowRefused (i : nat)
| AStart (i : nat)
| ARan (i : nat)
| ADisarm (i : nat)
| AGiveBack (i : nat)
| ANotify (i j : nat)
| ACancel (i : nat)
| AReap
| AReaped.

Definition is_parked (c : caller) : bool := match pc c with PParked => true | _ => false end.

Definition with_callers (s : system) (cs : list caller) : system :=
  mkSystem (st s) cs (reaper s) (clock s) (next_sid s) (refusals s).

Definition notify_choice (j : nat) (cs : list caller) : option (list caller) :=
  match cs !! j with
  | Some c =>
      if is_parked c then Some (<[j := with_pc c PSignalled]> cs)
      else if forallb (λ c, negb (is_parked c)) cs then Some cs else None
  | None => if forallb (λ c, negb (is_parked c)) cs then Some cs else None
  end.

Definition perform (limits : Concurrency) (a : action) (s : system) : option system :=
  match a with
  | AArrive => Some (with_callers s (callers s ++ [mkCaller PEnter CommandSlot_new]))
  | AClock t =>
      if clock s <=? t
      then Some (mkSystem (st s) (callers s) (reaper s) t (next_sid s) (refusals s)) else None
  | ACheckout i =>
      c ← callers s !! i;
      match pc c with
      | PEnter | PSignalled =>
          let '(turn, st') := checkout (conc_max limits) (st s) in
          Some (mkSystem st' (<[i := with_pc c (after_turn turn)]> (callers s))
                  (reaper s) (clock s) (next_sid s) (refusals s))
      | _ => None
      end
  | AGrown i =>
      c ← callers s !! i;
      match pc c with
      | PGrow =>
          Some (mkSystem (st s) (<[i := with_pc c (PHold (next_sid s))]> (callers s))
                  (reaper s) (clock s) (S (next_sid s)) (refusals s))
      | _ => None
      end
  | AGrowRefused i =>
      c ← callers s !! i;
      match pc c with
      | PGrow =>
          Some (mkSystem (grow_failed (st s)) (<[i := with_pc c PNotify]> (callers s))
                  (reaper s) (clock s) (next_sid s) (refusals s + 1))
      | _ => None
      end
  | AStart i =>
      c ← callers s !! i;
      match pc c with
      | PHold x =>
          let '(ok, slot') := start x (slot c) in
          Some (with_callers s
                  (<[i := mkCaller (if ok : bool then PRun x else PRelease x) slot']> (callers s)))
      | _ => None
      end
  | ARan i =>
      c ← callers s !! i;
      match pc c with
      | PRun x => Some (with_callers s (<[i := with_pc c (PRan x)]> (callers s)))
      | _ => None
      end
  | ADisarm i =>
      c ← callers s !! i;
      match pc c with
      | PRan x =>
          Some (with_callers s
                  (<[i := mkCaller (PRelease x) (Disarm_drop (slot c))]> (callers s)))
      | _ => None
      end
  | AGiveBack i =>
      c ← callers s !! i;
      match pc c with
      | PRelease x =>
          Some (mkSystem (give_back x (clock s) (st s)) (<[i := with_pc c PNotify]> (callers s))
                  (reaper s) (clock s) (next_sid s) (refusals s))
      | _ => None
      end
  | ANotify i j =>
      c ← callers s !! i;
      match pc c with
      | PNotify => with_callers s <$> notify_choice j (<[i := with_pc c PDone]> (callers s))
      | _ => None
      end
  | ACancel i =>
      c ← callers s !! i;
      Some (with_callers s (<[i := mkCaller (pc c) (snd (cancel (slot c)))]> (callers s)))
  | AReap =>
      match conc_idle_timeout limits, reaper s, closing (st s) with
      | Some timeout, RWait, false =>
          let '(expired, _, st') := State_reap (conc_min limits) timeout (clock s) (st s) in
          Some (mkSystem st' (callers s)
                  (match expired with [] => RWait | _ => RDestroy expired end)
                  (clock s) (next_sid s) (refusals s))
      | _, _, _ => None
      end
  | AReaped =>
      match reaper s with
      | RDestroy expired =>
          Some (mkSystem (State_closed (Z.of_nat (length expired)) (st s)) (notify_all (callers s))
                  RWait (clock s) (next_sid s) (refusals s))
      | _ => None
      end
  end.

Fixpoint run_schedule (limits : Concurrency) (acts : list action) (s : system) : option system :=
  match acts with
  | [] => Some s
  | a :: acts' => perform limits a s ≫= run_schedule limits acts'
  end.

Lemma notify_choice_sound j cs cs' : notify_choice j cs = Some cs' → notify_one cs cs'.
Proof.
  unfold notify_choice.
  assert (forallb (λ c, negb (is_parked c)) cs = true → notify_one cs cs) as Hnobody.
  { intros H. constructor. intros c Hc. rewrite forallb_forall in H.
    specialize (H c (proj1 (list_elem_of_In _ _) Hc)). unfold is_parked in H.
    by destruct (pc c). }
  destruct (cs !! j) as [c|] eqn:E.
  - destruct (is_parked c) eqn:Hp.
    + intros [= <-]. apply notify_somebody; [done|]. unfold is_parked in Hp. by destruct (pc c).
    + destruct (forallb _ _); intros; simplify_eq; auto.
  - destruct (forallb _ _); intros; simplify_eq; auto.
Qed.

Lemma perform_sound limits a s s' : perform limits a s = Some s' → step limits s s'.
Proof.
  destruct a; simpl; intros H;
    repeat match goal with
    | H : (_ ≫= _) = Some _ |- _ => apply bind_Some in H as (? & ? & H)
    | H : (_ <$> _) = Some _ |- _ => apply fmap_Some in H as (? & ? & ->)
    | H : context [match ?x with _ => _ end] |- _ => destruct x eqn:?; simplify_eq/=
    end; simplify_eq;
    try (by econstructor; eauto using notify_choice_sound).
  apply SClock. by apply Z.leb_le.
Qed.

Lemma run_schedule_sound limits acts s s' :
  run_schedule limits acts s = Some s' → rtc (step limits) s s'.
Proof.
  revert s. induction acts as [|a acts IH]; simpl; intros s H; [by simplify_eq|].
  apply bind_Some in H as (s1 & H1 & H2). eapply rtc_l; eauto using perform_sound.
Qed.

(** The pool as an open leaves it, its reaper running where the policy has a timeout. *)
Definition opened_pool (limits : Concurrency) (now : Z) : system :=
  mkSystem (Idles_new (seq 0 (Z.to_nat (conc_min limits))) (conc_min limits) now) []
    (match conc_idle_timeout limits with Some _ => RWait | None => RAbsent end)
    now (Z.to_nat (conc_min limits)) 0.

Lemma open_sessions_allocator n k l :
  open_sessions allocator (λ _ n, n) n l k = ((k + n)%nat, Ok (l ++ seq k n)).
Proof.
  revert k l. induction n as [|n IH]; intros k l; simpl.
  - by rewrite Nat.add_0_r, app_nil_r.
  - rewrite IH. simpl. rewrite <- app_assoc. do 2 f_equal. lia.
Qed.

Lemma opened_pool_initial limits now : initial limits (opened_pool limits now).
Proof.
  exists (conc_idle_timeout limits), (Z.to_nat (conc_min limits)). unfold SessionPool_open; simpl.
  rewrite open_sessions_allocator. split_and!; try done.
  destruct (conc_idle_timeout limits); [right|by left]. by split.
Qed.

Lemma run_schedule_reachable limits now acts s :
  run_schedule limits acts (opened_pool limits now) = Some s →
  reachable (step limits) (initial limits) s.
Proof.
  intros H. exists (opened_pool limits now).
  eauto using opened_pool_initial, run_schedule_sound.
Qed.
