(* ===== verification/SessionPoolInv.v ===== *)
(** * What holds of the session pool under every interleaving

    The inductive invariant of the system of [SessionPool], and what follows from it: the
    ceiling, the exclusivity of sessions, the safety of the interrupt, the absence of lost
    wakeups and of deadlocks, and how far the floor is kept. *)
From Stdlib Require Import Sorted.
From S2P Require Import Prelude EngineOptions Options Slot Reaper SessionPool.

(** ** What is counted *)

(** The session a caller has out of the pool. *)
Definition held (c : caller) : option sid :=
  match pc c with
  | PHold s | PRun s | PRan s | PRelease s => Some s
  | _ => None
  end.

Definition holding (c : caller) : bool := match held c with Some _ => true | None => false end.
Definition holds (x : sid) (c : caller) : bool :=
  match held c with Some s => Nat.eqb x s | None => false end.
Definition growing (c : caller) : bool := match pc c with PGrow => true | _ => false end.
Definition parked (c : caller) : bool := match pc c with PParked => true | _ => false end.
Definition signalled (c : caller) : bool := match pc c with PSignalled => true | _ => false end.
Definition notifying (c : caller) : bool := match pc c with PNotify => true | _ => false end.

Definition dying (r : reaper_pc) : list sid := match r with RDestroy l => l | _ => [] end.

(** How many places of the system session [x] is in. *)
Definition places (s : system) (x : sid) : Z :=
  count (λ e, Nat.eqb x (idle_session e)) (idle (st s)) + count (holds x) (callers s)
  + count (Nat.eqb x) (dying (reaper s)).

(** A slot is armed exactly while its own caller has the session it interrupts. *)
Definition slot_ok (c : caller) : Prop :=
  match pc c with
  | PRun s | PRan s => slot c = Running s ∨ slot c = Cancelled
  | PEnter | PParked | PSignalled | PGrow | PHold _ => slot c = Waiting ∨ slot c = Cancelled
  | PRelease _ | PNotify | PDone => ∀ x, slot c ≠ Running x
  end.

(** Room for a caller: sessions that are free and sessions that could still be opened. *)
Definition room (limits : Concurrency) (s : system) : Z :=
  Z.of_nat (length (idle (st s))) + (conc_max limits - open (st s)).

(** The sessions there are to run commands on: free ones and ones a caller has. One that is
    still being opened is none yet, one that is being destroyed none any more. *)
Definition existing (s : system) : Z :=
  Z.of_nat (length (idle (st s))) + count holding (callers s).

Section invariant.
Context (limits : Concurrency).

Record pool_inv (s : system) : Prop := {
  inv_open : open (st s) =
    Z.of_nat (length (idle (st s))) + count holding (callers s) + count growing (callers s)
    + Z.of_nat (length (dying (reaper s)));
  inv_max : open (st s) ≤ conc_max limits;
  inv_once : ∀ x, places s x ≤ 1;
  inv_fresh : ∀ x, (next_sid s ≤ x)%nat → places s x = 0;
  inv_slot : Forall slot_ok (callers s);
  inv_wakeup : 0 < count parked (callers s) →
    room limits s ≤ count signalled (callers s) + count notifying (callers s);
  inv_lru : lru_sorted (idle (st s)) ∧ Forall (λ e, idle_since e ≤ clock s) (idle (st s));
  inv_floor : conc_min limits ≤
    open (st s) - Z.of_nat (length (dying (reaper s))) + refusals s;
  inv_refusals : 0 ≤ refusals s;
}.

(** ** The parts that only some steps touch *)

Lemma lru_sorted_snoc (l : list (Idle sid)) e :
  lru_sorted l → Forall (λ x, idle_since x ≤ idle_since e) l → lru_sorted (l ++ [e]).
Proof.
  unfold lru_sorted. induction 1 as [|x l Hs IH Hf]; intros Hall; simpl.
  - repeat constructor.
  - apply Forall_cons in Hall as [Hx Hall]. constructor; [by apply IH|].
    apply Forall_app. split; [done|]. by repeat constructor.
Qed.

Lemma lru_sorted_app_l (l1 l2 : list (Idle sid)) : lru_sorted (l1 ++ l2) → lru_sorted l1.
Proof.
  unfold lru_sorted. induction l1 as [|x l1 IH]; simpl; intros H; [constructor|].
  inversion H as [|? ? Hs Hf]; subst. constructor; [by apply IH|].
  by apply Forall_app in Hf as [? _].
Qed.

Lemma lru_sorted_drop n (l : list (Idle sid)) : lru_sorted l → lru_sorted (drop n l).
Proof.
  unfold lru_sorted. revert n. induction l as [|x l IH]; intros n H.
  - by rewrite drop_nil.
  - destruct n as [|n]; [done|]. simpl. apply IH. by inversion H.
Qed.

Lemma notify_one_counts cs cs' (f : caller → bool) :
  (∀ c, f (with_pc c PParked) = f (with_pc c PSignalled)) →
  notify_one cs cs' → count f cs' = count f cs.
Proof.
  intros Hf H. destruct H as [|cs j c Hj Hp]; [done|]. split_thread Hj.
  rewrite !count_app; simpl. destruct c as [p sl]; simpl in *; subst.
  specialize (Hf (mkCaller PParked sl)). unfold with_pc in *; simpl in *. by rewrite Hf.
Qed.

Lemma notify_one_wakes cs cs' :
  notify_one cs cs' →
  (count parked cs = 0 ∧ cs' = cs) ∨
  (count parked cs' = count parked cs - 1 ∧ count signalled cs' = count signalled cs + 1).
Proof.
  intros H. destruct H as [cs Hn|cs j c Hj Hp]; [left|right].
  - split; [|done]. apply count_zero. intros c Hc. specialize (Hn c Hc).
    unfold parked. by destruct (pc c).
  - destruct c as [p sl]; simpl in *; subst p. split_thread Hj. solve_counts.
Qed.

Lemma notify_one_slots cs cs' :
  notify_one cs cs' → Forall slot_ok cs → Forall slot_ok cs'.
Proof.
  intros H Hs. destruct H as [|cs j c Hj Hp]; [done|].
  apply Forall_insert; [done|]. eapply Forall_lookup_1 in Hs; [|done].
  unfold slot_ok in *. rewrite Hp in Hs. done.
Qed.

Lemma notify_all_count (f : caller → bool) cs :
  (∀ c, f (with_pc c PParked) = f (with_pc c PSignalled)) →
  count f (notify_all cs) = count f cs.
Proof.
  intros Hf. unfold notify_all. rewrite count_fmap. apply count_ext. intros c _.
  destruct c as [[] sl]; simpl; try done. by rewrite <- (Hf (mkCaller PParked sl)).
Qed.

Lemma notify_all_nobody_parked cs : count parked (notify_all cs) = 0.
Proof.
  unfold notify_all. rewrite count_fmap. apply count_zero. intros c _. by destruct c as [[] sl].
Qed.

Lemma notify_all_slots cs : Forall slot_ok cs → Forall slot_ok (notify_all cs).
Proof.
  unfold notify_all. intros H. apply Forall_fmap. eapply Forall_impl; [exact H|].
  intros [[] sl] Hc; done.
Qed.

(** ** Preservation, field by field *)

Lemma checkout_cases max (st st' : State sid) turn :
  checkout max st = (turn, st') →
  closing st' = closing st ∧
  match turn with
  | Take x => ∃ e, idle st = idle st' ++ [e] ∧ idle_session e = x ∧ open st' = open st
  | Grow => idle st = [] ∧ idle st' = [] ∧ open st < max ∧ open st' = u32_add (open st) 1
  | Wait => idle st = [] ∧ max ≤ open st ∧ st' = st
  end.
Proof.
  unfold checkout. destruct (State_take st) as [[x|] st0] eqn:E.
  - intros [= <- <-]. apply State_take_Some in E as (e & ? & ? & ? & ?). eauto 6.
  - apply State_take_None in E as [Hi ->]. destruct (open st <? max) eqn:Hlt; intros [= <- <-].
    + apply Z.ltb_lt in Hlt. done.
    + apply Z.ltb_ge in Hlt. done.
Qed.


(** Puts the system in pieces around the caller at position [i]. *)
Ltac open_caller Hi :=
  match type of Hi with
  | callers ?s !! _ = Some ?c =>
      destruct s as [bst bcs brp bck bnx brf]; destruct c as [bpc bsl]; simpl in *;
      try subst bpc; split_thread Hi
  end.

(** The counting fields, expanded around that caller and left to [lia]. *)
Ltac count_fields :=
  unfold places, room, holding, holds in *; simpl in *;
  autorewrite with emongo in *; simpl in *; try lia.

Ltac replace_slot :=
  match goal with
  | H : Forall slot_ok (_ ++ _ :: _) |- Forall slot_ok (_ ++ _ :: _) =>
      apply Forall_app in H as [? H]; apply Forall_cons in H as [? ?];
      apply Forall_app; split; [done|apply Forall_cons; split; [|done]];
      unfold slot_ok in *; simpl in *
  end.

Lemma inv_simple_moves s i c p sl' :
  pool_inv s → callers s !! i = Some c →
  let c' := mkCaller p sl' in
  slot_ok c' → held c' = held c → growing c' = false → growing c = false →
  parked c' = false → notifying c' = notifying c →
  (signalled c = true → signalled c' = true) →
  pool_inv (mkSystem (st s) (<[i := c']> (callers s)) (reaper s) (clock s) (next_sid s) (refusals s)).
Proof.
  intros [Ho Hm H1 Hf Hs Hw Hl Hfl Hrf] Hi c' Hok Hh Hg' Hg Hp Hn Hsig.
  destruct s as [bst bcs brp bck bnx brf]. simpl in *. split_thread Hi.
  constructor; simpl in *; try done.
  - unfold holding in *. autorewrite with emongo in *. simpl in *.
    rewrite Hh, Hg', Hg in *. lia.
  - intros x. specialize (H1 x). unfold places, holds in *. simpl in *.
    autorewrite with emongo in *. simpl in *. rewrite Hh. lia.
  - intros x Hx. specialize (Hf x Hx). unfold places, holds in *. simpl in *.
    autorewrite with emongo in *. simpl in *. rewrite Hh. lia.
  - apply Forall_app in Hs as [? Hs]. apply Forall_cons in Hs as [? ?].
    apply Forall_app; split; [done|]. by apply Forall_cons.
  - unfold room in *. simpl in *. autorewrite with emongo in *. simpl in *.
    rewrite Hp, Hn in *. destruct (parked c), (signalled c), (signalled c') eqn:?; try lia;
    by specialize (Hsig eq_refl).
Qed.

Lemma inv_checkout s i c turn st' :
  Concurrency_wf limits → pool_inv s →
  callers s !! i = Some c → pc c = PEnter ∨ pc c = PSignalled →
  checkout (conc_max limits) (st s) = (turn, st') →
  pool_inv (mkSystem st' (<[i := with_pc c (after_turn turn)]> (callers s))
              (reaper s) (clock s) (next_sid s) (refusals s)).
Proof.
  intros (Hmin & H256 & _) [Ho Hm H1 Hf Hs Hw [Hl Hc] Hfl Hrf] Hi Hpc Hco.
  apply checkout_cases in Hco as [_ Hco].
  open_caller Hi. unfold with_pc; simpl.
  assert (bsl = Waiting ∨ bsl = Cancelled) as Hsl.
  { apply Forall_app in Hs as [_ Hs]. apply Forall_cons in Hs as [Hs _].
    unfold slot_ok in Hs; simpl in Hs. destruct Hpc; by subst. }
  destruct turn as [x| |]; simpl.
  - destruct Hco as (e & He & Hx & Hop). rewrite He in *.
    apply lru_sorted_app_l in Hl. apply Forall_app in Hc as [Hc _].
    constructor; simpl in *; rewrite ?He, ?Hop; try done.
    + destruct Hpc; subst; count_fields.
    + intros y. specialize (H1 y). destruct Hpc; subst; count_fields;
        rewrite ?He in *; count_fields.
    + intros y Hy. specialize (Hf y Hy). destruct Hpc; subst; count_fields;
        rewrite ?He in *; count_fields.
    + destruct Hpc; subst; by replace_slot.
    + destruct Hpc; subst; count_fields; rewrite ?He, ?Hop in *; count_fields.
  - destruct Hco as (He & He' & Hlt & Hop).
    pose proof (count_nonneg holding (before ++ after)).
    pose proof (count_nonneg growing (before ++ after)).
    assert (open st' = open bst + 1) as Hop'.
    { rewrite Hop. apply u32_add_exact. unfold is_u32, u32_max, u32_modulus, MAX_COUNT in *.
      rewrite He in *. destruct Hpc; subst; count_fields. }
    constructor; simpl in *; rewrite ?He', ?Hop'; rewrite ?He in *; try done.
    + destruct Hpc; subst; count_fields.
    + lia.
    + intros y. specialize (H1 y). unfold places in *; simpl in *. rewrite He in *. rewrite He'.
      destruct Hpc; subst; count_fields.
    + intros y Hy. specialize (Hf y Hy). unfold places in *; simpl in *. rewrite He in *.
      rewrite He'. destruct Hpc; subst; count_fields.
    + destruct Hpc; subst; by replace_slot.
    + unfold room in *; simpl in *. rewrite He', Hop'. rewrite He in *.
      destruct Hpc; subst; count_fields.
    + lia.
  - destruct Hco as (He & Hge & ->).
    constructor; try done; simpl in *.
    + destruct Hpc; subst; count_fields.
    + intros y. specialize (H1 y). destruct Hpc; subst; count_fields.
    + intros y Hy. specialize (Hf y Hy). destruct Hpc; subst; count_fields.
    + destruct Hpc; subst; by replace_slot.
    + unfold room in *; simpl in *. rewrite He in *. simpl in *. intros _.
      pose proof (count_nonneg signalled (before ++ after)).
      pose proof (count_nonneg notifying (before ++ after)). count_fields.
Qed.

Lemma inv_grown s i c :
  pool_inv s → callers s !! i = Some c → pc c = PGrow →
  pool_inv (mkSystem (st s) (<[i := with_pc c (PHold (next_sid s))]> (callers s))
              (reaper s) (clock s) (S (next_sid s)) (refusals s)).
Proof.
  intros [Ho Hm H1 Hf Hs Hw Hl Hfl Hrf] Hi Hpc. open_caller Hi. unfold with_pc; simpl.
  constructor; simpl in *; try done.
  - count_fields.
  - intros y. specialize (H1 y). count_fields. destruct (Nat.eqb_spec y bnx) as [->|]; [|lia].
    specialize (Hf bnx (Nat.le_refl _)). count_fields.
  - intros y Hy. specialize (Hf y ltac:(lia)). count_fields.
    destruct (Nat.eqb_spec y bnx); lia.
  - by replace_slot.
  - count_fields.
Qed.

Lemma inv_grow_refused s i c :
  Concurrency_wf limits → pool_inv s → callers s !! i = Some c → pc c = PGrow →
  pool_inv (mkSystem (grow_failed (st s)) (<[i := with_pc c PNotify]> (callers s))
              (reaper s) (clock s) (next_sid s) (refusals s + 1)).
Proof.
  intros (Hmin & H256 & _) [Ho Hm H1 Hf Hs Hw Hl Hfl Hrf] Hi Hpc.
  open_caller Hi. unfold with_pc; simpl.
  pose proof (count_nonneg holding (before ++ after)).
  pose proof (count_nonneg growing (before ++ after)).
  assert (open (grow_failed bst) = open bst - 1) as Hop.
  { unfold grow_failed; simpl. apply u32_sub_exact.
    unfold is_u32, u32_max, u32_modulus, MAX_COUNT in *. count_fields. }
  assert (idle (grow_failed bst) = idle bst) as Hid by done.
  constructor; simpl in *; rewrite ?Hop; try done.
  - count_fields.
  - lia.
  - intros y. specialize (H1 y). count_fields.
  - intros y Hy. specialize (Hf y Hy). count_fields.
  - replace_slot. intuition congruence.
  - unfold room in *; simpl in *; rewrite ?Hop. count_fields.
  - lia.
  - lia.
Qed.

Lemma inv_give_back s i c session :
  pool_inv s → callers s !! i = Some c → pc c = PRelease session →
  pool_inv (mkSystem (give_back session (clock s) (st s)) (<[i := with_pc c PNotify]> (callers s))
              (reaper s) (clock s) (next_sid s) (refusals s)).
Proof.
  intros [Ho Hm H1 Hf Hs Hw [Hl Hc] Hfl Hrf] Hi Hpc. open_caller Hi. unfold with_pc; simpl.
  constructor; simpl in *; try done.
  - count_fields.
  - intros y. specialize (H1 y). count_fields.
  - intros y Hy. specialize (Hf y Hy). count_fields.
  - by replace_slot.
  - count_fields.
  - split; [by apply lru_sorted_snoc|]. apply Forall_app. split; [done|]. by repeat constructor.
Qed.

Lemma inv_notify s i c cs' :
  pool_inv s → callers s !! i = Some c → pc c = PNotify →
  notify_one (<[i := with_pc c PDone]> (callers s)) cs' →
  pool_inv (mkSystem (st s) cs' (reaper s) (clock s) (next_sid s) (refusals s)).
Proof.
  intros [Ho Hm H1 Hf Hs Hw Hl Hfl Hrf] Hi Hpc Hn. open_caller Hi. unfold with_pc in Hn; simpl in Hn.
  assert (∀ f, (∀ c, f (with_pc c PParked) = f (with_pc c PSignalled)) →
    count f cs' = count f (before ++ mkCaller PDone bsl :: after)) as Hcount
    by eauto using notify_one_counts.
  constructor; simpl in *; try done.
  - rewrite !Hcount by done. count_fields.
  - intros y. specialize (H1 y). unfold places in *; simpl in *. rewrite Hcount by done. count_fields.
  - intros y Hy. specialize (Hf y Hy). unfold places in *; simpl in *. rewrite Hcount by done.
    count_fields.
  - eapply notify_one_slots; [exact Hn|]. by replace_slot.
  - rewrite (Hcount notifying) by done.
    apply notify_one_wakes in Hn as [[H0 ->]|[Hp' Hs']]; [count_fields|].
    rewrite Hp', Hs'. count_fields.
Qed.

Lemma inv_reap s timeout expired wait st' :
  Concurrency_wf limits → pool_inv s → conc_idle_timeout limits = Some timeout →
  reaper s = RWait → closing (st s) = false →
  State_reap (conc_min limits) timeout (clock s) (st s) = (expired, wait, st') →
  pool_inv (mkSystem st' (callers s)
              (match expired with [] => RWait | _ => RDestroy expired end)
              (clock s) (next_sid s) (refusals s)).
Proof.
  intros (Hmin & H256 & Hto) [Ho Hm H1 Hf Hs Hw [Hl Hc] Hfl Hrf] Ht Hr Hcl Hreap.
  rewrite Ht in Hto. destruct Hto as [_ Htpos].
  apply reap_facts in Hreap as (Hex & Hid & Hop & _ & Hflo & _); [|done|lia].
  assert (dying (match expired with [] => RWait | _ => RDestroy expired end) = expired) as Hd
    by (by destruct expired).
  assert (∀ f, count (λ e, f (idle_session e)) (idle (st s)) =
    count f expired + count (λ e, f (idle_session e)) (idle st')) as Hcount.
  { intros f.
    rewrite <- (count_fmap f idle_session (idle (st s))), <- (count_fmap f idle_session (idle st')).
    rewrite Hid. rewrite Hex at 1. by rewrite <- count_app, <- fmap_app, take_drop. }
  assert (Z.of_nat (length (idle (st s))) =
    Z.of_nat (length expired) + Z.of_nat (length (idle st'))) as Hlen.
  { rewrite Hid, length_drop. rewrite Hex at 1. rewrite length_fmap, length_take. lia. }
  constructor; simpl in *; rewrite ?Hd, ?Hop, ?Hr in *; simpl in *.
  - lia.
  - done.
  - intros y. specialize (H1 y). unfold places in *; simpl in *. rewrite Hd, Hr in *.
    rewrite (Hcount (Nat.eqb y)) in H1. simpl in H1. lia.
  - intros y Hy. specialize (Hf y Hy). unfold places in *; simpl in *. rewrite Hd, Hr in *.
    rewrite (Hcount (Nat.eqb y)) in Hf. simpl in Hf. lia.
  - done.
  - unfold room in *; simpl in *. rewrite Hop. intros Hp. specialize (Hw Hp). lia.
  - rewrite Hid. split; [by apply lru_sorted_drop|]. by apply Forall_drop.
  - destruct expired; [simpl in *; lia|]. specialize (Hflo ltac:(done)). lia.
  - done.
Qed.

Lemma inv_reaped s expired :
  Concurrency_wf limits → pool_inv s → reaper s = RDestroy expired →
  pool_inv (mkSystem (State_closed (Z.of_nat (length expired)) (st s)) (notify_all (callers s))
              RWait (clock s) (next_sid s) (refusals s)).
Proof.
  intros (Hmin & H256 & _) [Ho Hm H1 Hf Hs Hw Hl Hfl Hrf] Hr.
  destruct s as [bst bcs brp bck bnx brf]; simpl in *. subst brp; simpl in *.
  pose proof (count_nonneg holding bcs). pose proof (count_nonneg growing bcs).
  assert (open (State_closed (Z.of_nat (length expired)) bst)
          = open bst - Z.of_nat (length expired)) as Hop.
  { unfold State_closed; simpl. apply u32_sub_exact.
    unfold is_u32, u32_max, u32_modulus, MAX_COUNT in *. lia. }
  assert (idle (State_closed (Z.of_nat (length expired)) bst) = idle bst) as Hid by done.
  constructor; simpl in *; rewrite ?Hop.
  - rewrite !notify_all_count by done. lia.
  - lia.
  - intros y. specialize (H1 y). unfold places in *; simpl in *.
    rewrite notify_all_count by done. pose proof (count_nonneg (Nat.eqb y) expired). lia.
  - intros y Hy. specialize (Hf y Hy). unfold places in *; simpl in *.
    rewrite notify_all_count by done.
    pose proof (count_nonneg (Nat.eqb y) expired). pose proof (count_nonneg (holds y) bcs).
    pose proof (count_nonneg (λ e, Nat.eqb y (idle_session e)) (idle bst)). lia.
  - by apply notify_all_slots.
  - rewrite notify_all_nobody_parked. lia.
  - done.
  - lia.
  - done.
Qed.

Lemma inv_arrive s :
  pool_inv s →
  pool_inv (mkSystem (st s) (callers s ++ [mkCaller PEnter CommandSlot_new])
              (reaper s) (clock s) (next_sid s) (refusals s)).
Proof.
  intros [Ho Hm H1 Hf Hs Hw Hl Hfl Hrf]. constructor; simpl in *; try done.
  - count_fields.
  - intros y. specialize (H1 y). count_fields.
  - intros y Hy. specialize (Hf y Hy). count_fields.
  - apply Forall_app. split; [done|]. repeat constructor.
  - count_fields.
Qed.

Lemma slot_ok_at s i c : pool_inv s → callers s !! i = Some c → slot_ok c.
Proof. intros H Hi. by eapply Forall_lookup_1 in Hi; [|apply (inv_slot _ H)]. Qed.

Lemma slot_ok_cancelled c : slot_ok c → slot_ok (mkCaller (pc c) (snd (cancel (slot c)))).
Proof.
  unfold slot_ok; simpl. destruct (pc c); intros; destruct (slot c); simpl; (by right) || done.
Qed.

(** A cancel changes no program counter, so nothing that is counted moves. *)
Lemma inv_cancel s i c :
  pool_inv s → callers s !! i = Some c →
  pool_inv (mkSystem (st s) (<[i := mkCaller (pc c) (snd (cancel (slot c)))]> (callers s))
              (reaper s) (clock s) (next_sid s) (refusals s)).
Proof.
  intros Hinv Hi. pose proof (slot_ok_cancelled _ (slot_ok_at _ _ _ Hinv Hi)) as Hok.
  set (c' := mkCaller (pc c) (snd (cancel (slot c)))) in *.
  assert (∀ f, (∀ a b, pc a = pc b → f a = f b) →
    count f (<[i := c']> (callers s)) = count f (callers s)) as Hcount.
  { intros f Hf. rewrite (count_insert _ _ _ _ _ Hi), (Hf c' c) by done. lia. }
  destruct Hinv as [Ho Hm H1 Hf Hs Hw Hl Hfl Hrf].
  assert (∀ a b, pc a = pc b → held a = held b) as Hheld
    by (intros [] [] ?; simpl in *; by subst).
  assert (∀ x a b, pc a = pc b → holds x a = holds x b) as Hholds
    by (intros x a b E; unfold holds; by rewrite (Hheld _ _ E)).
  constructor; simpl in *; try done.
  - rewrite !Hcount; [done|..]; intros [] [] ?; simpl in *; by subst.
  - intros y. specialize (H1 y). unfold places in *; simpl in *. rewrite Hcount; auto.
  - intros y Hy. specialize (Hf y Hy). unfold places in *; simpl in *. rewrite Hcount; auto.
  - by apply Forall_insert.
  - rewrite !Hcount; [done|..]; intros [] [] ?; simpl in *; by subst.
Qed.

Lemma inv_step s s' : Concurrency_wf limits → pool_inv s → step limits s s' → pool_inv s'.
Proof.
  intros Hwf Hinv Hstep. destruct Hstep.
  - by apply inv_arrive.
  - destruct Hinv as [Ho Hm H1 Hf Hs Hw [Hl Hc] Hfl Hrf]. constructor; simpl in *; try done.
    split; [done|]. eapply Forall_impl; [exact Hc|]. simpl; lia.
  - by eapply inv_checkout.
  - pose proof (slot_ok_at _ _ _ Hinv H) as Hok. unfold slot_ok in Hok. rewrite H0 in Hok.
    destruct c as [p sl]; simpl in *; subst p. by eapply inv_simple_moves.
  - by eapply inv_grown.
  - by eapply inv_grow_refused.
  - pose proof (slot_ok_at _ _ _ Hinv H) as Hok. unfold slot_ok in Hok. rewrite H0 in Hok.
    destruct c as [p sl]; simpl in *; subst p.
    destruct Hok as [->| ->]; simpl in H1; simplify_eq; eapply inv_simple_moves; try done; by left.
  - pose proof (slot_ok_at _ _ _ Hinv H) as Hok. unfold slot_ok in Hok. rewrite H0 in Hok.
    destruct c as [p sl]; simpl in *; subst p. by eapply inv_simple_moves.
  - pose proof (slot_ok_at _ _ _ Hinv H) as Hok. unfold slot_ok in Hok. rewrite H0 in Hok.
    destruct c as [p sl]; simpl in *; subst p.
    eapply inv_simple_moves; try done. destruct Hok as [->| ->]; by simpl.
  - by eapply inv_give_back.
  - by eapply inv_notify.
  - by eapply inv_cancel.
  - by eapply inv_reap.
  - by eapply inv_reaped.
  - destruct Hinv. by constructor.
  - destruct Hinv as [Ho Hm H1 Hf Hs Hw Hl Hfl Hrf]. rewrite H in *.
    constructor; simpl in *; try done; intros y; [specialize (H1 y)|specialize (Hf y)];
      unfold places in *; simpl in *; by rewrite H in *.
Qed.

Lemma count_seq_eqb x k n : count (Nat.eqb x) (seq k n) ≤ 1.
Proof.
  revert k. induction n as [|n IH]; intros k; simpl; [lia|].
  destruct (Nat.eqb_spec x k) as [->|]; [|specialize (IH (S k)); lia].
  rewrite (proj2 (count_zero _ _)); [lia|].
  intros y Hy%elem_of_seq. apply Nat.eqb_neq. lia.
Qed.

Lemma inv_initial s : Concurrency_wf limits → initial limits s → pool_inv s.
Proof.
  intros (Hmin & H256 & _) (timeout & next & Hopen & Hcs & Hrf & Hnx & Hr).
  unfold SessionPool_open in Hopen. rewrite open_sessions_allocator in Hopen. simplify_eq.
  destruct s as [bst bcs brp bck bnx brf]; simpl in *. subst.
  assert (dying brp = []) as Hd by (destruct Hr as [->|[_ ->]]; done).
  constructor; unfold places, room; simpl; rewrite ?Hd; simpl.
  - rewrite length_fmap, length_seq. unfold MIN_COUNT in *. lia.
  - lia.
  - intros x. rewrite count_fmap. simpl. rewrite !Z.add_0_r. apply count_seq_eqb.
  - intros x Hx. rewrite count_fmap. simpl. rewrite (proj2 (count_zero _ _)); [lia|].
    intros y Hy%elem_of_seq. apply Nat.eqb_neq. lia.
  - done.
  - lia.
  - assert (∀ k n, lru_sorted ((λ s, Idle_taken s bck) <$> seq k n)) as Hsort.
    { intros k n. revert k. induction n as [|n IH]; intros k; [constructor|].
      constructor; [apply IH|]. apply Forall_fmap, Forall_forall. intros; simpl; lia. }
    split; [apply Hsort|]. apply Forall_fmap, Forall_forall. intros; simpl; lia.
  - lia.
  - done.
Qed.

Lemma inv_reachable s :
  Concurrency_wf limits → reachable (step limits) (initial limits) s → pool_inv s.
Proof.
  intros Hwf. apply invariant_reachable. split; eauto using inv_initial, inv_step.
Qed.
End invariant.

(** ** The pool's guarantees *)

Section guarantees.
Context (limits : Concurrency).

(** C1. Under every interleaving of callers, the reaper and engine refusals, the sessions that
    exist, are being opened or are being destroyed never outnumber the policy's maximum, and
    `open` counts exactly those. *)
Theorem pool_never_exceeds_its_ceiling (s : system) :
  Concurrency_wf limits → reachable (step limits) (initial limits) s →
  Z.of_nat (length (idle (st s))) + count holding (callers s) + count growing (callers s)
    + Z.of_nat (length (dying (reaper s))) = open (st s) ∧
  open (st s) ≤ conc_max limits.
Proof.
  intros Hwf Hr. pose proof (inv_reachable _ _ Hwf Hr) as H. split; [|apply H].
  rewrite (inv_open _ _ H). lia.
Qed.

Lemma count_two {A} (f : A → bool) (l : list A) i j a b :
  i ≠ j → l !! i = Some a → l !! j = Some b → f a = true → f b = true → 2 ≤ count f l.
Proof.
  intros Hne Hi Hj Ha Hb. destruct (list_insert_split _ _ _ Hi) as (l1 & l2 & -> & Hlen & _).
  rewrite count_app. simpl. rewrite Ha.
  assert (0 < count f l1 ∨ 0 < count f l2); [|pose proof (count_nonneg f l1);
    pose proof (count_nonneg f l2); lia].
  destruct (decide (j < i)%nat).
  - left. apply count_pos. exists b. split; [|done].
    rewrite lookup_app_l in Hj by lia. by eapply list_elem_of_lookup_2.
  - right. apply count_pos. exists b. split; [|done].
    rewrite lookup_app_r in Hj by lia. destruct (j - length l1)%nat as [|k] eqn:E; [lia|].
    simpl in Hj. by eapply list_elem_of_lookup_2.
Qed.

Lemma held_once s i c x :
  Concurrency_wf limits → reachable (step limits) (initial limits) s →
  callers s !! i = Some c → held c = Some x →
  (∀ j c', callers s !! j = Some c' → held c' = Some x → j = i) ∧
  x ∉ (idle_session <$> idle (st s)) ∧ x ∉ dying (reaper s).
Proof.
  intros Hwf Hr Hi Hx. pose proof (inv_reachable _ _ Hwf Hr) as Hinv.
  pose proof (inv_once _ _ Hinv x) as H1. unfold places in H1.
  assert (holds x c = true) as Hc by (unfold holds; rewrite Hx; apply Nat.eqb_refl).
  assert (0 < count (holds x) (callers s)) as Hpos.
  { apply count_pos. exists c. split; [by eapply list_elem_of_lookup_2|done]. }
  pose proof (count_nonneg (Nat.eqb x) (dying (reaper s))).
  pose proof (count_nonneg (λ e, Nat.eqb x (idle_session e)) (idle (st s))).
  split_and!.
  - intros j c' Hj Hx'. destruct (decide (j = i)) as [|Hne]; [done|]. exfalso.
    assert (2 ≤ count (holds x) (callers s)); [|lia].
    eapply (count_two _ _ j i c' c); eauto. unfold holds. rewrite Hx'. apply Nat.eqb_refl.
  - intros (e & -> & He)%list_elem_of_fmap.
    assert (0 < count (λ e', Nat.eqb (idle_session e) (idle_session e')) (idle (st s))); [|lia].
    apply count_pos. exists e. split; [done|apply Nat.eqb_refl].
  - intros Hin. assert (0 < count (Nat.eqb x) (dying (reaper s))); [|lia].
    apply count_pos. exists x. split; [done|apply Nat.eqb_refl].
Qed.

(** C12. No session is ever in two places: at most one of the idle list, a caller and the reaper
    has it, so two commands never share a session. *)
Theorem a_session_has_one_owner (s : system) (i j : nat) (c c' : caller) (x : sid) :
  Concurrency_wf limits → reachable (step limits) (initial limits) s →
  callers s !! i = Some c → held c = Some x →
  (callers s !! j = Some c' → held c' = Some x → j = i) ∧
  x ∉ (idle_session <$> idle (st s)) ∧ x ∉ dying (reaper s).
Proof. intros Hwf Hr Hi Hx. destruct (held_once s i c x) as (? & ? & ?); eauto. Qed.

(** C2. Whenever cancelling a slot would interrupt a session, the caller that owns the slot is
    inside its command on that very session and nobody else has it. *)
Theorem an_interrupt_hits_only_its_own_command (s : system) (i : nat) (c : caller) (x : sid) :
  Concurrency_wf limits → reachable (step limits) (initial limits) s →
  callers s !! i = Some c → fst (cancel (slot c)) = Some x →
  (pc c = PRun x ∨ pc c = PRan x) ∧
  (∀ j c', callers s !! j = Some c' → held c' = Some x → j = i) ∧
  x ∉ (idle_session <$> idle (st s)) ∧ x ∉ dying (reaper s).
Proof.
  intros Hwf Hr Hi Hcancel. pose proof (inv_reachable _ _ Hwf Hr) as Hinv.
  pose proof (slot_ok_at _ _ _ _ Hinv Hi) as Hok.
  assert (slot c = Running x) as Hslot by (destruct (slot c); by simplify_eq/=).
  assert (pc c = PRun x ∨ pc c = PRan x) as Hpc.
  { unfold slot_ok in Hok. rewrite Hslot in Hok.
    destruct (pc c); try (by destruct Hok); try (by destruct (Hok x));
      destruct Hok; simplify_eq; auto. }
  split; [done|]. apply (held_once s i c); [done..|].
  unfold held. by destruct Hpc as [-> | ->].
Qed.

(** A caller parked for a session while the pool has room for it always has a wakeup on its
    way: no notification is lost. *)
Theorem no_parked_caller_is_stranded (s : system) :
  Concurrency_wf limits → reachable (step limits) (initial limits) s →
  0 < count parked (callers s) →
  (room limits s ≤ count signalled (callers s) + count notifying (callers s)) ∧
  (0 < count holding (callers s) + count growing (callers s)
         + Z.of_nat (length (dying (reaper s)))
   ∨ 0 < count signalled (callers s) + count notifying (callers s)) ∧
  (0 < room limits s → ∀ turn st', checkout (conc_max limits) (st s) = (turn, st') → turn ≠ Wait).
Proof.
  intros Hwf Hr Hp. pose proof (inv_reachable _ _ Hwf Hr) as Hinv.
  pose proof (inv_wakeup _ _ Hinv Hp) as Hw. pose proof (inv_open _ _ Hinv) as Ho.
  pose proof (inv_max _ _ Hinv) as Hm. destruct Hwf as ((Hmin & Hminmax) & _).
  unfold room, MIN_COUNT in *. split_and!; [lia|lia|].
  intros Hroom turn st' Hco ->. apply checkout_cases in Hco as (_ & He & Hge & _).
  rewrite He in *. simpl in *. lia.
Qed.

(** C16. The sessions there are to run commands on, free or with a caller, fall short of the
    policy's minimum by no more than the opens under way and the opens the engine has refused so
    far; while it has refused none and none is under way there are never fewer than the minimum.
    *)
Theorem the_pool_is_short_of_its_floor_only_by_opens (s : system) :
  Concurrency_wf limits → reachable (step limits) (initial limits) s →
  conc_min limits ≤ existing s + count growing (callers s) + refusals s ∧
  (refusals s = 0 → count growing (callers s) = 0 → conc_min limits ≤ existing s).
Proof.
  intros Hwf Hr. pose proof (inv_reachable _ _ Hwf Hr) as Hinv.
  pose proof (inv_floor _ _ Hinv). pose proof (inv_open _ _ Hinv). unfold existing. lia.
Qed.

(** The idle list is ordered oldest return first, which is what the reaper relies on to close
    the sessions the pool has needed least. *)
Lemma the_idle_list_is_lru_ordered (s : system) :
  Concurrency_wf limits → reachable (step limits) (initial limits) s → lru_sorted (idle (st s)).
Proof. intros Hwf Hr. apply (inv_reachable _ _ Hwf Hr). Qed.
End guarantees.

(** ** Concrete runs *)

(** An elastic pool of one to two sessions, idle for at most a millisecond. *)
Definition small_pool : Concurrency := mkConcurrency 1 2 (Some 1000000).

Lemma small_pool_wf : Concurrency_wf small_pool.
Proof. vm_compute. repeat split; discriminate. Qed.

(** Three callers: the first two have both sessions, the second by growing, and the first of
    them is running its command; the third is parked. *)
Definition busy_schedule : list action :=
  [AArrive; AArrive; AArrive; ACheckout 0; AStart 0; ACheckout 1; AGrown 1; ACheckout 2].

Definition busy_pool : system :=
  mkSystem (mkState [] 2 false)
    [mkCaller (PRun 0) (Running 0%nat); mkCaller (PHold 1) Waiting; mkCaller PParked Waiting]
    RWait 0 2 0.

Lemma busy_pool_reachable : reachable (step small_pool) (initial small_pool) busy_pool.
Proof. apply (run_schedule_reachable _ 0 busy_schedule). vm_compute. reflexivity. Qed.

Lemma pool_ceiling_witness : 0 + 2 + 0 + 0 = 2 ∧ 2 ≤ 2.
Proof.
  apply (pool_never_exceeds_its_ceiling small_pool busy_pool small_pool_wf busy_pool_reachable).
Defined.

Lemma one_owner_witness : 0%nat ∉ (idle_session <$> idle (st busy_pool)).
Proof.
  destruct (a_session_has_one_owner small_pool busy_pool 0 1
    (mkCaller (PRun 0) (Running 0%nat)) (mkCaller (PHold 1) Waiting) 0
    small_pool_wf busy_pool_reachable) as (_ & H & _); [reflexivity|reflexivity|exact H].
Defined.

Lemma interrupt_witness :
  0%nat ∉ (idle_session <$> idle (st busy_pool)) ∧ 0%nat ∉ dying (reaper busy_pool).
Proof.
  destruct (an_interrupt_hits_only_its_own_command small_pool busy_pool 0
    (mkCaller (PRun 0) (Running 0%nat)) 0 small_pool_wf busy_pool_reachable) as (_ & _ & H);
    [reflexivity|reflexivity|exact H].
Defined.

Lemma stranded_witness :
  0 < count holding (callers busy_pool) + count growing (callers busy_pool)
        + Z.of_nat (length (dying (reaper busy_pool)))
  ∨ 0 < count signalled (callers busy_pool) + count notifying (callers busy_pool).
Proof.
  apply (no_parked_caller_is_stranded small_pool busy_pool small_pool_wf busy_pool_reachable).
  vm_compute. reflexivity.
Defined.

Lemma floor_witness : 1 ≤ existing busy_pool.
Proof.
  destruct (the_pool_is_short_of_its_floor_only_by_opens small_pool busy_pool
              small_pool_wf busy_pool_reachable) as [_ Hfloor].
  apply Hfloor; reflexivity.
Defined.

(** The floor is lost when the engine refuses a session: the second caller reserves one while
    the first has the only session out; the first returns it and it idles past the timeout
    while the open is still under way; the reaper counts the reservation as a session the pool
    can spare and closes the idle one; and then the open fails. *)
Definition lost_floor_schedule : list action :=
  [AArrive; AArrive; ACheckout 0; ACheckout 1;
   AStart 0; ARan 0; ADisarm 0; AGiveBack 0; ANotify 0 0;
   AClock 1000000; AReap; AReaped; AGrowRefused 1; ANotify 1 0].

(** C17. The reaper counts a reservation as a session it can spare, so an open the engine then
    refuses leaves the pool below its floor. *)
Theorem a_refused_open_can_empty_the_pool_below_its_floor :
  ∃ s, reachable (step small_pool) (initial small_pool) s ∧
       (∀ c, c ∈ callers s → pc c = PDone) ∧ reaper s = RWait ∧
       open (st s) = 0 ∧ idle (st s) = [] ∧ open (st s) < conc_min small_pool.
Proof.
  eexists. split.
  { apply (run_schedule_reachable _ 0 lost_floor_schedule). vm_compute. reflexivity. }
  split_and!; try done.
  intros c Hc. repeat (apply elem_of_cons in Hc as [->|Hc]; [done|]). by apply not_elem_of_nil in Hc.
Qed.

(** Before the open is refused, and even if it is not, the pool is below its floor already for as
    long as the open takes. *)
Lemma the_pool_is_empty_while_its_reservation_opens :
  ∃ s, reachable (step small_pool) (initial small_pool) s ∧ refusals s = 0 ∧
       existing s = 0 ∧ existing s < conc_min small_pool ∧ count growing (callers s) = 1.
Proof.
  eexists. split.
  { apply (run_schedule_reachable _ 0 (take 12 lost_floor_schedule)). vm_compute. reflexivity. }
  by vm_compute.
Qed.
