(* ===== verification/SessionPoolLive.v ===== *)
(** * The session pool serves every caller

    Liveness of the system of [SessionPool]: with no further callers arriving, every schedule of
    the callers, the engine's answers and the reaper does a bounded amount of work, and where no
    work is left every caller has been through. And what the pool promises the async workers
    that drive it: with no more commands under way than it may open sessions, only a session
    being destroyed can make one of them wait.

    The bound is a budget: each caller pays for the steps of one checkout, each session for one
    destruction by the reaper, and a destruction for waking every parked caller. *)
From Stdlib Require Import Sorted.
From S2P Require Import Prelude EngineOptions Options Slot Reaper SessionPool SessionPoolInv.

(** ** Work and what is left of it *)

(** The steps that bring a caller or the reaper further. Time passing, a cancel and a look at
    the idle list may happen any number of times between them. *)
Definition is_work (a : action) : bool :=
  match a with AArrive | AClock _ | ACancel _ | AReap => false | _ => true end.

Definition is_arrival (a : action) : bool := match a with AArrive => true | _ => false end.

(** What a session costs while it exists, with [n] callers. *)
Definition session_cost (n : nat) : nat := n + 2.

Definition work_left (n : nat) (p : caller_pc) : nat :=
  match p with
  | PEnter | PSignalled => 9 + session_cost n
  | PParked => 8 + session_cost n
  | PGrow => 7 + session_cost n
  | PHold _ => 6 + session_cost n
  | PRun _ => 5 + session_cost n
  | PRan _ => 4 + session_cost n
  | PRelease _ => 3 + session_cost n
  | PNotify => 2
  | PDone => 0
  end%nat.

Definition callers_left (n : nat) (cs : list caller) : nat :=
  sum_list_with (λ c, work_left n (pc c)) cs.

Definition reaper_left (n : nat) (r : reaper_pc) : nat :=
  match r with RDestroy _ => n + 1 | _ => 0 end.

Definition budget (s : system) : nat :=
  let n := length (callers s) in
  (callers_left n (callers s) + session_cost n * length (idle (st s))
   + reaper_left n (reaper s))%nat.

(** Everybody has been through and no session is being destroyed. *)
Definition at_rest (s : system) : Prop :=
  (∀ c, c ∈ callers s → pc c = PDone) ∧ dying (reaper s) = [].

(** ** The budget pays for every step *)

Lemma callers_left_split n l1 c l2 :
  callers_left n (l1 ++ c :: l2)
  = (callers_left n l1 + work_left n (pc c) + callers_left n l2)%nat.
Proof. unfold callers_left. rewrite sum_list_with_app. simpl. lia. Qed.

Lemma callers_left_insert n cs i c c' :
  cs !! i = Some c →
  (callers_left n (<[i := c']> cs) + work_left n (pc c)
   = callers_left n cs + work_left n (pc c'))%nat.
Proof. intros Hi. split_thread Hi. rewrite !callers_left_split. lia. Qed.

Lemma callers_left_move n cs i c c' :
  cs !! i = Some c → (work_left n (pc c') < work_left n (pc c))%nat →
  (callers_left n (<[i := c']> cs) < callers_left n cs)%nat.
Proof. intros Hi Hlt. pose proof (callers_left_insert n cs i c c' Hi). lia. Qed.

Lemma callers_left_notify n cs cs' :
  notify_one cs cs' →
  length cs' = length cs ∧ (callers_left n cs' ≤ callers_left n cs + 1)%nat.
Proof.
  intros H. destruct H as [|cs j c Hj Hp]; [split; [done|lia]|].
  pose proof (callers_left_insert n cs j c (with_pc c PSignalled) Hj) as E.
  rewrite Hp in E. simpl in E. split; [apply length_insert|lia].
Qed.

Lemma callers_left_notify_all n cs :
  (callers_left n (notify_all cs) ≤ callers_left n cs + length cs)%nat.
Proof.
  unfold callers_left, notify_all.
  induction cs as [|[[] sl] cs IH]; csimpl; lia.
Qed.

(** One caller moves on, perhaps with a session coming from or going to the idle list. *)
Lemma budget_move s i c c' st' next rf :
  let n := length (callers s) in
  callers s !! i = Some c →
  (work_left n (pc c') + session_cost n * length (idle st')
   < work_left n (pc c) + session_cost n * length (idle (st s)))%nat →
  length (<[i := c']> (callers s)) = length (callers s) ∧
  (budget (mkSystem st' (<[i := c']> (callers s)) (reaper s) (clock s) next rf) + 1
   ≤ budget s)%nat.
Proof.
  intros n Hi Hlt. pose proof (callers_left_insert n _ _ _ c' Hi).
  unfold budget; simpl. rewrite length_insert. fold n. lia.
Qed.

Lemma budget_checkout limits s i c turn st' :
  callers s !! i = Some c → pc c = PEnter ∨ pc c = PSignalled →
  checkout (conc_max limits) (st s) = (turn, st') →
  length (<[i := with_pc c (after_turn turn)]> (callers s)) = length (callers s) ∧
  (budget (mkSystem st' (<[i := with_pc c (after_turn turn)]> (callers s))
             (reaper s) (clock s) (next_sid s) (refusals s)) + 1 ≤ budget s)%nat.
Proof.
  intros Hi Hpc Hco. apply checkout_cases in Hco as [_ Hco].
  apply (budget_move _ _ c); [done|]. set (n := length (callers s)).
  assert (work_left n (pc c) = 9 + session_cost n)%nat as -> by (by destruct Hpc as [-> | ->]).
  destruct turn as [x| |]; simpl.
  - destruct Hco as (e & He & _). rewrite He, length_app. simpl. lia.
  - destruct Hco as (He & He' & _). rewrite He, He'. simpl. lia.
  - destruct Hco as (_ & _ & ->). lia.
Qed.

Lemma budget_reaped s expired :
  reaper s = RDestroy expired →
  (budget (mkSystem (State_closed (Z.of_nat (length expired)) (st s)) (notify_all (callers s))
             RWait (clock s) (next_sid s) (refusals s)) < budget s)%nat.
Proof.
  intros Hr. unfold budget; simpl. rewrite Hr. simpl.
  assert (length (notify_all (callers s)) = length (callers s)) as ->
    by apply length_fmap.
  pose proof (callers_left_notify_all (length (callers s)) (callers s)). lia.
Qed.

Lemma budget_reap limits s timeout expired wait st' :
  pool_inv limits s → 0 < timeout → reaper s = RWait →
  State_reap (conc_min limits) timeout (clock s) (st s) = (expired, wait, st') →
  (budget (mkSystem st' (callers s) (match expired with [] => RWait | _ => RDestroy expired end)
             (clock s) (next_sid s) (refusals s)) ≤ budget s)%nat.
Proof.
  intros Hinv Ht Hr Hreap.
  apply reap_facts in Hreap as (Hex & Hid & _); [|apply Hinv|done].
  assert (length expired ≤ length (idle (st s)))%nat as Hle.
  { rewrite Hex at 1. rewrite length_fmap, length_take. lia. }
  unfold budget; simpl. rewrite Hr, Hid, length_drop. unfold session_cost.
  destruct expired as [|x expired]; simpl in *; [nia|].
  destruct (length (idle (st s))); [lia|]. nia.
Qed.

Lemma budget_notify s i c j cs' :
  callers s !! i = Some c → pc c = PNotify →
  notify_choice j (<[i := with_pc c PDone]> (callers s)) = Some cs' →
  length cs' = length (callers s) ∧ (budget (with_callers s cs') + 1 ≤ budget s)%nat.
Proof.
  intros Hi Hpc Hn. set (n := length (callers s)).
  destruct (callers_left_notify n _ _ (notify_choice_sound _ _ _ Hn)) as [Hlen Hle].
  rewrite length_insert in Hlen. split; [done|].
  pose proof (callers_left_insert n _ _ _ (with_pc c PDone) Hi) as E. rewrite Hpc in E.
  unfold budget; simpl in *. rewrite Hlen. fold n. lia.
Qed.

(** Every step but an arrival leaves no more to do, and a step of work leaves less. *)
Lemma budget_step a limits s s' :
  Concurrency_wf limits → pool_inv limits s → is_arrival a = false →
  perform limits a s = Some s' →
  length (callers s') = length (callers s) ∧
  (budget s' + (if is_work a then 1 else 0) ≤ budget s)%nat.
Proof.
  intros Hwf Hinv Ha Hp. destruct a; try done; simpl in Hp |- *;
    repeat match goal with
    | H : (_ ≫= _) = Some _ |- _ => apply bind_Some in H as (? & ? & H)
    | H : (_ <$> _) = Some _ |- _ => apply fmap_Some in H as (? & ? & ->)
    | H : context [match pc ?x with _ => _ end] |- _ => destruct (pc x) eqn:?; simplify_eq
    | H : context [match ?x with _ => _ end] |- _ => destruct x eqn:?; simplify_eq
    end; simpl;
    try (eapply budget_checkout; eauto; fail);
    try (eapply budget_notify; eauto; fail);
    try (eapply budget_move; [eassumption|];
         repeat match goal with E : pc _ = _ |- _ => rewrite E end; simpl;
         rewrite ?length_app; simpl; lia).
  - split; [done|]. unfold budget; simpl. lia.
  - eapply budget_move; [eassumption|]. destruct b; rewrite Heqc; simpl; lia.
  - simplify_eq. pose proof (callers_left_insert (length (callers s)) _ _ _
      (mkCaller (pc x) (cancel (slot x)).2) H) as E. simpl in E.
    unfold budget; simpl. rewrite length_insert. split; [done|]. lia.
  - destruct Hwf as (_ & _ & Hto). rewrite Heqo in Hto. destruct Hto as [_ ?].
    split; [done|]. rewrite Nat.add_0_r. eapply budget_reap; eauto; lia.
  - split; [apply length_fmap|]. rewrite Nat.add_1_r. by apply budget_reaped.
Qed.

(** Over a whole schedule: what was done and what is left is no more than there was. *)
Lemma budget_schedule limits acts s s' :
  Concurrency_wf limits → pool_inv limits s → forallb (λ a, negb (is_arrival a)) acts = true →
  run_schedule limits acts s = Some s' →
  pool_inv limits s' ∧ count is_work acts + Z.of_nat (budget s') ≤ Z.of_nat (budget s).
Proof.
  intros Hwf. revert s. induction acts as [|a acts IH]; simpl; intros s Hinv Ha Hrun.
  { simplify_eq. split; [done|lia]. }
  apply andb_prop in Ha as [Ha Hacts]. apply negb_true_iff in Ha.
  apply bind_Some in Hrun as (s1 & H1 & H2).
  destruct (budget_step _ _ _ _ Hwf Hinv Ha H1) as [_ Hb].
  destruct (IH s1) as [? ?]; [eauto using inv_step, perform_sound|done|done|].
  split; [done|]. destruct (is_work a); lia.
Qed.

(** ** Nothing but rest is stuck *)

(** The work a caller outside the wait can always do next. *)
Definition next_work (i : nat) (c : caller) (cs : list caller) : option action :=
  match pc c with
  | PEnter | PSignalled => Some (ACheckout i)
  | PGrow => Some (AGrown i)
  | PHold _ => Some (AStart i)
  | PRun _ => Some (ARan i)
  | PRan _ => Some (ADisarm i)
  | PRelease _ => Some (AGiveBack i)
  | PNotify => Some (ANotify i (default 0%nat (fst <$> list_find is_parked cs)))
  | PParked | PDone => None
  end.

Lemma notify_choice_first (cs : list caller) :
  is_Some (notify_choice (default 0%nat (fst <$> list_find is_parked cs)) cs).
Proof.
  unfold notify_choice. destruct (list_find is_parked cs) as [[j c]|] eqn:E; simpl.
  - apply list_find_Some in E as (Hj & Hp & _). rewrite Hj.
    destruct (is_parked c); [by eexists|done].
  - apply list_find_None in E.
    assert (forallb (λ c, negb (is_parked c)) cs = true) as ->.
    { apply forallb_forall. intros c Hc%list_elem_of_In. rewrite Forall_forall in E.
      specialize (E c Hc). by destruct (is_parked c). }
    destruct (cs !! 0%nat) as [c|] eqn:E0; [|by eexists].
    destruct (is_parked c); by eexists.
Qed.

Lemma next_work_steps limits s i c a :
  callers s !! i = Some c →
  next_work i c (<[i := with_pc c PDone]> (callers s)) = Some a →
  is_work a = true ∧ is_Some (perform limits a s).
Proof.
  unfold next_work. intros Hi Ha.
  destruct (pc c) eqn:Hpc; simplify_eq; simpl; rewrite Hi; simpl; rewrite Hpc; split; try done;
    try (by eexists).
  - destruct (checkout _ _). by eexists.
  - destruct (checkout _ _). by eexists.
  - destruct (start _ _). by eexists.
  - apply fmap_is_Some, notify_choice_first.
Qed.

Lemma next_work_none i c cs : next_work i c cs = None → pc c = PParked ∨ pc c = PDone.
Proof. unfold next_work. destruct (pc c); auto; done. Qed.

(** With every caller parked or through, a parked one waits for a session being destroyed. *)
Lemma only_parked_waits_for_the_reaper limits s :
  Concurrency_wf limits → pool_inv limits s →
  (∀ c, c ∈ callers s → pc c = PParked ∨ pc c = PDone) →
  0 < count parked (callers s) → dying (reaper s) ≠ [].
Proof.
  intros ((Hmin & Hmm) & _) Hinv Hall Hp Hd.
  assert (∀ f, (∀ c, pc c = PParked ∨ pc c = PDone → f c = false) → count f (callers s) = 0) as H0.
  { intros f Hf. apply count_zero. intros c Hc. by apply Hf, Hall. }
  pose proof (inv_wakeup _ _ Hinv Hp) as Hw. pose proof (inv_open _ _ Hinv) as Ho.
  rewrite Hd in Ho. simpl in Ho. unfold room, MIN_COUNT in *.
  rewrite !H0 in Hw, Ho; [lia|..];
    intros [p sl] [Hc|Hc]; simpl in Hc; by subst.
Qed.

Definition moving (c : caller) : bool :=
  match pc c with PParked | PDone => false | _ => true end.

Lemma a_moving_caller_works limits s i c :
  callers s !! i = Some c → moving c = true →
  ∃ a s', is_work a = true ∧ perform limits a s = Some s'.
Proof.
  intros Hi Hm.
  destruct (next_work i c (<[i := with_pc c PDone]> (callers s))) as [a|] eqn:E.
  - destruct (next_work_steps limits s i c a Hi E) as [? [s' ?]]. eauto.
  - apply next_work_none in E as [E|E]; unfold moving in Hm; by rewrite E in Hm.
Qed.

Lemma work_or_rest limits s :
  Concurrency_wf limits → pool_inv limits s →
  (∃ a s', is_work a = true ∧ perform limits a s = Some s') ∨ at_rest s.
Proof.
  intros Hwf Hinv.
  assert (dying (reaper s) ≠ [] → ∃ a s', is_work a = true ∧ perform limits a s = Some s') as Hd.
  { intros H. destruct (reaper s) eqn:Hr; try done.
    eexists AReaped, _. split; [done|]. simpl. by rewrite Hr. }
  destruct (decide (dying (reaper s) = [])) as [Hnil|]; [|auto].
  destruct (Z_lt_le_dec 0 (count moving (callers s))) as [Hm|Hm].
  { apply count_pos in Hm as (c & [i Hi]%list_elem_of_lookup & Hm).
    left. eauto using a_moving_caller_works. }
  assert (∀ c, c ∈ callers s → pc c = PParked ∨ pc c = PDone) as Hall.
  { intros c Hc. assert (count moving (callers s) = 0) as H0
      by (pose proof (count_nonneg moving (callers s)); lia).
    rewrite count_zero in H0. specialize (H0 c Hc). unfold moving in H0.
    destruct (pc c); auto; done. }
  destruct (Z_lt_le_dec 0 (count parked (callers s))) as [Hp|Hp].
  { destruct (only_parked_waits_for_the_reaper limits s); done. }
  right. split; [|done]. intros c Hc. destruct (Hall c Hc) as [Hpc|]; [|done].
  assert (0 < count parked (callers s)); [|lia].
  apply count_pos. exists c. split; [done|]. unfold parked. by rewrite Hpc.
Qed.

Lemma work_arrives_nobody a : is_work a = true → is_arrival a = false.
Proof. by destruct a. Qed.

(** Working on for as long as there is work ends at rest. *)
Lemma working_ends_at_rest limits s :
  Concurrency_wf limits → pool_inv limits s →
  ∃ acts s', forallb is_work acts = true ∧ run_schedule limits acts s = Some s' ∧ at_rest s'.
Proof.
  intros Hwf. remember (budget s) as b eqn:Hb. revert s Hb.
  induction (lt_wf b) as [b _ IH]. intros s -> Hinv.
  destruct (work_or_rest limits s Hwf Hinv) as [(a & s1 & Ha & H1)|Hrest];
    [|by exists [], s].
  destruct (budget_step a limits s s1) as [_ Hlt]; [done..|by apply work_arrives_nobody|done|].
  rewrite Ha in Hlt.
  destruct (IH (budget s1) ltac:(lia) s1 eq_refl) as (acts & s' & Hw & Hrun & Hrest);
    [eauto using inv_step, perform_sound|].
  exists (a :: acts), s'. simpl. rewrite Ha, H1. done.
Qed.

(** ** What the pool promises its callers *)

Section service.
Context (limits : Concurrency).

(** C5. From every state the pool can be in, with nobody else arriving: whatever the callers,
    the engine and the reaper do and in whatever order, only so many steps of work happen; where
    no such step is possible every caller is through and no session is being destroyed; and
    taking them ends there. *)
Theorem every_caller_is_served (s : system) :
  Concurrency_wf limits → reachable (step limits) (initial limits) s →
  (∀ acts s', forallb (λ a, negb (is_arrival a)) acts = true →
    run_schedule limits acts s = Some s' →
    count is_work acts ≤ Z.of_nat (budget s) ∧
    ((∀ a, is_work a = true → perform limits a s' = None) → at_rest s')) ∧
  (∃ acts s', forallb is_work acts = true ∧ run_schedule limits acts s = Some s' ∧ at_rest s').
Proof.
  intros Hwf Hr. pose proof (inv_reachable _ _ Hwf Hr) as Hinv.
  split; [|by apply working_ends_at_rest].
  intros acts s' Ha Hrun. destruct (budget_schedule _ _ _ _ Hwf Hinv Ha Hrun) as [Hinv' Hb].
  split; [lia|]. intros Hstuck.
  destruct (work_or_rest limits s' Hwf Hinv') as [(a & s1 & Hw & H1)|]; [|done].
  by rewrite (Hstuck a Hw) in H1.
Qed.

(** The callers that have a command to run or running. *)
Definition under_way (c : caller) : bool := match pc c with PDone => false | _ => true end.

Lemma under_way_splits (cs : list caller) i c :
  cs !! i = Some c → pc c = PEnter ∨ pc c = PSignalled →
  count holding cs + count growing cs + 1 ≤ count under_way cs.
Proof.
  assert (∀ l, count holding l + count growing l ≤ count under_way l) as Hle.
  { induction l as [|[[] sl] l IH]; simpl; lia. }
  intros Hi Hpc. split_thread Hi. pose proof (Hle before). pose proof (Hle after).
  destruct c as [p sl]; simpl in Hpc. autorewrite with emongo.
  destruct Hpc; subst; simpl; lia.
Qed.

(** A pool of fixed size has no reaper thread. *)
Lemma no_timeout_no_reaper (s : system) :
  reachable (step limits) (initial limits) s →
  conc_idle_timeout limits = None → reaper s = RAbsent.
Proof.
  intros Hr Ht. revert Hr. apply (invariant_reachable _ _ (λ s, reaper s = RAbsent)). split.
  - intros s0 (timeout & next & Hopen & _ & _ & _ & Hr). unfold SessionPool_open in Hopen.
    rewrite open_sessions_allocator in Hopen. simplify_eq. destruct Hr as [|[? _]]; done.
  - intros s0 s1 H Hstep. destruct Hstep; simpl; congruence.
Qed.

(** C37. With no more commands under way than the policy allows sessions, one worker per
    session, a checkout waits only while the reaper is destroying sessions, and in a pool
    without a reaper it never waits. *)
Theorem workers_wait_only_for_the_reaper (s : system) (i : nat) (c : caller) st' :
  Concurrency_wf limits → reachable (step limits) (initial limits) s →
  count under_way (callers s) ≤ conc_max limits →
  callers s !! i = Some c → pc c = PEnter ∨ pc c = PSignalled →
  checkout (conc_max limits) (st s) = (Wait, st') →
  conc_idle_timeout limits ≠ None ∧ ∃ expired, reaper s = RDestroy expired ∧ expired ≠ [].
Proof.
  intros Hwf Hr Hn Hi Hpc Hco. pose proof (inv_reachable _ _ Hwf Hr) as Hinv.
  apply checkout_cases in Hco as (_ & He & Hge & _).
  pose proof (inv_open _ _ Hinv) as Ho. rewrite He in Ho. simpl in Ho.
  pose proof (under_way_splits _ _ _ Hi Hpc).
  assert (dying (reaper s) ≠ []) as Hd by (intros Hd; rewrite Hd in Ho; simpl in Ho; lia).
  split.
  - intros Ht. by rewrite (no_timeout_no_reaper s Hr Ht) in Hd.
  - destruct (reaper s); try done. eauto.
Qed.
End service.

(** ** Concrete runs *)

(** The state of [busy_pool]: two callers with a session each and a third one parked. *)
Lemma served_witness :
  budget busy_pool = 34%nat ∧
  ∃ acts s', forallb is_work acts = true ∧ run_schedule small_pool acts busy_pool = Some s' ∧
    at_rest s'.
Proof.
  split; [reflexivity|].
  apply (every_caller_is_served small_pool busy_pool small_pool_wf busy_pool_reachable).
Defined.

(** A worker that waits although there are only as many workers as the policy allows sessions:
    two callers use both sessions and return them, both idle past the timeout, and the reaper
    closes one to get back to its floor. While it is still destroying it the two are back: the
    first takes the session that is left, and the second finds the pool full -- the session
    being destroyed still counts -- and parks. *)
Definition waiting_worker_schedule : list action :=
  [AArrive; AArrive; ACheckout 0; ACheckout 1; AGrown 1;
   AStart 0; ARan 0; ADisarm 0; AGiveBack 0; ANotify 0 0;
   AStart 1; ARan 1; ADisarm 1; AGiveBack 1; ANotify 1 0;
   AClock 1000000; AReap; AArrive; AArrive; ACheckout 2].

Definition waiting_worker : system :=
  mkSystem (mkState [] 2 false)
    [mkCaller PDone Finished; mkCaller PDone Finished; mkCaller (PHold 1) Waiting;
     mkCaller PEnter Waiting]
    (RDestroy [0%nat]) 1000000 2 0.

Lemma waiting_worker_reachable :
  reachable (step small_pool) (initial small_pool) waiting_worker.
Proof. apply (run_schedule_reachable _ 0 waiting_worker_schedule). vm_compute. reflexivity. Qed.

Lemma waiting_worker_witness :
  count under_way (callers waiting_worker) = 2 ∧
  fst (checkout (conc_max small_pool) (st waiting_worker)) = Wait ∧
  ∃ expired, reaper waiting_worker = RDestroy expired ∧ expired ≠ [].
Proof.
  split; [reflexivity|]. split; [reflexivity|].
  apply (workers_wait_only_for_the_reaper small_pool waiting_worker 3 (mkCaller PEnter Waiting)
           (st waiting_worker) small_pool_wf waiting_worker_reachable);
    [vm_compute; discriminate|reflexivity|left; reflexivity|reflexivity].
Defined.
