(* ===== verification/Errors.v ===== *)
(** * The crate's error type

    [src/error.rs] and [embedded-mongodb-sys/src/error.rs]. What the errors of other packages
    carry is abstract: [BE] is [bson]'s error, [IOE] the standard library's I/O error, [X] the
    exception [cxx] caught, [D] a BSON document. *)
From stdpp Require Import pretty.
From S2P Require Import Prelude EngineOptions Options.

(** [embedded_mongodb_sys::Error] *)
Inductive NativeError (X : Type) : Type :=
| NativeClosed
| NativeException (exception : X).
Arguments NativeClosed {X}.
Arguments NativeException {X} exception.

(** [embedded_mongodb::Error] *)
Inductive Error (BE IOE X D : Type) : Type :=
| BsonError (e : BE)
| Closed
| EngineThread (e : IOE)
| FreeDiskFloorNotRestored (requested : FreeDiskFloor) (cause rollback : Error BE IOE X D)
| InvalidArgument (message : string)
| InvalidResponse (message : string)
| Native (e : NativeError X)
| NonUtf8Path
| Server (code : option Z) (message : string) (response : D).
Arguments BsonError {BE IOE X D} e.
Arguments Closed {BE IOE X D}.
Arguments EngineThread {BE IOE X D} e.
Arguments FreeDiskFloorNotRestored {BE IOE X D} requested cause rollback.
Arguments InvalidArgument {BE IOE X D} message.
Arguments InvalidResponse {BE IOE X D} message.
Arguments Native {BE IOE X D} e.
Arguments NonUtf8Path {BE IOE X D}.
Arguments Server {BE IOE X D} code message response.

(** [impl From<embedded_mongodb_sys::Error> for Error] *)
Definition Error_from_native {BE IOE X D : Type} (e : NativeError X) : Error BE IOE X D :=
  match e with
  | NativeClosed => Closed
  | e => Native e
  end.

(** A closed native client is never reported as [Native]: [Error::Closed] is its one spelling. *)
Lemma Error_from_native_never_closed {BE IOE X D} (e : NativeError X) :
  Error_from_native (BE:=BE) (IOE:=IOE) (D:=D) e ≠ Native NativeClosed.
Proof. by destruct e. Qed.

(** ** [Display]: what the errors of other packages say of themselves is given *)

Section display.
Context {BE IOE X D : Type} (bson_text : BE → string) (io_text : IOE → string) (what : X → string).

Definition NativeError_to_string (e : NativeError X) : string :=
  match e with
  | NativeClosed => "embedded MongoDB client is closed"
  | NativeException exception => "embedded MongoDB error: " +:+ what exception
  end.

Fixpoint Error_to_string (e : Error BE IOE X D) : string :=
  match e with
  | BsonError e => "BSON error: " +:+ bson_text e
  | Closed => "embedded MongoDB client is closed"
  | EngineThread e => "could not start an embedded MongoDB worker thread: " +:+ io_text e
  | FreeDiskFloorNotRestored requested cause rollback =>
      "the free disk floor could not be moved to " +:+ pretty (floor_mebibytes requested)
        +:+ " MiB and the floors could not be put back either, so the engine is on floors nobody "
        +:+ "chose -- the move failed with: " +:+ Error_to_string cause
        +:+ "; putting them back failed with: " +:+ Error_to_string rollback
  | InvalidArgument message => message
  | InvalidResponse message => "invalid embedded MongoDB response: " +:+ message
  | Native e => NativeError_to_string e
  | NonUtf8Path => "database path is not valid UTF-8"
  | Server code message _ =>
      "MongoDB error" +:+ match code with Some code => " " +:+ pretty code | None => "" end
        +:+ ": " +:+ message
  end.
End display.
