(* ===== verification/WorkerState.v ===== *)
(** * What the async worker pool decides, and the counts it decides from

    [src/nonblocking/state.rs]. Every operation happens with the pool's mutex held, so each is
    a function on the state. The counts are [u32]s; [VecDeque] is a list with its front first.
    [R] is the operation a [Run] job carries, [SH] the shared close rendezvous a [Stop] carries
    and [C] a handle on the engine ([Arc<C>]). *)
From S2P Require Import Prelude EngineOptions Options Errors.

Inductive Job (R SH : Type) : Type :=
| Run (operation : R)
| Stop (shutdown : SH).
Arguments Run {R SH} operation.
Arguments Stop {R SH} shutdown.

Inductive Phase := Open | Closing | Abandoned.

#[export] Instance Phase_eq_dec : EqDecision Phase.
Proof. solve_decision. Defined.

Record Spawn (C : Type) := mkSpawn { spawn_client : C; spawn_index : Z }.
Arguments mkSpawn {C} _ _.

Record WState (R SH C : Type) := mkWState {
  queue : list (Job R SH);
  alive : Z;
  pending : Z;
  widle : Z;
  started : Z;
  phase : Phase;
  client : option C;
}.
Arguments mkWState {R SH C} _ _ _ _ _ _ _.
Arguments queue {R SH C} _.
Arguments alive {R SH C} _.
Arguments pending {R SH C} _.
Arguments widle {R SH C} _.
Arguments started {R SH C} _.
Arguments phase {R SH C} _.
Arguments client {R SH C} _.

Section state.
Context {R SH C BE IOE X D : Type}.
Implicit Types (st : WState R SH C).
Local Abbreviation error := (Error BE IOE X D).

Definition WState_new : WState R SH C := mkWState [] 0 0 0 0 Open None.

Definition reserve st : Z * WState R SH C :=
  (started st,
   mkWState (queue st) (u32_add (alive st) 1) (u32_add (pending st) 1) (widle st)
     (u32_add (started st) 1) (phase st) (client st)).

Definition arrived st : WState R SH C :=
  mkWState (queue st) (alive st) (u32_sub (pending st) 1) (widle st)
    (started st) (phase st) (client st).

(** Gives back the count of a worker that failed to start, and the rendezvous of the [Stop]
    queued for it, which is at the back of the queue while a close is under way. *)
Definition spawn_failed st : option SH * WState R SH C :=
  let st := mkWState (queue st) (u32_sub (alive st) 1) (u32_sub (pending st) 1) (widle st)
              (started st) (phase st) (client st) in
  match phase st with
  | Closing =>
      match last (queue st) with
      | Some (Stop shutdown) =>
          (Some shutdown,
           mkWState (take (length (queue st) - 1) (queue st)) (alive st) (pending st) (widle st)
             (started st) (phase st) (client st))
      | Some (Run _) => (None, st)   (* popped and pushed back *)
      | None => (None, st)
      end
  | Open | Abandoned => (None, st)
  end.

Definition publish (c : C) st : WState R SH C :=
  if decide (phase st = Open) then
    mkWState (queue st) (alive st) (pending st) (widle st) (started st) (phase st) (Some c)
  else st.

(** Workers whose threads are running: waiting for a job or inside one. *)
Definition serving st : Z := u32_sub (alive st) (pending st).

(** Whether the queue holds more work than the workers free, or on their way, can pick up. *)
Definition wants_worker (max : Z) st : bool :=
  (alive st <? max) && (u32_add (widle st) (pending st) <? Z.of_nat (length (queue st))).

Definition queue_job (job : Job R SH) (max : Z) st
    : result error (option (Spawn C)) * WState R SH C :=
  if decide (phase st = Open) then
    let st := mkWState (queue st ++ [job]) (alive st) (pending st) (widle st)
                (started st) (phase st) (client st) in
    if wants_worker max st then
      match client st with
      | Some c => let '(index, st) := reserve st in (Ok (Some (mkSpawn c index)), st)
      | None => (Ok None, st)
      end
    else (Ok None, st)
  else (Err Closed, st).

Definition waiting st : WState R SH C :=
  mkWState (queue st) (alive st) (pending st) (u32_add (widle st) 1)
    (started st) (phase st) (client st).

Definition resumed st : WState R SH C :=
  mkWState (queue st) (alive st) (pending st) (u32_sub (widle st) 1)
    (started st) (phase st) (client st).

(** The calling worker leaves, and gives its handle up under the same lock. *)
Definition retired (held : option C) st : option C * WState R SH C :=
  (None,
   mkWState (queue st) (u32_sub (alive st) 1) (pending st) (u32_sub (widle st) 1)
     (started st) (phase st) (client st)).

Definition take_job st : option (Job R SH) * WState R SH C :=
  match queue st with
  | job :: rest =>
      (Some job,
       mkWState rest (alive st) (pending st) (widle st) (started st) (phase st) (client st))
  | [] => (None, st)
  end.

Definition abandoned st : bool := bool_decide (phase st = Abandoned).

Definition sparable (min : Z) st : bool :=
  bool_decide (phase st = Open) && (min <? serving st).

(** Queues one [Stop] per live worker against a rendezvous built from the same count. *)
Definition begin_close (rendezvous : Z → SH) st : result error unit * WState R SH C :=
  if bool_decide (phase st ≠ Open) || (alive st =? 0) then (Err Closed, st)
  else
    let shutdown := rendezvous (alive st) in
    (Ok tt,
     mkWState (queue st ++ replicate (Z.to_nat (alive st)) (Stop shutdown))
       (alive st) (pending st) (widle st) (started st) Closing None).

Definition abandon st : WState R SH C :=
  if decide (phase st = Open) then
    mkWState (queue st) (alive st) (pending st) (widle st) (started st) Abandoned None
  else st.

End state.
