(* ===== verification/Shutdown.v ===== *)
(** * The rendezvous that turns N retiring workers into one engine close

    [src/nonblocking/shutdown.rs]. [H] is a handle on the engine ([Arc<BlockingClient>]).
    [retire] is two atomic steps -- the deposit under the vault's lock, then the counter's
    [fetch_sub] -- and, for the one worker whose decrement reaches zero, the close itself. *)
From S2P Require Import Prelude EngineOptions Options Errors.

Record Shutdown (H : Type) := mkShutdown {
  remaining : Z;       (* AtomicUsize *)
  handles : list H;    (* the vault *)
  reply : bool;        (* the reply channel has not been used yet *)
}.
Arguments mkShutdown {H} _ _ _.
Arguments remaining {H} _.
Arguments handles {H} _.
Arguments reply {H} _.

Section shutdown.
Context {H BE IOE X D : Type}.
Local Abbreviation error := (Error BE IOE X D).
Implicit Types (sh : Shutdown H).

Definition Shutdown_new (workers : Z) : Shutdown H := mkShutdown workers [] true.

Definition retire_deposit (c : H) sh : Shutdown H :=
  mkShutdown (remaining sh) (handles sh ++ [c]) (reply sh).

(** [fetch_sub(1) != 1]: whether the caller is the last one out. *)
Definition retire_count sh : bool * Shutdown H :=
  (remaining sh =? 1, mkShutdown (remaining sh - 1) (handles sh) (reply sh)).

(** The last worker's part: the vault is emptied, every handle in it but one is dropped, and
    [Arc::into_inner] of that one answers the client exactly when no other handle is left --
    [others] being the handles that are not in the vault. [closed] is what [Client::close]
    answers. The answer goes out on the reply channel if it has not been used. *)
Definition retire_last (others : Z) (closed : result error unit) sh
    : option (result error unit) * Shutdown H :=
  let result :=
    match last (handles sh) with
    | Some _ => if others + 1 =? 1 then closed else Err Closed
    | None => Err Closed
    end in
  (if reply sh then Some result else None, mkShutdown (remaining sh) [] false).
End shutdown.
