(* ===== verification/WorkerPool.v ===== *)
(** * The async worker pool, driven by any number of tasks and threads at once

    [src/nonblocking/queue.rs], [workers.rs] and [engine.rs] over the decisions of
    [WorkerState] and the rendezvous of [Shutdown].

    A worker is a program counter. The handles on the engine ([Arc<BlockingClient>]) are
    counted where the sources keep them: one in the pool's state, one with each worker that has
    not let go, the ones in the rendezvous's vault, and the one [start_worker] still has on its
    own stack for a moment after the thread it started is running. *)
From S2P Require Import Prelude EngineOptions Options Errors WorkerState Shutdown.

(** ** [Pool::next_job], one turn of its loop with the lock held *)

Section next_job.
Context {R SH C : Type}.
Implicit Types (st : WState R SH C).

Inductive Turn :=
| TurnJob (job : Job R SH)          (* a job, the worker counted as busy again *)
| TurnRetire                        (* [None]: the worker is gone and so is its handle *)
| TurnWait (sparable_since : option Z).  (* parks, with a deadline when one is set *)

Definition next_job_turn (limits : Concurrency) (sparable_since : option Z) (now : Z)
    (held : option C) st : Turn * option C * WState R SH C :=
  match take_job st with
  | (Some job, st) => (TurnJob job, held, resumed st)
  | (None, st) =>
      if abandoned st then
        let '(held, st) := retired held st in (TurnRetire, held, st)
      else
        match (if sparable (conc_min limits) st then conc_idle_timeout limits else None) with
        | None => (TurnWait None, held, st)
        | Some timeout =>
            let since := default now sparable_since in
            let remaining := saturating_sub timeout (now - since) in
            if remaining =? 0 then
              let '(held, st) := retired held st in (TurnRetire, held, st)
            else (TurnWait (Some since), held, st)
        end
  end.
End next_job.
Arguments TurnJob {R SH} job.
Arguments TurnRetire {R SH}.
Arguments TurnWait {R SH} sparable_since.

(** ** The system *)

Abbreviation job := (Job nat unit) (only parsing).
Abbreviation pool_state := (WState nat unit unit) (only parsing).

Inductive worker : Set :=
| WOpening (left : nat)  (* the first thread, with [left] workers of the floor to start *)
| WReserved              (* counted; its thread not started yet, its handle with the starter *)
| WStarting              (* the thread runs; [worker_ready] to come *)
| WReady                 (* between jobs, about to call [next_job] *)
| WParked (since : option Z)  (* waiting on [queued] *)
| WWoken (since : option Z)   (* woken or timed out, about to lock again *)
| WBusy (r : nat)        (* inside a job *)
| WStopping              (* took a [Stop]; [retire] to come *)
| WDeposited             (* its handle is in the vault; the decrement to come *)
| WGone.

#[export] Instance worker_eq_dec : EqDecision worker.
Proof. solve_decision. Defined.

Record wsystem := mkWSystem {
  pool : pool_state;
  workers : list worker;
  rendezvous : option (Shutdown unit);
  opened : bool;         (* the open has reported, so callers have the engine *)
  notifies : Z;          (* dispatchers between their unlock and their [notify_one] *)
  notify_all_due : bool; (* a close or an abandon between its unlock and its [notify_all] *)
  lingering : Z;         (* handles on the stacks of [start_worker] calls about to return *)
  wclock : Z;
  outcome : option (result (Error unit unit unit unit) unit);  (* what the close reported *)
  accepted : list nat;   (* ghost: the jobs queued, in order *)
  taken : list nat;      (* ghost: the jobs workers took, in order *)
}.

(** Whether a worker has a handle on the engine. *)
Definition has_handle (w : worker) : bool :=
  match w with WDeposited | WGone => false | _ => true end.

Definition is_wparked (w : worker) : bool := match w with WParked _ => true | _ => false end.

Definition wake (w : worker) : worker := match w with WParked since => WWoken since | _ => w end.

(** [Condvar::notify_one] on [queued]. *)
Inductive wake_one : list worker → list worker → Prop :=
| wake_nobody ws : (∀ w, w ∈ ws → is_wparked w = false) → wake_one ws ws
| wake_somebody ws j since :
    ws !! j = Some (WParked since) → wake_one ws (<[j := WWoken since]> ws).

(** Handles on the engine that are not in the rendezvous's vault. *)
Definition handles_outside (p : pool_state) (ws : list worker) (linger : Z) : Z :=
  (match client p with Some _ => 1 | None => 0 end) + count has_handle ws + linger.

Section wsystem.
Context (limits : Concurrency).
(** What the engine's own close answers. *)
Context (closed : result (Error unit unit unit unit) unit).

Definition after_next_job (t : @Turn nat unit) : worker :=
  match t with
  | TurnJob (Run r) => WBusy r
  | TurnJob (Stop _) => WStopping
  | TurnRetire => WGone
  | TurnWait since => WParked since
  end.

Definition turn_takes (t : @Turn nat unit) : list nat :=
  match t with TurnJob (Run r) => [r] | _ => [] end.

Definition set_pool (s : wsystem) (p : pool_state) (ws : list worker) : wsystem :=
  mkWSystem p ws (rendezvous s) (opened s) (notifies s) (notify_all_due s) (lingering s)
    (wclock s) (outcome s) (accepted s) (taken s).

(** The opening thread starts the floor one [start_worker] call at a time, and publishes after
    the last of them has returned; while it does, nobody else starts any. *)
Definition opener_free (s : wsystem) : bool :=
  (lingering s =? 0) &&
  forallb (λ w, match w with WReserved => false | _ => true end) (workers s).

Inductive wstep : wsystem → wsystem → Prop :=
(* workers::start: the first thread has opened the engine and counts itself *)
| WSFirst s :
    workers s = [] → opened s = false →
    wstep s (set_pool s (snd (reserve (pool s))) [WOpening (Z.to_nat (conc_min limits - 1))])
| WSFloor s i left :
    workers s !! i = Some (WOpening (S left)) → opener_free s = true →
    wstep s (set_pool s (snd (reserve (pool s)))
               (<[i := WOpening left]> (workers s) ++ [WReserved]))
| WSPublish s i :
    workers s !! i = Some (WOpening 0) → opener_free s = true →
    wstep s (mkWSystem (publish tt (pool s)) (<[i := WStarting]> (workers s))
               (rendezvous s) true (notifies s) (notify_all_due s) (lingering s)
               (wclock s) (outcome s) (accepted s) (taken s))
(* start_worker *)
| WSSpawn s i :
    workers s !! i = Some WReserved →
    wstep s (mkWSystem (pool s) (<[i := WStarting]> (workers s))
               (rendezvous s) (opened s) (notifies s) (notify_all_due s) (lingering s + 1)
               (wclock s) (outcome s) (accepted s) (taken s))
| WSStartReturns s :
    0 < lingering s →
    wstep s (mkWSystem (pool s) (workers s)
               (rendezvous s) (opened s) (notifies s) (notify_all_due s) (lingering s - 1)
               (wclock s) (outcome s) (accepted s) (taken s))
| WSSpawnFails s i unclaimed p' :
    workers s !! i = Some WReserved → spawn_failed (pool s) = (unclaimed, p') →
    wstep s (mkWSystem p'
               (<[i := match unclaimed with Some _ => WStopping | None => WGone end]> (workers s))
               (rendezvous s) (opened s) (notifies s) (notify_all_due s)
               (match unclaimed with Some _ => lingering s | None => lingering s + 1 end)
               (wclock s) (outcome s) (accepted s) (taken s))
(* serve *)
| WSArrives s i :
    workers s !! i = Some WStarting →
    wstep s (set_pool s (arrived (pool s)) (<[i := WReady]> (workers s)))
| WSNextJob s i w now turn held' p' :
    workers s !! i = Some w → wclock s ≤ now →
    match w with
    | WReady => next_job_turn limits None now (Some tt) (waiting (pool s)) = (turn, held', p')
    | WWoken since => next_job_turn limits since now (Some tt) (pool s) = (turn, held', p')
    | _ => False
    end →
    wstep s (mkWSystem p' (<[i := after_next_job turn]> (workers s))
               (rendezvous s) (opened s) (notifies s) (notify_all_due s) (lingering s)
               now (outcome s) (accepted s) (taken s ++ turn_takes turn))
| WSWakes s i since :   (* a spurious wakeup or the deadline *)
    workers s !! i = Some (WParked since) →
    wstep s (set_pool s (pool s) (<[i := WWoken since]> (workers s)))
| WSJobDone s i r :     (* the job returned, or unwound and was caught *)
    workers s !! i = Some (WBusy r) →
    wstep s (set_pool s (pool s) (<[i := WReady]> (workers s)))
(* Shutdown::retire *)
| WSDeposit s i sh :
    workers s !! i = Some WStopping → rendezvous s = Some sh →
    wstep s (mkWSystem (pool s) (<[i := WDeposited]> (workers s))
               (Some (retire_deposit tt sh)) (opened s) (notifies s) (notify_all_due s)
               (lingering s) (wclock s) (outcome s) (accepted s) (taken s))
| WSCountOut s i sh sh' :
    workers s !! i = Some WDeposited → rendezvous s = Some sh →
    retire_count sh = (false, sh') →
    wstep s (mkWSystem (pool s) (<[i := WGone]> (workers s))
               (Some sh') (opened s) (notifies s) (notify_all_due s)
               (lingering s) (wclock s) (outcome s) (accepted s) (taken s))
| WSLastOut s i sh sh' answer sh'' :
    workers s !! i = Some WDeposited → rendezvous s = Some sh →
    retire_count sh = (true, sh') →
    retire_last (handles_outside (pool s) (workers s) (lingering s)) closed sh' = (answer, sh'') →
    wstep s (mkWSystem (pool s) (<[i := WGone]> (workers s))
               (Some sh'') (opened s) (notifies s) (notify_all_due s)
               (lingering s) (wclock s)
               (match answer with Some a => Some a | None => outcome s end)
               (accepted s) (taken s))
(* Engine::dispatch *)
| WSDispatch s r spawn p' :
    opened s = true →
    queue_job (BE:=unit) (IOE:=unit) (X:=unit) (D:=unit) (Run r) (conc_max limits) (pool s)
      = (Ok spawn, p') →
    wstep s (mkWSystem p'
               (workers s ++ match spawn with Some _ => [WReserved] | None => [] end)
               (rendezvous s) (opened s) (notifies s + 1) (notify_all_due s) (lingering s)
               (wclock s) (outcome s) (accepted s ++ [r]) (taken s))
| WSNotify s ws' :
    0 < notifies s → wake_one (workers s) ws' →
    wstep s (mkWSystem (pool s) ws' (rendezvous s) (opened s) (notifies s - 1)
               (notify_all_due s) (lingering s) (wclock s) (outcome s) (accepted s) (taken s))
(* Engine::close, and the drop of the last handle; where the pool is no longer open the drop
   only wakes its workers, which [WSWakes] already allows *)
| WSBeginClose s p' :
    opened s = true →
    begin_close (BE:=unit) (IOE:=unit) (X:=unit) (D:=unit) (λ _, tt) (pool s) = (Ok tt, p') →
    wstep s (mkWSystem p' (workers s) (Some (Shutdown_new (alive (pool s)))) (opened s)
               (notifies s) true (lingering s) (wclock s) (outcome s) (accepted s) (taken s))
| WSAbandon s :
    phase (pool s) = Open →
    wstep s (mkWSystem (abandon (pool s)) (workers s) (rendezvous s) (opened s)
               (notifies s) true (lingering s) (wclock s) (outcome s) (accepted s) (taken s))
| WSNotifyAll s :
    notify_all_due s = true →
    wstep s (mkWSystem (pool s) (wake <$> workers s) (rendezvous s) (opened s)
               (notifies s) false (lingering s) (wclock s) (outcome s) (accepted s) (taken s)).

Definition winitial (s : wsystem) : Prop :=
  s = mkWSystem WState_new [] None false 0 false 0 (wclock s) None [] [].

(** ** Running the system on a schedule *)

Inductive waction :=
| XFirst | XFloor (i : nat) | XPublish (i : nat)
| XSpawn (i : nat) | XStartReturns | XSpawnFails (i : nat)
| XArrives (i : nat) | XNextJob (i : nat) (now : Z) | XWakes (i : nat) | XJobDone (i : nat)
| XDeposit (i : nat) | XCountOut (i : nat)
| XDispatch (r : nat) | XNotify (j : nat) | XBeginClose | XAbandon | XNotifyAll.

Definition wake_choice (j : nat) (ws : list worker) : option (list worker) :=
  match ws !! j with
  | Some (WParked since) => Some (<[j := WWoken since]> ws)
  | _ => if forallb (λ w, negb (is_wparked w)) ws then Some ws else None
  end.

Definition wperform (a : waction) (s : wsystem) : option wsystem :=
  match a with
  | XFirst =>
      if decide (workers s = [] ∧ opened s = false) then
        Some (set_pool s (snd (reserve (pool s))) [WOpening (Z.to_nat (conc_min limits - 1))])
      else None
  | XFloor i =>
      match workers s !! i, opener_free s with
      | Some (WOpening (S n)), true =>
          Some (set_pool s (snd (reserve (pool s)))
                  (<[i := WOpening n]> (workers s) ++ [WReserved]))
      | _, _ => None
      end
  | XPublish i =>
      match workers s !! i, opener_free s with
      | Some (WOpening 0), true =>
          Some (mkWSystem (publish tt (pool s)) (<[i := WStarting]> (workers s))
                  (rendezvous s) true (notifies s) (notify_all_due s) (lingering s)
                  (wclock s) (outcome s) (accepted s) (taken s))
      | _, _ => None
      end
  | XSpawn i =>
      match workers s !! i with
      | Some WReserved =>
          Some (mkWSystem (pool s) (<[i := WStarting]> (workers s))
                  (rendezvous s) (opened s) (notifies s) (notify_all_due s) (lingering s + 1)
                  (wclock s) (outcome s) (accepted s) (taken s))
      | _ => None
      end
  | XStartReturns =>
      if decide (0 < lingering s) then
        Some (mkWSystem (pool s) (workers s)
                (rendezvous s) (opened s) (notifies s) (notify_all_due s) (lingering s - 1)
                (wclock s) (outcome s) (accepted s) (taken s))
      else None
  | XSpawnFails i =>
      match workers s !! i with
      | Some WReserved =>
          let '(unclaimed, p') := spawn_failed (pool s) in
          Some (mkWSystem p'
                  (<[i := match unclaimed with Some _ => WStopping | None => WGone end]>
                     (workers s))
                  (rendezvous s) (opened s) (notifies s) (notify_all_due s)
                  (match unclaimed with Some _ => lingering s | None => lingering s + 1 end)
                  (wclock s) (outcome s) (accepted s) (taken s))
      | _ => None
      end
  | XArrives i =>
      match workers s !! i with
      | Some WStarting =>
          Some (set_pool s (arrived (pool s)) (<[i := WReady]> (workers s)))
      | _ => None
      end
  | XNextJob i now =>
      if decide (wclock s ≤ now) then
        match workers s !! i with
        | Some WReady =>
            let '(turn, _, p') := next_job_turn limits None now (Some tt) (waiting (pool s)) in
            Some (mkWSystem p' (<[i := after_next_job turn]> (workers s))
                    (rendezvous s) (opened s) (notifies s) (notify_all_due s) (lingering s)
                    now (outcome s) (accepted s) (taken s ++ turn_takes turn))
        | Some (WWoken since) =>
            let '(turn, _, p') := next_job_turn limits since now (Some tt) (pool s) in
            Some (mkWSystem p' (<[i := after_next_job turn]> (workers s))
                    (rendezvous s) (opened s) (notifies s) (notify_all_due s) (lingering s)
                    now (outcome s) (accepted s) (taken s ++ turn_takes turn))
        | _ => None
        end
      else None
  | XWakes i =>
      match workers s !! i with
      | Some (WParked since) =>
          Some (set_pool s (pool s) (<[i := WWoken since]> (workers s)))
      | _ => None
      end
  | XJobDone i =>
      match workers s !! i with
      | Some (WBusy _) => Some (set_pool s (pool s) (<[i := WReady]> (workers s)))
      | _ => None
      end
  | XDeposit i =>
      match workers s !! i, rendezvous s with
      | Some WStopping, Some sh =>
          Some (mkWSystem (pool s) (<[i := WDeposited]> (workers s))
                  (Some (retire_deposit tt sh)) (opened s) (notifies s) (notify_all_due s)
                  (lingering s) (wclock s) (outcome s) (accepted s) (taken s))
      | _, _ => None
      end
  | XCountOut i =>
      match workers s !! i, rendezvous s with
      | Some WDeposited, Some sh =>
          let '(is_last, sh') := retire_count sh in
          if is_last : bool then
            let '(answer, sh'') :=
              retire_last (handles_outside (pool s) (workers s) (lingering s)) closed sh' in
            Some (mkWSystem (pool s) (<[i := WGone]> (workers s))
                    (Some sh'') (opened s) (notifies s) (notify_all_due s)
                    (lingering s) (wclock s)
                    (match answer with Some a => Some a | None => outcome s end)
                    (accepted s) (taken s))
          else
            Some (mkWSystem (pool s) (<[i := WGone]> (workers s))
                    (Some sh') (opened s) (notifies s) (notify_all_due s)
                    (lingering s) (wclock s) (outcome s) (accepted s) (taken s))
      | _, _ => None
      end
  | XDispatch r =>
      if decide (opened s = true) then
        match queue_job (BE:=unit) (IOE:=unit) (X:=unit) (D:=unit)
                (Run r) (conc_max limits) (pool s) with
        | (Ok spawn, p') =>
            Some (mkWSystem p'
                    (workers s ++ match spawn with Some _ => [WReserved] | None => [] end)
                    (rendezvous s) (opened s) (notifies s + 1) (notify_all_due s) (lingering s)
                    (wclock s) (outcome s) (accepted s ++ [r]) (taken s))
        | (Err _, _) => None
        end
      else None
  | XNotify j =>
      if decide (0 < notifies s) then
        ws' ← wake_choice j (workers s);
        Some (mkWSystem (pool s) ws' (rendezvous s) (opened s) (notifies s - 1)
                (notify_all_due s) (lingering s) (wclock s) (outcome s) (accepted s) (taken s))
      else None
  | XBeginClose =>
      if decide (opened s = true) then
        match begin_close (BE:=unit) (IOE:=unit) (X:=unit) (D:=unit) (λ _, tt) (pool s) with
        | (Ok _, p') =>
            Some (mkWSystem p' (workers s) (Some (Shutdown_new (alive (pool s)))) (opened s)
                    (notifies s) true (lingering s) (wclock s) (outcome s) (accepted s) (taken s))
        | (Err _, _) => None
        end
      else None
  | XAbandon =>
      if decide (phase (pool s) = Open) then
        Some (mkWSystem (abandon (pool s)) (workers s) (rendezvous s) (opened s)
                (notifies s) true (lingering s) (wclock s) (outcome s) (accepted s) (taken s))
      else None
  | XNotifyAll =>
      if notify_all_due s then
        Some (mkWSystem (pool s) (wake <$> workers s) (rendezvous s) (opened s)
                (notifies s) false (lingering s) (wclock s) (outcome s) (accepted s) (taken s))
      else None
  end.

Fixpoint wrun (acts : list waction) (s : wsystem) : option wsystem :=
  match acts with
  | [] => Some s
  | a :: acts' => wperform a s ≫= wrun acts'
  end.

Lemma wake_choice_sound j ws ws' : wake_choice j ws = Some ws' → wake_one ws ws'.
Proof.
  unfold wake_choice. intros H.
  assert (forallb (λ w, negb (is_wparked w)) ws = true → wake_one ws ws) as Hnobody.
  { intros Hf. constructor. intros w Hw. rewrite forallb_forall in Hf.
    specialize (Hf w (proj1 (list_elem_of_In _ _) Hw)). by destruct (is_wparked w). }
  repeat case_match; simplify_eq; auto. by constructor.
Qed.

Lemma wperform_sound a s s' : wperform a s = Some s' → wstep s s'.
Proof.
  destruct a; cbn [wperform]; intros H;
    repeat match goal with
    | H : (_ ≫= _) = Some _ |- _ => apply bind_Some in H as (? & ? & H)
    | H : match ?x with _ => _ end = Some _ |- _ => destruct x eqn:?
    end; simplify_eq; destruct_and?;
    try (by econstructor; eauto using wake_choice_sound).
  - by eapply (WSNextJob s i WReady).
  - by eapply (WSNextJob s i (WWoken _)).
  - destruct a. by eapply WSBeginClose.
Qed.

Lemma wrun_sound acts s s' : wrun acts s = Some s' → rtc wstep s s'.
Proof.
  revert s. induction acts as [|a acts IH]; simpl; intros s H; [by simplify_eq|].
  apply bind_Some in H as (s1 & H1 & H2). eapply rtc_l; eauto using wperform_sound.
Qed.

(** A pool whose open has just begun. *)
Definition opening_pool : wsystem := mkWSystem WState_new [] None false 0 false 0 0 None [] [].

Lemma wrun_reachable acts s :
  wrun acts opening_pool = Some s → reachable wstep winitial s.
Proof. intros H. exists opening_pool. split; [done|by eapply wrun_sound]. Qed.
End wsystem.
