(* ===== verification/WorkerPoolInv.v ===== *)
(** * What holds of the async worker pool under every interleaving

    The inductive invariant of the system of [WorkerPool], and what follows from it: the
    ceiling, that every accepted job is run in order and none is stranded, that a close ends
    and what it reports. *)
From S2P Require Import Prelude EngineOptions Options Errors WorkerState Shutdown WorkerPool.

(** ** What is counted *)

Definition w_opening (w : worker) : bool := match w with WOpening _ => true | _ => false end.
Definition w_reserved (w : worker) : bool := match w with WReserved => true | _ => false end.
Definition w_starting (w : worker) : bool := match w with WStarting => true | _ => false end.
Definition w_ready (w : worker) : bool := match w with WReady => true | _ => false end.
Definition w_woken (w : worker) : bool := match w with WWoken _ => true | _ => false end.
Definition w_busy (w : worker) : bool := match w with WBusy _ => true | _ => false end.
Definition w_stopping (w : worker) : bool := match w with WStopping => true | _ => false end.
Definition w_deposited (w : worker) : bool := match w with WDeposited => true | _ => false end.

(** Workers of the floor the opening thread has yet to start. *)
Fixpoint floor_left (ws : list worker) : Z :=
  match ws with
  | [] => 0
  | WOpening n :: ws' => Z.of_nat n + floor_left ws'
  | _ :: ws' => floor_left ws'
  end.

Lemma floor_left_app l1 l2 : floor_left (l1 ++ l2) = floor_left l1 + floor_left l2.
Proof. induction l1 as [|w l1 IH]; simpl; [done|]. destruct w; lia. Qed.

Lemma floor_left_nonneg ws : 0 ≤ floor_left ws.
Proof. induction ws as [|w ws IH]; simpl; [done|]. destruct w; lia. Qed.

#[local] Hint Rewrite floor_left_app : emongo.

(** Counted, and its thread not yet at the queue. *)
Definition on_their_way (ws : list worker) : Z :=
  count w_opening ws + count w_reserved ws + count w_starting ws.

Definition waiting_for_jobs (ws : list worker) : Z := count is_wparked ws + count w_woken ws.

Definition at_the_queue (ws : list worker) : Z :=
  count w_ready ws + waiting_for_jobs ws + count w_busy ws.

(** A thread that runs and will ask for a job. *)
Definition active (ws : list worker) : Z := count w_starting ws + at_the_queue ws.

(** Workers that have yet to take the [Stop] a close queues for them. *)
Definition live (ws : list worker) : Z := on_their_way ws + at_the_queue ws.

Definition leaving (ws : list worker) : Z := count w_stopping ws + count w_deposited ws.

(** The operations queued, in order. *)
Definition runs (q : list job) : list nat :=
  omap (λ j, match j with Run r => Some r | Stop _ => None end) q.

Definition stops_due (ph : Phase) (ws : list worker) : nat :=
  match ph with Closing => Z.to_nat (live ws) | _ => 0 end.

Definition rendezvous_ok (s : wsystem) : Prop :=
  match phase (pool s) with
  | Closing => ∃ sh, rendezvous s = Some sh ∧
      remaining sh = live (workers s) + leaving (workers s) ∧
      count w_deposited (workers s) ≤ Z.of_nat (length (handles sh)) ∧
      (if reply sh then 0 < remaining sh ∧ outcome s = None
       else remaining sh = 0 ∧ outcome s ≠ None)
  | _ => rendezvous s = None ∧ outcome s = None ∧ leaving (workers s) = 0
  end.

Lemma handles_held ws : count has_handle ws = live ws + count w_stopping ws.
Proof.
  unfold live, at_the_queue, waiting_for_jobs, on_their_way.
  induction ws as [|w ws IH]; simpl; [done|]. destruct w; simpl; lia.
Qed.

Lemma runs_app q1 q2 : runs (q1 ++ q2) = runs q1 ++ runs q2.
Proof. apply omap_app. Qed.

Lemma runs_fmap_Run rs : runs (Run <$> rs) = rs.
Proof. induction rs as [|r rs IH]; [done|]. unfold runs in *. csimpl. by rewrite IH. Qed.

Lemma runs_stops n : runs (replicate n (Stop tt)) = [].
Proof. by induction n. Qed.

#[local] Hint Rewrite runs_app runs_fmap_Run runs_stops : emongo.

(** In a queue of runs followed by stops, a stop at the head leaves only stops. *)
Lemma stop_at_head k (q : list job) :
  Stop tt :: q = (Run <$> runs q) ++ replicate k (Stop tt) →
  runs q = [] ∧ (0 < k)%nat ∧ q = replicate (k - 1) (Stop tt).
Proof.
  destruct (runs q) as [|r rs] eqn:E; csimpl; [|done].
  destruct k as [|k]; simpl; [done|]. intros [= ->]. rewrite Nat.sub_0_r. split_and!; [done|lia|done].
Qed.

Lemma wake_one_counts ws ws' (f : worker → bool) :
  (∀ since, f (WParked since) = f (WWoken since)) → wake_one ws ws' → count f ws' = count f ws.
Proof.
  intros Hf H. destruct H as [|ws j since Hj]; [done|]. split_thread Hj.
  rewrite !count_app; simpl. by rewrite Hf.
Qed.

Lemma wake_one_floor ws ws' : wake_one ws ws' → floor_left ws' = floor_left ws.
Proof.
  intros H. destruct H as [|ws j since Hj]; [done|]. split_thread Hj. by rewrite !floor_left_app.
Qed.

Lemma wake_one_wakes ws ws' :
  wake_one ws ws' →
  (count is_wparked ws = 0 ∧ ws' = ws) ∨
  (count is_wparked ws' = count is_wparked ws - 1 ∧ count w_woken ws' = count w_woken ws + 1).
Proof.
  intros H. destruct H as [ws Hn|ws j since Hj]; [left|right].
  - split; [|done]. by apply count_zero.
  - split_thread Hj. solve_counts.
Qed.

Lemma wake_all_counts ws (f : worker → bool) :
  (∀ since, f (WParked since) = f (WWoken since)) → count f (wake <$> ws) = count f ws.
Proof.
  intros Hf. rewrite count_fmap. apply count_ext. intros w _. destruct w; simpl; auto.
Qed.

Lemma wake_all_woken ws :
  count is_wparked (wake <$> ws) = 0 ∧
  count w_woken (wake <$> ws) = count is_wparked ws + count w_woken ws.
Proof.
  induction ws as [|w ws [IH1 IH2]]; csimpl; [done|]. destruct w; simpl; lia.
Qed.

Lemma wake_all_floor ws : floor_left (wake <$> ws) = floor_left ws.
Proof. induction ws as [|w ws IH]; csimpl; [done|]. destruct w; simpl; lia. Qed.

Lemma last_app_replicate {A} (l : list A) n x :
  (0 < n)%nat →
  last (l ++ replicate n x) = Some x ∧
  take (length (l ++ replicate n x) - 1) (l ++ replicate n x) = l ++ replicate (n - 1) x.
Proof.
  intros Hn. destruct n as [|n]; [lia|]. replace (S n - 1)%nat with n by lia.
  rewrite replicate_S_end, (assoc_L (++)). split; [by rewrite last_snoc|].
  rewrite length_app. simpl. rewrite take_app_le by lia. apply take_ge. lia.
Qed.

(** ** Arithmetic over the workers *)

(** Every count over the lists in sight is non-negative. *)
Ltac nonneg ws :=
  pose proof (count_nonneg w_opening ws); pose proof (count_nonneg w_reserved ws);
  pose proof (count_nonneg w_starting ws); pose proof (count_nonneg w_ready ws);
  pose proof (count_nonneg is_wparked ws); pose proof (count_nonneg w_woken ws);
  pose proof (count_nonneg w_busy ws); pose proof (count_nonneg w_stopping ws);
  pose proof (count_nonneg w_deposited ws); pose proof (floor_left_nonneg ws).

Ltac expand_counts :=
  unfold active, live, at_the_queue, waiting_for_jobs, on_their_way, leaving in *;
  autorewrite with emongo in *; simpl in *.

Ltac in_range :=
  unfold is_u32, u32_max, u32_modulus, MIN_COUNT, MAX_COUNT in *; expand_counts;
  repeat case_decide; lia.

Section invariant.
Context (limits : Concurrency) (closed : result (Error unit unit unit unit) unit).

Record wpool_inv (s : wsystem) : Prop := {
  wi_pending : pending (pool s) = on_their_way (workers s);
  wi_idle : widle (pool s) = waiting_for_jobs (workers s);
  wi_alive : if decide (phase (pool s) = Closing) then live (workers s) ≤ alive (pool s)
             else alive (pool s) = live (workers s);
  wi_max : alive (pool s) ≤ conc_max limits;
  wi_opening : if opened s then count w_opening (workers s) = 0
               else queue (pool s) = [] ∧ phase (pool s) ≠ Closing ∧
                    count w_opening (workers s) ≤ 1 ∧
                    alive (pool s) + floor_left (workers s) ≤ conc_min limits;
  wi_active : (opened s = true ∧ phase (pool s) = Open) ∨ runs (queue (pool s)) ≠ [] →
              0 < active (workers s);
  wi_wake : phase (pool s) = Open → 0 < count is_wparked (workers s) →
            Z.of_nat (length (queue (pool s))) ≤ count w_woken (workers s) + notifies s;
  wi_wake_all : phase (pool s) ≠ Open → notify_all_due s = false →
            count is_wparked (workers s) = 0;
  wi_queue : queue (pool s) =
    (Run <$> runs (queue (pool s))) ++ replicate (stops_due (phase (pool s)) (workers s)) (Stop tt);
  wi_ledger : accepted s = taken s ++ runs (queue (pool s));
  wi_rendezvous : rendezvous_ok s;
  wi_client : phase (pool s) ≠ Open → client (pool s) = None;
  wi_counts : 0 ≤ notifies s ∧ 0 ≤ lingering s;
}.

Context (Hwf : Concurrency_wf limits).

(** What the preservation lemmas take apart: the state, its invariant and the bounds. *)
Ltac open_state s :=
  let Hmin := fresh "Hmin" in let Hmax := fresh "Hmax" in
  destruct Hwf as (Hmin & Hmax & _); unfold MIN_COUNT, MAX_COUNT in Hmin, Hmax;
  destruct s as [[bq ba bp bi bs bph bc] bws brv bop bno bna bli bck bou bac bta];
  intros [Hpe Hid Hal Hmx Hop Hac Hwk Hwa Hqu Hle Hrv Hcl [Hno Hli]]; simpl in *.

(** Steps that move workers about without touching the queue, the phase or the rendezvous. *)
Lemma inv_shuffle s p' ws' no' na' li' ck' :
  wpool_inv s →
  queue p' = queue (pool s) → phase p' = phase (pool s) → client p' = client (pool s) →
  alive p' = alive (pool s) →
  pending p' = on_their_way ws' → widle p' = waiting_for_jobs ws' →
  live ws' = live (workers s) → leaving ws' = leaving (workers s) →
  count w_deposited ws' = count w_deposited (workers s) →
  count w_opening ws' = count w_opening (workers s) →
  floor_left ws' = floor_left (workers s) →
  active (workers s) ≤ active ws' →
  0 ≤ no' → 0 ≤ li' →
  (0 < count is_wparked ws' → 0 < count is_wparked (workers s) ∧
     count w_woken (workers s) + notifies s ≤ count w_woken ws' + no') →
  (na' = false → count is_wparked ws' = 0 ∨
     notify_all_due s = false ∧ count is_wparked ws' ≤ count is_wparked (workers s)) →
  wpool_inv (mkWSystem p' ws' (rendezvous s) (opened s) no' na' li' ck' (outcome s)
               (accepted s) (taken s)).
Proof.
  open_state s. destruct p' as [q' a' p' i' s' ph' c']; simpl in *.
  intros -> -> -> -> -> -> Hlv Hlg Hdp Hon Hfl Hact Hno' Hli' Hw Hwall.
  pose proof (count_nonneg is_wparked ws').
  constructor; simpl; try done.
  - case_decide; lia.
  - destruct bop; [lia|]. destruct_and!. split_and!; try done; lia.
  - intros Ho. specialize (Hac Ho). lia.
  - intros Ho Hp. destruct (Hw Hp) as [Hp' Hle']. specialize (Hwk Ho Hp'). lia.
  - intros Ho Hf. destruct (Hwall Hf) as [|[Hd Hle']]; [done|]. specialize (Hwa Ho Hd). lia.
  - rewrite Hqu at 1. unfold stops_due. by rewrite Hlv.
  - unfold rendezvous_ok in *; simpl in *. by rewrite Hlv, Hlg, Hdp.
Qed.

Ltac shuffle H :=
  apply (inv_shuffle _ _ _ _ _ _ _ H); simpl; try done; try (expand_counts; lia);
  try (intros ->; right; expand_counts; lia).

Lemma inv_wspawn s i :
  wpool_inv s → workers s !! i = Some WReserved →
  wpool_inv (mkWSystem (pool s) (<[i := WStarting]> (workers s))
               (rendezvous s) (opened s) (notifies s) (notify_all_due s) (lingering s + 1)
               (wclock s) (outcome s) (accepted s) (taken s)).
Proof.
  intros H Hi. pose proof H as H'. revert H'. open_state s. split_thread Hi. shuffle H.
Qed.

Lemma inv_start_returns s :
  wpool_inv s → 0 < lingering s →
  wpool_inv (mkWSystem (pool s) (workers s)
               (rendezvous s) (opened s) (notifies s) (notify_all_due s) (lingering s - 1)
               (wclock s) (outcome s) (accepted s) (taken s)).
Proof. intros H Hl. pose proof H as H'. revert H'. open_state s. shuffle H. Qed.

Lemma inv_arrives s i :
  wpool_inv s → workers s !! i = Some WStarting →
  wpool_inv (set_pool s (arrived (pool s)) (<[i := WReady]> (workers s))).
Proof.
  intros H Hi. pose proof H as H'. revert H'. open_state s. split_thread Hi.
  nonneg before. nonneg after. shuffle H. rewrite u32_sub_exact; in_range.
Qed.

Lemma inv_wakes s i since :
  wpool_inv s → workers s !! i = Some (WParked since) →
  wpool_inv (set_pool s (pool s) (<[i := WWoken since]> (workers s))).
Proof.
  intros H Hi. pose proof H as H'. revert H'. open_state s. split_thread Hi.
  nonneg before. nonneg after. shuffle H.
Qed.

Lemma inv_job_done s i r :
  wpool_inv s → workers s !! i = Some (WBusy r) →
  wpool_inv (set_pool s (pool s) (<[i := WReady]> (workers s))).
Proof.
  intros H Hi. pose proof H as H'. revert H'. open_state s. split_thread Hi. shuffle H.
Qed.

Lemma inv_wnotify s ws' :
  wpool_inv s → 0 < notifies s → wake_one (workers s) ws' →
  wpool_inv (mkWSystem (pool s) ws' (rendezvous s) (opened s) (notifies s - 1)
               (notify_all_due s) (lingering s) (wclock s) (outcome s) (accepted s) (taken s)).
Proof.
  intros H Hn Hw. pose proof H as H'. revert H'. open_state s. nonneg ws'.
  pose proof (wake_one_floor _ _ Hw).
  assert (∀ f, (∀ since, f (WParked since) = f (WWoken since)) → count f ws' = count f bws)
    as Hc by eauto using wake_one_counts.
  pose proof (Hc w_opening ltac:(done)). pose proof (Hc w_reserved ltac:(done)).
  pose proof (Hc w_starting ltac:(done)). pose proof (Hc w_ready ltac:(done)).
  pose proof (Hc w_busy ltac:(done)). pose proof (Hc w_stopping ltac:(done)).
  pose proof (Hc w_deposited ltac:(done)).
  destruct (wake_one_wakes _ _ Hw) as [[Hp0 ->]|[Hp Hk]]; shuffle H.
Qed.

Lemma inv_notify_all s :
  wpool_inv s →
  wpool_inv (mkWSystem (pool s) (wake <$> workers s) (rendezvous s) (opened s)
               (notifies s) false (lingering s) (wclock s) (outcome s) (accepted s) (taken s)).
Proof.
  intros H. pose proof H as H'. revert H'. open_state s.
  destruct (wake_all_woken bws) as [Hp Hk]. pose proof (wake_all_floor bws).
  pose proof (wake_all_counts bws) as Hc.
  pose proof (Hc w_opening ltac:(done)). pose proof (Hc w_reserved ltac:(done)).
  pose proof (Hc w_starting ltac:(done)). pose proof (Hc w_ready ltac:(done)).
  pose proof (Hc w_busy ltac:(done)). pose proof (Hc w_stopping ltac:(done)).
  pose proof (Hc w_deposited ltac:(done)). shuffle H.
Qed.

(** ** Opening the engine and its floor of workers *)

(** The fields a step touches only through the counts. *)
Ltac field :=
  unfold rendezvous_ok, stops_due in *; simpl in *; repeat case_decide;
  try match goal with
  | H : ?P → 0 < active _ |- ?P → 0 < active _ =>
      let HP := fresh in intros HP; specialize (H HP); expand_counts; lia
  | H : ∃ sh, ?r = Some sh ∧ _ |- ∃ sh, ?r = Some sh ∧ _ =>
      destruct H as (?sh & ? & ? & ? & ?); eexists; split_and!;
      [eassumption|expand_counts; lia..|done]
  end;
  intros; destruct_or?; destruct_and?; simplify_eq; split_and?;
  try done; try (expand_counts; lia); auto;
  try match goal with
  | H : ?P → ?Q → _ = 0 |- _ = 0 => specialize (H ltac:(done) ltac:(done)); expand_counts; lia
  | H : ?P → ?Q → Z.of_nat _ ≤ _ |- Z.of_nat _ ≤ _ =>
      specialize (H ltac:(done) ltac:(expand_counts; lia)); expand_counts; lia
  end.

(** The queue is as it was, and so is the number of stops in it. *)
Ltac same_stops Hqu := rewrite Hqu at 1; do 2 f_equal; expand_counts; lia.

Lemma inv_first s :
  wpool_inv s → workers s = [] → opened s = false →
  wpool_inv (set_pool s (snd (reserve (pool s)))
               [WOpening (Z.to_nat (conc_min limits - 1))]).
Proof.
  open_state s. intros -> ->. destruct Hop as (-> & Hph & _). expand_counts.
  rewrite decide_False in Hal by done.
  constructor; unfold set_pool, rendezvous_ok; simpl; rewrite ?u32_add_exact; try in_range; field.
  all: destruct bph; field.
Qed.

Lemma inv_floor s i n :
  wpool_inv s → workers s !! i = Some (WOpening (S n)) →
  wpool_inv (set_pool s (snd (reserve (pool s)))
               (<[i := WOpening n]> (workers s) ++ [WReserved])).
Proof.
  open_state s. intros Hi. split_thread Hi. nonneg before. nonneg after.
  assert (bop = false) as ->.
  { destruct bop; [|done]. expand_counts. lia. }
  destruct Hop as (-> & Hph & Ho1 & Hfl). rewrite decide_False in Hal by done.
  constructor; unfold set_pool, rendezvous_ok; simpl; rewrite ?u32_add_exact; try in_range; field.
  all: destruct bph; field.
Qed.

Lemma inv_publish s i :
  wpool_inv s → workers s !! i = Some (WOpening 0) →
  wpool_inv (mkWSystem (publish tt (pool s)) (<[i := WStarting]> (workers s))
               (rendezvous s) true (notifies s) (notify_all_due s) (lingering s)
               (wclock s) (outcome s) (accepted s) (taken s)).
Proof.
  open_state s. intros Hi. split_thread Hi. nonneg before. nonneg after.
  assert (bop = false) as ->.
  { destruct bop; [|done]. expand_counts. lia. }
  destruct Hop as (-> & Hph & Ho1 & Hfl). rewrite decide_False in Hal by done.
  unfold publish. simpl.
  constructor; case_decide; field.
  all: try destruct bph; field.
Qed.

(** A close under way has a [Stop] at the back of the queue for every live worker, so the
    branch that puts a popped [Run] back is never taken. *)
Lemma spawn_failed_cases s i :
  wpool_inv s → workers s !! i = Some WReserved →
  ∃ unclaimed q', spawn_failed (pool s) =
    (unclaimed, mkWState q' (alive (pool s) - 1) (pending (pool s) - 1) (widle (pool s))
                  (started (pool s)) (phase (pool s)) (client (pool s))) ∧
    runs q' = runs (queue (pool s)) ∧
    q' = (Run <$> runs q') ++ replicate (stops_due (phase (pool s)) (workers s) - 1) (Stop tt) ∧
    (unclaimed = None ↔ phase (pool s) ≠ Closing) ∧
    (length q' ≤ length (queue (pool s)))%nat.
Proof.
  open_state s. intros Hi. split_thread Hi. nonneg before. nonneg after.
  unfold spawn_failed; simpl. rewrite !u32_sub_exact by in_range.
  destruct bph; simpl in *.
  - eexists _, _. split; [done|]. split; [done|]. split; [done|]. done.
  - assert (0 < Z.to_nat (live (before ++ WReserved :: after)))%nat as Hk
      by (expand_counts; lia).
    pose proof (last_app_replicate (Run <$> runs bq) _ (Stop tt) Hk) as [Hlast Htake].
    rewrite <- Hqu in Hlast, Htake. rewrite Hlast, Htake.
    eexists _, _. split; [done|]. rewrite runs_app, runs_fmap_Run, runs_stops, app_nil_r.
    split; [done|]. split; [done|]. split; [done|].
    rewrite Hqu at 2. rewrite !length_app, !length_replicate. lia.
  - eexists _, _. split; [done|]. split; [done|]. split; [done|]. done.
Qed.

Lemma inv_spawn_fails s i unclaimed p' :
  wpool_inv s → workers s !! i = Some WReserved → spawn_failed (pool s) = (unclaimed, p') →
  wpool_inv (mkWSystem p'
               (<[i := match unclaimed with Some _ => WStopping | None => WGone end]> (workers s))
               (rendezvous s) (opened s) (notifies s) (notify_all_due s)
               (match unclaimed with Some _ => lingering s | None => lingering s + 1 end)
               (wclock s) (outcome s) (accepted s) (taken s)).
Proof.
  intros H Hi Hf. destruct (spawn_failed_cases s i H Hi) as (u & q' & Hf' & Hr & Hq & Hu & Hlen).
  rewrite Hf' in Hf. injection Hf as <- <-. revert H. open_state s.
  split_thread Hi. nonneg before. nonneg after.
  destruct u as [u|].
  - assert (bph = Closing) as ->. { destruct bph; try done; by destruct (proj2 Hu). }
    destruct bop; constructor; simpl; rewrite ?Hr; field.
    all: rewrite Hq at 1; rewrite Hr; do 2 f_equal; expand_counts; lia.
  - assert (bph ≠ Closing) as Hn by (by apply Hu).
    destruct bop, bph; try done; constructor; simpl; rewrite ?Hr; field.
    all: rewrite Hq; by rewrite Hr.
Qed.

(** ** A worker's turn at the queue *)

Lemma next_job_cases since now (st st' : pool_state) turn held' :
  is_u32 (widle st - 1) →
  next_job_turn limits since now (Some tt) st = (turn, held', st') →
  match turn with
  | TurnJob j => ∃ rest, queue st = j :: rest ∧
      st' = mkWState rest (alive st) (pending st) (widle st - 1) (started st) (phase st) (client st)
  | TurnRetire => queue st = [] ∧ held' = None ∧
      (phase st = Abandoned ∨ phase st = Open ∧ conc_min limits < serving st) ∧
      st' = mkWState [] (u32_sub (alive st) 1) (pending st) (widle st - 1) (started st)
              (phase st) (client st)
  | TurnWait _ => queue st = [] ∧ phase st ≠ Abandoned ∧ st' = st
  end.
Proof.
  intros Hi. unfold next_job_turn, take_job, retired, resumed, abandoned, sparable.
  destruct (queue st) as [|j rest] eqn:Hq; simpl; rewrite ?u32_sub_exact by done.
  - case_bool_decide as Ha.
    + intros [= <- <- <-]. split_and!; auto. by rewrite Hq, (u32_sub_exact (widle st)).
    + case_bool_decide as Ho; simpl; [|intros [= <- <- <-]; auto].
      destruct (conc_min limits <? serving st) eqn:Hs; simpl; [|intros [= <- <- <-]; auto].
      apply Z.ltb_lt in Hs.
      repeat case_match; intros; simplify_eq; split_and!; auto; by rewrite Hq, (u32_sub_exact (widle st)).
  - intros [= <- <- <-]. eauto.
Qed.

(** The worker that takes a turn, as the pool counts it while the turn lasts. *)
Definition at_turn (w : worker) (p : pool_state) : option pool_state :=
  match w with
  | WReady => Some (waiting p)
  | WWoken _ => Some p
  | _ => None
  end.

Lemma inv_takes_job s i w p j rest ck :
  wpool_inv s → workers s !! i = Some w → at_turn w (pool s) = Some p →
  queue p = j :: rest →
  wpool_inv (mkWSystem
    (mkWState rest (alive p) (pending p) (widle p - 1) (started p) (phase p) (client p))
    (<[i := after_next_job (TurnJob j)]> (workers s))
    (rendezvous s) (opened s) (notifies s) (notify_all_due s) (lingering s)
    ck (outcome s) (accepted s) (taken s ++ turn_takes (TurnJob j))).
Proof.
  open_state s. intros Hi Ht Hq. split_thread Hi. nonneg before. nonneg after.
  destruct j as [r|[]].
  - destruct w; simplify_eq/=; rewrite ?u32_add_exact in * by in_range;
      destruct bop, bph; constructor; field.
    all: try (by rewrite <- (assoc_L (++))).
    all: rewrite Hqu at 1; do 2 f_equal; expand_counts; lia.
  - destruct w; simplify_eq/=; rewrite ?u32_add_exact in * by in_range;
      apply stop_at_head in Hqu as (Hr & Hk & Hrest); rewrite Hr in *;
      destruct bop, bph; simpl in *; try lia; constructor; field.
    all: rewrite runs_stops; csimpl; rewrite ?app_nil_r; try done.
    all: f_equal; expand_counts; lia.
Qed.

Lemma inv_retires s i w p ck :
  wpool_inv s → workers s !! i = Some w → at_turn w (pool s) = Some p →
  queue p = [] → phase p = Abandoned ∨ phase p = Open ∧ conc_min limits < serving p →
  wpool_inv (mkWSystem
    (mkWState [] (u32_sub (alive p) 1) (pending p) (widle p - 1) (started p) (phase p) (client p))
    (<[i := WGone]> (workers s))
    (rendezvous s) (opened s) (notifies s) (notify_all_due s) (lingering s)
    ck (outcome s) (accepted s) (taken s ++ [])).
Proof.
  open_state s. intros Hi Ht Hq Hcase. split_thread Hi. nonneg before. nonneg after.
  destruct w; simplify_eq/=; destruct bph; destruct_or?; destruct_and?; try done;
    rewrite ?u32_add_exact in * by in_range; unfold serving in *; simpl in *;
    rewrite ?u32_sub_exact in * by in_range; rewrite ?app_nil_r;
    destruct bop; constructor; field.
  all: by rewrite app_nil_r.
Qed.

Lemma inv_parks s i w p since ck :
  wpool_inv s → workers s !! i = Some w → at_turn w (pool s) = Some p →
  queue p = [] → phase p ≠ Abandoned →
  wpool_inv (mkWSystem p (<[i := WParked since]> (workers s))
    (rendezvous s) (opened s) (notifies s) (notify_all_due s) (lingering s)
    ck (outcome s) (accepted s) (taken s ++ [])).
Proof.
  open_state s. intros Hi Ht Hq Hcase. split_thread Hi. nonneg before. nonneg after.
  destruct bph; [| |by destruct w; simplify_eq/=].
  2: { exfalso. assert (bq = []) as -> by (by destruct w; simplify_eq/=).
       simpl in Hqu. assert (Z.to_nat (live (before ++ w :: after)) = 0%nat) as Hz.
       { destruct (Z.to_nat _); done. }
       destruct w; simplify_eq/=; expand_counts; lia. }
  destruct w; simplify_eq/=;
    rewrite ?u32_add_exact in * by in_range; rewrite ?app_nil_r;
    destruct bop; constructor; field.
  all: first [by rewrite app_nil_r | rewrite u32_add_exact; in_range].
Qed.

(** ** Dispatch, close and abandon *)

Lemma inv_dispatch s r spawn p' :
  wpool_inv s → opened s = true →
  queue_job (BE:=unit) (IOE:=unit) (X:=unit) (D:=unit) (Run r) (conc_max limits) (pool s)
    = (Ok spawn, p') →
  wpool_inv (mkWSystem p'
    (workers s ++ match spawn with Some _ => [WReserved] | None => [] end)
    (rendezvous s) (opened s) (notifies s + 1) (notify_all_due s) (lingering s)
    (wclock s) (outcome s) (accepted s ++ [r]) (taken s)).
Proof.
  open_state s. intros -> Hq. nonneg bws. unfold queue_job in Hq; simpl in Hq.
  case_decide; [subst bph|done]. specialize (Hac ltac:(by left)).
  assert (bq = Run <$> runs bq) as Hruns by (by rewrite app_nil_r in Hqu).
  unfold wants_worker in Hq; simpl in Hq.
  destruct (ba <? conc_max limits) eqn:Hlt; simpl in Hq; [apply Z.ltb_lt in Hlt|].
  1: case_match; [destruct bc|]; simpl in Hq; rewrite ?u32_add_exact in Hq by in_range.
  all: simplify_eq; constructor; field.
  all: rewrite runs_app; try (by rewrite <- (assoc_L (++))).
  all: rewrite app_nil_r, fmap_app, <- Hruns; done.
Qed.

Lemma inv_begin_close s p' :
  wpool_inv s → opened s = true →
  begin_close (BE:=unit) (IOE:=unit) (X:=unit) (D:=unit) (λ _, tt) (pool s) = (Ok tt, p') →
  wpool_inv (mkWSystem p' (workers s) (Some (Shutdown_new (alive (pool s)))) (opened s)
               (notifies s) true (lingering s) (wclock s) (outcome s) (accepted s) (taken s)).
Proof.
  open_state s. intros -> Hq. nonneg bws. unfold begin_close in Hq; simpl in Hq.
  case_bool_decide as Hph; [done|]. destruct (Z.eqb_spec ba 0); [done|]. simplify_eq/=.
  constructor; field; rewrite ?runs_app, ?runs_stops, ?app_nil_r; try done.
  - by rewrite app_nil_r in Hqu; rewrite <- Hqu.
  - exists (Shutdown_new (live bws)); simpl; split_and!; try done; expand_counts; lia.
Qed.

Lemma inv_abandon s :
  wpool_inv s → phase (pool s) = Open →
  wpool_inv (mkWSystem (abandon (pool s)) (workers s) (rendezvous s) (opened s)
               (notifies s) true (lingering s) (wclock s) (outcome s) (accepted s) (taken s)).
Proof.
  open_state s. intros ->. unfold abandon; simpl. destruct bop; constructor; field.
Qed.

(** ** The rendezvous *)

Lemma leaving_means_closing s i w :
  wpool_inv s → workers s !! i = Some w → w_stopping w || w_deposited w = true →
  phase (pool s) = Closing.
Proof.
  open_state s. intros Hi Hw. split_thread Hi. nonneg before. nonneg after.
  unfold rendezvous_ok in Hrv; simpl in Hrv.
  destruct w; try done; destruct bph; try done; destruct_and!; expand_counts; lia.
Qed.

Lemma inv_deposit s i sh :
  wpool_inv s → workers s !! i = Some WStopping → rendezvous s = Some sh →
  wpool_inv (mkWSystem (pool s) (<[i := WDeposited]> (workers s))
               (Some (retire_deposit tt sh)) (opened s) (notifies s) (notify_all_due s)
               (lingering s) (wclock s) (outcome s) (accepted s) (taken s)).
Proof.
  intros H Hi. pose proof (leaving_means_closing s i _ H Hi eq_refl) as Hph. revert H Hi Hph.
  open_state s. intros Hi Hph ->. split_thread Hi. nonneg before. nonneg after.
  destruct bop; constructor; field; try same_stops Hqu.
  destruct Hrv as (sh0 & [= <-] & Hrm & Hh & Hrp). eexists; split; [done|]. simpl.
  rewrite length_app. split_and!; try done; expand_counts; lia.
Qed.

Lemma inv_count_out s i sh sh' :
  wpool_inv s → workers s !! i = Some WDeposited → rendezvous s = Some sh →
  retire_count sh = (false, sh') →
  wpool_inv (mkWSystem (pool s) (<[i := WGone]> (workers s))
               (Some sh') (opened s) (notifies s) (notify_all_due s)
               (lingering s) (wclock s) (outcome s) (accepted s) (taken s)).
Proof.
  intros H Hi. pose proof (leaving_means_closing s i _ H Hi eq_refl) as Hph. revert H Hi Hph.
  open_state s. intros Hi Hph -> [= Hr <-]. split_thread Hi. nonneg before. nonneg after.
  apply Z.eqb_neq in Hr.
  destruct bop; constructor; field; try same_stops Hqu.
  destruct Hrv as (sh0 & [= <-] & Hrm & Hh & Hrp). eexists; split; [done|]. simpl.
  split_and!; try (expand_counts; lia). destruct (reply sh); [|expand_counts; lia].
  destruct Hrp. split; [expand_counts; lia|done].
Qed.

(** The last worker out finds every handle but the lingering ones in the vault. *)
Lemma last_out_cases s i sh sh' :
  wpool_inv s → workers s !! i = Some WDeposited → rendezvous s = Some sh →
  retire_count sh = (true, sh') →
  handles_outside (pool s) (workers s) (lingering s) = lingering s ∧
  last (handles sh') ≠ None ∧ reply sh' = true ∧ outcome s = None ∧
  live (workers s) = 0 ∧ leaving (workers s) = 1 ∧ queue (pool s) = [].
Proof.
  intros H Hi. pose proof (leaving_means_closing s i _ H Hi eq_refl) as Hph. revert H Hi Hph.
  open_state s. intros Hi Hph -> [= Hr <-]. split_thread Hi. nonneg before. nonneg after.
  apply Z.eqb_eq in Hr. unfold rendezvous_ok in Hrv; simpl in *.
  destruct Hrv as (sh0 & [= <-] & Hrm & Hh & Hrp).
  assert (live (before ++ WDeposited :: after) = 0) as Hlv by (expand_counts; lia).
  assert (leaving (before ++ WDeposited :: after) = 1) as Hlg by (expand_counts; lia).
  split_and!; try done.
  - unfold handles_outside; simpl. rewrite Hcl by done.
    rewrite handles_held. expand_counts. lia.
  - destruct (handles sh); simpl in *; [expand_counts; lia|].
    intros ?%last_None. done.
  - destruct (reply sh); [done|lia].
  - destruct (reply sh); [by destruct Hrp|lia].
  - rewrite Hlv in Hqu. destruct (runs bq) as [|r rs] eqn:E; [done|].
    specialize (Hac ltac:(by right)). expand_counts. lia.
Qed.

Lemma retire_last_answer others sh :
  last (handles sh) ≠ None → reply sh = true →
  retire_last (H:=unit) others closed sh =
    (Some (if others =? 0 then closed else Err Closed), mkShutdown (remaining sh) [] false).
Proof.
  intros Hl Hr. unfold retire_last. rewrite Hr. destruct (last (handles sh)); [|done].
  destruct (Z.eqb_spec (others + 1) 1), (Z.eqb_spec others 0); try lia; done.
Qed.

Lemma inv_last_out s i sh sh' answer sh'' :
  wpool_inv s → workers s !! i = Some WDeposited → rendezvous s = Some sh →
  retire_count sh = (true, sh') →
  retire_last (handles_outside (pool s) (workers s) (lingering s)) closed sh' = (answer, sh'') →
  wpool_inv (mkWSystem (pool s) (<[i := WGone]> (workers s))
               (Some sh'') (opened s) (notifies s) (notify_all_due s)
               (lingering s) (wclock s)
               (match answer with Some a => Some a | None => outcome s end)
               (accepted s) (taken s)).
Proof.
  intros H Hi Hs Hr Hl.
  destruct (last_out_cases s i sh sh' H Hi Hs Hr) as (_ & Hlast & Hrep & _ & Hlv & Hlg & Hq).
  rewrite retire_last_answer in Hl by done. injection Hl as <- <-.
  pose proof (leaving_means_closing s i _ H Hi eq_refl) as Hph. revert H Hi Hph Hs Hlv Hlg Hq Hr.
  open_state s. intros Hi Hph -> Hlv Hlg Hq [= Hr <-]. split_thread Hi. nonneg before. nonneg after.
  apply Z.eqb_eq in Hr.
  destruct bop; constructor; field; try same_stops Hqu.
  destruct Hrv as (sh0 & [= <-] & Hrm & _). eexists; split; [done|]. simpl.
  split_and!; try done; expand_counts; lia.
Qed.

Lemma wpool_inv_init s : winitial s → wpool_inv s.
Proof.
  intros ->. destruct Hwf as (Hmin & Hmax & _). unfold MIN_COUNT, MAX_COUNT in *.
  constructor; simpl; try done; try lia.
  - split_and!; try done; lia.
  - intros [[]|]; done.
Qed.

Lemma wpool_inv_step s s' : wpool_inv s → wstep limits closed s s' → wpool_inv s'.
Proof.
  intros H Hs. destruct Hs; eauto using inv_first, inv_floor, inv_publish, inv_wspawn,
    inv_start_returns, inv_spawn_fails, inv_arrives, inv_wakes, inv_job_done, inv_deposit,
    inv_count_out, inv_last_out, inv_dispatch, inv_wnotify, inv_begin_close, inv_abandon,
    inv_notify_all.
  assert (∃ p since, at_turn w (pool s) = Some p ∧
    next_job_turn limits since now (Some tt) p = (turn, held', p')) as (p & since & Ht & Hn).
  { destruct w; try done; simpl; eauto. }
  apply next_job_cases in Hn.
  - destruct turn as [j| |since']; simpl.
    + destruct Hn as (rest & Hq & ->). eauto using inv_takes_job.
    + destruct Hn as (Hq & _ & Hc & ->). eauto using inv_retires.
    + destruct Hn as (Hq & Ha & ->). eauto using inv_parks.
  - clear Hn. revert H H0 Ht. open_state s. intros Hi Ht. split_thread Hi.
    nonneg before. nonneg after. destruct w; simplify_eq/=; rewrite ?u32_add_exact; in_range.
Qed.

Lemma reachable_wpool_inv s : reachable (wstep limits closed) winitial s → wpool_inv s.
Proof.
  apply invariant_reachable. split; [apply wpool_inv_init|apply wpool_inv_step].
Qed.

End invariant.
