(* ===== verification/WorkerPoolProps.v ===== *)
(** * What the async worker pool promises

    From the invariant of [WorkerPoolInv]: the ceiling and the floor of workers, that no queued
    job is stranded, that every accepted job is taken once and in order, that a close ends under
    every schedule and what it reports. *)
From S2P Require Import Prelude EngineOptions Options Errors WorkerState Shutdown.
From S2P Require Import WorkerPool WorkerPoolInv.

Definition w_live (w : worker) : bool :=
  match w with WStopping | WDeposited | WGone => false | _ => true end.

Definition w_active (w : worker) : bool :=
  match w with WStarting | WReady | WParked _ | WWoken _ | WBusy _ => true | _ => false end.

Lemma live_count ws : live ws = count w_live ws.
Proof.
  unfold live, at_the_queue, waiting_for_jobs, on_their_way.
  induction ws as [|w ws IH]; simpl; [done|]. destruct w; simpl; lia.
Qed.

Lemma active_count ws : active ws = count w_active ws.
Proof.
  unfold active, at_the_queue, waiting_for_jobs.
  induction ws as [|w ws IH]; simpl; [done|]. destruct w; simpl; lia.
Qed.

Definition w_at_queue (w : worker) : bool :=
  match w with WReady | WParked _ | WWoken _ | WBusy _ => true | _ => false end.

Lemma at_the_queue_count ws : at_the_queue ws = count w_at_queue ws.
Proof.
  unfold at_the_queue, waiting_for_jobs.
  induction ws as [|w ws IH]; simpl; [done|]. destruct w; simpl; lia.
Qed.

Lemma count_lookup {A} (f : A → bool) (l : list A) (i : nat) x :
  l !! i = Some x → f x = true → 0 < count f l.
Proof. intros Hi Hf. apply count_pos. exists x. eauto using list_elem_of_lookup_2. Qed.

(** ** A measure every step of a closing pool decreases *)

Definition weight (w : worker) : Z :=
  match w with
  | WOpening _ | WReserved => 8
  | WStarting | WParked _ | WBusy _ => 6
  | WReady | WWoken _ => 5
  | WStopping => 3
  | WDeposited => 2
  | WGone => 0
  end.

Fixpoint weights (ws : list worker) : Z :=
  match ws with [] => 0 | w :: ws' => weight w + weights ws' end.

Definition closing_measure (s : wsystem) : Z :=
  weights (workers s) + 3 * Z.of_nat (length (queue (pool s))) + notifies s
  + (if notify_all_due s then 1 else 0) + lingering s.

Lemma weights_app l1 l2 : weights (l1 ++ l2) = weights l1 + weights l2.
Proof. induction l1 as [|w l1 IH]; simpl; [done|]. lia. Qed.

Lemma weights_insert ws (i : nat) w w' :
  ws !! i = Some w → weights (<[i := w']> ws) = weights ws + weight w' - weight w.
Proof.
  intros H. destruct (list_insert_split _ _ _ H) as (l1 & l2 & -> & _ & ->).
  rewrite !weights_app. simpl. lia.
Qed.

Lemma weights_nonneg ws : 0 ≤ weights ws.
Proof. induction ws as [|w ws IH]; simpl; [done|]. destruct w; simpl; lia. Qed.

Lemma weights_wake_all ws : weights (wake <$> ws) ≤ weights ws.
Proof. induction ws as [|w ws IH]; csimpl; [done|]. destruct w; simpl; lia. Qed.

Lemma weights_wake_one ws ws' : wake_one ws ws' → weights ws' ≤ weights ws.
Proof.
  intros H. destruct H as [|ws j since Hj]; [done|]. split_thread Hj.
  rewrite !weights_app. simpl. lia.
Qed.

Lemma wake_one_exists ws : ∃ ws', wake_one ws ws'.
Proof.
  destruct (decide (count is_wparked ws = 0)) as [Hz|Hz].
  - exists ws. constructor. by apply count_zero.
  - pose proof (count_nonneg is_wparked ws).
    destruct (proj1 (count_pos is_wparked ws)) as (w & Hw & Hp); [lia|].
    apply list_elem_of_lookup in Hw as [j Hj]. destruct w; try done.
    eexists. by constructor.
Qed.

(** Nothing left that runs by itself: every worker gone or parked, no wakeup on its way. *)
Definition at_rest (s : wsystem) : Prop :=
  notifies s = 0 ∧ notify_all_due s = false ∧
  Forall (λ w, w = WGone ∨ is_wparked w = true) (workers s).

Section properties.
Context (limits : Concurrency) (closed : result (Error unit unit unit unit) unit).
Context (Hwf : Concurrency_wf limits).
Local Abbreviation step := (wstep limits closed).
Local Abbreviation reach := (reachable (wstep limits closed) winitial).

Lemma live_le_alive s : wpool_inv limits s → live (workers s) ≤ alive (pool s).
Proof. intros H. pose proof (wi_alive _ _ H). case_decide; lia. Qed.

Lemma closing_next_job s i w now turn held' p' :
  wpool_inv limits s → phase (pool s) = Closing → workers s !! i = Some w →
  match w with
  | WReady => next_job_turn limits None now (Some tt) (waiting (pool s)) = (turn, held', p')
  | WWoken since => next_job_turn limits since now (Some tt) (pool s) = (turn, held', p')
  | _ => False
  end →
  ∃ j, turn = TurnJob j ∧ phase p' = Closing ∧ queue (pool s) = j :: queue p'.
Proof.
  intros H Hph Hi Hn.
  assert (queue (pool s) ≠ []) as Hq.
  { intros Hq. pose proof (wi_queue _ _ H) as Hqu. rewrite Hq, Hph in Hqu. simpl in Hqu.
    assert (Z.to_nat (live (workers s)) = 0%nat) as Hz by (by destruct (Z.to_nat _)).
    assert (0 < live (workers s)); [|lia].
    rewrite live_count. eapply count_lookup; [done|]. by destruct w. }
  unfold next_job_turn, take_job in Hn.
  destruct w; try done; simpl in Hn; destruct (queue (pool s)) as [|j rest] eqn:E; try done;
    simplify_eq/=; eauto.
Qed.

Lemma closing_step_decreases s s' :
  wpool_inv limits s → phase (pool s) = Closing → step s s' →
  phase (pool s') = Closing ∧ 0 ≤ closing_measure s' < closing_measure s.
Proof.
  intros H Hph Hs.
  assert (0 ≤ closing_measure s') as Hpos.
  { pose proof (wpool_inv_step limits closed Hwf s s' H Hs) as H'.
    pose proof (wi_counts _ _ H'). pose proof (weights_nonneg (workers s')).
    unfold closing_measure. destruct (notify_all_due s'); lia. }
  cut (phase (pool s') = Closing ∧ closing_measure s' < closing_measure s); [intuition lia|].
  clear Hpos. unfold closing_measure. pose proof (wi_opening _ _ H) as Hop.
  destruct Hs; simpl in *;
    try match goal with Hi : workers _ !! _ = Some (WOpening _) |- _ =>
      exfalso; apply (count_lookup w_opening) in Hi; [|done]; rewrite Hph in Hop;
      destruct (opened s); [lia|by destruct_and!] end.
  all: try match goal with Hi : workers _ !! _ = Some _ |- _ =>
    rewrite (weights_insert _ _ _ _ Hi) end; simpl; try (split; [done|lia]).
  - destruct (opened s); [done|by destruct_and!].
  - destruct (spawn_failed_cases limits Hwf s i H H0) as (u & q' & Hf & _ & _ & Hu & Hlen).
    rewrite Hf in H1. injection H1 as <- <-. simpl. split; [done|].
    destruct u; [simpl; lia|]. by destruct (proj1 Hu eq_refl).
  - destruct (closing_next_job _ _ _ _ _ _ _ H Hph H0 H2) as (j & -> & Hp & Hq).
    split; [done|]. rewrite Hq. simpl. destruct w, j as [?|[]]; simpl; lia || done.
  - unfold queue_job in *. by rewrite decide_False in * by (by rewrite Hph).
  - pose proof (weights_wake_one _ _ H1). split; [done|lia].
  - unfold begin_close in *. rewrite bool_decide_true in * by (by rewrite Hph). done.
  - by rewrite Hph in *.
  - pose proof (weights_wake_all (workers s)). rewrite H0. split; [done|lia].
Qed.

Lemma closing_terminates s :
  wpool_inv limits s → phase (pool s) = Closing → Acc (λ s1 s2, step s2 s1) s.
Proof.
  remember (Z.to_nat (closing_measure s)) as n eqn:Hn. revert s Hn.
  induction n as [n IH] using lt_wf_ind. intros s -> H Hph. constructor. intros s' Hs.
  destruct (closing_step_decreases s s' H Hph Hs) as [Hph' Hm].
  eapply IH; [|done|by eapply wpool_inv_step|done]. lia.
Qed.

Lemma closing_stays s s' :
  wpool_inv limits s → phase (pool s) = Closing → rtc step s s' →
  wpool_inv limits s' ∧ phase (pool s') = Closing.
Proof.
  intros H Hph Hr. induction Hr as [|s s1 s' Hs Hr IH]; [done|].
  apply IH; [by eapply wpool_inv_step|by eapply closing_step_decreases].
Qed.

(** At rest a closing pool has nobody left, nothing queued and its answer given. *)
Lemma closing_at_rest s :
  wpool_inv limits s → phase (pool s) = Closing → at_rest s →
  outcome s ≠ None ∧ taken s = accepted s ∧ Forall (λ w, w = WGone) (workers s).
Proof.
  intros H Hph (Hno & Hna & Hall).
  assert (Forall (λ w, w = WGone) (workers s)) as Hgone.
  { pose proof (wi_wake_all _ _ H) as Hw. rewrite Hph in Hw. specialize (Hw ltac:(done) Hna).
    rewrite count_zero in Hw. rewrite Forall_forall in Hall |- *. intros w Hin.
    destruct (Hall w Hin) as [|Hp]; [done|]. by rewrite Hw in Hp. }
  assert (∀ f, f WGone = false → count f (workers s) = 0) as Hz.
  { intros f Hf. apply count_zero. rewrite Forall_forall in Hgone. intros w Hin.
    by rewrite (Hgone w Hin). }
  assert (active (workers s) = 0) as Ha by (rewrite active_count; by apply Hz).
  split_and!; [| |done].
  - pose proof (wi_rendezvous _ _ H) as Hrv. unfold rendezvous_ok in Hrv. rewrite Hph in Hrv.
    destruct Hrv as (sh & _ & Hrm & _ & Hrp). rewrite live_count in Hrm. unfold leaving in Hrm.
    rewrite !Hz in Hrm by done. destruct (reply sh); [lia|by destruct Hrp].
  - rewrite (wi_ledger _ _ H). destruct (runs (queue (pool s))) eqn:E; [by rewrite app_nil_r|].
    pose proof (wi_active _ _ H) as Hac. rewrite E in Hac. specialize (Hac ltac:(by right)). lia.
Qed.

(** A closing pool that is not at rest can take a step that is not a spurious wakeup. *)
Lemma closing_progress s :
  wpool_inv limits s → phase (pool s) = Closing → at_rest s ∨ ∃ s', step s s'.
Proof.
  intros H Hph.
  pose proof (wi_counts _ _ H) as [Hno _].
  destruct (decide (0 < notifies s)) as [Hn|Hn].
  { right. destruct (wake_one_exists (workers s)). eexists. by apply WSNotify. }
  destruct (notify_all_due s) eqn:Hna; [right; eexists; by apply WSNotifyAll|].
  destruct (decide (Forall (λ w, w = WGone ∨ is_wparked w = true) (workers s))) as [Ha|Ha].
  { left. split_and!; [lia|done|done]. }
  right. apply not_Forall_Exists, Exists_exists in Ha as (w & Hw & Hnot); [|apply _].
  apply list_elem_of_lookup in Hw as [i Hi].
  destruct w; simpl in Hnot; try (destruct Hnot; auto; fail).
  - pose proof (wi_opening _ _ H) as Hop. rewrite Hph in Hop.
    apply (count_lookup w_opening) in Hi; [|done].
    destruct (opened s); [lia|by destruct_and!].
  - eexists. by eapply WSSpawn.
  - eexists. by eapply WSArrives.
  - destruct (next_job_turn limits None (wclock s) (Some tt) (waiting (pool s)))
      as [[turn held'] p'] eqn:E.
    eexists. by eapply (WSNextJob _ _ s i WReady (wclock s)).
  - destruct (next_job_turn limits since (wclock s) (Some tt) (pool s))
      as [[turn held'] p'] eqn:E.
    eexists. by eapply (WSNextJob _ _ s i (WWoken since) (wclock s)).
  - eexists. by eapply WSJobDone.
  - pose proof (wi_rendezvous _ _ H) as Hrv. unfold rendezvous_ok in Hrv. rewrite Hph in Hrv.
    destruct Hrv as (sh & Hsh & _). eexists. by eapply WSDeposit.
  - pose proof (wi_rendezvous _ _ H) as Hrv. unfold rendezvous_ok in Hrv. rewrite Hph in Hrv.
    destruct Hrv as (sh & Hsh & _). destruct (retire_count sh) as [[] sh'] eqn:E.
    + destruct (retire_last (handles_outside (pool s) (workers s) (lingering s)) closed sh')
        as [answer sh''] eqn:El.
      eexists. by eapply WSLastOut.
    + eexists. by eapply WSCountOut.
Qed.

(** Live workers never outnumber the policy's maximum and the counters `alive`, `pending`
    and `idle` are exact, so no u32 of the pool ever wraps. *)
Theorem worker_pool_never_exceeds_its_ceiling s :
  reach s →
  live (workers s) ≤ conc_max limits ∧
  (phase (pool s) ≠ Closing → alive (pool s) = live (workers s)) ∧
  pending (pool s) = on_their_way (workers s) ∧ widle (pool s) = waiting_for_jobs (workers s).
Proof.
  intros Hr%reachable_wpool_inv; [|done]. pose proof (live_le_alive s Hr).
  destruct Hr as [Hpe Hid Hal Hmx _ _ _ _ _ _ _ _ _]. split_and!; [lia| |done|done].
  intros Hph. by rewrite decide_False in Hal.
Qed.

(** C14. While a command is at the head of the queue there is a worker that will ask for it
    without being woken, or one that is parked with a wakeup on its way. *)
Theorem no_queued_job_is_stranded s r rest :
  reach s → queue (pool s) = Run r :: rest →
  (∃ w, w ∈ workers s ∧ w_active w = true ∧ is_wparked w = false) ∨
  (∃ w, w ∈ workers s ∧ is_wparked w = true ∧ (0 < notifies s ∨ notify_all_due s = true)).
Proof.
  intros Hr%reachable_wpool_inv Hq; [|done].
  assert (0 < active (workers s)) as Ha.
  { apply (wi_active _ _ Hr). right. by rewrite Hq. }
  rewrite active_count in Ha. apply count_pos in Ha as (w & Hw & Haw).
  destruct (is_wparked w) eqn:Hp; [|left; eauto].
  destruct (decide (count w_woken (workers s) = 0)) as [Hk|Hk].
  - right. exists w. split_and!; try done.
    assert (0 < count is_wparked (workers s)) as Hpos by (apply count_pos; eauto).
    destruct (decide (phase (pool s) = Open)) as [Ho|Ho].
    + left. pose proof (wi_wake _ _ Hr Ho Hpos) as Hwk. rewrite Hq in Hwk. simpl in Hwk. lia.
    + right. destruct (notify_all_due s) eqn:Hd; [done|].
      pose proof (wi_wake_all _ _ Hr Ho Hd). lia.
  - left. pose proof (count_nonneg w_woken (workers s)).
    destruct (proj1 (count_pos w_woken (workers s))) as (w' & Hw' & Hwk); [lia|].
    exists w'. split; [done|]. by destruct w'.
Qed.

(** C8. Once a close has begun every schedule is finite, no state but rest is stuck, and at rest
    the close has been answered, every accepted job was taken and every worker is gone. *)
Theorem a_close_ends_with_every_job_done s :
  reach s → phase (pool s) = Closing →
  Acc (λ s1 s2, step s2 s1) s ∧
  ∀ s', rtc step s s' →
    (at_rest s' ∨ ∃ s'', step s' s'') ∧
    (at_rest s' → outcome s' ≠ None ∧ taken s' = accepted s' ∧
                  Forall (λ w, w = WGone) (workers s')).
Proof.
  intros Hr%reachable_wpool_inv Hph; [|done]. split; [by apply closing_terminates|].
  intros s' Hs. destruct (closing_stays s s' Hr Hph Hs) as [H' Hph'].
  split; [by apply closing_progress|by apply closing_at_rest].
Qed.

(** C15. When the last worker out answers the close, all handles but the lingering ones of
    starters about to return are in the vault, so the answer is the engine's own unless such a
    starter lingers, and every job has been taken by then. *)
Theorem a_close_reports_what_the_engine_answered s s' a :
  reach s → step s s' → outcome s = None → outcome s' = Some a →
  handles_outside (pool s) (workers s) (lingering s) = lingering s ∧
  a = (if lingering s =? 0 then closed else Err Closed) ∧
  taken s' = accepted s' ∧ live (workers s') + leaving (workers s') = 0.
Proof.
  intros Hr%reachable_wpool_inv Hs H0 H1; [|done].
  destruct Hs; simpl in *; try congruence.
  destruct (last_out_cases limits Hwf s i sh sh' Hr H H2 H3)
    as (Ho & Hl & Hrep & _ & Hlv & Hlg & Hq).
  rewrite retire_last_answer in H4 by done. injection H4 as <- <-.
  split_and!; [done|by simplify_eq; rewrite Ho| |].
  - rewrite (wi_ledger _ _ Hr), Hq. by rewrite app_nil_r.
  - unfold live, leaving, at_the_queue, on_their_way, waiting_for_jobs in *.
    rewrite !(count_insert _ _ _ _ _ H). simpl. lia.
Qed.

(** C13. At every moment the jobs accepted are exactly the jobs taken followed by the jobs
    queued, in order: none is lost, duplicated or reordered. *)
Theorem accepted_jobs_are_taken_once_in_order s :
  reach s → accepted s = taken s ++ runs (queue (pool s)).
Proof. intros Hr%reachable_wpool_inv; [|done]. apply Hr. Qed.

(** When the thread of a counted worker cannot be started, a close under way gets back the
    Stop queued for it from the back of the queue, and otherwise only the counts go back. *)
Theorem a_failed_spawn_never_strands_a_close s i :
  reach s → workers s !! i = Some WReserved →
  match phase (pool s) with
  | Closing => ∃ p', spawn_failed (pool s) = (Some tt, p') ∧
      queue (pool s) = queue p' ++ [Stop tt]
  | _ => ∃ p', spawn_failed (pool s) = (None, p') ∧ queue p' = queue (pool s) ∧
      alive p' = alive (pool s) - 1 ∧ pending p' = pending (pool s) - 1
  end.
Proof.
  intros Hr%reachable_wpool_inv Hi; [|done].
  destruct (spawn_failed_cases limits Hwf s i Hr Hi) as (u & q' & Hf & Hruns & Hq & Hu & _).
  pose proof (wi_queue _ _ Hr) as Hqu. rewrite Hf.
  assert (0 < live (workers s)) as Hlv by (rewrite live_count; by eapply count_lookup).
  assert (∀ ph, ph ≠ Closing → phase (pool s) = ph → u = None ∧ q' = queue (pool s)) as Hopen.
  { intros ph Hph Ep. rewrite Ep in *. split; [by apply Hu|].
    rewrite Hq, Hqu, Hruns. by destruct ph. }
  destruct (phase (pool s)) eqn:Hph; simpl in *.
  - destruct (Hopen Open) as [-> ->]; [done|done|]. eexists. split; [done|]. done.
  - destruct u as [[]|]; [|by destruct (proj1 Hu eq_refl)].
    eexists. split; [done|]. simpl. rewrite Hqu, Hq, Hruns, <- (assoc_L (++)). f_equal.
    rewrite <- replicate_S_end. f_equal. lia.
  - destruct (Hopen Abandoned) as [-> ->]; [done|done|]. eexists. split; [done|]. done.
Qed.

(** An open pool retires a worker only when the floor is still there without it. *)
Lemma open_next_job s i w since p now turn held' p' :
  wpool_inv limits s → phase (pool s) = Open → workers s !! i = Some w →
  at_turn w (pool s) = Some p →
  next_job_turn limits since now (Some tt) p = (turn, held', p') →
  match turn with
  | TurnRetire => conc_min limits < at_the_queue (workers s)
  | TurnJob (Stop _) => False
  | _ => True
  end.
Proof.
  intros H Hph Hi Ht Hn.
  assert (serving p = at_the_queue (workers s)) as Hs.
  { unfold serving. assert (alive p = alive (pool s) ∧ pending p = pending (pool s)) as [-> ->]
      by (destruct w; simplify_eq/=; done).
    pose proof (live_le_alive s H). pose proof (wi_max _ _ H). pose proof (wi_alive _ _ H) as Ha.
    rewrite Hph in Ha. rewrite decide_False in Ha by done. rewrite Ha, (wi_pending _ _ H).
    destruct Hwf as (_ & Hm & _). unfold MAX_COUNT in Hm.
    pose proof (count_nonneg w_at_queue (workers s)) as Hq. rewrite <- at_the_queue_count in Hq.
    assert (0 ≤ on_their_way (workers s)) by (unfold on_their_way; nonneg (workers s); lia).
    unfold live in *. rewrite u32_sub_exact; [lia|].
    unfold is_u32, u32_max, u32_modulus in *. lia. }
  assert (queue p = queue (pool s) ∧ phase p = Open) as [Hq Hp]
    by (destruct w; simplify_eq/=; done).
  unfold next_job_turn, take_job, abandoned, sparable in Hn. rewrite Hq in Hn.
  pose proof (wi_queue _ _ H) as Hqu. rewrite Hph, app_nil_r in Hqu.
  destruct (queue (pool s)) as [|j rest] eqn:E.
  - rewrite Hp, (bool_decide_false (Open = Abandoned)), (bool_decide_true (Open = Open)), Hs in Hn
      by done. simpl in Hn.
    destruct (conc_min limits <? at_the_queue (workers s)) eqn:El.
    + apply Z.ltb_lt in El. repeat case_match; done.
    + simpl in Hn. by simplify_eq.
  - simplify_eq/=. destruct j; [done|]. destruct (runs rest); discriminate Hqu.
Qed.

(** In an open pool, a step after which fewer workers serve the queue leaves at least the
    policy's minimum of them. *)
Theorem a_worker_retires_only_above_the_floor s s' :
  reach s → step s s' → phase (pool s) = Open →
  at_the_queue (workers s') < at_the_queue (workers s) →
  conc_min limits ≤ at_the_queue (workers s').
Proof.
  intros Hr%reachable_wpool_inv Hs Hph Hlt; [|done].
  rewrite at_the_queue_count, (at_the_queue_count (workers s)) in Hlt.
  rewrite at_the_queue_count.
  destruct Hs; simpl in *;
    try match goal with Hi : workers _ !! _ = Some _ |- _ =>
      rewrite ?count_app, (count_insert _ _ _ _ _ Hi) in Hlt |- *; simpl in Hlt |- * end;
    try lia.
  - rewrite H in Hlt. simpl in Hlt. lia.
  - destruct unclaimed; simpl in Hlt; lia.
  - assert (∃ p since, at_turn w (pool s) = Some p ∧
      next_job_turn limits since now (Some tt) p = (turn, held', p')) as (p & since & Ht & Hn)
      by (destruct w; try done; simpl; eauto).
    pose proof (open_next_job _ _ _ _ _ _ _ _ _ Hr Hph H Ht Hn) as Hc.
    rewrite at_the_queue_count in Hc.
    destruct turn as [[]| |]; simpl in *; try done; destruct w; simpl in *; try done; lia.
  - rewrite count_app in Hlt. destruct spawn; simpl in Hlt; lia.
  - rewrite (wake_one_counts _ _ w_at_queue (λ _, eq_refl) H0) in Hlt. lia.
  - rewrite wake_all_counts in Hlt by done. lia.
Qed.
End properties.

(** ** Concrete schedules *)

Definition two_workers : Concurrency := mkConcurrency 1 2 (Some 60000000000).

Lemma two_workers_wf : Concurrency_wf two_workers.
Proof. by vm_compute. Qed.

(** An open, and two commands dispatched while the one worker is parked: the second starts
    another worker, whose starter has not returned yet. *)
Definition two_dispatched : list waction :=
  [XFirst; XPublish 0; XArrives 0; XNextJob 0 0; XDispatch 1; XDispatch 2; XNotify 0; XSpawn 1].

(** A close begins there, and both workers run what is queued and retire. *)
Definition closed_behind_them : list waction :=
  two_dispatched ++
  [XBeginClose; XNotify 0; XNotifyAll; XNextJob 0 0; XArrives 1; XNextJob 1 0; XJobDone 0;
   XJobDone 1; XNextJob 0 0; XNextJob 1 0; XDeposit 0; XDeposit 1; XCountOut 0].

Definition run_two (acts : list waction) : wsystem :=
  default opening_pool (wrun two_workers (Ok tt) acts opening_pool).

Ltac reach_by acts :=
  apply (wrun_reachable two_workers (Ok tt) acts); vm_compute; reflexivity.

Lemma worker_ceiling_witness :
  reachable (wstep two_workers (Ok tt)) winitial (run_two two_dispatched) ∧
  live (workers (run_two two_dispatched)) ≤ 2.
Proof.
  assert (reachable (wstep two_workers (Ok tt)) winitial (run_two two_dispatched)) as H
    by reach_by two_dispatched.
  split; [exact H|].
  exact (proj1 (worker_pool_never_exceeds_its_ceiling two_workers (Ok tt) two_workers_wf _ H)).
Defined.

Lemma stranded_job_witness :
  queue (pool (run_two two_dispatched)) = [Run 1%nat; Run 2%nat] ∧
  ((∃ w, w ∈ workers (run_two two_dispatched) ∧ w_active w = true ∧ is_wparked w = false) ∨
   (∃ w, w ∈ workers (run_two two_dispatched) ∧ is_wparked w = true ∧
     (0 < notifies (run_two two_dispatched) ∨ notify_all_due (run_two two_dispatched) = true))).
Proof.
  split; [vm_compute; reflexivity|].
  apply (no_queued_job_is_stranded two_workers (Ok tt) two_workers_wf _ 1%nat [Run 2%nat]).
  - reach_by two_dispatched.
  - vm_compute; reflexivity.
Defined.

Lemma close_ends_witness :
  Acc (λ s1 s2, wstep two_workers (Ok tt) s2 s1) (run_two (two_dispatched ++ [XBeginClose])).
Proof.
  apply (a_close_ends_with_every_job_done two_workers (Ok tt) two_workers_wf).
  - reach_by (two_dispatched ++ [XBeginClose]).
  - vm_compute; reflexivity.
Defined.

Lemma close_reports_witness :
  outcome (run_two (closed_behind_them ++ [XStartReturns; XCountOut 1])) = Some (Ok tt).
Proof.
  assert (reachable (wstep two_workers (Ok tt)) winitial
            (run_two (closed_behind_them ++ [XStartReturns]))) as H
    by reach_by (closed_behind_them ++ [XStartReturns]).
  assert (wstep two_workers (Ok tt) (run_two (closed_behind_them ++ [XStartReturns]))
            (run_two (closed_behind_them ++ [XStartReturns; XCountOut 1]))) as Hs.
  { apply (wperform_sound two_workers (Ok tt) (XCountOut 1)). vm_compute; reflexivity. }
  destruct (outcome (run_two (closed_behind_them ++ [XStartReturns; XCountOut 1])))
    as [a|] eqn:E; [|vm_compute in E; discriminate E].
  destruct (a_close_reports_what_the_engine_answered two_workers (Ok tt) two_workers_wf
              _ _ a H Hs) as (_ & -> & _); [vm_compute; reflexivity|exact E|].
  vm_compute; reflexivity.
Defined.

Lemma accepted_jobs_witness :
  accepted (run_two two_dispatched)
  = taken (run_two two_dispatched) ++ runs (queue (pool (run_two two_dispatched))).
Proof.
  apply (accepted_jobs_are_taken_once_in_order two_workers (Ok tt) two_workers_wf).
  reach_by two_dispatched.
Defined.

(** Two commands dispatched, and a close begun before the second worker's thread exists. *)
Definition closed_before_the_spawn : list waction :=
  [XFirst; XPublish 0; XArrives 0; XNextJob 0 0; XDispatch 1; XDispatch 2; XBeginClose].

Lemma failed_spawn_witness :
  ∃ p', spawn_failed (pool (run_two closed_before_the_spawn)) = (Some tt, p') ∧
    queue (pool (run_two closed_before_the_spawn)) = queue p' ++ [Stop tt].
Proof.
  apply (a_failed_spawn_never_strands_a_close two_workers (Ok tt) two_workers_wf
           (run_two closed_before_the_spawn) 1).
  - reach_by closed_before_the_spawn.
  - vm_compute; reflexivity.
Defined.

(** Both workers parked with nothing queued, and the second one's minute over. *)
Definition both_idle : list waction :=
  two_dispatched ++
  [XStartReturns; XNotify 0; XNextJob 0 0; XArrives 1; XNextJob 1 0; XJobDone 0; XJobDone 1;
   XNextJob 0 0; XNextJob 1 0; XWakes 1].

Lemma retires_above_floor_witness :
  at_the_queue (workers (run_two (both_idle ++ [XNextJob 1 60000000000]))) = 1 ∧
  1 ≤ at_the_queue (workers (run_two (both_idle ++ [XNextJob 1 60000000000]))).
Proof.
  split; [vm_compute; reflexivity|].
  apply (a_worker_retires_only_above_the_floor two_workers (Ok tt) two_workers_wf
           (run_two both_idle)).
  - reach_by both_idle.
  - apply (wperform_sound two_workers (Ok tt) (XNextJob 1 60000000000)). vm_compute; reflexivity.
  - vm_compute; reflexivity.
  - vm_compute; reflexivity.
Defined.

(** A dispatch that has started a worker and not yet returned keeps a handle on the engine,
    and a close finishing in that window reports the closed error although the engine closed
    well. *)
Theorem a_lingering_starter_makes_a_good_close_report_closed :
  ∃ s, reachable (wstep two_workers (Ok tt)) winitial s ∧
    outcome s = Some (Err Closed) ∧ taken s = accepted s ∧ lingering s = 1 ∧
    Forall (λ w, w = WGone) (workers s).
Proof.
  exists (run_two (closed_behind_them ++ [XCountOut 1])). split.
  - reach_by (closed_behind_them ++ [XCountOut 1]).
  - vm_compute. repeat constructor.
Qed.
