(* ===== verification/Bson.v ===== *)
(** * What the crate relies on of the [bson] package

    [bson] is not part of the sources: its values appear here as the constructors the sources
    build and match on, and its documents and its codec as a class of operations with the laws
    their documentation states. [Document], the ids and the other values are types of the
    class; bytes are too, because every one the crate sees comes from or goes to the codec.

    A double is a [spec_float], the Standard Library's definition of IEEE 754 binary formats. *)
From Stdlib Require Export SpecFloat.
From S2P Require Import Prelude.

Local Set Warnings "-register-all".

Inductive Bson (D O X : Type) : Type :=
| Double (value : spec_float)
| BString (value : string)
| Array (values : list (Bson D O X))
| BDocument (document : D)
| Boolean (value : bool)
| Int32 (value : Z)
| Int64 (value : Z)
| BObjectId (oid : O)
| OtherBson (value : X).
Arguments Double {D O X} value.
Arguments BString {D O X} value.
Arguments Array {D O X} values.
Arguments BDocument {D O X} document.
Arguments Boolean {D O X} value.
Arguments Int32 {D O X} value.
Arguments Int64 {D O X} value.
Arguments BObjectId {D O X} oid.
Arguments OtherBson {D O X} value.

(** The package's operations the sources call. *)
Class BsonLib (Document ObjectId Other Bytes BE : Type) := {
  doc_new : Document;
  doc_get : string → Document → option (Bson Document ObjectId Other);
  doc_insert : string → Bson Document ObjectId Other → Document → Document;
  doc_remove : string → Document → option (Bson Document ObjectId Other) * Document;
  doc_first_key : Document → option string;
  to_vec : Document → result BE Bytes;
  from_reader : Bytes → result BE Document;
}.

(** What its documentation says of them. *)
Class BsonLaws (Document ObjectId Other Bytes BE : Type)
    `{BsonLib Document ObjectId Other Bytes BE} : Prop := {
  doc_get_new k : doc_get k doc_new = None;
  doc_get_insert k v d : doc_get k (doc_insert k v d) = Some v;
  doc_get_insert_ne k k' v d : k ≠ k' → doc_get k (doc_insert k' v d) = doc_get k d;
  doc_remove_get k d : fst (doc_remove k d) = doc_get k d;
  doc_get_remove_ne k k' d : k ≠ k' → doc_get k (snd (doc_remove k' d)) = doc_get k d;
  doc_get_remove k d : doc_get k (snd (doc_remove k d)) = None;
}.

Section derived.
Context `{BsonLib Document ObjectId Other Bytes BE}.
Local Abbreviation bson := (Bson Document ObjectId Other).

Definition contains_key (k : string) (d : Document) : bool :=
  match doc_get k d with Some _ => true | None => false end.

Definition get_array (k : string) (d : Document) : option (list bson) :=
  match doc_get k d with Some (Array values) => Some values | _ => None end.

Definition get_document (k : string) (d : Document) : option Document :=
  match doc_get k d with Some (BDocument d') => Some d' | _ => None end.

Definition get_str (k : string) (d : Document) : option string :=
  match doc_get k d with Some (BString s) => Some s | _ => None end.

Definition as_document (v : bson) : option Document :=
  match v with BDocument d => Some d | _ => None end.

(** [bson::doc! { k: v, ... }] *)
Definition doc (entries : list (string * bson)) : Document :=
  fold_left (λ d e, doc_insert (fst e) (snd e) d) entries doc_new.
End derived.

(** [f64::from(i32)] and [i64 as f64], round to nearest even, and [== 0.0]. *)
Definition f64_of_int (z : Z) : spec_float := binary_normalize 53 1024 z 0 false.
Definition f64_is_zero (f : spec_float) : bool := SFeqb f (S754_zero false).

Section laws.
Context `{BsonLaws Document ObjectId Other Bytes BE}.
Implicit Types (d : Document).

Lemma doc_snoc entries k (v : Bson Document ObjectId Other) :
  doc (entries ++ [(k, v)]) = doc_insert k v (doc entries).
Proof. unfold doc. by rewrite fold_left_app. Qed.

(** The last entry of a key is the one [doc!] leaves. *)
Lemma doc_get_doc entries k :
  doc_get k (doc entries) =
    snd <$> last (filter (λ e : string * Bson Document ObjectId Other, fst e = k) entries).
Proof.
  induction entries as [|[k' v] entries IH] using rev_ind.
  - change (doc []) with doc_new. by rewrite doc_get_new.
  - rewrite doc_snoc, filter_app, last_app. rewrite filter_cons; simpl.
    destruct (decide (k' = k)) as [->|Hne]; simpl.
    + by rewrite doc_get_insert.
    + by rewrite doc_get_insert_ne.
Qed.

Lemma doc_remove_elim k d v d' : doc_remove k d = (v, d') → v = doc_get k d.
Proof. intros E. rewrite <- doc_remove_get, E. done. Qed.
End laws.

(** ** A concrete document type, for examples

    An association list in insertion order, as [bson]'s documents are. *)
Inductive Doc : Type := mkDoc (entries : list (string * Bson Doc nat Empty_set)).

Definition doc_entries (d : Doc) : list (string * Bson Doc nat Empty_set) :=
  match d with mkDoc l => l end.

Fixpoint assoc_get {V} (k : string) (l : list (string * V)) : option V :=
  match l with
  | [] => None
  | (k', v) :: l' => if decide (k = k') then Some v else assoc_get k l'
  end.

Fixpoint assoc_set {V} (k : string) (v : V) (l : list (string * V)) : list (string * V) :=
  match l with
  | [] => [(k, v)]
  | (k', v') :: l' => if decide (k = k') then (k, v) :: l' else (k', v') :: assoc_set k v l'
  end.

Definition assoc_del {V} (k : string) (l : list (string * V)) : list (string * V) :=
  filter (λ e, fst e ≠ k) l.

#[export] Instance Doc_BsonLib : BsonLib Doc nat Empty_set Doc Empty_set := {
  doc_new := mkDoc [];
  doc_get k d := assoc_get k (doc_entries d);
  doc_insert k v d := mkDoc (assoc_set k v (doc_entries d));
  doc_remove k d := (assoc_get k (doc_entries d), mkDoc (assoc_del k (doc_entries d)));
  doc_first_key d := fst <$> head (doc_entries d);
  to_vec d := Ok d;
  from_reader d := Ok d;
}.

Lemma assoc_get_set {V} k k' (v : V) l :
  assoc_get k (assoc_set k' v l) = if decide (k = k') then Some v else assoc_get k l.
Proof.
  induction l as [|[k2 v2] l IH]; simpl.
  - repeat case_decide; congruence.
  - destruct (decide (k' = k2)) as [->|]; simpl.
    + repeat case_decide; congruence.
    + rewrite IH. repeat case_decide; congruence.
Qed.

Lemma assoc_get_del {V} k k' (l : list (string * V)) :
  k ≠ k' → assoc_get k (assoc_del k' l) = assoc_get k l.
Proof.
  intros Hne. unfold assoc_del. induction l as [|[k2 v2] l IH]; [done|].
  rewrite filter_cons; simpl. repeat case_decide; simpl; repeat case_decide; congruence.
Qed.

Lemma assoc_get_del_eq {V} k (l : list (string * V)) : assoc_get k (assoc_del k l) = None.
Proof.
  unfold assoc_del. induction l as [|[k2 v2] l IH]; [done|].
  rewrite filter_cons; simpl. repeat case_decide; simpl; repeat case_decide; congruence.
Qed.

#[export] Instance Doc_BsonLaws : BsonLaws Doc nat Empty_set Doc Empty_set.
Proof.
  split; simpl.
  - done.
  - intros. rewrite assoc_get_set. by rewrite decide_True.
  - intros. rewrite assoc_get_set. by rewrite decide_False.
  - done.
  - intros. by apply assoc_get_del.
  - intros. apply assoc_get_del_eq.
Qed.
