(* ===== verification/Response.v ===== *)
(** * Reading a command's reply

    [validate_response] and [server_error] of [src/error.rs]: which replies are answers, which
    are refusals, and what of a refusal reaches the caller. *)
From S2P Require Import Prelude EngineOptions Options Errors Bson.

Section response.
Context `{BsonLib Document ObjectId Other Bytes BE} {IOE X : Type}.
Local Abbreviation error := (Error BE IOE X Document).
Implicit Types (response : Document).

(** The part of a refusal that says what went wrong: the first write error, else the write
    concern error, else the reply itself. *)
Definition error_details response : Document :=
  match (get_array "writeErrors" response ≫= λ errors, head errors) ≫= as_document with
  | Some details => details
  | None => default response (get_document "writeConcernError" response)
  end.

Definition server_error response : error :=
  let details := error_details response in
  let code :=
    match doc_get "code" details with
    | Some (Int32 code) => Some code
    | Some (Int64 code) => Some code
    | _ => None
    end in
  let message := default "MongoDB command failed"%string (get_str "errmsg" details) in
  Server code message response.

(** The [ok] field as a double, where the reply has a numeric one. *)
Definition ok_field response : option spec_float :=
  match doc_get "ok" response with
  | Some (Double ok) => Some ok
  | Some (Int32 ok) => Some (f64_of_int ok)
  | Some (Int64 ok) => Some (f64_of_int ok)
  | _ => None
  end.

Definition validate_response response : result error Document :=
  match ok_field response with
  | None => Err (InvalidResponse "command response has no valid ok field")
  | Some ok =>
      let has_write_errors :=
        match doc_get "writeErrors" response with
        | Some (Array errors) => match errors with [] => false | _ => true end
        | _ => false
        end in
      if f64_is_zero ok || has_write_errors || contains_key "writeConcernError" response
      then Err (server_error response)
      else Ok response
  end.

(** A reply that carries a refusal next to whatever its [ok] says. *)
Definition reports_failure response : Prop :=
  (∃ e es, get_array "writeErrors" response = Some (e :: es)) ∨
  doc_get "writeConcernError" response ≠ None.

(** A reply is accepted exactly when ok is a number other than zero and it has neither
    write errors nor a write concern error. *)
Theorem validate_response_accepts_exactly response :
  match validate_response response with
  | Ok answer => answer = response ∧ ¬ reports_failure response ∧
      ∃ ok, ok_field response = Some ok ∧ f64_is_zero ok = false
  | Err (Server code message whole) => whole = response ∧
      ∃ ok, ok_field response = Some ok ∧ (f64_is_zero ok = true ∨ reports_failure response)
  | Err e => ok_field response = None ∧
      e = InvalidResponse "command response has no valid ok field"
  end.
Proof.
  unfold validate_response, server_error, reports_failure, contains_key.
  destruct (ok_field response) as [ok|] eqn:Hok; [|done].
  destruct (f64_is_zero ok) eqn:Hz; simpl; [by eauto|].
  unfold get_array. destruct (doc_get "writeErrors" response) as [[]|]; simpl;
    try destruct values; destruct (doc_get "writeConcernError" response) eqn:Hw; simpl;
    eauto 10; split_and!; eauto; intros [(e & es & ?)|?]; done.
Qed.

(** A refused write is reported with the code and message of its first write error, and
    with the whole reply. *)
Theorem server_error_names_the_first_write_error response code message whole :
  server_error response = Server code message whole →
  whole = response ∧
  ∃ details,
    match get_array "writeErrors" response, get_document "writeConcernError" response with
    | Some (BDocument first :: _), _ => details = first
    | _, Some concern => details = concern
    | _, None => details = response
    end ∧
    (∀ c, doc_get "code" details = Some (Int32 c) ∨ doc_get "code" details = Some (Int64 c) →
          code = Some c) ∧
    (∀ m, doc_get "errmsg" details = Some (BString m) → message = m).
Proof.
  unfold server_error. intros [= <- <- <-]. split; [done|].
  exists (error_details response). split_and!.
  - unfold error_details. destruct (get_array "writeErrors" response) as [[|[] ?]|]; simpl;
      by try destruct (get_document "writeConcernError" response).
  - by intros c [-> | ->].
  - unfold get_str. by intros m ->.
Qed.
End response.

(** ** Concrete replies *)

Definition entry (k : string) (v : Bson Doc nat Empty_set) := (k, v).

Definition duplicate_key : Doc :=
  doc [entry "ok" (Int32 1);
       entry "writeErrors" (Array [BDocument (doc [entry "index" (Int32 0);
         entry "code" (Int32 11000); entry "errmsg" (BString "E11000 duplicate key")])])].

Example a_write_error_refuses_a_reply_that_says_ok :
  validate_response (IOE:=unit) (X:=unit) duplicate_key
  = Err (Server (Some 11000) "E11000 duplicate key" duplicate_key).
Proof. vm_compute. reflexivity. Qed.

Example any_number_but_zero_is_ok :
  (λ ok, is_ok (validate_response (IOE:=unit) (X:=unit) (doc [entry "ok" ok])))
    <$> [Double S754_nan; Double (S754_zero true); Int32 0; Int64 (-1); Int32 1; BString "1"]
  = [true; false; false; true; true; false].
Proof. vm_compute. reflexivity. Qed.

Lemma server_error_witness :
  ∃ details : Doc,
    (∀ c, doc_get "code" details = Some (Int32 c) ∨ doc_get "code" details = Some (Int64 c) →
          Some 11000 = Some c).
Proof.
  destruct (server_error_names_the_first_write_error (IOE:=unit) (X:=unit)
              duplicate_key (Some 11000) "E11000 duplicate key" duplicate_key)
    as (_ & details & _ & Hc & _); [vm_compute; reflexivity|].
  exists details. exact Hc.
Defined.
