(* ===== verification/Effects.v ===== *)
(** * Calls that have an effect

    A call on a state either returns, waits for something that never comes, or panics; a model
    of a loop may also run out of the fuel it was given, which is kept apart from all three. *)
From S2P Require Import Prelude.

Inductive call (A : Type) : Type :=
| Returns (answer : A)
| Blocks
| Panics
| NoFuel.
Arguments Returns {A} answer.
Arguments Blocks {A}.
Arguments Panics {A}.
Arguments NoFuel {A}.

Definition io (K A : Type) : Type := K → call A * K.

Section io.
Context {K : Type}.

Definition ret {A} (a : A) : io K A := λ s, (Returns a, s).

Definition bind {A B} (m : io K A) (f : A → io K B) : io K B := λ s,
  match m s with
  | (Returns a, s) => f a s
  | (Blocks, s) => (Blocks, s)
  | (Panics, s) => (Panics, s)
  | (NoFuel, s) => (NoFuel, s)
  end.

(** [let x = m?; k] *)
Definition try_bind {E A B} (m : io K (result E A)) (f : A → io K (result E B))
    : io K (result E B) :=
  bind m (λ r, match r with Ok a => f a | Err e => ret (Err e) end).

(** A value that is already a result, in the position of a call. *)
Definition lift {E A} (r : result E A) : io K (result E A) := ret r.
End io.

Notation "'let!' x := m 'in' k" := (bind m (fun x => k))
  (at level 10, x binder, m at level 100, k at level 200) : emongo_scope.
Notation "'let!?' x := m 'in' k" := (try_bind m (fun x => k))
  (at level 10, x binder, m at level 100, k at level 200) : emongo_scope.

Section laws.
Context {K : Type}.

Lemma bind_ret_l {A B} (a : A) (f : A → io K B) s : bind (ret a) f s = f a s.
Proof. done. Qed.

Lemma bind_assoc {A B C} (m : io K A) (f : A → io K B) (g : B → io K C) s :
  bind (bind m f) g s = bind m (λ a, bind (f a) g) s.
Proof. unfold bind. by destruct (m s) as [[] ?]. Qed.

Lemma bind_returns {A B} (m : io K A) (f : A → io K B) a s s' :
  m s = (Returns a, s') → bind m f s = f a s'.
Proof. intros E. unfold bind. by rewrite E. Qed.

Lemma try_ok {E A B} (m : io K (result E A)) (f : A → io K (result E B)) a s s' :
  m s = (Returns (Ok a), s') → try_bind m f s = f a s'.
Proof. intros H. unfold try_bind. by rewrite (bind_returns _ _ _ _ _ H). Qed.

Lemma try_err {E A B} (m : io K (result E A)) (f : A → io K (result E B)) e s s' :
  m s = (Returns (Err e), s') → try_bind m f s = (Returns (Err e), s').
Proof. intros H. unfold try_bind. by rewrite (bind_returns _ _ _ _ _ H). Qed.

Lemma try_ok_inv {E A B} (m : io K (result E A)) (f : A → io K (result E B)) b s s' :
  try_bind m f s = (Returns (Ok b), s') →
  ∃ a s1, m s = (Returns (Ok a), s1) ∧ f a s1 = (Returns (Ok b), s').
Proof.
  unfold try_bind, bind. destruct (m s) as [[[a|e]| | |] s1]; try done.
  intros H. eauto.
Qed.
End laws.
