(* ===== verification/Client.v ===== *)
(** * The blocking client, one call at a time

    [SessionPool::run] of [src/pool/sessions.rs] and the command routes of [src/client.rs] as
    functions on the pool's bookkeeping and the engine below it. What other threads do in
    between is the subject of [SessionPool]; here a call runs alone, so a checkout that has to
    wait waits for good. *)
From S2P Require Import Prelude EngineOptions Options Slot Reaper SessionPool Errors Bson.
From S2P Require Import Response Effects.

(** The native library: [NativeClient::open_session] and [NativeSession::run_command], and the
    clock as the engine's world has it. *)
Class NativeLib (W Session Bytes X : Type) := {
  native_open_session : W → W * result (NativeError X) Session;
  native_run_command : Session → string → Bytes → W → W * result (NativeError X) Bytes;
  native_now : W → Z;
}.

Record Client (W Session : Type) := mkClient {
  limits : Concurrency;
  idles : State Session;
  runtime : W;
}.
Arguments mkClient {W Session} _ _ _.
Arguments limits {W Session} _.
Arguments idles {W Session} _.
Arguments runtime {W Session} _.

Section client.
Context `{NativeLib W Session Bytes X, BsonLib Document ObjectId Other Bytes BE} {IOE : Type}.
Local Abbreviation error := (Error BE IOE X Document).
Local Abbreviation client := (Client W Session).
Implicit Types (c : client) (slot : Slot Session).

(** [SessionPool::grow] with the open it makes. *)
Definition grow c : result error Session * client :=
  match native_open_session (runtime c) with
  | (w, Ok session) => (Ok session, mkClient (limits c) (idles c) w)
  | (w, Err e) => (Err (Error_from_native e), mkClient (limits c) (grow_failed (idles c)) w)
  end.

(** [SessionPool::checkout]; [Blocks] where the loop would wait on [returned]. *)
Definition SessionPool_checkout : io client (result error Session) := λ c,
  match checkout (conc_max (limits c)) (idles c) with
  | (Take session, st) => (Returns (Ok session), mkClient (limits c) st (runtime c))
  | (Grow, st) =>
      let '(r, c) := grow (mkClient (limits c) st (runtime c)) in (Returns r, c)
  | (Wait, _) => (Blocks, c)
  end.

(** [Drop for Checkout] *)
Definition Checkout_drop (session : Session) c : client :=
  mkClient (limits c) (give_back session (native_now (runtime c)) (idles c)) (runtime c).

(** [SessionPool::run]: [None] for a command cancelled before a session picked it up. *)
Definition SessionPool_run (slot : Slot Session) (database : string) (command : Bytes)
    : io client (option (result error Bytes) * Slot Session) := λ c,
  match SessionPool_checkout c with
  | (Returns (Ok session), c) =>
      match start session slot with
      | (false, slot) => (Returns (None, slot), Checkout_drop session c)
      | (true, slot) =>
          let '(w, result) := native_run_command session database command (runtime c) in
          (Returns (Some (map_err Error_from_native result), Disarm_drop slot),
           Checkout_drop session (mkClient (limits c) (idles c) w))
      end
  | (Returns (Err error), c) => (Returns (Some (Err error), slot), c)
  | (Blocks, c) => (Blocks, c)
  | (Panics, c) => (Panics, c)
  | (NoFuel, c) => (NoFuel, c)
  end.

(** [Client::send]: the [expect] on a slot nobody can cancel. *)
Definition send (database : string) (command : Bytes) : io client (result error Bytes) :=
  let! answer := SessionPool_run CommandSlot_new database command in
  match fst answer with
  | Some result => ret result
  | None => λ c, (Panics, c)
  end.

Definition run_command_bytes (database : string) (command : Bytes)
    : io client (result error Bytes) := send database command.

Definition run_command (database : string) (command : Document)
    : io client (result error Document) :=
  let!? encoded := lift (map_err BsonError (to_vec command)) in
  let!? response := send database encoded in
  let!? reply := lift (map_err BsonError (from_reader response)) in
  lift (validate_response reply).

Definition run_command_cancellable (slot : Slot Session) (database : string)
    (command : Document) : io client (option (result error Document) * Slot Session) :=
  match to_vec command with
  | Err error => ret (Some (Err (BsonError error)), slot)
  | Ok encoded =>
      let! answer := SessionPool_run slot database encoded in
      match answer with
      | (None, slot) => ret (None, slot)
      | (Some (Err error), slot) => ret (Some (Err error), slot)
      | (Some (Ok response), slot) =>
          ret (Some (result_bind (map_err BsonError (from_reader response)) validate_response),
               slot)
      end
  end.

Definition send_cancellable (slot : Slot Session) (database : string) (command : Bytes)
    : io client (option (result error Bytes) * Slot Session) :=
  SessionPool_run slot database command.
End client.

(** ** What a call leaves behind *)

Section behaviour.
Context `{NativeLib W Session Bytes X, BsonLib Document ObjectId Other Bytes BE} {IOE : Type}.
Local Abbreviation error := (Error BE IOE X Document).
Local Abbreviation client := (Client W Session).
Implicit Types (c : client).

(** Between calls every open session is idle, and there is always room for one caller. *)
Definition client_wf c : Prop :=
  Concurrency_wf (limits c) ∧
  open (idles c) = Z.of_nat (length (idle (idles c))) ∧ open (idles c) ≤ conc_max (limits c).

(** A session a call has out, over a pool that had every other one idle. *)
Definition one_out c : Prop :=
  Concurrency_wf (limits c) ∧
  open (idles c) = Z.of_nat (length (idle (idles c))) + 1 ∧ open (idles c) ≤ conc_max (limits c).

Lemma checkout_returns c :
  client_wf c →
  ∃ (r : result error Session) c', SessionPool_checkout c = (Returns r, c') ∧ limits c' = limits c ∧
    (match r with
     | Ok session => one_out c' ∧
         (runtime c' = runtime c ∧ idle (idles c) ≠ [] ∨
          native_open_session (runtime c) = (runtime c', Ok session))
     | Err e => client_wf c' ∧ ∃ ne, e = Error_from_native ne ∧
         native_open_session (runtime c) = (runtime c', Err ne)
     end).
Proof.
  intros (Hwf & Ho & Hm). unfold SessionPool_checkout, checkout.
  assert (1 ≤ conc_max (limits c) ≤ 256) as Hb.
  { destruct Hwf as (H1 & H2 & _). unfold MIN_COUNT, MAX_COUNT in *. lia. }
  destruct (State_take (idles c)) as [[session|] st] eqn:Ht.
  - apply State_take_Some in Ht as (e & Hi & _ & Hop & _). eexists _, _. split; [done|].
    split; [done|]. split; [|left; split; [done|rewrite Hi; by destruct (idle st)]].
    split; [done|]. simpl. rewrite Hop, Ho, Hi, length_app. simpl. split; [lia|].
    rewrite Ho, Hi, length_app in Hm. simpl in Hm. lia.
  - apply State_take_None in Ht as [Hi _]. rewrite Hi in Ho. change (Z.of_nat _) with 0 in Ho.
    rewrite Ho.
    destruct (Z.ltb_spec 0 (conc_max (limits c))); [|lia].
    unfold grow; simpl.
    destruct (native_open_session (runtime c)) as [w [session|ne]] eqn:Hopen;
      eexists _, _; (split; [done|]); (split; [done|]); simpl.
    + split; [|by right]. split; [done|]. simpl. rewrite Hi. simpl.
      rewrite u32_add_exact by (unfold is_u32, u32_max, u32_modulus; lia). lia.
    + split; [|by exists ne]. split; [done|]. simpl. rewrite Hi. simpl.
      rewrite (u32_add_exact 0 1) by (unfold is_u32, u32_max, u32_modulus; lia).
      rewrite u32_sub_exact by (unfold is_u32, u32_max, u32_modulus; lia). lia.
Qed.

Lemma drop_wf session c : one_out c → client_wf (Checkout_drop session c).
Proof.
  intros (Hwf & Ho & Hm). split; [done|]. simpl. rewrite length_app. simpl. lia.
Qed.

Lemma run_returns slot database command c :
  client_wf c →
  ∃ (answer : option (result error Bytes)) slot' c', SessionPool_run slot database command c
                      = (Returns (answer, slot'), c') ∧
    client_wf c' ∧ (slot = Waiting → answer ≠ None).
Proof.
  intros Hwf. unfold SessionPool_run.
  destruct (checkout_returns c Hwf) as (r & c1 & -> & _ & Hr).
  destruct r as [session|e].
  - destruct Hr as [Hout _]. destruct (start session slot) as [[] slot1] eqn:Hs.
    + destruct (native_run_command session database command (runtime c1)) as [w result].
      eexists _, _, _. split; [done|]. split; [by apply drop_wf|done].
    + eexists _, _, _. split; [done|]. split; [by apply drop_wf|]. by intros ->.
  - destruct Hr as [Hc _]. eexists _, _, _. split; [done|]. done.
Qed.

Lemma send_returns database command c :
  client_wf c →
  ∃ (r : result error Bytes) c', send database command c = (Returns r, c') ∧ client_wf c' ∧
    ∃ slot', SessionPool_run CommandSlot_new database command c
             = (Returns (Some r, slot'), c').
Proof.
  intros Hwf. unfold send.
  destruct (run_returns CommandSlot_new database command c Hwf) as (a & s' & c' & Hr & Hc & Ha).
  rewrite (bind_returns _ _ _ _ _ Hr). destruct a as [r|]; [|by destruct Ha].
  eexists _, _. split; [done|]. eauto.
Qed.

Lemma a_command_returns database command c :
  client_wf c →
  ∃ r c', run_command (IOE:=IOE) database command c = (Returns r, c') ∧ client_wf c'.
Proof.
  intros Hwf. unfold run_command, lift.
  destruct (to_vec command) as [encoded|e]; [|eexists _, _; split; [done|done]].
  destruct (send_returns database encoded c Hwf) as (r & c' & Hs & Hc & _).
  exists (match r with
          | Ok response => result_bind (map_err BsonError (from_reader response)) validate_response
          | Err e => Err e
          end), c'.
  split; [|done]. rewrite (try_ok _ _ encoded c c) by done. destruct r as [response|e].
  - rewrite (try_ok _ _ response c c') by done.
    by destruct (from_reader response).
  - by rewrite (try_err _ _ e c c').
Qed.

(** A command on a pool whose sessions are all idle returns, with an answer or an error; it
    neither blocks nor panics, and leaves the pool as full as it found it. *)
Theorem a_blocking_command_always_returns database command c :
  client_wf c →
  ∃ r c', run_command (IOE:=IOE) database command c = (Returns r, c') ∧ client_wf c'.
Proof. apply a_command_returns. Qed.

Lemma the_cancellable_route_answers database command c :
  client_wf c →
  ∃ r slot' c', run_command (IOE:=IOE) database command c = (Returns r, c') ∧
    run_command_cancellable (IOE:=IOE) CommandSlot_new database command c
    = (Returns (Some r, slot'), c') ∧ client_wf c'.
Proof.
  intros Hwf. unfold run_command, run_command_cancellable, lift.
  destruct (to_vec command) as [encoded|e]; [|eexists _, _, _; split_and!; done].
  destruct (send_returns database encoded c Hwf) as (r & c' & Hs & Hc & slot' & Hrun).
  rewrite (try_ok _ _ encoded c c) by done. rewrite (bind_returns _ _ _ _ _ Hrun).
  destruct r as [response|e].
  - rewrite (try_ok _ _ response c c') by done.
    destruct (from_reader response); simpl; eexists _, _, _; split_and!; done.
  - rewrite (try_err _ _ e c c') by done. eexists _, _, _; split_and!; done.
Qed.

(** With a slot nobody cancels, the cancellable route answers what run_command answers. *)
Theorem the_cancellable_route_answers_what_the_blocking_one_does database command c :
  client_wf c →
  ∃ r slot' c', run_command (IOE:=IOE) database command c = (Returns r, c') ∧
    run_command_cancellable (IOE:=IOE) CommandSlot_new database command c
    = (Returns (Some r, slot'), c').
Proof.
  intros Hwf. destruct (the_cancellable_route_answers database command c Hwf)
    as (r & slot' & c' & ? & ? & _). eauto.
Qed.

(** A command whose slot was cancelled before a session picked it up answers None and the
    engine is never asked. *)
Theorem a_cancelled_command_never_reaches_the_engine database command encoded c :
  to_vec command = Ok encoded → idle (idles c) ≠ [] →
  ∃ c', run_command_cancellable (IOE:=IOE) Cancelled database command c
        = (Returns (None, Cancelled), c') ∧
    runtime c' = runtime c ∧ open (idles c') = open (idles c) ∧
    idle_session <$> idle (idles c') = idle_session <$> idle (idles c).
Proof.
  intros He Hi. unfold run_command_cancellable. rewrite He.
  unfold bind, SessionPool_run, SessionPool_checkout, checkout.
  destruct (State_take (idles c)) as [[session|] st] eqn:Ht.
  - apply State_take_Some in Ht as (e & Hidle & Hs & Hop & _). simpl. eexists. split; [done|].
    simpl. split_and!; [done|by rewrite Hop|]. rewrite Hidle, !fmap_app. simpl. by rewrite Hs.
  - by apply State_take_None in Ht as [? _].
Qed.

(** A command runs on the session most recently given back, and gives it back on top. *)
Theorem a_command_runs_on_the_last_session_returned database command encoded c others e w result :
  idle (idles c) = others ++ [e] → to_vec command = Ok encoded →
  native_run_command (idle_session e) database encoded (runtime c) = (w, result) →
  run_command (IOE:=IOE) database command c =
    (Returns (match result with
              | Ok response =>
                  result_bind (map_err BsonError (from_reader response)) validate_response
              | Err ne => Err (Error_from_native ne)
              end),
     mkClient (limits c)
       (mkState (others ++ [mkIdle (idle_session e) (native_now w)]) (open (idles c))
          (closing (idles c))) w).
Proof.
  intros Hi He Hn. unfold run_command, lift. rewrite He. rewrite (try_ok _ _ encoded c c) by done.
  unfold try_bind, send, bind, SessionPool_run, SessionPool_checkout, checkout.
  unfold State_take. rewrite Hi, last_snoc. simpl.
  rewrite Hn. unfold Checkout_drop. simpl.
  rewrite length_app, Nat.add_sub, take_app_length. unfold give_back; simpl.
  destruct result as [response|]; simpl; [|done]. by destruct (from_reader response).
Qed.
End behaviour.

(** ** A concrete engine

    It logs the commands it is sent and answers every one of them [{ok: 1}]. *)

Record LoggingEngine := mkLogging { sessions_opened : nat; log : list (nat * string * Doc) }.

#[export] Instance LoggingEngine_NativeLib : NativeLib LoggingEngine nat Doc Empty_set := {
  native_open_session e :=
    (mkLogging (S (sessions_opened e)) (log e), Ok (sessions_opened e));
  native_run_command session database command e :=
    (mkLogging (sessions_opened e) (log e ++ [(session, database, command)]),
     Ok (doc [("ok"%string, Int32 1)]));
  native_now e := Z.of_nat (length (log e));
}.

Definition pool_of_two : Client LoggingEngine nat :=
  mkClient (preallocated 2) (Idles_new [0%nat; 1%nat] 2 0) (mkLogging 2 []).

Definition ping : Doc := doc [("ping"%string, Int32 1)].

Lemma pool_of_two_wf : client_wf pool_of_two.
Proof. vm_compute. repeat split; discriminate. Qed.

Lemma blocking_command_witness :
  client_wf pool_of_two ∧
  ∃ r c', run_command (IOE:=unit) "db" ping pool_of_two = (Returns r, c') ∧ client_wf c'.
Proof.
  split; [exact pool_of_two_wf|].
  apply (a_blocking_command_always_returns (IOE:=unit) "db" ping pool_of_two pool_of_two_wf).
Defined.

Lemma cancellable_route_witness :
  ∃ r slot' c', run_command (IOE:=unit) "db" ping pool_of_two = (Returns r, c') ∧
    run_command_cancellable (IOE:=unit) CommandSlot_new "db" ping pool_of_two
    = (Returns (Some r, slot'), c').
Proof.
  apply (the_cancellable_route_answers_what_the_blocking_one_does (IOE:=unit) "db" ping
           pool_of_two pool_of_two_wf).
Defined.

Lemma cancelled_command_witness :
  ∃ c', run_command_cancellable (IOE:=unit) Cancelled "db" ping pool_of_two
        = (Returns (None, Cancelled), c') ∧ log (runtime c') = [].
Proof.
  destruct (a_cancelled_command_never_reaches_the_engine (IOE:=unit) "db" ping ping pool_of_two)
    as (c' & H & Hr & _); [reflexivity|discriminate|].
  exists c'. split; [exact H|]. rewrite Hr. reflexivity.
Defined.

Lemma last_session_witness :
  log (runtime (snd (run_command (IOE:=unit) "db" ping pool_of_two))) = [(1%nat, "db"%string, ping)].
Proof.
  rewrite (a_command_runs_on_the_last_session_returned (IOE:=unit) "db" ping ping pool_of_two
             [mkIdle 0%nat 0] (mkIdle 1%nat 0)
             (mkLogging 2 [(1%nat, "db"%string, ping)]) (Ok (doc [("ok"%string, Int32 1)])));
    [vm_compute; reflexivity|reflexivity|reflexivity|vm_compute; reflexivity].
Defined.
