(* ===== verification/Find.v ===== *)
(** * Cursors: finding, fetching the next batch, and letting go

    [src/find.rs] and [src/aggregate.rs] over any client that runs commands ([Commands]); the
    blocking client is one, the async one of [Async] another. [T] is what documents are
    deserialized into. The loop of [next] asks the engine for batches as long as they come back
    empty, so it is given fuel: [drains] says how much a conversation with the engine needs. *)
From S2P Require Import Prelude EngineOptions Options Slot Reaper SessionPool Errors Bson.
From S2P Require Import Response Effects Client.

(** What a client promises the operations on collections: a command is answered or refused. *)
Class Commands (K Document E : Type) := {
  command : string → Document → io K (result E Document);
}.

#[export] Instance blocking_Commands
    `{NativeLib W Session Bytes X, BsonLib Document ObjectId Other Bytes BE} {IOE : Type} :
    Commands (Client W Session) Document (Error BE IOE X Document) := {
  command := run_command;
}.

Record Cursor (Document : Type) := mkCursor {
  cur_database : string;
  cur_collection : string;
  cur_id : Z;
  documents : list Document;
  finished : bool;
}.
Arguments mkCursor {Document} _ _ _ _ _.
Arguments cur_database {Document} _.
Arguments cur_collection {Document} _.
Arguments cur_id {Document} _.
Arguments documents {Document} _.
Arguments finished {Document} _.

Section commands.
Context `{BsonLib Document ObjectId Other Bytes BE} {IOE X : Type}.
Local Abbreviation error := (Error BE IOE X Document).
Local Abbreviation bson := (Bson Document ObjectId Other).

Definition find_one_command (collection : string) (filter : Document) : Document :=
  doc [("find"%string, BString collection : bson); ("filter"%string, BDocument filter);
       ("limit"%string, Int64 1); ("singleBatch"%string, Boolean true)].

Definition find_command (collection : string) (filter : Document) : Document :=
  doc [("find"%string, BString collection : bson); ("filter"%string, BDocument filter)].

Definition get_more_command (id : Z) (collection : string) : Document :=
  doc [("getMore"%string, Int64 id : bson); ("collection"%string, BString collection)].

Definition kill_cursors_command (collection : string) (id : Z) : Document :=
  doc [("killCursors"%string, BString collection : bson); ("cursors"%string, Array [Int64 id])].

Definition aggregate_command (collection : string) (pipeline : list Document) : Document :=
  doc [("aggregate"%string, BString collection : bson);
       ("pipeline"%string, Array (BDocument <$> pipeline));
       ("cursor"%string, BDocument doc_new)].

(** The loop over a batch: every value has to be a document. *)
Fixpoint batch_documents (batch_name : string) (batch : list bson)
    : result error (list Document) :=
  match batch with
  | [] => Ok []
  | BDocument document :: batch =>
      let? documents := batch_documents batch_name batch in Ok (document :: documents)
  | _ :: _ =>
      Err (InvalidResponse
             ("cursor " ++ batch_name ++ " contains a non-document value"))
  end.

Definition take_cursor_batch (response : Document) (batch_name : string)
    : result error (Z * list Document) :=
  match fst (doc_remove "cursor" response) with
  | Some (BDocument cursor) =>
      let '(id, cursor) := doc_remove "id" cursor in
      let? id :=
        match id with
        | Some (Int64 id) => Ok id
        | Some (Int32 id) => Ok id
        | _ => Err (InvalidResponse "cursor response has no valid id")
        end in
      match fst (doc_remove batch_name cursor) with
      | Some (Array batch) =>
          let? documents := batch_documents batch_name batch in Ok (id, documents)
      | _ => Err (InvalidResponse ("cursor response has no " ++ batch_name ++ " array"))
      end
  | _ => Err (InvalidResponse "command response has no cursor document")
  end.

Definition Cursor_from_response (database collection : string) (response : Document)
    (batch_name : string) : result error (Cursor Document) :=
  let? batch := take_cursor_batch response batch_name in
  Ok (mkCursor database collection (fst batch) (snd batch) false).
End commands.

Section cursor.
Context `{BsonLib Document ObjectId Other Bytes BE} {IOE X : Type}.
Context `{!Commands K Document (Error BE IOE X Document)}.
Context {T : Type} (deserialize : Document → result BE T).
Local Abbreviation error := (Error BE IOE X Document).
Implicit Types (cur : Cursor Document).

Definition fetch_next_batch cur : io K (result error (Cursor Document)) :=
  let!? response :=
    command (cur_database cur) (get_more_command (cur_id cur) (cur_collection cur)) in
  let!? batch := lift (take_cursor_batch response "nextBatch") in
  ret (Ok (mkCursor (cur_database cur) (cur_collection cur) (fst batch) (snd batch)
             (finished cur))).

(** Sends [killCursors] for a cursor the engine still has; the cursor forgets its id either
    way. *)
Definition kill cur : io K (result error unit * Cursor Document) :=
  let id := cur_id cur in
  let cur :=
    mkCursor (cur_database cur) (cur_collection cur) 0 (documents cur) (finished cur) in
  if id =? 0 then ret (Ok tt, cur)
  else
    let! r := command (cur_database cur) (kill_cursors_command (cur_collection cur) id) in
    ret (map_ok (λ _, tt) r, cur).

(** [Drop for Cursor] *)
Definition Cursor_drop cur : io K unit := let! _ := kill cur in ret tt.

(** [Iterator::next] *)
Fixpoint next (fuel : nat) cur : io K (option (result error T) * Cursor Document) :=
  match fuel with
  | O => λ k, (NoFuel, k)
  | S fuel =>
      match documents cur with
      | document :: rest =>
          ret (Some (map_err BsonError (deserialize document)),
               mkCursor (cur_database cur) (cur_collection cur) (cur_id cur) rest (finished cur))
      | [] =>
          if finished cur || (cur_id cur =? 0) then
            ret (None, mkCursor (cur_database cur) (cur_collection cur) (cur_id cur) [] true)
          else
            let! fetched := fetch_next_batch cur in
            match fetched with
            | Ok cur => next fuel cur
            | Err error =>
                ret (Some (Err error),
                     mkCursor (cur_database cur) (cur_collection cur) (cur_id cur) [] true)
            end
      end
  end.

(** [try_collect]: the standard [collect] into a [Result], which stops at the first error; the
    cursor is dropped at the end either way. *)
Fixpoint collect (fuel : nat) cur (collected : list T) : io K (result error (list T)) :=
  match fuel with
  | O => λ k, (NoFuel, k)
  | S fuel =>
      let! answer := next (S fuel) cur in
      match answer with
      | (None, cur) => let! _ := Cursor_drop cur in ret (Ok collected)
      | (Some (Err error), cur) => let! _ := Cursor_drop cur in ret (Err error)
      | (Some (Ok item), cur) => collect fuel cur (collected ++ [item])
      end
  end.

Definition try_collect (fuel : nat) cur : io K (result error (list T)) := collect fuel cur [].

Definition find (database collection : string) (filter : Document)
    : io K (result error (Cursor Document)) :=
  let!? response := command database (find_command collection filter) in
  lift (Cursor_from_response database collection response "firstBatch").

Definition find_one (fuel : nat) (database collection : string) (filter : Document)
    : io K (result error (option T)) :=
  let!? response := command database (find_one_command collection filter) in
  let!? cursor := lift (Cursor_from_response database collection response "firstBatch") in
  let! answer := next fuel cursor in
  let! _ := Cursor_drop (snd answer) in
  ret (match fst answer with
       | None => Ok None
       | Some (Ok item) => Ok (Some item)
       | Some (Err error) => Err error
       end).

Definition aggregate (database collection : string) (pipeline : list Document)
    : io K (result error (Cursor Document)) :=
  let!? response := command database (aggregate_command collection pipeline) in
  lift (Cursor_from_response database collection response "firstBatch").
End cursor.

(** ** Reading a cursor reply *)

Section replies.
Context `{BsonLaws Document ObjectId Other Bytes BE} {IOE X : Type}.
Local Abbreviation error := (Error BE IOE X Document).
Local Abbreviation bson := (Bson Document ObjectId Other).

Lemma batch_documents_ok batch_name (batch : list bson) ds :
  batch_documents (BE:=BE) (IOE:=IOE) (X:=X) batch_name batch = Ok ds ↔ batch = BDocument <$> ds.
Proof.
  revert ds. induction batch as [|v batch IH]; intros ds; simpl.
  - split; [by intros [= <-]|]. by destruct ds.
  - destruct v; simpl; try (split; [done|]; by destruct ds).
    destruct (batch_documents batch_name batch) as [ds'|e] eqn:E; simpl.
    + split.
      * intros [= <-]. csimpl. f_equal. by apply IH.
      * destruct ds as [|d ds]; [done|]. csimpl. intros [= -> Hb].
        apply IH in Hb. by simplify_eq.
    + split; [done|]. destruct ds as [|d ds]; [done|]. csimpl. intros [= -> Hb].
      apply IH in Hb. done.
Qed.

Lemma take_cursor_batch_reads response batch_name id ds :
  batch_name ≠ "id"%string →
  take_cursor_batch (IOE:=IOE) (X:=X) response batch_name = Ok (id, ds) ↔
  ∃ cursor, doc_get "cursor" response = Some (BDocument cursor) ∧
    (doc_get "id" cursor = Some (Int64 id) ∨ doc_get "id" cursor = Some (Int32 id)) ∧
    doc_get batch_name cursor = Some (Array (BDocument <$> ds)).
Proof.
  intros Hne. unfold take_cursor_batch. rewrite doc_remove_get.
  split.
  - destruct (doc_get "cursor" response) as [[]|]; try done. intros Ht.
    exists document. split; [done|].
    destruct (doc_remove "id" document) as [v rest] eqn:Hr.
    assert (v = doc_get "id" document) as Hv by (by eapply doc_remove_elim).
    assert (doc_get batch_name rest = doc_get batch_name document) as Hrest.
    { by rewrite <- (doc_get_remove_ne batch_name "id" document), Hr. }
    rewrite doc_remove_get, Hrest in Ht. rewrite <- Hv.
    destruct v as [[]|]; simpl in Ht; try done;
      destruct (doc_get batch_name document) as [[]|]; try done;
      destruct (batch_documents batch_name values) as [ds'|] eqn:Hb; simpl in Ht; try done;
      apply batch_documents_ok in Hb; simplify_eq; auto.
  - intros (cursor & -> & Hid & Hb).
    destruct (doc_remove "id" cursor) as [v rest] eqn:Hr.
    assert (v = doc_get "id" cursor) as -> by (by eapply doc_remove_elim).
    assert (doc_get batch_name rest = doc_get batch_name cursor) as Hrest.
    { by rewrite <- (doc_get_remove_ne batch_name "id" cursor), Hr. }
    rewrite doc_remove_get, Hrest, Hb.
    assert (batch_documents (BE:=BE) (IOE:=IOE) (X:=X) batch_name (BDocument <$> ds : list bson) = Ok ds)
      as Hok by (by apply batch_documents_ok).
    destruct Hid as [-> | ->]; simpl; by rewrite Hok.
Qed.

(** A reply is read as a batch exactly when it has a cursor with a 64-bit id and an array
    of documents, and then answers that id and those documents. *)
Theorem take_cursor_batch_reads_exactly_the_batch response batch_name id ds :
  batch_name ≠ "id"%string →
  take_cursor_batch (IOE:=IOE) (X:=X) response batch_name = Ok (id, ds) ↔
  ∃ cursor, doc_get "cursor" response = Some (BDocument cursor) ∧
    (doc_get "id" cursor = Some (Int64 id) ∨ doc_get "id" cursor = Some (Int32 id)) ∧
    doc_get batch_name cursor = Some (Array (BDocument <$> ds)).
Proof. apply take_cursor_batch_reads. Qed.
End replies.

(** ** Conversations with the engine *)

Section conversations.
Context `{BsonLib Document ObjectId Other Bytes BE} {IOE X : Type}.
Context `{!Commands K Document (Error BE IOE X Document)}.
Context {T : Type} (deserialize : Document → result BE T).
Local Abbreviation error := (Error BE IOE X Document).
Implicit Types (cur : Cursor Document) (k : K).

(** From state [k], cursor [id] answers [rest] in [rounds] further batches, the last of which
    closes it, and leaves the client at [k']. *)
Inductive drains (database collection : string) : nat → Z → list Document → K → K → Prop :=
| drains_closed k : drains database collection 0 0 [] k k
| drains_batch rounds id batch rest response id' k k1 k' :
    id ≠ 0 →
    command database (get_more_command id collection) k = (Returns (Ok response), k1) →
    take_cursor_batch response "nextBatch" = Ok (E:=error) (id', batch) →
    drains database collection rounds id' rest k1 k' →
    drains database collection (S rounds) id (batch ++ rest) k k'.

Lemma kill_closed cur k : cur_id cur = 0 → Cursor_drop cur k = (Returns tt, k).
Proof. intros Hid. unfold Cursor_drop, kill. by rewrite Hid. Qed.

(** One call of [next] on an open conversation: the next document, and a shorter conversation;
    or the end. *)
Lemma next_drains fuel rounds cur rest k k' :
  finished cur = false →
  drains (cur_database cur) (cur_collection cur) rounds (cur_id cur) rest k k' →
  (rounds < fuel)%nat →
  match documents cur ++ rest with
  | [] => ∃ cur', next deserialize fuel cur k = (Returns (None, cur'), k') ∧ cur_id cur' = 0
  | d :: ds => ∃ cur' rounds' rest' k1,
      next deserialize fuel cur k =
        (Returns (Some (map_err BsonError (deserialize d)), cur'), k1) ∧
      finished cur' = false ∧ documents cur' ++ rest' = ds ∧ (rounds' ≤ rounds)%nat ∧
      drains (cur_database cur') (cur_collection cur') rounds' (cur_id cur') rest' k1 k'
  end.
Proof.
  revert rounds cur rest k. induction fuel as [|fuel IH]; intros rounds cur rest k Hf Hd Hlt;
    [lia|].
  simpl. destruct (documents cur) as [|d ds] eqn:Hds; simpl.
  - rewrite Hf. simpl. inversion Hd as [?|? ? batch rest1 response id' ? k1 ? Hid Hc Ht Hd'];
      subst; simpl.
    + eexists. split; [done|]. done.
    + destruct (Z.eqb_spec (cur_id cur) 0) as [|_]; [done|].
      unfold fetch_next_batch. erewrite bind_returns.
      2: { rewrite (try_ok _ _ _ _ _ Hc). rewrite (try_ok _ _ (id', batch) k1 k1); [done|].
           unfold lift. by rewrite Ht. }
      pose proof (IH rounds0 (mkCursor (cur_database cur) (cur_collection cur) id' batch
        (finished cur)) rest1 k1 Hf Hd' ltac:(lia)) as Hn. simpl in Hn.
      destruct (batch ++ rest1) as [|d ds]; [exact Hn|].
      destruct Hn as (cur' & rounds' & rest' & k2 & Hn & Hf' & Ha & Hr & Hd2).
      exists cur', rounds', rest', k2. split_and!; done || lia.
  - eexists _, rounds, rest, k. split; [done|]. simpl. split_and!; done || lia.
Qed.

Lemma collect_drains fuel rounds cur rest k k' xs collected :
  finished cur = false →
  drains (cur_database cur) (cur_collection cur) rounds (cur_id cur) rest k k' →
  Forall2 (λ d x, deserialize d = Ok x) (documents cur ++ rest) xs →
  (rounds + length xs < fuel)%nat →
  collect deserialize fuel cur collected k = (Returns (Ok (collected ++ xs)), k').
Proof.
  revert rounds cur rest k xs collected.
  induction fuel as [|fuel IH]; intros rounds cur rest k xs collected Hf Hd Hxs Hlt; [lia|].
  cbn [collect]. pose proof (next_drains (S fuel) rounds cur rest k k' Hf Hd ltac:(lia)) as Hn.
  destruct (documents cur ++ rest) as [|d ds] eqn:Hall.
  - destruct Hn as (cur' & Hn & Hid). rewrite (bind_returns _ _ _ _ _ Hn).
    rewrite (bind_returns _ _ _ _ _ (kill_closed cur' k' Hid)).
    inversion Hxs; subst. by rewrite app_nil_r.
  - destruct Hn as (cur' & rounds' & rest' & k1 & Hn & Hf' & Happ & Hr & Hd').
    inversion Hxs as [|? x ? xs' Hx Hxs']; subst.
    rewrite (bind_returns _ _ _ _ _ Hn), Hx. simpl.
    rewrite (IH rounds' cur' rest' k1 xs' (collected ++ [x])); try done.
    + by rewrite <- (assoc_L (++)).
    + simpl in Hlt. lia.
Qed.

(** C19. Collecting a cursor answers the documents of its buffer and of every later batch, each
    once and in the order the engine sent them, and stops when the engine's cursor id is zero.
    *)
Theorem a_cursor_yields_every_document_in_order fuel rounds cur rest k k' xs :
  finished cur = false →
  drains (cur_database cur) (cur_collection cur) rounds (cur_id cur) rest k k' →
  Forall2 (λ d x, deserialize d = Ok x) (documents cur ++ rest) xs →
  (rounds + length xs < fuel)%nat →
  try_collect deserialize fuel cur k = (Returns (Ok xs), k').
Proof. apply collect_drains. Qed.

(** A cursor that has answered None answers None from then on, without asking the engine
    anything. *)
Theorem a_finished_cursor_stays_finished fuel fuel' cur cur' r k k' k2 :
  finished cur = false →
  next deserialize fuel cur k = (Returns (r, cur'), k') →
  r = None ∨ finished cur' = true →
  next deserialize (S fuel') cur' k2 = (Returns (None, cur'), k2).
Proof.
  intros Hf Hn Hr.
  assert (documents cur' = [] ∧ finished cur' = true) as [Hd Hfin].
  { revert cur k Hf Hn. induction fuel as [|fuel IH]; intros cur k Hf Hn; [done|].
    simpl in Hn. destruct (documents cur) as [|d ds] eqn:Hds.
    - rewrite Hf in Hn. simpl in Hn. destruct (cur_id cur =? 0) eqn:Hid.
      + unfold ret in Hn. by simplify_eq/=.
      + unfold bind in Hn. destruct (fetch_next_batch cur k) as [[[cur1|]| | |] k1] eqn:Hfetch;
          try done.
        * apply (IH cur1 k1); [|done]. unfold fetch_next_batch in Hfetch.
          apply try_ok_inv in Hfetch as (response & k3 & _ & Hfetch).
          apply try_ok_inv in Hfetch as (batch & k4 & _ & Hfetch).
          unfold ret in Hfetch. by simplify_eq/=.
        * unfold ret in Hn. by simplify_eq/=.
    - unfold ret in Hn. simplify_eq/=. destruct Hr; congruence. }
  simpl. rewrite Hd, Hfin. destruct cur'; simpl in *. by subst.
Qed.
End conversations.

(** ** A scripted engine

    It answers each command with the next reply of its script and keeps what it was sent. *)

Record Script := mkScript { replies : list Doc; sent : list Doc }.

Abbreviation script_error := (Error Empty_set unit unit Doc) (only parsing).

#[export] Instance Script_Commands : Commands Script Doc script_error := {
  command _ c s :=
    match replies s with
    | [] => (Returns (Err Closed), mkScript [] (sent s ++ [c]))
    | r :: rs => (Returns (Ok r), mkScript rs (sent s ++ [c]))
    end;
}.

Definition cursor_reply (id : Z) (batch_name : string) (ds : list Doc) : Doc :=
  doc [("cursor"%string, BDocument (doc [("id"%string, Int64 id);
         (batch_name, Array (BDocument <$> ds) : Bson Doc nat Empty_set)]));
       ("ok"%string, Int32 1)].

Definition numbered (n : Z) : Doc := doc [("_id"%string, Int64 n : Bson Doc nat Empty_set)].
Definition as_is (d : Doc) : result Empty_set Doc := Ok d.

(** Three further batches, one of them empty. *)
Definition three_rounds : Script :=
  mkScript [cursor_reply 7 "nextBatch" [numbered 2; numbered 3]; cursor_reply 7 "nextBatch" [];
            cursor_reply 0 "nextBatch" [numbered 4]] [].

Definition open_cursor : Cursor Doc := mkCursor "db" "c" 7 [numbered 1] false.

Definition after_three_rounds : Script :=
  mkScript [] (replicate 3 (get_more_command 7 "c")).

Lemma cursor_reply_witness :
  take_cursor_batch (IOE:=unit) (X:=unit) (cursor_reply 7 "nextBatch" [numbered 2]) "nextBatch"
  = Ok (7, [numbered 2]).
Proof.
  apply (take_cursor_batch_reads_exactly_the_batch (IOE:=unit) (X:=unit)); [discriminate|].
  eexists. split; [vm_compute; reflexivity|]. split; [left|]; vm_compute; reflexivity.
Defined.

Lemma three_rounds_drain :
  drains (IOE:=unit) (X:=unit) "db" "c" 3 7 ([numbered 2; numbered 3] ++ [] ++ [numbered 4] ++ [])
    three_rounds after_three_rounds.
Proof.
  eapply drains_batch; [done|vm_compute; reflexivity|vm_compute; reflexivity|].
  eapply drains_batch; [done|vm_compute; reflexivity|vm_compute; reflexivity|].
  eapply drains_batch; [done|vm_compute; reflexivity|vm_compute; reflexivity|].
  apply drains_closed.
Qed.

Lemma cursor_order_witness :
  try_collect (IOE:=unit) (X:=unit) as_is 8 open_cursor three_rounds
  = (Returns (Ok [numbered 1; numbered 2; numbered 3; numbered 4]), after_three_rounds).
Proof.
  apply (a_cursor_yields_every_document_in_order as_is 8 3 open_cursor
           ([numbered 2; numbered 3] ++ [] ++ [numbered 4] ++ [])).
  - reflexivity.
  - exact three_rounds_drain.
  - repeat constructor.
  - vm_compute. repeat constructor.
Defined.

(** A batch the engine refuses ends the cursor for good, and its drop still kills it. *)
Lemma finished_cursor_witness :
  next (IOE:=unit) (X:=unit) as_is 1 (mkCursor "db" "c" 7 [] true) three_rounds
  = (Returns (None, mkCursor "db" "c" 7 [] true), three_rounds).
Proof.
  apply (a_finished_cursor_stays_finished (IOE:=unit) (X:=unit) as_is 2 0
           (mkCursor "db" "c" 7 [] false) _ (Some (Err Closed))
           (mkScript [] []) (mkScript [] [get_more_command 7 "c"])).
  - reflexivity.
  - vm_compute. reflexivity.
  - right. reflexivity.
Defined.

Example a_dropped_cursor_is_killed :
  sent (snd (Cursor_drop (IOE:=unit) (X:=unit) open_cursor three_rounds))
  = [kill_cursors_command "c" 7].
Proof. vm_compute. reflexivity. Qed.
