(* ===== verification/CursorLife.v ===== *)
(** * No cursor outlives its handle

    The engine keeps a cursor until it is exhausted or killed, and a handle that goes away is
    the only one that can kill it. [CursorEngine] says what an engine does with the cursors it
    holds; the theorem follows a cursor of [Find] through collecting, through any number of
    [next]s and a drop, and through [find_one]. *)
From stdpp Require Import gmap sets.
From S2P Require Import Prelude EngineOptions Options Slot Reaper SessionPool Errors Bson.
From S2P Require Import Response Effects Client Find.

(** What an engine promises about the cursors it holds, by their ids. An id of zero is no
    cursor. A [getMore] opens none, and one whose answer carries another id than it was asked
    for has closed that one; a [killCursors] that is not refused has closed its cursor. A find
    or an aggregate opens at most the cursor it answers. *)
Class CursorEngine (K Document ObjectId Other Bytes BE IOE X : Type)
    `{BsonLib Document ObjectId Other Bytes BE}
    `{!Commands K Document (Error BE IOE X Document)} := {
  held : K → gset Z;
  zero_is_no_cursor k : 0 ∉ held k;
  get_more_holds database collection id k r k' :
    command database (get_more_command id collection) k = (Returns r, k') →
    held k' ⊆ held k ∧
    ∀ response id' (batch : list Document), r = Ok response →
      take_cursor_batch response "nextBatch" = Ok (E := Error BE IOE X Document) (id', batch) →
      id' ≠ id → id ∉ held k';
  kill_holds database collection id k r k' :
    command database (kill_cursors_command collection id) k = (Returns r, k') →
    held k' ⊆ held k ∧ (is_ok r → id ∉ held k');
  find_holds database collection filter k r k' :
    command database (find_one_command collection filter) k = (Returns r, k') →
    ∀ response id (batch : list Document), r = Ok response →
      take_cursor_batch response "firstBatch" = Ok (E := Error BE IOE X Document) (id, batch) →
      held k' ⊆ held k ∪ {[id]} ∧ id ∉ held k;
}.

Section life.
Context `{CursorEngine K Document ObjectId Other Bytes BE IOE X}.
Context {T : Type} (deserialize : Document → result BE T).
Local Abbreviation error := (Error BE IOE X Document).
Implicit Types (cur : Cursor Document) (k : K).

(** Asks for [n] answers, whatever they are, and lets the cursor go. *)
Fixpoint next_times (n fuel : nat) cur : io K unit :=
  match n with
  | O => Cursor_drop cur
  | S n => let! answer := next deserialize fuel cur in next_times n fuel (snd answer)
  end.

(** [n] answers asked of [cur], from [k] to [k1], leave its handle as [cur1]. *)
Inductive reads : nat → Cursor Document → K → Cursor Document → K → Prop :=
| reads_none cur k : reads 0 cur k cur k
| reads_one n fuel cur k answer cur1 k1 cur2 k2 :
    next deserialize fuel cur k = (Returns (answer, cur1), k1) →
    reads n cur1 k1 cur2 k2 → reads (S n) cur k cur2 k2.

(** After [n] answers asked of [cur] from [k] on, its handle sent the [killCursors] that left the
    engine at [k'], and the engine refused it. *)
Definition kill_refused (n : nat) cur k k' : Prop :=
  ∃ cur1 k1 e, reads n cur k cur1 k1 ∧ cur_id cur1 = cur_id cur ∧
    command (cur_database cur) (kill_cursors_command (cur_collection cur) (cur_id cur)) k1
    = (Returns (Err e), k').

(** What a use of [cur] starting at [k] may leave behind at [k'] for its handle [cur']. *)
Definition carried cur cur' k k' : Prop :=
  cur_database cur' = cur_database cur ∧ cur_collection cur' = cur_collection cur ∧
  held k' ⊆ held k ∧ (cur_id cur' = cur_id cur ∨ cur_id cur ∉ held k').

(** The engine is left at [k'], after [n] answers, with no more cursors than it had and without
    [cur], unless it refused to kill it there. *)
Definition let_go (n : nat) cur k k' : Prop :=
  held k' ⊆ held k ∧ (cur_id cur ∉ held k' ∨ kill_refused n cur k k').

Lemma carried_trans cur cur1 cur2 k k1 k2 :
  carried cur cur1 k k1 → carried cur1 cur2 k1 k2 → carried cur cur2 k k2.
Proof.
  intros (Hd & Hc & Hh & Hi) (Hd' & Hc' & Hh' & Hi'). unfold carried.
  split_and!; [congruence|congruence|set_solver|].
  destruct Hi as [Hi|]; [rewrite <- Hi; destruct Hi' as [->|]; auto|right; set_solver].
Qed.

Lemma drop_lets_go cur k k' : Cursor_drop cur k = (Returns tt, k') → let_go 0 cur k k'.
Proof.
  unfold Cursor_drop, kill, let_go, kill_refused.
  destruct (Z.eqb_spec (cur_id cur) 0) as [Hz|Hnz].
  - intros [= <-]. rewrite Hz. split; [done|]. left. apply zero_is_no_cursor.
  - unfold bind. destruct (command _ _ k) as [[r| | |] k1] eqn:Hc; try done. simpl.
    intros [= <-]. destruct (kill_holds _ _ _ _ _ _ Hc) as [Hsub Hgone].
    split; [done|]. destruct r as [|e]; [left; by apply Hgone|right].
    exists cur, k, e. split; [constructor|done].
Qed.

Lemma fetch_carries cur k r k' :
  fetch_next_batch cur k = (Returns r, k') →
  match r with Ok cur' => carried cur cur' k k' | Err _ => held k' ⊆ held k end.
Proof.
  unfold fetch_next_batch, try_bind, bind.
  destruct (command _ _ k) as [[reply| | |] k1] eqn:Hc; try done.
  destruct (get_more_holds _ _ _ _ _ _ Hc) as [Hsub Hgone].
  destruct reply as [response|e]; [|by intros [= <- <-]].
  unfold lift, ret. destruct (take_cursor_batch response "nextBatch") as [[id' batch]|e] eqn:Ht;
    intros [= <- <-]; [|done].
  unfold carried. simpl. split_and!; try done.
  destruct (decide (id' = cur_id cur)); [by left|right; eauto].
Qed.

Lemma next_carries fuel cur k answer cur' k' :
  next deserialize fuel cur k = (Returns (answer, cur'), k') → carried cur cur' k k'.
Proof.
  revert cur k. induction fuel as [|fuel IH]; intros cur k; [done|]. simpl.
  destruct (documents cur) as [|d ds].
  2: { intros [= <- <- <-]. unfold carried. simpl. auto. }
  destruct (finished cur || _); [intros [= <- <- <-]; unfold carried; simpl; auto|].
  unfold bind. destruct (fetch_next_batch cur k) as [[r| | |] k1] eqn:Hf; try done.
  apply fetch_carries in Hf. destruct r as [cur1|e].
  - intros Hn. eapply carried_trans; eauto.
  - intros [= <- <- <-]. unfold carried. simpl. auto.
Qed.

Lemma next_lets_go n fuel cur k answer cur1 k1 k' :
  next deserialize fuel cur k = (Returns (answer, cur1), k1) →
  let_go n cur1 k1 k' → let_go (S n) cur k k'.
Proof.
  intros Hn [Hh Hg]. pose proof (next_carries _ _ _ _ _ _ Hn) as (Hd & Hc & Hsub & Hi).
  split; [set_solver|]. destruct Hi as [Hi|Hi]; [|left; set_solver].
  destruct Hg as [Hg|(cur2 & k2 & e & Hr & Hid & Hk)]; [left; by rewrite <- Hi|right].
  exists cur2, k2, e. split; [by eapply reads_one|]. split; [congruence|].
  by rewrite <- Hd, <- Hc, <- Hi.
Qed.

Lemma collect_lets_go fuel cur collected k r k' :
  collect deserialize fuel cur collected k = (Returns r, k') → ∃ n, let_go n cur k k'.
Proof.
  revert cur collected k. induction fuel as [|fuel IH]; intros cur collected k; [done|].
  cbn [collect]. unfold bind at 1.
  destruct (next deserialize (S fuel) cur k) as [[[answer cur']| | |] k1] eqn:Hn; try done.
  assert (∀ m : result error (list T), bind (Cursor_drop cur') (λ _, ret m) k1 = (Returns r, k') →
            ∃ n, let_go n cur k k') as Hdrop.
  { intros m. unfold bind. destruct (Cursor_drop cur' k1) as [[[]| | |] k2] eqn:Hd; try done.
    intros [= <- <-]. exists 1%nat. eapply next_lets_go; [done|]. by apply drop_lets_go. }
  destruct answer as [[item|e]|]; [|apply Hdrop..].
  intros (n & Hc)%IH. exists (S n). by eapply next_lets_go.
Qed.

Lemma next_times_lets_go n fuel cur k k' :
  next_times n fuel cur k = (Returns tt, k') → let_go n cur k k'.
Proof.
  revert cur k. induction n as [|n IH]; intros cur k; simpl; [apply drop_lets_go|].
  unfold bind. destruct (next deserialize fuel cur k) as [[[answer cur']| | |] k1] eqn:Hn; try done.
  intros Hr%IH. by eapply next_lets_go.
Qed.

(** The cursor a reply to a find answers, if it answers one. *)
Definition answered (reply : result error Document) : option (Z * list Document) :=
  match reply with
  | Ok response =>
      match take_cursor_batch (IOE := IOE) (X := X) response "firstBatch" with
      | Ok batch => Some batch
      | Err _ => None
      end
  | Err _ => None
  end.

(** What [find_one] leaves behind, by what its find was answered: nothing but what that answer
    left, where it named no cursor; and else nothing it did not find there, unless the cursor's
    [killCursors] was refused. *)
Definition found_one_let_go (database collection : string) (filter : Document) k
    (r : result error (option T)) k' : Prop :=
  ∃ reply k1, command database (find_one_command collection filter) k = (Returns reply, k1) ∧
    match answered reply with
    | None => k' = k1 ∧ ∃ e, r = Err e
    | Some (id, batch) =>
        held k' ⊆ held k ∨ kill_refused 1 (mkCursor database collection id batch false) k1 k'
    end.

Lemma find_one_lets_go fuel database collection filter k r k' :
  find_one deserialize fuel database collection filter k = (Returns r, k') →
  found_one_let_go database collection filter k r k'.
Proof.
  unfold find_one, found_one_let_go, try_bind. unfold bind at 1.
  destruct (command database _ k) as [[reply| | |] k1] eqn:Hc; try done.
  intros Hr. exists reply, k1. split; [done|].
  destruct reply as [response|e]; [|unfold ret in Hr; simplify_eq/=; by eauto].
  unfold bind at 1, lift, ret at 1, Cursor_from_response in Hr. unfold answered.
  destruct (take_cursor_batch response "firstBatch") as [[id batch]|e] eqn:Ht;
    [|unfold ret in Hr; simplify_eq/=; by eauto].
  destruct (find_holds _ _ _ _ _ _ Hc response id batch eq_refl Ht) as [Hsub Hfresh].
  simpl in Hr. unfold bind in Hr.
  destruct (next deserialize fuel _ k1) as [[[answer cur']| | |] k3] eqn:Hn; try done.
  simpl in Hr. destruct (Cursor_drop cur' k3) as [[[]| | |] k4] eqn:Hd; try done.
  apply drop_lets_go in Hd. pose proof (next_lets_go _ _ _ _ _ _ _ _ Hn Hd) as [Hs Hg].
  unfold ret in Hr. simpl in *. injection Hr as _ <-.
  destruct Hg as [Hg|Hg]; [left; set_solver|by right].
Qed.

(** C25. After a cursor is collected, or asked any number of times and dropped, the engine no
    longer holds it, unless it refused the very killCursors that ended that run; and find_one,
    whatever it answers, leaves no cursor its find was answered with, unless that one's
    killCursors was refused, and sends nothing more where the find was answered with none. *)
Theorem no_cursor_outlives_its_handle fuel n cur database collection filter k k' :
  (∀ r, try_collect deserialize fuel cur k = (Returns r, k') → ∃ m, let_go m cur k k') ∧
  (next_times n fuel cur k = (Returns tt, k') → let_go n cur k k') ∧
  (∀ r, find_one deserialize fuel database collection filter k = (Returns r, k') →
     found_one_let_go database collection filter k r k').
Proof.
  split_and!.
  - intros r. apply collect_lets_go.
  - apply next_times_lets_go.
  - intros r. apply find_one_lets_go.
Qed.
End life.

(** ** An engine with cursors

    It holds the documents of every cursor it has open, hands out one at a time, and answers a
    find with a cursor over the documents it was made with. *)

Record CursorServer := mkServer { stock : list Doc; served : gmap Z (list Doc) }.

Definition fresh_id (m : gmap Z (list Doc)) : Z := (1 + foldr Z.max 0 (elements (dom m)))%Z.

Lemma fresh_id_fresh m : fresh_id m ∉ dom m ∧ fresh_id m ≠ 0.
Proof.
  unfold fresh_id. assert (∀ l : list Z, 0 ≤ foldr Z.max 0 l ∧ ∀ z, z ∈ l → z ≤ foldr Z.max 0 l) as Hl.
  { induction l as [|a l [IH0 IH]]; simpl; split; try lia.
    - by intros z ?%not_elem_of_nil.
    - intros z [->|Hz]%elem_of_cons; [lia|]. specialize (IH z Hz). lia. }
  destruct (Hl (elements (dom m))) as [H0 Hmax]. split; [|lia].
  intros Hin. apply elem_of_elements in Hin. specialize (Hmax _ Hin). lia.
Qed.

Definition asked_id (c : Doc) : option Z :=
  match doc_get "getMore" c with Some (Int64 id) => Some id | _ => None end.

Definition killed_id (c : Doc) : option Z :=
  match doc_get "cursors" c with Some (Array [Int64 id]) => Some id | _ => None end.

Definition serve_more (id : Z) (s : CursorServer) :
    call (result (Error Empty_set unit unit Doc) Doc) * CursorServer :=
  match served s !! id with
  | None => (Returns (Err Closed), s)
  | Some (d :: ((_ :: _) as rest)) =>
      (Returns (Ok (cursor_reply id "nextBatch" [d])),
       mkServer (stock s) (<[id:=rest]> (served s)))
  | Some ds =>
      (Returns (Ok (cursor_reply 0 "nextBatch" ds)), mkServer (stock s) (delete id (served s)))
  end.

#[export] Instance CursorServer_Commands :
    Commands CursorServer Doc (Error Empty_set unit unit Doc) := {
  command _ c s :=
    match asked_id c, killed_id c with
    | Some id, _ => serve_more id s
    | None, Some id =>
        (Returns (Ok (doc [("ok"%string, Int32 1)])), mkServer (stock s) (delete id (served s)))
    | None, None =>
        let id := fresh_id (served s) in
        (Returns (Ok (cursor_reply id "firstBatch" [])),
         mkServer (stock s) (<[id:=stock s]> (served s)))
    end;
}.

Definition server_held (s : CursorServer) : gset Z := dom (served s) ∖ {[0]}.

Lemma cursor_reply_read name (id : Z) (ds : list Doc) id' batch :
  name ≠ "id"%string →
  take_cursor_batch (cursor_reply id name ds) name
    = Ok (E := Error Empty_set unit unit Doc) (id', batch) → id' = id.
Proof.
  intros Hn Ht. apply (take_cursor_batch_reads (IOE:=unit) (X:=unit)) in Ht
    as (c & Hc & Hid & _); [|done].
  unfold cursor_reply in Hc. simpl in Hc. injection Hc as <-.
  destruct Hid as [Hid|Hid]; simpl in Hid; rewrite decide_False in Hid by done;
    simpl in Hid; congruence.
Qed.

#[export] Program Instance CursorServer_CursorEngine :
    CursorEngine CursorServer Doc nat Empty_set Doc Empty_set unit unit := {
  held := server_held;
}.
Next Obligation. intros s. unfold server_held. set_solver. Qed.
Next Obligation.
  intros database collection id s r s'. cbn [command CursorServer_Commands].
  change (asked_id _) with (Some id). unfold serve_more, server_held.
  assert (∀ id' (ds : list Doc) (response : Doc) id2 batch,
    Ok (E := Error Empty_set unit unit Doc) (cursor_reply id' "nextBatch" ds) = Ok response →
    take_cursor_batch response "nextBatch" = Ok (E := Error Empty_set unit unit Doc) (id2, batch) →
    id2 = id').
  { intros id' ds response id2 batch [= <-] Ht. by eapply (cursor_reply_read "nextBatch"). }
  destruct (served s !! id) as [[|d [|d' rest]]|] eqn:Hs; intros [= <- <-]; simpl.
  1,2: split; [set_solver|intros; set_solver].
  - apply elem_of_dom_2 in Hs. split; [set_solver|]. intros response id' batch Hr Ht Hne.
    by pose proof (H _ _ _ _ _ Hr Ht).
  - split; [done|]. intros response id' batch Hr. done.
Qed.
Next Obligation.
  intros database collection id s r s'. cbn [command CursorServer_Commands].
  change (asked_id _) with (@None Z). change (killed_id _) with (Some id).
  intros [= <- <-]. unfold server_held. simpl. split; set_solver.
Qed.
Next Obligation.
  intros database collection filter s r s'. cbn [command CursorServer_Commands].
  change (asked_id _) with (@None Z). change (killed_id _) with (@None Z).
  intros [= <- <-] response id batch [= <-] Ht. apply cursor_reply_read in Ht as ->; [|done].
  destruct (fresh_id_fresh (served s)) as [Hf Hz]. unfold server_held. simpl. split; set_solver.
Qed.

(** Two cursors are open; one is asked twice and dropped, and only the other is left. *)
Definition two_cursors : CursorServer :=
  mkServer [numbered 9] {[7 := [numbered 1; numbered 2; numbered 3]; 8 := [numbered 4]]}.

Definition server_cursor : Cursor Doc := mkCursor "db" "c" 7 [] false.

(** The server refuses no [killCursors] at all. *)
Lemma server_kills n (cur : Cursor Doc) s s' :
  ¬ kill_refused (K := CursorServer) (IOE := unit) (X := unit) as_is n cur s s'.
Proof.
  intros (cur1 & k1 & e & _ & _ & Hk). cbn [command CursorServer_Commands] in Hk.
  change (asked_id _) with (@None Z) in Hk.
  change (killed_id _) with (Some (cur_id cur)) in Hk. done.
Qed.

Lemma cursor_life_witness :
  snd (next_times as_is 2 5 server_cursor two_cursors) = mkServer [numbered 9] {[8 := [numbered 4]]} ∧
  7 ∉ server_held (mkServer [numbered 9] {[8 := [numbered 4]]}) ∧
  server_held (snd (find_one (IOE := unit) (X := unit) as_is 5 "db" "c" (doc []) two_cursors))
    ⊆ server_held two_cursors.
Proof.
  split; [vm_compute; reflexivity|].
  pose proof (no_cursor_outlives_its_handle (K := CursorServer) (IOE := unit) (X := unit) as_is
    5 2 server_cursor "db" "c" (doc []) two_cursors) as Hall.
  split.
  - destruct (Hall (mkServer [numbered 9] {[8 := [numbered 4]]})) as (_ & Hdropped & _).
    destruct Hdropped as [_ [Hgone|Hrefused]]; [vm_compute; reflexivity|exact Hgone|].
    by apply server_kills in Hrefused.
  - destruct (find_one (IOE := unit) (X := unit) as_is 5 "db" "c" (doc []) two_cursors)
      as [[r| | |] s'] eqn:Hf; try (vm_compute in Hf; discriminate).
    destruct (Hall s') as (_ & _ & Hone). destruct (Hone r eq_refl) as (reply & k1 & Hc & Hm).
    vm_compute in Hc. injection Hc as <- <-.
    match type of Hm with match ?a with _ => _ end =>
      assert (a = Some (9, [])) as Ha by (vm_compute; reflexivity); rewrite Ha in Hm end.
    destruct Hm as [Hm|Hrefused]; [exact Hm|by apply server_kills in Hrefused].
Defined.
