(* ===== verification/Insert.v ===== *)
(** * Inserting

    [src/insert.rs] over any client that runs commands. [T] is what is serialized; the ids the
    driver makes up come from a generator of [ObjectId]s, whose state is [G]. A [HashMap] keyed
    by position is a finite map from [nat]. *)
From stdpp Require Import pretty.
From S2P Require Import Prelude EngineOptions Options Slot Reaper SessionPool Errors Bson.
From S2P Require Import Response Effects Client Find.

Section insert.
Context `{BsonLib Document ObjectId Other Bytes BE} {IOE X : Type}.
Context {T G : Type} (serialize : T → result BE Document).
(** [ObjectId::new] *)
Context (new_id : G → G * ObjectId).
Local Abbreviation error := (Error BE IOE X Document).
Local Abbreviation bson := (Bson Document ObjectId Other).

Definition insert_command (collection : string) (documents : list bson) : Document :=
  doc [("insert"%string, BString collection : bson); ("documents"%string, Array documents)].

(** The document's own [_id], or a fresh one the document is given. *)
Definition ensure_id (document : Document) (g : G) : bson * Document * G :=
  match doc_get "_id" document with
  | Some id => (id, document, g)
  | None =>
      let '(g, oid) := new_id g in
      (BObjectId oid, doc_insert "_id" (BObjectId oid) document, g)
  end.

(** The loop of [serialize_many], from position [index] on. *)
Fixpoint serialize_from (index : nat) (documents : list T) (g : G)
    : result error (list bson * gmap nat bson) * G :=
  match documents with
  | [] => (Ok ([], ∅), g)
  | t :: documents =>
      match serialize t with
      | Err e => (Err (BsonError e), g)
      | Ok document =>
          let '(id, document, g) := ensure_id document g in
          match serialize_from (S index) documents g with
          | (Err e, g) => (Err e, g)
          | (Ok (serialized, inserted_ids), g) =>
              (Ok (BDocument document :: serialized, <[index := id]> inserted_ids), g)
          end
      end
  end.

Definition serialize_many (documents : list T) (g : G)
    : result error (list bson * gmap nat bson) * G :=
  match serialize_from 0 documents g with
  | (Err e, g) => (Err e, g)
  | (Ok (serialized, inserted_ids), g) =>
      match serialized with
      | [] => (Err (InvalidArgument "insert_many requires at least one document"), g)
      | _ => (Ok (serialized, inserted_ids), g)
      end
  end.

(** [usize::try_from(..).ok()] of a signed number. *)
Definition usize_of (z : Z) : option Z := if decide (0 ≤ z) then Some z else None.

Definition expect_inserted_count (response : Document) (expected : Z) : result error unit :=
  let? actual :=
    ok_or (InvalidResponse "insert response has no valid n field")
      (match doc_get "n" response with
       | Some (Int32 value) => usize_of value
       | Some (Int64 value) => usize_of value
       | _ => None
       end) in
  if actual =? expected then Ok tt
  else Err (InvalidResponse
              ("inserted " ++ pretty actual ++ " documents, expected " ++ pretty expected)).

Context `{!Commands K Document (Error BE IOE X Document)}.

(** The generator is threaded beside the client. *)
Definition insert_one (database collection : string) (t : T) (g : G)
    : io K (result error bson) * G :=
  match serialize t with
  | Err e => (lift (Err (BsonError e)), g)
  | Ok document =>
      let '(inserted_id, document, g) := ensure_id document g in
      ((let!? response := command database (insert_command collection [BDocument document]) in
        let!? _ := lift (expect_inserted_count response 1) in
        ret (Ok inserted_id)), g)
  end.

Definition insert_many (database collection : string) (documents : list T) (g : G)
    : io K (result error (gmap nat bson)) * G :=
  match serialize_many documents g with
  | (Err e, g) => (lift (Err e), g)
  | (Ok (serialized, inserted_ids), g) =>
      let expected := Z.of_nat (length serialized) in
      ((let!? response := command database (insert_command collection serialized) in
        let!? _ := lift (expect_inserted_count response expected) in
        ret (Ok inserted_ids)), g)
  end.
End insert.

Section behaviour.
Context `{BsonLaws Document ObjectId Other Bytes BE} {IOE X : Type}.
Context {T G : Type} (serialize : T → result BE Document) (new_id : G → G * ObjectId).
Local Abbreviation error := (Error BE IOE X Document).
Local Abbreviation bson := (Bson Document ObjectId Other).

Lemma ensure_id_stored document g id document' g' :
  ensure_id new_id document g = (id, document', g') →
  doc_get "_id" document' = Some id ∧
  (∀ k, k ≠ "_id"%string → doc_get k document' = doc_get k document) ∧
  (doc_get "_id" document ≠ None → document' = document ∧ g' = g).
Proof.
  unfold ensure_id. destruct (doc_get "_id" document) as [id0|] eqn:Hid.
  - intros [= <- <- <-]. split_and!; try done.
  - destruct (new_id g) as [g1 oid]. intros [= <- <- <-]. split_and!; [|intros k Hk|done].
    + by rewrite doc_get_insert.
    + by rewrite doc_get_insert_ne.
Qed.

(** What the positions of an insert and its answer have to do with each other. *)
Definition ids_of (index : nat) (serialized : list bson) (ids : gmap nat bson) : Prop :=
  ∀ i, ids !! i =
    if decide (index ≤ i)%nat then
      serialized !! (i - index)%nat ≫= λ v, as_document v ≫= λ d, doc_get "_id" d
    else None.

Lemma serialize_from_ids index documents g serialized ids g' :
  serialize_from (IOE:=IOE) (X:=X) serialize new_id index documents g = (Ok (serialized, ids), g') →
  length serialized = length documents ∧ ids_of index serialized ids ∧
  Forall2 (λ t v, ∃ d d', serialize t = Ok d ∧ v = BDocument d' ∧ doc_get "_id" d' ≠ None ∧
             ∀ k, k ≠ "_id"%string → doc_get k d' = doc_get k d) documents serialized.
Proof.
  revert index g serialized ids g'.
  induction documents as [|t documents IH]; intros index g serialized ids g'; simpl.
  - intros [= <- <- <-]. split_and!; [done| |done].
    intros i. rewrite lookup_empty. by case_decide.
  - destruct (serialize t) as [d|] eqn:Ht; [|done].
    destruct (ensure_id new_id d g) as [[id d'] g1] eqn:Hid.
    apply ensure_id_stored in Hid as (Hget & Hrest & _).
    destruct (serialize_from _ _ (S index) documents g1) as [[[s ids1]|] g2] eqn:Hs; [|done].
    intros [= <- <- <-]. destruct (IH _ _ _ _ _ Hs) as (Hl & Hids & Hall). split_and!.
    + simpl. lia.
    + intros i. destruct (decide (index = i)) as [->|Hne].
      * rewrite lookup_insert, decide_True by done. rewrite decide_True by lia.
        by rewrite Nat.sub_diag.
      * rewrite lookup_insert_ne by done. rewrite (Hids i).
        destruct (decide (index ≤ i)%nat).
        -- rewrite decide_True by lia. by replace (i - index)%nat with (S (i - S index)) by lia.
        -- by rewrite decide_False by lia.
    + constructor; [|done]. exists d, d'. split_and!; try done. by rewrite Hget.
Qed.

(** What is sent for document i holds the identifier answered for i, for every i and for no
    other. *)
Theorem serialize_many_pairs_every_document_with_its_id documents g serialized ids g' :
  serialize_many (IOE:=IOE) (X:=X) serialize new_id documents g = (Ok (serialized, ids), g') →
  documents ≠ [] ∧ length serialized = length documents ∧
  (∀ i, ids !! i = serialized !! i ≫= λ v, as_document v ≫= λ d, doc_get "_id" d) ∧
  (∀ i, is_Some (ids !! i) ↔ (i < length documents)%nat) ∧
  (∀ i t v, documents !! i = Some t → serialized !! i = Some v →
     ∃ d d', serialize t = Ok d ∧ v = BDocument d' ∧
       ∀ k, k ≠ "_id"%string → doc_get k d' = doc_get k d).
Proof.
  unfold serialize_many.
  destruct (serialize_from _ _ 0 documents g) as [[[s ids1]|] g1] eqn:Hs; [|done].
  apply serialize_from_ids in Hs as (Hl & Hids & Hall).
  destruct s as [|v0 s]; [done|]. intros [= <- <- <-].
  assert (∀ i, ids1 !! i =
    (v0 :: s) !! i ≫= λ v, as_document v ≫= λ d, doc_get "_id" d) as Hat.
  { intros i. rewrite (Hids i), decide_True by lia. by rewrite Nat.sub_0_r. }
  split_and!; [by intros ->|done|done| |].
  - intros i. rewrite Hat, <- Hl. split.
    + intros [x Hx]. apply bind_Some in Hx as (v & Hv & _). by eapply lookup_lt_Some.
    + intros Hlt. apply lookup_lt_is_Some in Hlt as [v Hv]. rewrite Hv. simpl.
      destruct (Forall2_lookup_r _ _ _ i v Hall Hv) as (t & _ & d & d' & _ & -> & Hid & _).
      simpl. by destruct (doc_get "_id" d') eqn:E.
  - intros i t v Ht Hv. destruct (Forall2_lookup_lr _ _ _ i t v Hall Ht Hv)
      as (d & d' & ? & ? & _ & ?). eauto.
Qed.

Lemma expect_inserted_count_ok response expected :
  expect_inserted_count (BE:=BE) (IOE:=IOE) (X:=X) response expected = Ok tt ↔
  0 ≤ expected ∧
  (doc_get "n" response = Some (Int32 expected) ∨ doc_get "n" response = Some (Int64 expected)).
Proof.
  unfold expect_inserted_count, usize_of.
  destruct (doc_get "n" response) as [[]|]; simpl;
    try (split; [done|by intros [? [|]]]); case_decide; simpl;
    try (split; [done|intros [? [|]]; simplify_eq; lia]);
    destruct (Z.eqb_spec value expected); split; try done; try (intros [? [|]]; congruence);
    subst; auto.
Qed.

Context `{!Commands K Document (Error BE IOE X Document)}.

(** An insert that succeeds answers the identifier inside the one document it sent. *)
Theorem insert_one_answers_the_id_it_stored database collection t g id k k' :
  fst (insert_one (K:=K) (IOE:=IOE) (X:=X) serialize new_id database collection t g) k
    = (Returns (Ok id), k') →
  ∃ document response, doc_get "_id" document = Some id ∧
    command database (insert_command collection [BDocument document]) k
      = (Returns (Ok response), k') ∧
    (doc_get "n" response = Some (Int32 1) ∨ doc_get "n" response = Some (Int64 1)).
Proof.
  unfold insert_one. destruct (serialize t) as [d|e]; [|done].
  destruct (ensure_id new_id d g) as [[id0 d'] g1] eqn:Hid.
  apply ensure_id_stored in Hid as (Hget & _ & _). simpl. intros Hm.
  apply try_ok_inv in Hm as (response & k1 & Hc & Hm).
  apply try_ok_inv in Hm as ([] & k2 & He & Hm). unfold lift, ret in He, Hm.
  injection He as He <-. injection Hm as <- <-.
  apply expect_inserted_count_ok in He as [_ Hn]. eauto 6.
Qed.

(** An insert of many documents succeeds only when the engine counted every one of them,
    and then answers the identifier of each under its position. *)
Theorem insert_many_succeeds_only_when_every_document_went_in database collection documents g
    ids k k' :
  fst (insert_many (K:=K) (IOE:=IOE) (X:=X) serialize new_id database collection documents g) k
    = (Returns (Ok ids), k') →
  documents ≠ [] ∧
  ∃ serialized response,
    fst (serialize_many (IOE:=IOE) (X:=X) serialize new_id documents g) = Ok (serialized, ids) ∧
    command database (insert_command collection serialized) k = (Returns (Ok response), k') ∧
    (doc_get "n" response = Some (Int32 (Z.of_nat (length documents))) ∨
     doc_get "n" response = Some (Int64 (Z.of_nat (length documents)))).
Proof.
  unfold insert_many, serialize_many.
  destruct (serialize_from _ _ 0 documents g) as [[[s ids1]|e] g1] eqn:Hs.
  2: { done. }
  pose proof (serialize_from_ids _ _ _ _ _ _ Hs) as (Hl & _ & _).
  destruct s as [|v s]; [done|]. cbn [fst]. intros Hm.
  apply try_ok_inv in Hm as (response & k1 & Hc & Hm).
  apply try_ok_inv in Hm as ([] & k2 & He & Hm). unfold lift, ret in He, Hm.
  injection He as He <-. injection Hm as <- <-.
  split; [by intros ->|]. exists (v :: s), response. split_and!; [done|done|].
  rewrite <- Hl. by apply expect_inserted_count_ok.
Qed.
End behaviour.

(** ** Examples, over the scripted engine *)

Definition counting (g : nat) : nat * nat := (S g, g).

Definition inserted (n : Z) : Doc :=
  doc [("n"%string, Int32 n : Bson Doc nat Empty_set); ("ok"%string, Int32 1)].

Definition two_documents : list Doc :=
  [doc [("_id"%string, Int64 9 : Bson Doc nat Empty_set)]; doc [("a"%string, Int64 1)]].

Definition two_serialized : list (Bson Doc nat Empty_set) :=
  [BDocument (doc [("_id"%string, Int64 9)]);
   BDocument (doc [("a"%string, Int64 1); ("_id"%string, BObjectId 5%nat)])].

Definition two_ids : gmap nat (Bson Doc nat Empty_set) :=
  <[0%nat := Int64 9]> (<[1%nat := BObjectId 5%nat]> ∅).

Lemma serialize_many_witness :
  two_ids !! 1%nat = Some (BObjectId 5%nat) ∧
  (two_ids !! 1%nat = two_serialized !! 1%nat ≫= λ v, as_document v ≫= λ d, doc_get "_id" d).
Proof.
  destruct (serialize_many_pairs_every_document_with_its_id (IOE:=unit) (X:=unit) as_is counting
              two_documents 5%nat two_serialized two_ids 6%nat) as (_ & _ & H & _).
  - vm_compute. reflexivity.
  - split; [vm_compute; reflexivity|exact (H 1%nat)].
Defined.

Lemma insert_one_witness :
  ∃ document response : Doc, doc_get "_id" document = Some (BObjectId 5%nat) ∧
    (doc_get "n" response = Some (Int32 1) ∨ doc_get "n" response = Some (Int64 1)).
Proof.
  destruct (insert_one_answers_the_id_it_stored (K:=Script) (IOE:=unit) (X:=unit) as_is counting
              "db" "c" (doc [("a"%string, Int64 1)]) 5%nat (BObjectId 5%nat)
              (mkScript [inserted 1] [])
              (mkScript [] [insert_command "c" [BDocument (doc [("a"%string, Int64 1);
                                                   ("_id"%string, BObjectId 5%nat)])]]))
    as (d & r & H1 & _ & H2); [vm_compute; reflexivity|].
  exists d, r. split; [exact H1|exact H2].
Defined.

Lemma insert_many_witness : two_documents ≠ [] ∧ length two_serialized = 2%nat.
Proof.
  destruct (insert_many_succeeds_only_when_every_document_went_in (K:=Script) (IOE:=unit) (X:=unit)
              as_is counting "db" "c" two_documents 5%nat two_ids
              (mkScript [inserted 2] []) (mkScript [] [insert_command "c" two_serialized])) as (H & _); [vm_compute; reflexivity|].
  split; [exact H|reflexivity].
Defined.
