(* ===== verification/Async.v ===== *)
(** * The async client, one call at a time

    [src/nonblocking/client.rs], [find.rs], [insert.rs], [aggregate.rs] and the dispatching half
    of [engine.rs]: every call becomes a job on the worker pool and its answer comes back over a
    reply channel. Which worker takes a job is the subject of [WorkerPool]; here a call that is
    awaited is seen through to its answer, and a job nobody waits for, the [killCursors] of a
    dropped cursor, stays queued until the schedule gets to it, before a later call, at a close,
    or not yet. *)
From S2P Require Import Prelude EngineOptions Options Slot Reaper SessionPool Errors Bson.
From S2P Require Import WorkerState Response Effects Client Find Insert.

Record AsyncClient (W Session : Type) := mkAsync {
  wstate : WState unit unit unit;
  blocking : Client W Session;
  (* the jobs nobody waits for that no worker has run yet: what running each does *)
  detached : list (Client W Session → Client W Session);
  (* the schedule: which of those the workers run, in which order, before the next call's job *)
  turns : list (list nat);
}.
Arguments mkAsync {W Session} _ _ _ _.
Arguments wstate {W Session} _.
Arguments blocking {W Session} _.
Arguments detached {W Session} _.
Arguments turns {W Session} _.

(** ** The jobs nobody waits for *)

Section detached.
Context {C : Type}.
Implicit Types (jobs : list (C → C)) (c : C).

(** The workers run the jobs the schedule picks, in its order; what is left stays queued. *)
Fixpoint run_picked (picks : list nat) jobs c : list (C → C) * C :=
  match picks with
  | [] => (jobs, c)
  | i :: picks =>
      match jobs !! i with
      | Some job => run_picked picks (delete i jobs) (job c)
      | None => run_picked picks jobs c
      end
  end.

Definition run_all jobs c : C := foldl (λ c job, job c) c jobs.

Lemma run_picked_nil picks c : run_picked picks [] c = ([], c).
Proof. induction picks as [|i picks IH]; [done|]. exact IH. Qed.

(** Each is run at most once, and the others are still there. *)
Lemma run_picked_once picks jobs c rest c' :
  run_picked picks jobs c = (rest, c') →
  ∃ ran, ran ++ rest ≡ₚ jobs ∧ c' = run_all ran c.
Proof.
  revert jobs c. induction picks as [|i picks IH]; intros jobs c; simpl.
  - intros [= <- <-]. by exists [].
  - destruct (jobs !! i) as [job|] eqn:Hi; [|apply IH].
    intros (ran & Hperm & ->)%IH. exists (job :: ran). split; [|done]. simpl.
    rewrite Hperm. symmetry. by apply delete_Permutation.
Qed.
End detached.

Section async.
Context `{NativeLib W Session Bytes X, BsonLib Document ObjectId Other Bytes BE} {IOE : Type}.
Local Abbreviation error := (Error BE IOE X Document).
Local Abbreviation client := (Client W Session).
Local Abbreviation async := (AsyncClient W Session).
Local Abbreviation bson := (Bson Document ObjectId Other).

(** What a job's end says on its reply channel: [catch_unwind] keeps a panic inside the job, and
    [None] is a channel dropped without an answer. *)
Definition job_reply {A} (answer : call A) : call (result error (option A)) :=
  match answer with
  | Returns a => Returns (Ok (Some a))
  | Panics => Returns (Ok None)
  | Blocks => Blocks
  | NoFuel => NoFuel
  end.

(** The queue once workers have taken [n] jobs off it. *)
Definition take_jobs (n : nat) (ws : WState unit unit unit) : WState unit unit unit :=
  Nat.iter n (λ ws, snd (take_job ws)) ws.

(** [Engine::dispatch], and the workers: they run what the schedule has them run of the jobs
    queued before, and then this one. *)
Definition Engine_dispatch {A} (operation : io client A) : io async (result error (option A)) :=
  λ s,
  match queue_job (Run tt) (conc_max (limits (blocking s))) (wstate s) with
  | (Err e, _) => (Returns (Err e), s)
  | (Ok _, ws) =>
      let '(jobs, c) := run_picked (default [] (head (turns s))) (detached s) (blocking s) in
      let taken := (length (detached s) - length jobs)%nat in
      let '(answer, c) := operation c in
      (job_reply answer, mkAsync (take_jobs (S taken) ws) c jobs (tail (turns s)))
  end.

(** [Engine::run] *)
Definition Engine_run {A} (operation : io client (result error A)) : io async (result error A) :=
  let!? reply := Engine_dispatch operation in
  ret (match reply with Some result => result | None => Err Closed end).

(** [Engine::run_cancellable], of a future that is awaited to its end. *)
Definition Engine_run_cancellable {A}
    (operation : Slot Session → io client (option (result error A) * Slot Session))
    : io async (result error A) :=
  let!? reply := Engine_dispatch (operation CommandSlot_new) in
  ret (match reply with Some (Some result, _) => result | _ => Err Closed end).

(** [Engine::run_detached]: the job is queued, and nobody waits for it. *)
Definition Engine_run_detached {A} (operation : io client A) : io async unit := λ s,
  match queue_job (BE:=BE) (IOE:=IOE) (X:=X) (D:=Document) (Run tt)
          (conc_max (limits (blocking s))) (wstate s) with
  | (Err _, _) => (Returns tt, s)
  | (Ok _, ws) =>
      (Returns tt, mkAsync ws (blocking s) (detached s ++ [λ c, snd (operation c)]) (turns s))
  end.

Definition async_run_command (database : string) (command : Document)
    : io async (result error Document) :=
  Engine_run_cancellable (λ slot, run_command_cancellable slot database command).

Definition async_run_command_bytes (database : string) (command : Bytes)
    : io async (result error Bytes) :=
  Engine_run_cancellable (λ slot, send_cancellable slot database command).

(** [Engine::close]: the stops go behind every job queued before, so those are run first, what
    the schedule picks and then the others; from here on nothing is dispatched. *)
Definition async_close (close : client → result error unit * client)
    : io async (result error unit) := λ s,
  match begin_close (λ _, tt) (wstate s) with
  | (Err e, _) => (Returns (Err e), s)
  | (Ok _, ws) =>
      let '(jobs, c) := run_picked (default [] (head (turns s))) (detached s) (blocking s) in
      let '(r, c) := close (run_all jobs c) in
      (Returns r, mkAsync (take_jobs (length (detached s)) ws) c [] (tail (turns s)))
  end.

(** ** Cursors *)

Context {T G : Type} (deserialize : Document → result BE T).
Implicit Types (cur : Cursor Document).

Definition async_fetch_next_batch cur : io async (result error (Cursor Document)) :=
  let!? response :=
    Engine_run_cancellable (λ slot, run_command_cancellable slot (cur_database cur)
                                      (get_more_command (cur_id cur) (cur_collection cur))) in
  let!? batch := lift (take_cursor_batch response "nextBatch") in
  ret (Ok (mkCursor (cur_database cur) (cur_collection cur) (fst batch) (snd batch)
             (finished cur))).

Fixpoint async_next (fuel : nat) cur : io async (option (result error T) * Cursor Document) :=
  match fuel with
  | O => λ k, (NoFuel, k)
  | S fuel =>
      match documents cur with
      | document :: rest =>
          ret (Some (map_err BsonError (deserialize document)),
               mkCursor (cur_database cur) (cur_collection cur) (cur_id cur) rest (finished cur))
      | [] =>
          if finished cur || (cur_id cur =? 0) then
            ret (None, mkCursor (cur_database cur) (cur_collection cur) (cur_id cur) [] true)
          else
            let! fetched := async_fetch_next_batch cur in
            match fetched with
            | Ok cur => async_next fuel cur
            | Err error =>
                ret (Some (Err error),
                     mkCursor (cur_database cur) (cur_collection cur) (cur_id cur) [] true)
            end
      end
  end.

(** [Drop for Cursor]: the kill is detached. *)
Definition async_Cursor_drop cur : io async unit :=
  if cur_id cur =? 0 then ret tt
  else Engine_run_detached (A:=result error Document)
         (run_command (cur_database cur) (kill_cursors_command (cur_collection cur) (cur_id cur))).

Fixpoint async_collect (fuel : nat) cur (collected : list T)
    : io async (result error (list T)) :=
  match fuel with
  | O => λ k, (NoFuel, k)
  | S fuel =>
      let! answer := async_next (S fuel) cur in
      match answer with
      | (None, cur) => let! _ := async_Cursor_drop cur in ret (Ok collected)
      | (Some (Err error), cur) => let! _ := async_Cursor_drop cur in ret (Err error)
      | (Some (Ok item), cur) => async_collect fuel cur (collected ++ [item])
      end
  end.

Definition async_find (database collection : string) (filter : Document)
    : io async (result error (Cursor Document)) :=
  let!? response := async_run_command database (find_command collection filter) in
  lift (Cursor_from_response database collection response "firstBatch").

Definition async_find_one (fuel : nat) (database collection : string) (filter : Document)
    : io async (result error (option T)) :=
  let!? response := async_run_command database (find_one_command collection filter) in
  let!? cursor := lift (Cursor_from_response database collection response "firstBatch") in
  let! answer := async_next fuel cursor in
  let! _ := async_Cursor_drop (snd answer) in
  ret (match fst answer with
       | None => Ok None
       | Some (Ok item) => Ok (Some item)
       | Some (Err error) => Err error
       end).

Definition async_aggregate (database collection : string) (pipeline : list Document)
    : io async (result error (Cursor Document)) :=
  let!? response := async_run_command database (aggregate_command collection pipeline) in
  lift (Cursor_from_response database collection response "firstBatch").

(** ** Inserts *)

Context (serialize : T → result BE Document) (new_id : G → G * ObjectId).

Definition async_insert_one (database collection : string) (t : T) (g : G)
    : io async (result error bson) * G :=
  match serialize t with
  | Err e => (lift (Err (BsonError e)), g)
  | Ok document =>
      let '(inserted_id, document, g) := ensure_id new_id document g in
      ((let!? response :=
          async_run_command database (insert_command collection [BDocument document]) in
        let!? _ := lift (expect_inserted_count response 1) in
        ret (Ok inserted_id)), g)
  end.

Definition async_insert_many (database collection : string) (documents : list T) (g : G)
    : io async (result error (gmap nat bson)) * G :=
  match serialize_many serialize new_id documents g with
  | (Err e, g) => (lift (Err e), g)
  | (Ok (serialized, inserted_ids), g) =>
      let expected := Z.of_nat (length serialized) in
      ((let!? response := async_run_command database (insert_command collection serialized) in
        let!? _ := lift (expect_inserted_count response expected) in
        ret (Ok inserted_ids)), g)
  end.
End async.

(** ** The async client answers what the blocking one does *)

Section simulation.
Context `{NativeLib W Session Bytes X, BsonLib Document ObjectId Other Bytes BE} {IOE : Type}.
Local Abbreviation error := (Error BE IOE X Document).
Local Abbreviation client := (Client W Session).
Local Abbreviation async := (AsyncClient W Session).
Local Abbreviation bson := (Bson Document ObjectId Other).

(** Open, with no job left over from another call. *)
Definition async_open (s : async) : Prop :=
  phase (wstate s) = Open ∧ queue (wstate s) = [] ∧ detached s = [] ∧ client_wf (blocking s).

(** From an open client, [ma] answers what [mb] answers on the blocking client inside it, leaves
    that client the same, and leaves nothing queued. *)
Definition awaits {A} (ma : io async A) (mb : io client A) : Prop :=
  ∀ s, async_open s → ∃ answer c' s',
    mb (blocking s) = (answer, c') ∧ ma s = (answer, s') ∧ blocking s' = c' ∧ detached s' = [] ∧
    (∀ a, answer = Returns a → async_open s').

(** The client once the jobs that are queued have been run. *)
Definition settled (s : async) : client := run_all (detached s) (blocking s).

(** The same, but that a job may be left queued: the client is the same when that one has been
    run too. *)
Definition settles {A} (ma : io async A) (mb : io client A) : Prop :=
  ∀ s, async_open s → ∃ answer c' s',
    mb (blocking s) = (answer, c') ∧ ma s = (answer, s') ∧ settled s' = c' ∧
    (length (detached s') ≤ 1)%nat.

Lemma awaits_settles {A} (ma : io async A) mb : awaits ma mb → settles ma mb.
Proof.
  intros Hm s Hs. destruct (Hm s Hs) as (answer & c' & s' & Hb & Ha & Hc & Hd & _).
  exists answer, c', s'. unfold settled. rewrite Hd. split_and!; simpl; done || lia.
Qed.

Lemma awaits_ret {A} (a : A) : awaits (ret a) (ret a).
Proof. intros s Hs. exists (Returns a), (blocking s), s. by destruct Hs as (? & ? & ? & ?). Qed.

Lemma awaits_no_fuel {A} : awaits (A:=A) (λ s, (NoFuel, s)) (λ c, (NoFuel, c)).
Proof. intros s Hs. exists NoFuel, (blocking s), s. by destruct Hs as (? & ? & ? & ?). Qed.

Lemma awaits_bind {A B} ma mb (fa : A → io async B) (fb : A → io client B) :
  awaits ma mb → (∀ a, awaits (fa a) (fb a)) → awaits (bind ma fa) (bind mb fb).
Proof.
  intros Hm Hf s Hs. destruct (Hm s Hs) as (answer & c' & s' & Hb & Ha & Hc & Hd & Hopen).
  unfold bind. rewrite Hb, Ha.
  destruct answer as [a| | |]; try (eexists _, _, _; split_and!; done).
  subst c'. apply (Hf a s' (Hopen a eq_refl)).
Qed.

Lemma settles_bind {A B} ma mb (fa : A → io async B) (fb : A → io client B) :
  awaits ma mb → (∀ a, settles (fa a) (fb a)) → settles (bind ma fa) (bind mb fb).
Proof.
  intros Hm Hf s Hs. destruct (Hm s Hs) as (answer & c' & s' & Hb & Ha & Hc & Hd & Hopen).
  unfold bind. rewrite Hb, Ha. unfold settled.
  destruct answer as [a| | |]; try (eexists _, _, _; rewrite ?Hd; split_and!; simpl; done || lia).
  subst c'. apply (Hf a s' (Hopen a eq_refl)).
Qed.

Lemma settles_then {A B} (ma : io async A) mb (b : B) :
  settles ma mb → settles (bind ma (λ _, ret b)) (bind mb (λ _, ret b)).
Proof.
  intros Hm s Hs. destruct (Hm s Hs) as (answer & c' & s' & Hb & Ha & Hrest).
  unfold bind. rewrite Hb, Ha. by destruct answer; eexists _, _, _.
Qed.

Lemma awaits_try {E A B} ma mb (fa : A → io async (result E B)) (fb : A → io client (result E B)) :
  awaits ma mb → (∀ a, awaits (fa a) (fb a)) → awaits (try_bind ma fa) (try_bind mb fb).
Proof.
  intros Hm Hf. apply awaits_bind; [done|]. intros [a|e]; [apply Hf|apply awaits_ret].
Qed.

Lemma settles_try {E A B} ma mb (fa : A → io async (result E B)) (fb : A → io client (result E B)) :
  awaits ma mb → (∀ a, settles (fa a) (fb a)) → settles (try_bind ma fa) (try_bind mb fb).
Proof.
  intros Hm Hf. apply settles_bind; [done|].
  intros [a|e]; [apply Hf|apply awaits_settles, awaits_ret].
Qed.

(** An open pool takes every job. *)
Lemma queue_open max (ws : WState unit unit unit) :
  phase ws = Open →
  ∃ spawn ws', queue_job (BE:=BE) (IOE:=IOE) (X:=X) (D:=Document) (Run tt) max ws = (Ok spawn, ws') ∧
    queue ws' = queue ws ++ [Run tt] ∧ phase ws' = Open.
Proof.
  intros Hp. unfold queue_job. rewrite decide_True by done.
  case_match; [case_match|]; simpl; eexists _, _; split_and!; done.
Qed.

(** A job alone in the queue is the one that is taken. *)
Lemma dispatch_open {A} (operation : io client A) (s : async) :
  phase (wstate s) = Open → queue (wstate s) = [] → detached s = [] →
  ∃ ws, phase ws = Open ∧ queue ws = [] ∧
    Engine_dispatch (X:=X) (BE:=BE) (IOE:=IOE) (Document:=Document) operation s =
      (job_reply (fst (operation (blocking s))),
       mkAsync ws (snd (operation (blocking s))) [] (tail (turns s))).
Proof.
  intros Hp Hq Hd. unfold Engine_dispatch.
  destruct (queue_open (conc_max (limits (blocking s))) (wstate s) Hp) as (spawn & ws & -> & Hqw & Hpw).
  rewrite Hd, run_picked_nil. simpl. unfold take_job. rewrite Hqw, Hq. simpl.
  exists (mkWState [] (alive ws) (pending ws) (widle ws) (started ws) (phase ws) (WorkerState.client ws)).
  split_and!; [done|done|]. by destruct (operation (blocking s)) as [answer c].
Qed.

(** A command whose answer is awaited, whatever it is made of: [operation] is the job, [direct]
    what the blocking client would do. *)
Lemma awaits_cancellable {A} operation (direct : io client (result error A)) :
  (∀ c, client_wf c → ∃ r slot' c', direct c = (Returns r, c') ∧
     operation CommandSlot_new c = (Returns (Some r, slot'), c') ∧ client_wf c') →
  awaits (Engine_run_cancellable (IOE:=IOE) operation) direct.
Proof.
  intros Hboth s (Hp & Hq & Hdet & Hwf).
  destruct (Hboth (blocking s) Hwf) as (r & slot' & c' & Hrun & Hcan & Hwf').
  destruct (dispatch_open (operation CommandSlot_new) s Hp Hq Hdet) as (ws & Hpw & Hqw & Hd).
  rewrite Hcan in Hd. simpl in Hd.
  exists (Returns r), c', (mkAsync ws c' [] (tail (turns s))). split_and!; [done| |done..].
  unfold Engine_run_cancellable. by rewrite (try_ok _ _ _ _ _ Hd).
Qed.

(** An operation that neither blocks nor panics on a well-formed client. *)
Lemma awaits_run {A} (operation : io client (result error A)) :
  (∀ c, client_wf c → match operation c with
                      | (Returns _, c') => client_wf c'
                      | (NoFuel, _) => True
                      | _ => False
                      end) →
  awaits (Engine_run (IOE:=IOE) operation) operation.
Proof.
  intros Hop s (Hp & Hq & Hdet & Hwf). specialize (Hop _ Hwf).
  destruct (dispatch_open operation s Hp Hq Hdet) as (ws & Hpw & Hqw & Hd).
  destruct (operation (blocking s)) as [answer c'] eqn:Ho. simpl in Hd.
  exists answer, c', (mkAsync ws c' [] (tail (turns s))). split; [done|]. split.
  - unfold Engine_run, try_bind, bind. rewrite Hd. by destruct answer.
  - split_and!; [done..|]. intros a ->. by split_and!.
Qed.

Lemma awaits_command database command :
  awaits (async_run_command (IOE:=IOE) database command) (run_command database command).
Proof. apply awaits_cancellable. intros c Hwf. by apply the_cancellable_route_answers. Qed.

Lemma awaits_bytes database command :
  awaits (async_run_command_bytes (BE:=BE) (IOE:=IOE) (Document:=Document) database command)
    (run_command_bytes database command).
Proof.
  apply awaits_cancellable. intros c Hwf.
  destruct (send_returns (BE:=BE) (IOE:=IOE) (Document:=Document) database command c Hwf) as (r & c' & Hs & Hc & slot' & Hrun).
  by exists r, slot', c'.
Qed.

Context {T G : Type} (deserialize : Document → result BE T).
Context (serialize : T → result BE Document) (new_id : G → G * ObjectId).
Implicit Types (cur : Cursor Document).

Lemma awaits_fetch cur :
  awaits (async_fetch_next_batch (IOE:=IOE) cur) (fetch_next_batch cur).
Proof.
  apply awaits_try; [apply awaits_command|]. intros response.
  apply awaits_try; [apply awaits_ret|]. intros batch. apply awaits_ret.
Qed.

Lemma awaits_next fuel cur :
  awaits (async_next (IOE:=IOE) deserialize fuel cur) (next deserialize fuel cur).
Proof.
  revert cur. induction fuel as [|fuel IH]; intros cur; simpl; [apply awaits_no_fuel|].
  destruct (documents cur) as [|d rest]; [|apply awaits_ret].
  destruct (finished cur || (cur_id cur =? 0)); [apply awaits_ret|].
  apply awaits_bind; [apply awaits_fetch|].
  intros [cur'|e]; [apply IH|apply awaits_ret].
Qed.

(** The queued kill and the awaited one leave the same client behind, once the queued one has
    been run. *)
Lemma settles_drop cur :
  settles (async_Cursor_drop (IOE:=IOE) cur) (Cursor_drop (IOE:=IOE) (X:=X) cur).
Proof.
  unfold async_Cursor_drop, Cursor_drop, kill.
  destruct (cur_id cur =? 0); [apply awaits_settles, awaits_ret|].
  intros s (Hp & Hq & Hdet & Hwf). set (c := kill_cursors_command (cur_collection cur) (cur_id cur)).
  destruct (a_command_returns (IOE:=IOE) (cur_database cur) c (blocking s) Hwf)
    as (r & c' & Hr & Hwf').
  destruct (queue_open (conc_max (limits (blocking s))) (wstate s) Hp) as (spawn & ws & Hqj & _).
  eexists (Returns tt), c', _. split_and!.
  - erewrite bind_returns; [done|]. by rewrite (bind_returns _ _ _ _ _ Hr).
  - unfold Engine_run_detached. by rewrite Hqj.
  - unfold settled. cbn [detached blocking]. rewrite Hdet. cbn [app run_all foldl].
    by rewrite Hr.
  - cbn [detached]. rewrite Hdet. simpl. lia.
Qed.

Lemma settles_collect fuel cur collected :
  settles (async_collect (IOE:=IOE) deserialize fuel cur collected)
    (collect deserialize fuel cur collected).
Proof.
  revert cur collected. induction fuel as [|fuel IH]; intros cur collected;
    cbn [collect async_collect]; [apply awaits_settles, awaits_no_fuel|].
  apply settles_bind; [apply awaits_next|].
  intros [[[item|e]|] cur']; [apply IH| |]; apply settles_then, settles_drop.
Qed.

Lemma awaits_find database collection filter :
  awaits (async_find (IOE:=IOE) database collection filter) (find database collection filter).
Proof. apply awaits_try; [apply awaits_command|]. intros. apply awaits_ret. Qed.

Lemma settles_find_one fuel database collection filter :
  settles (async_find_one (IOE:=IOE) deserialize fuel database collection filter)
    (find_one deserialize fuel database collection filter).
Proof.
  apply settles_try; [apply awaits_command|]. intros response.
  apply settles_try; [apply awaits_ret|]. intros cur1.
  apply settles_bind; [apply awaits_next|]. intros answer.
  apply settles_then, settles_drop.
Qed.

Lemma awaits_aggregate database collection pipeline :
  awaits (async_aggregate (IOE:=IOE) database collection pipeline)
    (aggregate database collection pipeline).
Proof. apply awaits_try; [apply awaits_command|]. intros. apply awaits_ret. Qed.

Lemma awaits_insert_one database collection t g :
  awaits (fst (async_insert_one (IOE:=IOE) serialize new_id database collection t g))
    (fst (insert_one serialize new_id database collection t g)) ∧
  snd (async_insert_one (IOE:=IOE) (X:=X) (W:=W) (Session:=Session) serialize new_id
         database collection t g)
  = snd (insert_one (K:=client) (IOE:=IOE) (X:=X) serialize new_id database collection t g).
Proof.
  unfold async_insert_one, insert_one. destruct (serialize t) as [d|e].
  - destruct (ensure_id new_id d g) as [[id d'] g']. split; [|done].
    apply awaits_try; [apply awaits_command|]. intros response.
    apply awaits_try; [apply awaits_ret|]. intros. apply awaits_ret.
  - split; [apply awaits_ret|done].
Qed.

Lemma awaits_insert_many database collection ts g :
  awaits (fst (async_insert_many (IOE:=IOE) serialize new_id database collection ts g))
    (fst (insert_many serialize new_id database collection ts g)) ∧
  snd (async_insert_many (IOE:=IOE) (X:=X) (W:=W) (Session:=Session) serialize new_id
         database collection ts g)
  = snd (insert_many (K:=client) (IOE:=IOE) (X:=X) serialize new_id database collection ts g).
Proof.
  unfold async_insert_many, insert_many.
  destruct (serialize_many serialize new_id ts g) as [[[s ids]|e] g'].
  - split; [|done].
    apply awaits_try; [apply awaits_command|]. intros response.
    apply awaits_try; [apply awaits_ret|]. intros. apply awaits_ret.
  - split; [apply awaits_ret|done].
Qed.

(** ** A close *)

(** A close of an open engine has every queued job run, each once, and then says what the
    blocking client's close says. *)
Lemma async_close_closes (close : client → result error unit * client) (s : async) :
  phase (wstate s) = Open → alive (wstate s) ≠ 0 →
  ∃ ran c s', ran ≡ₚ detached s ∧ c = run_all ran (blocking s) ∧
    async_close close s = (Returns (fst (close c)), s') ∧ blocking s' = snd (close c) ∧
    detached s' = [] ∧ phase (wstate s') = Closing.
Proof.
  intros Hp Ha. unfold async_close, begin_close.
  rewrite (bool_decide_false (phase (wstate s) ≠ Open)) by tauto. rewrite (proj2 (Z.eqb_neq _ _) Ha).
  destruct (run_picked _ (detached s) (blocking s)) as [rest c1] eqn:Hr.
  destruct (run_picked_once _ _ _ _ _ Hr) as (ran & Hperm & ->).
  exists (ran ++ rest), (run_all rest (run_all ran (blocking s))).
  destruct (close (run_all rest (run_all ran (blocking s)))) as [r c'] eqn:Hc. simpl.
  eexists. split_and!; [done|unfold run_all; by rewrite foldl_app|done|done|done|].
  simpl. clear. generalize (length (detached s)) as n.
  induction n as [|n IH]; [done|]. simpl. unfold take_job. by destruct (queue (take_jobs n _)).
Qed.

(** ** After a close *)

Lemma dispatch_refused {A} (operation : io client A) (s : async) :
  phase (wstate s) ≠ Open →
  Engine_dispatch (X:=X) (BE:=BE) (IOE:=IOE) (Document:=Document) operation s
  = (Returns (Err Closed), s).
Proof. intros Hp. unfold Engine_dispatch, queue_job. by rewrite decide_False. Qed.

(** Once an async client is closed every operation answers the closed error and nothing
    reaches the engine. *)
Theorem a_closed_async_client_refuses_everything (s : async) database command bytes cur close :
  phase (wstate s) ≠ Open →
  async_run_command (IOE:=IOE) database command s = (Returns (Err Closed), s) ∧
  async_run_command_bytes (BE:=BE) (IOE:=IOE) (Document:=Document) database bytes s
    = (Returns (Err Closed), s) ∧
  async_close (BE:=BE) (X:=X) (IOE:=IOE) (Document:=Document) close s = (Returns (Err Closed), s) ∧
  (finished cur = false → documents cur = [] → cur_id cur ≠ 0 → ∀ fuel,
     async_next (IOE:=IOE) (X:=X) deserialize (S fuel) cur s =
       (Returns (Some (Err Closed),
                 mkCursor (cur_database cur) (cur_collection cur) (cur_id cur) [] true), s)) ∧
  async_Cursor_drop (IOE:=IOE) (X:=X) cur s = (Returns tt, s).
Proof.
  intros Hp.
  assert (∀ db d, async_run_command (IOE:=IOE) db d s = (Returns (Err Closed), s)) as Hrun.
  { intros db d. unfold async_run_command, Engine_run_cancellable.
    apply (try_err _ _ Closed s s). by apply dispatch_refused. }
  split_and!.
  - apply Hrun.
  - unfold async_run_command_bytes, Engine_run_cancellable.
    apply (try_err _ _ Closed s s). by apply dispatch_refused.
  - unfold async_close, begin_close. by rewrite bool_decide_true.
  - intros Hf Hd Hid fuel. simpl. rewrite Hd, Hf. simpl.
    destruct (Z.eqb_spec (cur_id cur) 0); [done|].
    erewrite bind_returns; [|apply (try_err _ _ Closed s s), Hrun]. done.
  - unfold async_Cursor_drop. destruct (cur_id cur =? 0); [done|].
    unfold Engine_run_detached, queue_job. by rewrite decide_False.
Qed.
End simulation.

(** ** A concrete client *)

Definition closed_async : AsyncClient LoggingEngine nat :=
  mkAsync (mkWState [] 0 0 0 1 Closing None) pool_of_two [] [].

Lemma closed_async_witness :
  async_run_command (IOE:=unit) "db" ping closed_async = (Returns (Err Closed), closed_async).
Proof.
  apply (a_closed_async_client_refuses_everything (IOE:=unit) as_is closed_async "db" ping ping
           open_cursor (λ c, (Ok tt, c))).
  discriminate.
Defined.

Definition open_async : AsyncClient LoggingEngine nat :=
  mkAsync (mkWState [] 1 0 1 1 Open (Some tt)) pool_of_two [] [].

Lemma open_async_open : async_open open_async.
Proof. split_and!; [reflexivity..|exact pool_of_two_wf]. Qed.

Example an_open_async_client_answers :
  fst (async_run_command (IOE:=unit) "db" ping open_async)
  = Returns (Ok (doc [("ok"%string, Int32 1)])).
Proof. vm_compute. reflexivity. Qed.
