(* ===== verification/Limits.v ===== *)
(** * The free-disk floors

    [src/limits]: the two server parameters a floor is made of ([knobs.rs], [floor.rs]), moving
    them on a running engine and putting back a half-made move ([process.rs]), and establishing
    them at every open ([at_open.rs]).

    What [FloorMoves::one_at_a_time] runs under its lock is a [section]: a program that sends
    commands and reads or writes the floors recorded for the process. A section is run on its
    own by [run_section]; [LimitsLock] runs any number of them at once. *)
From stdpp Require Import pretty.
From S2P Require Import Prelude EngineOptions Options Slot Reaper SessionPool Errors Bson.
From S2P Require Import Response Effects Client.

(** ** The floors and their units *)

Definition FreeDiskFloor_MIN_MEBIBYTES : Z := 1.
Definition FreeDiskFloor_MAX_MEBIBYTES : Z := u32_max.

Definition FreeDiskFloor_from_mebibytes (mebibytes : Z) : result OutOfRange FreeDiskFloor :=
  map_ok mkFreeDiskFloor
    (check_range "free disk floor" "MiB" mebibytes
       FreeDiskFloor_MIN_MEBIBYTES FreeDiskFloor_MAX_MEBIBYTES).

Record IndexBuildFloor := mkIndexBuildFloor { index_build_mebibytes : Z }.
Record QuerySpillingFloor := mkQuerySpillingFloor { query_spilling_bytes : Z }.

Record ReportedFloors := mkReportedFloors {
  index_build : IndexBuildFloor;
  query_spilling : QuerySpillingFloor;
}.

#[export] Instance ReportedFloors_eq_dec : EqDecision ReportedFloors.
Proof.
  intros [[a] [b]] [[c] [d]]. destruct (decide (a = c)), (decide (b = d));
    [left; congruence|right; congruence..].
Defined.

Definition INDEX_BUILD_FLOOR : string := "indexBuildMinAvailableDiskSpaceMB".
Definition QUERY_SPILLING_FLOOR : string := "internalQuerySpillingMinAvailableDiskSpaceBytes".
Definition BYTES_PER_MEBIBYTE : Z := 1024 * 1024.

(** The pair of knob values a floor names; the product is an [i64]'s. *)
Definition floors_of (floor : FreeDiskFloor) : ReportedFloors :=
  mkReportedFloors (mkIndexBuildFloor (floor_mebibytes floor))
    (mkQuerySpillingFloor (i64_wrap (floor_mebibytes floor * BYTES_PER_MEBIBYTE))).

(** Whoever answers the commands of the [admin] database. *)
Class AdminCommands (K Document E : Type) := {
  run_on_admin : Document → io K (result E Document);
}.

Section limits.
Context `{BsonLib Document ObjectId Other Bytes BE} {IOE X : Type}.
(** How [bson] writes a value in an error message. *)
Context (debug : Bson Document ObjectId Other → string).
Local Abbreviation error := (Error BE IOE X Document).
Local Abbreviation bson := (Bson Document ObjectId Other).

Definition set_index_build (floor : IndexBuildFloor) : Document :=
  doc [("setParameter"%string, Int32 1 : bson);
       (INDEX_BUILD_FLOOR, Int64 (index_build_mebibytes floor))].

Definition set_query_spilling (floor : QuerySpillingFloor) : Document :=
  doc [("setParameter"%string, Int32 1 : bson);
       (QUERY_SPILLING_FLOOR, Int64 (query_spilling_bytes floor))].

Definition floor_commands (index_build : IndexBuildFloor) (query_spilling : QuerySpillingFloor)
    : Document * Document :=
  (set_index_build index_build, set_query_spilling query_spilling).

Definition ReportedFloors_commands (floors : ReportedFloors) : Document * Document :=
  floor_commands (index_build floors) (query_spilling floors).

Definition FreeDiskFloor_commands (floor : FreeDiskFloor) : Document * Document :=
  ReportedFloors_commands (floors_of floor).

Definition get_floors : Document :=
  doc [("getParameter"%string, Int32 1 : bson); (INDEX_BUILD_FLOOR, Int32 1);
       (QUERY_SPILLING_FLOOR, Int32 1)].

Definition floor_in (reported : Document) (knob : string) : result error Z :=
  match doc_get knob reported with
  | Some (Int64 floor) => Ok floor
  | Some found =>
      Err (InvalidResponse ("getParameter answered " ++ knob ++ " with " ++ debug found
             ++ ", not the 64-bit integer the knob holds"))
  | None => Err (InvalidResponse ("getParameter has no " ++ knob))
  end.

(** ** What runs under the lock *)

Inductive section (A : Type) : Type :=
| Done (answer : A)
| SendCommand (command : Document) (k : result error Document → section A)
| ReadRecorded (k : option ReportedFloors → section A)
| WriteRecorded (floors : ReportedFloors) (k : section A).
Arguments Done {A} answer.
Arguments SendCommand {A} command k.
Arguments ReadRecorded {A} k.
Arguments WriteRecorded {A} floors k.

Fixpoint section_bind {A B} (m : section A) (f : A → section B) : section B :=
  match m with
  | Done a => f a
  | SendCommand c k => SendCommand c (λ r, section_bind (k r) f)
  | ReadRecorded k => ReadRecorded (λ r, section_bind (k r) f)
  | WriteRecorded v k => WriteRecorded v (section_bind k f)
  end.

Definition section_try {A B} (m : section (result error A)) (f : A → section (result error B))
    : section (result error B) :=
  section_bind m (λ r, match r with Ok a => f a | Err e => Done (Err e) end).

Definition reported_floors : section (result error ReportedFloors) :=
  SendCommand get_floors (λ reply, Done (
    let? reported := reply in
    let? index_build := floor_in reported INDEX_BUILD_FLOOR in
    let? query_spilling := floor_in reported QUERY_SPILLING_FLOOR in
    Ok (mkReportedFloors (mkIndexBuildFloor index_build)
          (mkQuerySpillingFloor query_spilling)))).

(** [send]: in order, up to the first refusal. *)
Definition send_commands (commands : Document * Document) : section (result error unit) :=
  SendCommand (fst commands) (λ reply,
    match reply with
    | Err e => Done (Err e)
    | Ok _ =>
        SendCommand (snd commands) (λ reply,
          match reply with
          | Err e => Done (Err e)
          | Ok _ => Done (Ok tt)
          end)
    end).

Definition apply_or_put_back (floor : FreeDiskFloor) (before : ReportedFloors)
    : section (result error unit) :=
  let '(move_index_build, move_spilling) := FreeDiskFloor_commands floor in
  let put_index_build_back := fst (ReportedFloors_commands before) in
  SendCommand move_index_build (λ reply,
    match reply with
    | Err e => Done (Err e)
    | Ok _ =>
        SendCommand move_spilling (λ reply,
          match reply with
          | Ok _ => Done (Ok tt)
          | Err cause =>
              SendCommand put_index_build_back (λ reply,
                Done (Err (match reply with
                           | Ok _ => cause
                           | Err rollback => FreeDiskFloorNotRestored floor cause rollback
                           end)))
          end)
    end).

Definition free_disk_floors : section (result error ReportedFloors) := reported_floors.

Definition move_free_disk_floor (floor : FreeDiskFloor) : section (result error unit) :=
  section_try reported_floors (apply_or_put_back floor).

(** [EngineFloorDefaults::of] *)
Definition EngineFloorDefaults_of : section (result error ReportedFloors) :=
  ReadRecorded (λ recorded,
    match recorded with
    | Some floors => Done (Ok floors)
    | None => section_try reported_floors (λ floors, WriteRecorded floors (Done (Ok floors)))
    end).

Definition establish (requested : option FreeDiskFloor) : section (result error unit) :=
  section_try EngineFloorDefaults_of (λ engine_own,
    match requested with
    | Some floor => send_commands (FreeDiskFloor_commands floor)
    | None => send_commands (ReportedFloors_commands engine_own)
    end).

(** A section on its own: the lock is free, and nobody else sends anything. *)
Context `{!AdminCommands K Document error}.

Fixpoint run_section {A} (m : section A) : io (K * option ReportedFloors) A := λ s,
  match m with
  | Done a => (Returns a, s)
  | SendCommand c k =>
      match run_on_admin c (fst s) with
      | (Returns r, e) => run_section (k r) (e, snd s)
      | (Blocks, e) => (Blocks, (e, snd s))
      | (Panics, e) => (Panics, (e, snd s))
      | (NoFuel, e) => (NoFuel, (e, snd s))
      end
  | ReadRecorded k => run_section (k (snd s)) s
  | WriteRecorded v k => run_section k (fst s, Some v)
  end.
End limits.
Arguments Done {Document BE IOE X A} answer.
Arguments SendCommand {Document BE IOE X A} command k.
Arguments ReadRecorded {Document BE IOE X A} k.
Arguments WriteRecorded {Document BE IOE X A} floors k.

#[export] Instance Client_AdminCommands
    `{NativeLib W Session Bytes X, BsonLib Document ObjectId Other Bytes BE} {IOE : Type} :
    AdminCommands (Client W Session) Document (Error BE IOE X Document) := {
  run_on_admin c := run_command "admin" c;
}.

(** ** What an engine that holds the two parameters promises

    [floors_in_force] is what it measures an index build and a spill against, and [engine_ok] a
    state in which it answers. A command it
    refuses changes neither, one it takes changes the knob it carries, and it reports what is
    in force. *)
Class FloorEngine (K Document ObjectId Other Bytes BE IOE X : Type)
    `{BsonLib Document ObjectId Other Bytes BE}
    `{!AdminCommands K Document (Error BE IOE X Document)} := {
  floors_in_force : K → ReportedFloors;
  engine_ok : K → Prop;
  admin_answers c k :
    engine_ok k → ∃ r k', run_on_admin c k = (Returns r, k') ∧ engine_ok k';
  sets_index_build v k r k' :
    run_on_admin (set_index_build v) k = (Returns r, k') →
    floors_in_force k' =
      if is_ok r then mkReportedFloors v (query_spilling (floors_in_force k))
      else floors_in_force k;
  sets_query_spilling v k r k' :
    run_on_admin (set_query_spilling v) k = (Returns r, k') →
    floors_in_force k' =
      if is_ok r then mkReportedFloors (index_build (floors_in_force k)) v
      else floors_in_force k;
  reports_floors k r k' :
    run_on_admin get_floors k = (Returns r, k') →
    floors_in_force k' = floors_in_force k ∧
    ∀ reply, r = Ok reply →
      (∀ v, doc_get INDEX_BUILD_FLOOR reply = Some (Int64 v) →
         v = index_build_mebibytes (index_build (floors_in_force k))) ∧
      (∀ v, doc_get QUERY_SPILLING_FLOOR reply = Some (Int64 v) →
         v = query_spilling_bytes (query_spilling (floors_in_force k)));
}.

Section floors.
Context `{FloorEngine K Document ObjectId Other Bytes BE IOE X}.
Context (debug : Bson Document ObjectId Other → string).
Local Abbreviation error := (Error BE IOE X Document).
Implicit Types (k : K) (rec : option ReportedFloors).

Lemma run_section_bind {A B} (m : section A) (f : A → section B) (s : K * option ReportedFloors) :
  run_section (section_bind m f) s = bind (run_section m) (λ a, run_section (f a)) s.
Proof.
  revert s. induction m as [a|c cont IH|cont IH|v cont IH]; intros s; simpl; try done.
  - unfold bind; simpl. destruct (run_on_admin c (fst s)) as [[r| | |] e]; try done.
Qed.

Lemma run_section_try {A B} (m : section (result error A)) (f : A → section (result error B))
    (s : K * option ReportedFloors) :
  run_section (section_try m f) s = try_bind (run_section m) (λ a, run_section (f a)) s.
Proof.
  unfold section_try, try_bind. rewrite run_section_bind. unfold bind.
  by destruct (run_section m s) as [[[]| | |] ?].
Qed.

Lemma run_reported_floors k rec :
  engine_ok k →
  ∃ r k', run_section (reported_floors debug) (k, rec) = (Returns r, (k', rec)) ∧
    engine_ok k' ∧ floors_in_force k' = floors_in_force k ∧
    (∀ floors, r = Ok floors → floors = floors_in_force k).
Proof.
  intros Hok. destruct (admin_answers get_floors k Hok) as (r & k' & Hr & Hok').
  simpl. rewrite Hr.
  destruct (reports_floors k r k' Hr) as [Hk Hv].
  eexists _, k'. split; [done|]. split; [done|]. split; [done|]. intros floors Hf.
  destruct r as [reply|]; [|done]. destruct (Hv reply eq_refl) as [Hi Hs].
  unfold floor_in in Hf. simpl in Hf.
  destruct (doc_get INDEX_BUILD_FLOOR reply) as [[]|]; simpl in Hf; try done.
  destruct (doc_get QUERY_SPILLING_FLOOR reply) as [[]|]; simpl in Hf; try done.
  injection Hf as <-. rewrite (Hi _ eq_refl), (Hs _ eq_refl).
  by destruct (floors_in_force k) as [[] []].
Qed.

Lemma run_apply_or_put_back floor before k rec :
  engine_ok k → index_build before = index_build (floors_in_force k) →
  ∃ r k', run_section (apply_or_put_back floor before) (k, rec) = (Returns r, (k', rec)) ∧
    engine_ok k' ∧
    ((r = Ok tt ∧ floors_in_force k' = floors_of floor) ∨
     (∃ e, r = Err e ∧ floors_in_force k' = floors_in_force k) ∨
     (∃ cause rollback, r = Err (FreeDiskFloorNotRestored floor cause rollback) ∧
        floors_in_force k' =
          mkReportedFloors (index_build (floors_of floor)) (query_spilling (floors_in_force k)))).
Proof.
  intros Hok Hb. unfold apply_or_put_back, FreeDiskFloor_commands, ReportedFloors_commands,
    floor_commands. cbn [run_section fst].
  destruct (admin_answers (set_index_build (index_build (floors_of floor))) k Hok)
    as (r1 & k1 & H1 & Hok1).
  rewrite H1. apply sets_index_build in H1. destruct r1 as [reply1|e1]; simpl in H1; cbn [run_section fst snd].
  2: { eexists _, _. split; [done|]. split; [done|]. right; left. eauto. }
  destruct (admin_answers (set_query_spilling (query_spilling (floors_of floor))) k1 Hok1)
    as (r2 & k2 & H2 & Hok2).
  rewrite H2. apply sets_query_spilling in H2. rewrite H1 in H2. simpl in H2.
  destruct r2 as [reply2|e2]; simpl in H2; cbn [run_section fst snd].
  { eexists _, _. split; [done|]. split; [done|]. left. split; [done|]. by rewrite H2. }
  destruct (admin_answers (set_index_build (index_build before)) k2 Hok2)
    as (r3 & k3 & H3 & Hok3).
  rewrite H3. apply sets_index_build in H3. rewrite H2 in H3. simpl in H3.
  destruct r3 as [reply3|e3]; simpl in H3; cbn [run_section fst snd]; eexists _, _; (split; [done|]);
    (split; [done|]).
  - right; left. eexists. split; [done|]. rewrite H3, Hb. by destruct (floors_in_force k).
  - right; right. eauto.
Qed.

Lemma run_move floor k rec :
  engine_ok k →
  ∃ r k', run_section (move_free_disk_floor debug floor) (k, rec) = (Returns r, (k', rec)) ∧
    engine_ok k' ∧
    ((r = Ok tt ∧ floors_in_force k' = floors_of floor) ∨
     (∃ e, r = Err e ∧ floors_in_force k' = floors_in_force k) ∨
     (∃ cause rollback, r = Err (FreeDiskFloorNotRestored floor cause rollback) ∧
        floors_in_force k' =
          mkReportedFloors (index_build (floors_of floor)) (query_spilling (floors_in_force k)))).
Proof.
  intros Hok. unfold move_free_disk_floor.
  destruct (run_reported_floors k rec Hok) as (r & k1 & Hr & Hok1 & Hk & Hf).
  rewrite run_section_try. destruct r as [before|e].
  - rewrite (try_ok _ _ _ _ _ Hr). specialize (Hf before eq_refl).
    destruct (run_apply_or_put_back floor before k1 rec Hok1) as (r & k' & Hrun & Hok' & Hc).
    { by rewrite Hf, Hk. }
    exists r, k'. split; [done|]. split; [done|]. by rewrite Hk in Hc.
  - rewrite (try_err _ _ _ _ _ Hr). eexists _, _. split; [done|]. split; [done|].
    right; left. eauto.
Qed.

(** C9. Moving the floors on an engine that answers ends in one of three ways: both knobs moved
    and no error; an error and the floors exactly where they were; or the error that names the
    half-made move, with only the index-build knob moved. *)
Theorem a_refused_move_is_put_back_or_reported floor k rec :
  engine_ok k →
  ∃ r k', run_section (move_free_disk_floor debug floor) (k, rec) = (Returns r, (k', rec)) ∧
    ((r = Ok tt ∧ floors_in_force k' = floors_of floor) ∨
     (∃ e, r = Err e ∧ floors_in_force k' = floors_in_force k) ∨
     (∃ cause rollback, r = Err (FreeDiskFloorNotRestored floor cause rollback) ∧
        floors_in_force k' =
          mkReportedFloors (index_build (floors_of floor)) (query_spilling (floors_in_force k)))).
Proof.
  intros Hok. destruct (run_move floor k rec Hok) as (r & k' & Hr & _ & Hc). eauto.
Qed.

Lemma run_send_commands floors k rec :
  engine_ok k →
  ∃ r k', run_section (send_commands (ReportedFloors_commands floors)) (k, rec)
            = (Returns r, (k', rec)) ∧
    engine_ok k' ∧ (r = Ok tt → floors_in_force k' = floors).
Proof.
  intros Hok. unfold send_commands, ReportedFloors_commands, floor_commands. cbn [run_section fst snd].
  destruct (admin_answers (set_index_build (index_build floors)) k Hok) as (r1 & k1 & H1 & Hok1).
  rewrite H1. apply sets_index_build in H1.
  destruct r1 as [reply1|e1]; simpl in H1; cbn [run_section fst snd];
    [|eexists _, _; split_and!; done].
  destruct (admin_answers (set_query_spilling (query_spilling floors)) k1 Hok1)
    as (r2 & k2 & H2 & Hok2).
  rewrite H2. apply sets_query_spilling in H2. rewrite H1 in H2. simpl in H2.
  destruct r2 as [reply2|e2]; simpl in H2; cbn [run_section fst snd]; eexists _, _;
    (split; [done|]); (split; [done|]); [|done].
  intros _. rewrite H2. by destruct floors.
Qed.

(** The floors an open measures itself by: the recorded ones, or, the first time, the engine's. *)
Definition own_floors k rec : ReportedFloors := default (floors_in_force k) rec.

Lemma run_establish requested k rec :
  engine_ok k →
  ∃ r k' rec', run_section (establish debug requested) (k, rec) = (Returns r, (k', rec')) ∧
    engine_ok k' ∧
    (rec' = Some (own_floors k rec) ∨ rec' = rec ∧ rec = None ∧ r ≠ Ok tt ∧
       floors_in_force k' = floors_in_force k) ∧
    (r = Ok tt → rec' = Some (own_floors k rec) ∧ floors_in_force k' =
       match requested with Some floor => floors_of floor | None => own_floors k rec end).
Proof.
  intros Hok. unfold establish. rewrite run_section_try.
  assert (∀ own k1 rec1, engine_ok k1 →
    ∃ r k', run_section
        (match requested with
         | Some floor => send_commands (FreeDiskFloor_commands floor)
         | None => send_commands (ReportedFloors_commands own)
         end) (k1, rec1) = (Returns r, (k', rec1)) ∧
      engine_ok k' ∧ (r = Ok tt → floors_in_force k' =
         match requested with Some floor => floors_of floor | None => own end)) as Hsend.
  { intros own k1 rec1 Hok1. unfold FreeDiskFloor_commands.
    destruct requested as [floor|]; by apply run_send_commands. }
  unfold EngineFloorDefaults_of. destruct rec as [own|]; cbn [run_section snd].
  - destruct (Hsend own k (Some own) Hok) as (r & k' & Hr & Hok' & Hf).
    exists r, k', (Some own). split; [|split; [done|split; [by left|auto]]].
    unfold try_bind, bind. cbn [run_section]. exact Hr.
  - destruct (run_reported_floors k None Hok) as (r & k1 & Hr & Hok1 & Hk & Hf).
    unfold try_bind at 1, bind at 1. cbn [run_section snd]. rewrite run_section_try.
    destruct r as [own|e].
    + rewrite (try_ok _ _ _ _ _ Hr). cbn [run_section fst]. rewrite (Hf own eq_refl).
      destruct (Hsend (floors_in_force k) k1 (Some (floors_in_force k)) Hok1)
        as (r & k' & Hr' & Hok' & Hf').
      exists r, k', (Some (floors_in_force k)). split; [exact Hr'|]. unfold own_floors. simpl.
      split; [done|]. split; [by left|auto].
    + rewrite (try_err _ _ _ _ _ Hr). exists (Err e), k1, None.
      split; [done|]. split; [done|]. split; [right; by split_and!|done].
Qed.

(** An open that works puts the floors it named in force, or else the ones recorded at the
    first open, which it records when it is the first. *)
Theorem an_open_is_put_on_the_floor_it_names_or_the_engines_own requested k rec :
  engine_ok k →
  ∃ r k' rec', run_section (establish debug requested) (k, rec) = (Returns r, (k', rec')) ∧
    (r = Ok tt → rec' = Some (default (floors_in_force k) rec) ∧ floors_in_force k' =
       match requested with
       | Some floor => floors_of floor
       | None => default (floors_in_force k) rec
       end).
Proof.
  intros Hk. destruct (run_establish requested k rec Hk) as (r & k' & rec' & Hr & _ & _ & Hok).
  eauto 6.
Qed.

(** ** The life of a process

    Its engine starts on MongoDB's own floors; clients are opened, moved about and closed. A
    floor can only be moved through an open client, so only after an open that worked. *)
Inductive process_life (fresh : K) : bool → K → option ReportedFloors → Prop :=
| life_starts : engine_ok fresh → process_life fresh false fresh None
| life_opens opened k rec requested r k' rec' :
    process_life fresh opened k rec →
    run_section (establish debug requested) (k, rec) = (Returns r, (k', rec')) →
    process_life fresh (is_ok r) k' rec'
| life_moves k rec floor r k' rec' :
    process_life fresh true k rec →
    run_section (move_free_disk_floor debug floor) (k, rec) = (Returns r, (k', rec')) →
    process_life fresh true k' rec'
| life_closes k rec :
    process_life fresh true k rec → process_life fresh false k rec.

Lemma life_records_the_engines_own fresh opened k rec :
  process_life fresh opened k rec →
  engine_ok k ∧
  (rec = Some (floors_in_force fresh) ∨
   (rec = None ∧ opened = false ∧ floors_in_force k = floors_in_force fresh)).
Proof.
  induction 1 as [|opened k rec requested r k' rec' _ [Hok IH] Hr
    |k rec floor r k' rec' _ [Hok IH] Hr|k rec _ [Hok IH]].
  - split; [done|by right].
  - destruct (run_establish requested k rec Hok) as (r2 & k2 & rec2 & Hr2 & Hok2 & Hrec & _).
    rewrite Hr2 in Hr. injection Hr as -> -> ->. unfold own_floors in Hrec. split; [done|].
    assert (default (floors_in_force k) rec = floors_in_force fresh) as Hown.
    { destruct IH as [-> |(-> & _ & Hk)]; simpl; congruence. }
    destruct Hrec as [-> |(-> & -> & Hne & Hk)]; [left; congruence|].
    right. destruct IH as [|(_ & _ & Hf)]; [done|]. split_and!; [done| |congruence].
    by destruct r as [[]|].
  - destruct IH as [-> |(_ & ? & _)]; [|done].
    destruct (run_move floor k (Some (floors_in_force fresh)) Hok) as (r2 & k2 & Hr2 & Hok2 & _).
    rewrite Hr2 in Hr. injection Hr as -> -> <-. split; [done|by left].
  - split; [done|]. destruct IH as [-> |(_ & ? & _)]; [by left|done].
Qed.

(** Whatever floors were named by earlier opens or moved on earlier clients, an open that
    names none and works leaves the engine on the floors the process started with. *)
Theorem no_floor_outlives_the_client_that_named_it fresh opened k rec k' rec' :
  process_life fresh opened k rec →
  run_section (establish debug None) (k, rec) = (Returns (Ok tt), (k', rec')) →
  floors_in_force k' = floors_in_force fresh.
Proof.
  intros Hlife Hr. apply life_records_the_engines_own in Hlife as [Hk Hlife].
  destruct (run_establish None k rec Hk) as (r2 & k2 & rec2 & Hr2 & _ & _ & Hok).
  rewrite Hr2 in Hr. injection Hr as -> -> ->. destruct (Hok eq_refl) as [_ ->].
  unfold own_floors. destruct Hlife as [-> |(-> & _ & ->)]; done.
Qed.
End floors.

(** The two counts of a floor are the ones asked for: no product leaves an [i64]. *)
Lemma floors_of_exact floor :
  FreeDiskFloor_MIN_MEBIBYTES ≤ floor_mebibytes floor ≤ FreeDiskFloor_MAX_MEBIBYTES →
  floors_of floor =
    mkReportedFloors (mkIndexBuildFloor (floor_mebibytes floor))
      (mkQuerySpillingFloor (floor_mebibytes floor * 1048576)).
Proof.
  unfold FreeDiskFloor_MIN_MEBIBYTES, FreeDiskFloor_MAX_MEBIBYTES, u32_max, u32_modulus.
  intros Hf. unfold floors_of, i64_wrap, BYTES_PER_MEBIBYTE.
  do 2 f_equal. rewrite Z.mod_small; lia.
Qed.

(** ** The engine of the crate's own tests

    [limits/fake.rs]: it reports whatever was last set on it and can depart from a healthy
    engine in one way. An engine that pauses counts who reached the index-build knob; when it
    lets a thread go on is [Rendezvous]'s. *)

Inductive Quirk :=
| NoQuirk
| Refuses (knob : string)
| RefusesFrom (nth : nat)
| Hides (knob : string)
| Mistypes (knob : string)
| NeverRead
| Pauses (arrived : nat).

Record FakeEngine := mkFakeEngine {
  fake_floors : ReportedFloors;
  fake_commands : list Doc;
  quirk : Quirk;
}.

Definition FakeEngine_new (index_build_mebibytes query_spilling_bytes : Z) : FakeEngine :=
  mkFakeEngine (mkReportedFloors (mkIndexBuildFloor index_build_mebibytes)
                  (mkQuerySpillingFloor query_spilling_bytes)) [] NoQuirk.

Definition FakeEngine_reporting (mebibytes : Z) : FakeEngine :=
  FakeEngine_new mebibytes (mebibytes * 1024 * 1024).

Definition with_quirk (q : Quirk) (e : FakeEngine) : FakeEngine :=
  mkFakeEngine (fake_floors e) (fake_commands e) q.

Definition MISTYPED_AS : string := "not a number at all".

Definition fake_report (knob : string) (value : Z) (e : FakeEngine) (reply : Doc) : Doc :=
  match quirk e with
  | Hides hidden =>
      if decide (hidden = knob) then reply else doc_insert knob (Int64 value) reply
  | Mistypes mistyped =>
      doc_insert knob (if decide (mistyped = knob) then BString MISTYPED_AS else Int64 value) reply
  | _ => doc_insert knob (Int64 value) reply
  end.

(** [FakeEngine::read]; [None] is the assertion that fails. *)
Definition fake_read (e : FakeEngine) : option Doc :=
  match quirk e with
  | NeverRead => None
  | _ =>
      let floors := fake_floors e in
      Some (fake_report QUERY_SPILLING_FLOOR (query_spilling_bytes (query_spilling floors)) e
             (fake_report INDEX_BUILD_FLOOR (index_build_mebibytes (index_build floors)) e
               (doc [("ok"%string, Double (f64_of_int 1))])))
  end.

Definition knob_of (command : Doc) : option string :=
  if contains_key INDEX_BUILD_FLOOR command then Some INDEX_BUILD_FLOOR
  else if contains_key QUERY_SPILLING_FLOOR command then Some QUERY_SPILLING_FLOOR
  else None.

Definition fake_floors_set (e : FakeEngine) : list Doc :=
  filter (λ c, contains_key "setParameter" c = true) (fake_commands e).

Definition fake_refused (command : Doc) (e : FakeEngine) : option string :=
  match knob_of command with
  | None => None
  | Some carried =>
      match quirk e with
      | Refuses knob => if decide (knob = carried) then Some carried else None
      | RefusesFrom nth =>
          if decide (nth < length (fake_floors_set e))%nat then Some carried else None
      | _ => None
      end
  end.

(** [FakeEngine::pause] *)
Definition fake_pause (command : Doc) (e : FakeEngine) : FakeEngine :=
  match quirk e with
  | Pauses arrived =>
      if contains_key INDEX_BUILD_FLOOR command then with_quirk (Pauses (S arrived)) e else e
  | _ => e
  end.

Definition get_i64 (k : string) (d : Doc) : option Z :=
  match doc_get k d with Some (Int64 z) => Some z | _ => None end.

#[export] Instance FakeEngine_AdminCommands :
    AdminCommands FakeEngine Doc (Error Empty_set unit unit Doc) := {
  run_on_admin command e :=
    let e := mkFakeEngine (fake_floors e) (fake_commands e ++ [command]) (quirk e) in
    if contains_key "getParameter" command then
      match fake_read e with Some reply => (Returns (Ok reply), e) | None => (Panics, e) end
    else
      let e := fake_pause command e in
      match fake_refused command e with
      | Some knob =>
          (Returns (Err (Server (Some 72) ("no such parameter " ++ knob)
                           (doc [("ok"%string, Double (f64_of_int 0))]))), e)
      | None =>
          let floors := fake_floors e in
          let floors := mkReportedFloors
            (default (index_build floors) (mkIndexBuildFloor <$> get_i64 INDEX_BUILD_FLOOR command))
            (default (query_spilling floors)
               (mkQuerySpillingFloor <$> get_i64 QUERY_SPILLING_FLOOR command)) in
          (Returns (Ok (doc [("ok"%string, Double (f64_of_int 1))])),
           mkFakeEngine floors (fake_commands e) (quirk e))
      end;
}.

Lemma fake_pause_floors c e : fake_floors (fake_pause c e) = fake_floors e.
Proof. unfold fake_pause. by repeat case_match. Qed.

Lemma fake_pause_ok c e : quirk e ≠ NeverRead → quirk (fake_pause c e) ≠ NeverRead.
Proof. unfold fake_pause. intros H. repeat case_match; simpl; congruence. Qed.

(** It keeps what [FloorEngine] asks for, whichever knob it refuses or misreports. *)
#[export] Program Instance FakeEngine_FloorEngine :
    FloorEngine FakeEngine Doc nat Empty_set Doc Empty_set unit unit := {
  floors_in_force := fake_floors;
  engine_ok e := quirk e ≠ NeverRead;
}.
Next Obligation.
  intros c e Hq. simpl. unfold fake_read. simpl.
  destruct (contains_key "getParameter" c).
  - destruct (quirk e) eqn:?; try done; eexists _, _; (split; [reflexivity|]); simpl; congruence.
  - destruct (fake_refused _ _); eexists _, _; (split; [reflexivity|]); simpl;
      by apply fake_pause_ok.
Qed.
Next Obligation.
  intros [v] e r e'. simpl.
  destruct (fake_refused _ _); intros [= <- <-]; simpl; by rewrite ?fake_pause_floors.
Qed.
Next Obligation.
  intros [v] e r e'. simpl.
  destruct (fake_refused _ _); intros [= <- <-]; simpl; by rewrite ?fake_pause_floors.
Qed.
Next Obligation.
  intros e r e'. simpl. unfold fake_read. simpl.
  destruct (quirk e) as [|k|n|k|k| |a] eqn:Hq; intros Hr; simplify_eq/=; (split; [done|]);
    intros reply; intros [= <-]; unfold fake_report; simpl; rewrite ?Hq; simpl;
    repeat case_decide; simplify_eq/=; split; intros; simplify_eq/=; done.
Qed.

Definition no_debug : Bson Doc nat Empty_set → string := λ _, "a value"%string.

(** Run on the fake engine, with MongoDB's own floors of 500 MiB. *)
Definition fake_run {A} (m : section (Document := Doc) (BE := Empty_set) (IOE := unit) (X := unit) A)
    (e : FakeEngine) (rec : option ReportedFloors) :=
  run_section m (e, rec).

Lemma refused_move_witness :
  ∃ r k', fake_run (move_free_disk_floor no_debug (mkFreeDiskFloor 32))
      (with_quirk (RefusesFrom 1) (FakeEngine_reporting 500)) None = (Returns r, (k', None)) ∧
    ((r = Ok tt ∧ fake_floors k' = floors_of (mkFreeDiskFloor 32)) ∨
     (∃ e, r = Err e ∧ fake_floors k' = fake_floors (FakeEngine_reporting 500)) ∨
     (∃ cause rollback, r = Err (FreeDiskFloorNotRestored (mkFreeDiskFloor 32) cause rollback) ∧
        fake_floors k' =
          mkReportedFloors (index_build (floors_of (mkFreeDiskFloor 32)))
            (query_spilling (fake_floors (FakeEngine_reporting 500))))).
Proof.
  refine (a_refused_move_is_put_back_or_reported (K := FakeEngine) (BE := Empty_set)
           (IOE := unit) (X := unit) no_debug (mkFreeDiskFloor 32)
           (with_quirk (RefusesFrom 1) (FakeEngine_reporting 500)) None _).
  discriminate.
Defined.

(** The three outcomes are all reached. *)
Example a_move_that_works :
  let '(r, (k', _)) := fake_run (move_free_disk_floor no_debug (mkFreeDiskFloor 32))
                         (FakeEngine_reporting 500) None in
  r = Returns (Ok tt) ∧ fake_floors k' = floors_of (mkFreeDiskFloor 32).
Proof. vm_compute. done. Qed.

Example a_move_that_is_put_back :
  let '(r, (k', _)) := fake_run (move_free_disk_floor no_debug (mkFreeDiskFloor 32))
      (with_quirk (Refuses QUERY_SPILLING_FLOOR) (FakeEngine_reporting 500)) None in
  (∃ c m d, r = Returns (Err (Server c m d))) ∧ fake_floors k' = fake_floors (FakeEngine_reporting 500).
Proof. vm_compute. eauto. Qed.

Example a_move_that_is_not_put_back :
  let '(r, (k', _)) := fake_run (move_free_disk_floor no_debug (mkFreeDiskFloor 32))
      (with_quirk (RefusesFrom 1) (FakeEngine_reporting 500)) None in
  (∃ c b, r = Returns (Err (FreeDiskFloorNotRestored (mkFreeDiskFloor 32) c b))) ∧
  fake_floors k' = mkReportedFloors (mkIndexBuildFloor 32) (mkQuerySpillingFloor 524288000).
Proof. vm_compute. eauto. Qed.

(** A second open that names nothing, on an engine a first one left at 32 MiB. *)
Lemma open_floor_witness :
  ∃ r k' rec', fake_run (establish no_debug None) (FakeEngine_reporting 32)
      (Some (fake_floors (FakeEngine_reporting 500))) = (Returns r, (k', rec')) ∧
    (r = Ok tt → rec' = Some (fake_floors (FakeEngine_reporting 500)) ∧
       fake_floors k' = fake_floors (FakeEngine_reporting 500)).
Proof.
  refine (an_open_is_put_on_the_floor_it_names_or_the_engines_own (K := FakeEngine) (BE := Empty_set)
           (IOE := unit) (X := unit) no_debug None
           (FakeEngine_reporting 32) (Some (fake_floors (FakeEngine_reporting 500))) _).
  discriminate.
Defined.

(** The engine after opening on 32 MiB, and after opening again naming no floor. *)
Definition opened_on_32 : FakeEngine :=
  fst (snd (fake_run (establish no_debug (Some (mkFreeDiskFloor 32))) (FakeEngine_reporting 500) None)).
Definition reopened : FakeEngine :=
  fst (snd (fake_run (establish no_debug None) opened_on_32
              (Some (fake_floors (FakeEngine_reporting 500))))).

Lemma floor_outlives_witness :
  fake_floors opened_on_32 = floors_of (mkFreeDiskFloor 32) ∧
  fake_floors reopened = fake_floors (FakeEngine_reporting 500).
Proof.
  split; [vm_compute; reflexivity|].
  refine (no_floor_outlives_the_client_that_named_it (K := FakeEngine) (BE := Empty_set)
           (IOE := unit) (X := unit) no_debug
           (FakeEngine_reporting 500) false opened_on_32
           (Some (fake_floors (FakeEngine_reporting 500)))
           reopened (Some (fake_floors (FakeEngine_reporting 500))) _ _).
  - apply life_closes.
    refine (life_opens (BE := Empty_set) (IOE := unit) (X := unit) no_debug (FakeEngine_reporting 500) false (FakeEngine_reporting 500) None
             (Some (mkFreeDiskFloor 32)) (Ok tt) _ _ _ _).
    + apply life_starts. discriminate.
    + vm_compute. reflexivity.
  - vm_compute. reflexivity.
Defined.
