(* ===== verification/Text.v ===== *)
(** * Strings, as the standard library has them

    A Rust [String] is its UTF-8 bytes, which is what a [string] here is. These are the
    functions of [str] the sources call. *)
From Stdlib Require Export Strings.Ascii Strings.Byte.
From S2P Require Import Prelude.

Abbreviation bytes := (list Byte.byte).

Definition byte_val (b : Byte.byte) : Z := Z.of_N (Byte.to_N b).
Definition byte_of (z : Z) : Byte.byte := default Byte.x00 (Byte.of_N (Z.to_N (z mod 256))).

(** ** UTF-8 *)

Definition continuation (b : Byte.byte) : bool := (128 <=? byte_val b) && (byte_val b <=? 191).

(** The second byte a sequence of three or four bytes may have, after its first. *)
Definition second_of_three (v : Z) (b : Byte.byte) : bool :=
  let w := byte_val b in
  ((v =? 224) && (160 <=? w) && (w <=? 191)) || ((225 <=? v) && (v <=? 236) && continuation b)
  || ((v =? 237) && (128 <=? w) && (w <=? 159)) || ((238 <=? v) && (v <=? 239) && continuation b).
Definition second_of_four (v : Z) (b : Byte.byte) : bool :=
  let w := byte_val b in
  ((v =? 240) && (144 <=? w) && (w <=? 191)) || ((241 <=? v) && (v <=? 243) && continuation b)
  || ((v =? 244) && (128 <=? w) && (w <=? 143)).

Fixpoint utf8_valid (l : bytes) : bool :=
  match l with
  | [] => true
  | b :: l =>
      let v := byte_val b in
      if v <? 128 then utf8_valid l
      else match l with
           | [] => false
           | b1 :: l =>
               if (194 <=? v) && (v <=? 223) then continuation b1 && utf8_valid l
               else match l with
                    | [] => false
                    | b2 :: l =>
                        if second_of_three v b1 then continuation b2 && utf8_valid l
                        else match l with
                             | [] => false
                             | b3 :: l =>
                                 second_of_four v b1 && continuation b2 && continuation b3
                                 && utf8_valid l
                             end
                    end
           end
  end.

(** [str::from_utf8]: a string is its UTF-8 bytes. *)
Definition from_utf8 (l : bytes) : option string :=
  if utf8_valid l then Some (String.string_of_list_byte l) else None.

(** [str::split_once] at a dot *)
Fixpoint split_once_dot (s : string) : option (string * string) :=
  match s with
  | EmptyString => None
  | String c s =>
      if Ascii.eqb c "."%char then Some (EmptyString, s)
      else (λ '(before, after), (String c before, after)) <$> split_once_dot s
  end.

(** ** Lines, substrings, case and white space *)

Definition newline : ascii := ascii_of_nat 10.
Definition carriage_return : ascii := ascii_of_nat 13.

(** [s.lines().next()]: up to the first line feed, and without a carriage return before it. *)
Fixpoint line_rest (s : string) : string :=
  match s with
  | EmptyString => EmptyString
  | String c s' =>
      if Ascii.eqb c newline then EmptyString
      else match s' with
           | String c' _ =>
               if Ascii.eqb c carriage_return && Ascii.eqb c' newline then EmptyString
               else String c (line_rest s')
           | EmptyString => String c EmptyString
           end
  end.
Definition first_line (s : string) : option string :=
  match s with EmptyString => None | _ => Some (line_rest s) end.

(** [s.contains(needle)] *)
Fixpoint contains (needle s : string) : bool :=
  String.prefix needle s || match s with EmptyString => false | String _ s' => contains needle s' end.

(** [s.eq_ignore_ascii_case(t)] *)
Definition to_ascii_lowercase (c : ascii) : ascii :=
  let n := nat_of_ascii c in
  if (65 <=? n)%nat && (n <=? 90)%nat then ascii_of_nat (n + 32) else c.
Fixpoint eq_ignore_ascii_case (s t : string) : bool :=
  match s, t with
  | EmptyString, EmptyString => true
  | String c s, String d t =>
      Ascii.eqb (to_ascii_lowercase c) (to_ascii_lowercase d) && eq_ignore_ascii_case s t
  | _, _ => false
  end.

(** The characters [char::is_whitespace] holds of, by their UTF-8 bytes. *)
Definition whitespace : list bytes :=
  [[Byte.x09]; [Byte.x0a]; [Byte.x0b]; [Byte.x0c]; [Byte.x0d]; [Byte.x20];
   [Byte.xc2; Byte.x85]; [Byte.xc2; Byte.xa0]; [Byte.xe1; Byte.x9a; Byte.x80];
   [Byte.xe2; Byte.x80; Byte.x80]; [Byte.xe2; Byte.x80; Byte.x81]; [Byte.xe2; Byte.x80; Byte.x82];
   [Byte.xe2; Byte.x80; Byte.x83]; [Byte.xe2; Byte.x80; Byte.x84]; [Byte.xe2; Byte.x80; Byte.x85];
   [Byte.xe2; Byte.x80; Byte.x86]; [Byte.xe2; Byte.x80; Byte.x87]; [Byte.xe2; Byte.x80; Byte.x88];
   [Byte.xe2; Byte.x80; Byte.x89]; [Byte.xe2; Byte.x80; Byte.x8a]; [Byte.xe2; Byte.x80; Byte.xa8];
   [Byte.xe2; Byte.x80; Byte.xa9]; [Byte.xe2; Byte.x80; Byte.xaf]; [Byte.xe2; Byte.x81; Byte.x9f];
   [Byte.xe3; Byte.x80; Byte.x80]].

Fixpoint strip_prefix (p l : bytes) : option bytes :=
  match p, l with
  | [], _ => Some l
  | a :: p, b :: l => if Byte.eqb a b then strip_prefix p l else None
  | _ :: _, [] => None
  end.

Definition strip_one (chars : list bytes) (l : bytes) : option bytes :=
  head (omap (λ w, strip_prefix w l) chars).

(** Every character that goes is at least one byte long, so as many rounds as bytes do. *)
Fixpoint strip_all (fuel : nat) (chars : list bytes) (l : bytes) : bytes :=
  match fuel with
  | O => l
  | S fuel => match strip_one chars l with Some l' => strip_all fuel chars l' | None => l end
  end.

(** [s.trim()] *)
Definition trim (s : string) : string :=
  let l := String.list_byte_of_string s in
  let l := strip_all (length l) whitespace l in
  let r := strip_all (length l) (reverse <$> whitespace) (reverse l) in
  String.string_of_list_byte (reverse r).

Example trim_example : trim "  yes	 " = "yes"%string.
Proof. vm_compute. reflexivity. Qed.
