(* ===== verification/Wire.v ===== *)
(** * The OP_MSG and OP_QUERY parser

    [embedded-mongodb-wire/src/lib.rs], on bytes. Reading past the end of a slice is the
    panic Rust makes of it, a loop is given fuel, and [WireFormat] shows that neither
    happens, and that the parser reads exactly the grammar it states there. *)
From Stdlib Require Import Strings.Byte Strings.HexString.
From stdpp Require Import pretty.
From S2P Require Import Prelude Text Bson Effects.

(** ** The standard library's part: slices and integers *)

Definition from_le_bytes (l : bytes) : Z := foldr (λ b acc, byte_val b + 256 * acc) 0 l.
Definition to_le_bytes (z : Z) : bytes :=
  [byte_of z; byte_of (z / 256); byte_of (z / 65536); byte_of (z / 16777216)].
Definition as_i32 (z : Z) : Z := if decide (z < 2 ^ 31) then z else z - 2 ^ 32.

(** [&m[a..b]] *)
Definition slice (m : bytes) (a b : nat) : call bytes :=
  if decide (a ≤ b ∧ b ≤ length m)%nat then Returns (take (b - a) (drop a m)) else Panics.

(** [m.get(a..a + n)] and [m.get(a..)] *)
Definition get_range (m : bytes) (a n : nat) : option bytes :=
  if decide (a + n ≤ length m)%nat then Some (take n (drop a m)) else None.
Definition get_from (m : bytes) (a : nat) : option bytes :=
  if decide (a ≤ length m)%nat then Some (drop a m) else None.

(** [usize::checked_add], 64 bits wide *)
Definition checked_add (a b : nat) : option nat :=
  if decide (Z.of_nat a + Z.of_nat b < 2 ^ 64) then Some (a + b)%nat else None.

Fixpoint position_of_nul (l : bytes) : option nat :=
  match l with
  | [] => None
  | b :: l => if Byte.eqb b Byte.x00 then Some O else S <$> position_of_nul l
  end.

(** ** The parser *)

Definition OP_MSG : Z := 2013.
Definition OP_QUERY : Z := 2004.
Definition MORE_TO_COME : Z := Z.shiftl 1 1.

Record Request := mkRequest {
  request_id : Z;
  more_to_come : bool;
  legacy : bool;
  database : string;
  command_name : string;
  command : bytes;
}.

Definition parsed (A : Type) : Type := call (result string A).

(** [let x = m?; k], where [m] may also panic. *)
Definition parsed_bind {A B} (m : parsed A) (k : A → parsed B) : parsed B :=
  match m with
  | Returns (Ok a) => k a
  | Returns (Err e) => Returns (Err e)
  | Blocks => Blocks
  | Panics => Panics
  | NoFuel => NoFuel
  end.
Notation "'let*?' x := m 'in' k" := (parsed_bind m (fun x => k))
  (at level 10, x binder, m at level 100, k at level 200) : emongo_scope.

Definition read_u32 (m : bytes) (offset : nat) : result string Z :=
  map_ok from_le_bytes (ok_or "truncated OP_MSG integer"%string (get_range m offset 4)).

Definition read_i32 (m : bytes) (offset : nat) : result string Z :=
  map_ok as_i32 (read_u32 m offset).

Section wire.
Context `{BsonLib Document ObjectId Other (list Byte.byte) BE}.
(** How [bson] reports that it could not read or write a document. *)
Context (error_text : BE → string).
Local Abbreviation bson := (Bson Document ObjectId Other).

(** [position] is threaded: the document, and the position after it. *)
Definition read_document (m : bytes) (position end_ : nat) : parsed (Document * nat) :=
  let*? document_len := Returns (read_i32 m position) in
  if document_len <? 5 then Returns (Err "invalid BSON document length in OP_MSG"%string)
  else
    match checked_add position (Z.to_nat document_len) with
    | Some document_end =>
        if decide (document_end ≤ end_)%nat then
          match slice m position document_end with
          | Returns text =>
              match from_reader text with
              | Ok document => Returns (Ok (document, document_end))
              | Err e => Returns (Err ("invalid BSON document in OP_MSG: " ++ error_text e)%string)
              end
          | _ => Panics
          end
        else Returns (Err "BSON document exceeds its OP_MSG section"%string)
    | None => Returns (Err "BSON document exceeds its OP_MSG section"%string)
    end.

(** The [while] of [read_sequence]. *)
Fixpoint read_documents (fuel : nat) (m : bytes) (position section_end : nat)
    (documents : list bson) : parsed (list bson * nat) :=
  match fuel with
  | O => NoFuel
  | S fuel =>
      if decide (position < section_end)%nat then
        let*? read := read_document m position section_end in
        read_documents fuel m (snd read) section_end (documents ++ [BDocument (fst read)])
      else Returns (Ok (documents, position))
  end.

Definition read_sequence (m : bytes) (position : nat) : parsed (string * list bson * nat) :=
  let section_start := position in
  let*? section_len := Returns (read_i32 m section_start) in
  if section_len <? 5 then Returns (Err "invalid OP_MSG document-sequence length"%string)
  else
    let bound := checked_add section_start (Z.to_nat section_len) in
    let bound := bound ≫= λ e, if decide (e ≤ length m)%nat then Some e else None in
    let*? section_end :=
      Returns (ok_or "OP_MSG document sequence exceeds the buffer"%string bound) in
    let position := (position + 4)%nat in
    match slice m position section_end with
    | Returns rest =>
        let*? offset :=
          Returns (ok_or "OP_MSG document sequence has no identifier terminator"%string
                     (position_of_nul rest)) in
        let nul := (position + offset)%nat in
        match slice m position nul with
        | Returns text =>
            let*? identifier :=
              Returns (ok_or "OP_MSG document-sequence identifier is not UTF-8"%string
                         (from_utf8 text)) in
            if decide (identifier = EmptyString)
            then Returns (Err "OP_MSG document-sequence identifier is empty"%string)
            else
              let*? read := read_documents (S (length m)) m (nul + 1) section_end [] in
              Returns (Ok (identifier, fst read, snd read))
        | _ => Panics
        end
    | _ => Panics
    end.

(** The [while] of [parse_msg] over the sections. *)
Fixpoint read_sections (fuel : nat) (m : bytes) (position : nat) (body : option Document)
    (sequences : list (string * list bson)) : parsed (option Document * list (string * list bson)) :=
  match fuel with
  | O => NoFuel
  | S fuel =>
      if decide (position < length m)%nat then
        let*? kind := Returns (ok_or "missing OP_MSG section kind"%string (m !! position)) in
        let position := (position + 1)%nat in
        if byte_val kind =? 0 then
          match body with
          | Some _ => Returns (Err "OP_MSG contains more than one body section"%string)
          | None =>
              let*? read := read_document m position (length m) in
              read_sections fuel m (snd read) (Some (fst read)) sequences
          end
        else if byte_val kind =? 1 then
          let*? read := read_sequence m position in
          read_sections fuel m (snd read) body (sequences ++ [fst read])
        else Returns (Err ("unsupported OP_MSG section kind: " ++ pretty (byte_val kind))%string)
      else Returns (Ok (body, sequences))
  end.

Definition first_key (document : Document) (none : string) : result string string :=
  ok_or none (doc_first_key document).

Definition encoded (document : Document) : result string bytes :=
  map_err (λ e, "failed to encode BSON command: " ++ error_text e)%string (to_vec document).

(** What [parse_msg] makes of the sections. *)
Definition msg_request (id flags : Z) (body : option Document)
    (sequences : list (string * list bson)) : result string Request :=
  let? command := ok_or "OP_MSG has no body section"%string body in
  let command := fold_left (λ c s, doc_insert (fst s) (Array (snd s)) c) sequences command in
  let '(db, command) := doc_remove "$db" command in
  let? database :=
    match db with
    | Some (BString database) =>
        if decide (database = EmptyString)
        then Err "OP_MSG $db must be a non-empty string"%string else Ok database
    | Some _ => Err "OP_MSG $db must be a non-empty string"%string
    | None => Err "OP_MSG body has no $db field"%string
    end in
  let? name := first_key command "OP_MSG body names no command" in
  let? command := encoded command in
  Ok (mkRequest id (negb (Z.land flags MORE_TO_COME =? 0)) false database name command).

Definition parse_msg (m : bytes) (id : Z) : parsed Request :=
  let*? flags := Returns (read_u32 m 16) in
  if negb (Z.land flags (u32_max - MORE_TO_COME) =? 0)
  then Returns (Err ("unsupported OP_MSG flags: " ++ HexString.of_Z flags)%string)
  else
    let*? sections := read_sections (S (length m)) m 20 None [] in
    Returns (msg_request id flags (fst sections) (snd sections)).

(** What [parse_query] makes of the one document. *)
Definition query_request (id : Z) (database : string) (command : Document)
    : result string Request :=
  let? name := first_key command "OP_QUERY names no command" in
  let? command := encoded command in
  Ok (mkRequest id false true database name command).

Definition parse_query (m : bytes) (id : Z) : parsed Request :=
  let position := 20%nat in
  let*? offset :=
    Returns (ok_or "OP_QUERY collection name has no terminator"%string
               (get_from m position ≫= position_of_nul)) in
  let nul := (position + offset)%nat in
  match slice m position nul with
  | Returns text =>
      let*? collection :=
        Returns (ok_or "OP_QUERY collection name is not UTF-8"%string (from_utf8 text)) in
      let refused : parsed Request :=
        Returns (Err ("OP_QUERY may only carry a command, and `" ++ collection ++
                      "` is not a `$cmd` collection")%string) in
      match split_once_dot collection with
      | Some (database, rest) =>
          if decide (rest = "$cmd"%string) then
            if decide (database = EmptyString)
            then Returns (Err "OP_QUERY names an empty database"%string)
            else
              let*? read := read_document m (nul + 1 + 8) (length m) in
              if decide (snd read = length m)
              then Returns (query_request id database (fst read))
              else Returns (Err "OP_QUERY carries more than one document"%string)
          else refused
      | None => refused
      end
  | _ => Panics
  end.

Definition parse (m : bytes) : parsed Request :=
  if decide (length m < 21)%nat
  then Returns (Err "wire message is shorter than its header and first section"%string)
  else
    let*? declared_len := Returns (read_i32 m 0) in
    if (declared_len <? 0) || negb (declared_len =? Z.of_nat (length m))
    then Returns (Err "wire message length does not match the buffer"%string)
    else
      let*? id := Returns (read_i32 m 4) in
      let*? op_code := Returns (read_i32 m 12) in
      if op_code =? OP_MSG then parse_msg m id
      else if op_code =? OP_QUERY then parse_query m id
      else Returns (Err ("embedded MongoDB only accepts OP_MSG and OP_QUERY requests, not op code "
                         ++ pretty op_code)%string).
End wire.
