(* ===== verification/WireFormat.v ===== *)
(** * The wire format, and that the parser reads exactly it

    The grammar of an OP_MSG and of a handshake's OP_QUERY as the concatenations a driver
    writes, the parser's lemmas one construct at a time, and the two theorems: every buffer is
    answered, and the accepted buffers are those of the grammar. *)
From stdpp Require Import pretty.
From S2P Require Import Prelude Text Bson Effects Wire.

(** ** Little-endian integers *)

Lemma byte_val_range b : 0 ≤ byte_val b < 256.
Proof. unfold byte_val. pose proof (Byte.to_N_bounded b). lia. Qed.

Lemma byte_of_val b : byte_of (byte_val b) = b.
Proof.
  unfold byte_of. rewrite Z.mod_small by apply byte_val_range. unfold byte_val.
  by rewrite N2Z.id, Byte.of_to_N.
Qed.

Lemma byte_val_of z : byte_val (byte_of z) = z mod 256.
Proof.
  unfold byte_val, byte_of. pose proof (Z.mod_pos_bound z 256 ltac:(lia)) as Hz.
  destruct (Byte.of_N (Z.to_N (z mod 256))) as [b|] eqn:Hb; simpl.
  - apply Byte.to_of_N in Hb. rewrite Hb. lia.
  - apply Byte.of_N_None_iff in Hb. lia.
Qed.

Lemma from_to_le_bytes z : from_le_bytes (to_le_bytes z) = z mod 2 ^ 32.
Proof.
  unfold from_le_bytes, to_le_bytes. cbn [foldr]. rewrite !byte_val_of.
  replace 65536 with (256 * 256) by lia. replace 16777216 with (256 * 256 * 256) by lia.
  rewrite <- !Z.div_div by lia. replace (2 ^ 32) with (256 * (256 * (256 * 256))) by reflexivity.
  rewrite !Z.rem_mul_r by lia. lia.
Qed.

Lemma from_le_bytes_range l : 0 ≤ from_le_bytes l < 256 ^ Z.of_nat (length l).
Proof.
  induction l as [|b l IH]; simpl; [lia|]. pose proof (byte_val_range b).
  rewrite Nat2Z.inj_succ, Z.pow_succ_r by lia. lia.
Qed.

Lemma to_from_le_bytes l : length l = 4%nat → to_le_bytes (from_le_bytes l) = l.
Proof.
  destruct l as [|a [|b [|c [|d [|]]]]]; try done. intros _.
  unfold from_le_bytes. cbn [foldr]. unfold to_le_bytes.
  pose proof (byte_val_range a). pose proof (byte_val_range b).
  pose proof (byte_val_range c). pose proof (byte_val_range d).
  assert (∀ x y, x = y mod 256 → byte_of y = byte_of x) as Hb.
  { intros x y ->. unfold byte_of. by rewrite Zmod_mod. }
  set (z := byte_val a + _).
  rewrite (Hb (byte_val a) z), (Hb (byte_val b) (z / 256)), (Hb (byte_val c) (z / 65536)),
    (Hb (byte_val d) (z / 16777216)).
  1: by rewrite !byte_of_val.
  all: subst z; Z.to_euclidean_division_equations; lia.
Qed.

Definition is_i32 (z : Z) : Prop := i32_min ≤ z ≤ i32_max.

Lemma as_i32_range z : 0 ≤ z < 2 ^ 32 → is_i32 (as_i32 z).
Proof. unfold as_i32, is_i32, i32_min, i32_max. case_decide; lia. Qed.

Lemma as_i32_mod z : is_i32 z → as_i32 (z mod 2 ^ 32) = z.
Proof.
  unfold as_i32, is_i32, i32_min, i32_max. intros Hz.
  destruct (decide (0 ≤ z)).
  - rewrite Z.mod_small by lia. rewrite decide_True by lia. done.
  - rewrite <- (Z.mod_add z 1) by lia. rewrite Z.mod_small by lia. rewrite decide_False by lia. lia.
Qed.

Lemma as_i32_inj z : 0 ≤ z < 2 ^ 32 → as_i32 z mod 2 ^ 32 = z.
Proof.
  unfold as_i32. intros Hz. case_decide; [by apply Z.mod_small|].
  rewrite <- (Z.mod_add _ 1) by lia. rewrite Z.mod_small by lia. lia.
Qed.

Lemma to_le_bytes_mod z : to_le_bytes (z mod 2 ^ 32) = to_le_bytes z.
Proof.
  rewrite <- from_to_le_bytes. by apply to_from_le_bytes.
Qed.

(** ** What stands at a position of a buffer *)

Definition at_pos (m : bytes) (pos : nat) (b : bytes) : Prop :=
  ∃ pre post, m = pre ++ b ++ post ∧ length pre = pos.

Lemma at_pos_bound m pos b : at_pos m pos b → (pos + length b ≤ length m)%nat.
Proof. intros (pre & post & -> & <-). rewrite !length_app. lia. Qed.

Lemma at_pos_intro m pos n :
  (pos + n ≤ length m)%nat → at_pos m pos (take n (drop pos m)).
Proof.
  intros Hn. exists (take pos m), (drop n (drop pos m)). split.
  - by rewrite take_drop, take_drop.
  - rewrite length_take. lia.
Qed.

Lemma at_pos_take m pos b : at_pos m pos b → take (length b) (drop pos m) = b.
Proof. intros (pre & post & -> & <-). by rewrite drop_app_length, take_app_length. Qed.

Lemma at_pos_app m pos b1 b2 :
  at_pos m pos (b1 ++ b2) ↔ at_pos m pos b1 ∧ at_pos m (pos + length b1) b2.
Proof.
  split.
  - intros (pre & post & -> & <-). split.
    + exists pre, (b2 ++ post). by rewrite <- (assoc_L (++)).
    + exists (pre ++ b1), post. by rewrite <- !(assoc_L (++)), length_app.
  - intros [(pre & post & -> & <-) (pre2 & post2 & Hm & Hl)].
    exists pre, post2. split; [|done].
    rewrite (assoc_L (++)) in Hm.
    apply app_inj_1 in Hm as [Hpre ->]; [|rewrite length_app; lia].
    by rewrite <- (assoc_L (++)).
Qed.

Lemma at_pos_nil m pos : (pos ≤ length m)%nat → at_pos m pos [].
Proof.
  intros H. exists (take pos m), (drop pos m). split; [by rewrite app_nil_l, take_drop|].
  rewrite length_take. lia.
Qed.

Lemma at_pos_whole m b : at_pos m 0 b → length b = length m → m = b.
Proof.
  intros (pre & post & -> & Hpre) Hl. apply nil_length_inv in Hpre as ->.
  rewrite !length_app in Hl. destruct post; simpl in *; [by rewrite app_nil_r|lia].
Qed.

Lemma at_pos_self m : at_pos m 0 m.
Proof. exists [], []. by rewrite app_nil_r. Qed.

Lemma at_pos_functional m pos b1 b2 :
  at_pos m pos b1 → at_pos m pos b2 → length b1 = length b2 → b1 = b2.
Proof.
  intros H1%at_pos_take H2%at_pos_take Hl. by rewrite <- H1, <- H2, Hl.
Qed.

Lemma slice_at m a b :
  (a ≤ b)%nat → (b ≤ length m)%nat →
  slice m a b = Returns (take (b - a) (drop a m)) ∧ at_pos m a (take (b - a) (drop a m)) ∧
  length (take (b - a) (drop a m)) = (b - a)%nat.
Proof.
  intros Ha Hb. unfold slice. rewrite decide_True by done. split; [done|]. split.
  - apply at_pos_intro. lia.
  - rewrite length_take, length_drop. lia.
Qed.

(** ** Reading integers *)

Lemma read_u32_iff m pos z :
  read_u32 m pos = Ok z ↔ is_u32 z ∧ at_pos m pos (to_le_bytes z).
Proof.
  unfold read_u32, get_range, is_u32, u32_max, u32_modulus. split.
  - case_decide as Hl; simpl; [|done]. intros [= <-].
    assert (length (take 4 (drop pos m)) = 4%nat) as H4 by (rewrite length_take, length_drop; lia).
    split.
    + pose proof (from_le_bytes_range (take 4 (drop pos m))) as Hr. rewrite H4 in Hr.
      change (256 ^ Z.of_nat 4) with (2 ^ 32) in Hr. lia.
    + rewrite to_from_le_bytes by done. by apply at_pos_intro.
  - intros [Hz Hat]. pose proof (at_pos_bound _ _ _ Hat) as Hb. simpl in Hb.
    rewrite decide_True by done. simpl. f_equal.
    change 4%nat with (length (to_le_bytes z)). rewrite (at_pos_take _ _ _ Hat).
    rewrite from_to_le_bytes. apply Z.mod_small. lia.
Qed.

Lemma read_i32_iff m pos z :
  read_i32 m pos = Ok z ↔ is_i32 z ∧ at_pos m pos (to_le_bytes z).
Proof.
  unfold read_i32. split.
  - destruct (read_u32 m pos) as [u|] eqn:Hu; simpl; [|done]. intros [= <-].
    apply read_u32_iff in Hu as [Hr Hat]. unfold is_u32, u32_max, u32_modulus in Hr. split.
    + apply as_i32_range. lia.
    + rewrite <- to_le_bytes_mod, as_i32_inj by lia. done.
  - intros [Hz Hat].
    assert (read_u32 m pos = Ok (z mod 2 ^ 32)) as ->.
    { apply read_u32_iff. rewrite to_le_bytes_mod. split; [|done].
      unfold is_u32, u32_max, u32_modulus. pose proof (Z.mod_pos_bound z (2 ^ 32)). lia. }
    simpl. by rewrite as_i32_mod.
Qed.

(** The answer is an error, so nothing it would say of a value is in question. *)
Ltac answers_error := eexists; (split; [reflexivity|]); intros; discriminate.

Lemma position_of_nul_iff l n :
  position_of_nul l = Some n ↔
  ∃ pre post, l = pre ++ Byte.x00 :: post ∧ (Byte.x00 ∉ pre) ∧ length pre = n.
Proof.
  revert n. induction l as [|b l IH]; intros n; simpl.
  - split; [done|]. intros ([] & post & ? & _); done.
  - destruct (Byte.eqb b Byte.x00) eqn:Hb.
    + apply Byte.byte_dec_bl in Hb as ->. split.
      * intros [= <-]. exists [], l. split_and!; [done|apply not_elem_of_nil|done].
      * intros ([|c pre] & post & Heq & Hn & <-); [done|]. injection Heq as <- _. set_solver.
    + assert (b ≠ Byte.x00) as Hne by (by intros ->).
      rewrite fmap_Some. setoid_rewrite IH. split.
      * intros (n' & (pre & post & -> & Hp & <-) & ->). exists (b :: pre), post. split_and!; try done.
        by apply not_elem_of_cons.
      * intros ([|c pre] & post & Heq & Hp & <-); [by injection Heq as ->|].
        injection Heq as <- ->. apply not_elem_of_cons in Hp as [_ Hp]. eexists. split; [|done]. eauto.
Qed.

(** ** The grammar *)

Section grammar.
Context `{BsonLib Document ObjectId Other (list Byte.byte) BE}.
Context (error_text : BE → string).
Local Abbreviation bson := (Bson Document ObjectId Other).

(** A document's bytes begin with their own count. *)
Definition framed (b : bytes) (d : Document) : Prop :=
  from_reader b = Ok d ∧ 5 ≤ Z.of_nat (length b) ≤ i32_max ∧
  ∃ rest, b = to_le_bytes (Z.of_nat (length b)) ++ rest.

Inductive wsection :=
| Body (b : bytes) (d : Document)
| Sequence (identifier : bytes) (documents : list (bytes * Document)).

Definition sequence_text (identifier : bytes) (documents : list (bytes * Document)) : bytes :=
  identifier ++ [Byte.x00] ++ concat (fst <$> documents).

Definition section_text (s : wsection) : bytes :=
  match s with
  | Body b _ => Byte.x00 :: b
  | Sequence identifier documents =>
      let text := sequence_text identifier documents in
      [Byte.x01] ++ to_le_bytes (Z.of_nat (4 + length text)) ++ text
  end.

Definition identifies (identifier : bytes) (name : string) : Prop :=
  (Byte.x00 ∉ identifier) ∧ from_utf8 identifier = Some name ∧ name ≠ EmptyString.

Definition well_formed (s : wsection) : Prop :=
  match s with
  | Body b d => framed b d
  | Sequence identifier documents =>
      (∃ name, identifies identifier name) ∧
      Forall (λ e, framed (fst e) (snd e)) documents ∧
      Z.of_nat (4 + length (sequence_text identifier documents)) ≤ i32_max
  end.

Definition bodies (l : list wsection) : list Document :=
  omap (λ s, match s with Body _ d => Some d | _ => None end) l.

Definition sequences (l : list wsection) : list (string * list bson) :=
  omap (λ s, match s with
             | Sequence identifier documents =>
                 Some (String.string_of_list_byte identifier, BDocument ∘ snd <$> documents)
             | _ => None
             end) l.

(** The length, the request's id, four bytes of the id it answers, and the op code. *)
Definition header (length : nat) (id : Z) (response_to : bytes) (op_code : Z) : bytes :=
  to_le_bytes (Z.of_nat length) ++ to_le_bytes id ++ response_to ++ to_le_bytes op_code.

Definition msg_frame (m : bytes) (r : Request) : Prop :=
  ∃ id response_to flags l d,
    m = header (length m) id response_to OP_MSG ++ to_le_bytes flags ++ concat (section_text <$> l)
    ∧ length response_to = 4%nat ∧ is_i32 id ∧ Z.of_nat (length m) ≤ i32_max
    ∧ (flags = 0 ∨ flags = MORE_TO_COME) ∧ Forall well_formed l ∧ bodies l = [d]
    ∧ msg_request error_text id flags (Some d) (sequences l) = Ok r.

Definition query_frame (m : bytes) (r : Request) : Prop :=
  ∃ id response_to flags collection skips b d database,
    m = header (length m) id response_to OP_QUERY ++ flags ++ collection ++ [Byte.x00] ++ skips ++ b
    ∧ length response_to = 4%nat ∧ length flags = 4%nat ∧ length skips = 8%nat ∧ is_i32 id
    ∧ Z.of_nat (length m) ≤ i32_max ∧ (Byte.x00 ∉ collection)
    ∧ (∃ name, from_utf8 collection = Some name ∧ split_once_dot name = Some (database, "$cmd"%string))
    ∧ database ≠ EmptyString ∧ framed b d ∧ query_request error_text id database d = Ok r.

Definition accepts (m : bytes) (r : Request) : Prop := msg_frame m r ∨ query_frame m r.

Lemma bodies_cons s l : bodies (s :: l) = bodies [s] ++ bodies l.
Proof. by destruct s. Qed.

Lemma sequences_cons s l : sequences (s :: l) = sequences [s] ++ sequences l.
Proof. by destruct s. Qed.

Lemma more_to_come_only flags :
  is_u32 flags → Z.land flags (u32_max - MORE_TO_COME) = 0 → flags = 0 ∨ flags = MORE_TO_COME.
Proof.
  intros Hu Hz.
  assert (flags = Z.land flags (Z.lor (u32_max - MORE_TO_COME) MORE_TO_COME)) as Hf.
  { change (Z.lor (u32_max - MORE_TO_COME) MORE_TO_COME) with (Z.ones 32).
    rewrite Z.land_ones, Z.mod_small; unfold is_u32, u32_max, u32_modulus in Hu; lia. }
  rewrite Z.land_lor_distr_r, Hz, Z.lor_0_l in Hf.
  assert (Z.land flags MORE_TO_COME = if Z.testbit flags 1 then MORE_TO_COME else 0) as Hb.
  { apply Z.bits_inj'. intros n Hn. rewrite Z.land_spec.
    change MORE_TO_COME with (2 ^ 1). rewrite Z.pow2_bits_eqb by lia.
    destruct (Z.eqb_spec 1 n) as [<-|Hne].
    - destruct (Z.testbit flags 1); [done|]. by rewrite Z.bits_0.
    - rewrite andb_false_r. destruct (Z.testbit flags 1).
      + rewrite Z.pow2_bits_eqb by lia. symmetry. by apply Z.eqb_neq.
      + by rewrite Z.bits_0. }
  rewrite Hb in Hf. destruct (Z.testbit flags 1); auto.
Qed.

Lemma section_text_length s : (0 < length (section_text s))%nat.
Proof. destruct s; cbn [section_text]; rewrite ?length_app; simpl; lia. Qed.

Lemma sections_long l : (length l ≤ length (concat (section_text <$> l)))%nat.
Proof.
  induction l as [|s l IH]; [done|]. rewrite fmap_cons. cbn [concat length]. rewrite length_app.
  pose proof (section_text_length s). lia.
Qed.

Lemma framed_docs_long (docs : list (bytes * Document)) :
  Forall (λ x, framed (fst x) (snd x)) docs → (length docs ≤ length (concat (fst <$> docs)))%nat.
Proof.
  induction 1 as [|[b d] docs (_ & Hb & _) _ IH]; csimpl; [lia|]. simpl in Hb.
  rewrite length_app. lia.
Qed.

(** ** The parser, one construct at a time *)

Section buffer.
Context (m : bytes) (Hm : Z.of_nat (length m) ≤ i32_max).

Lemma checked_add_position pos n :
  (pos ≤ length m)%nat → is_i32 n → checked_add pos (Z.to_nat n) = Some (pos + Z.to_nat n)%nat.
Proof.
  unfold checked_add, is_i32, i32_max in *. intros. rewrite decide_True; [done|lia].
Qed.

Lemma read_document_returns pos e :
  (e ≤ length m)%nat →
  ∃ r, read_document error_text m pos e = Returns r ∧
    ∀ d pos', r = Ok (d, pos') → (pos + 5 ≤ pos' ≤ e)%nat ∧ ∃ b, framed b d ∧ at_pos m pos b ∧
      length b = (pos' - pos)%nat.
Proof.
  intros He. unfold read_document.
  destruct (read_i32 m pos) as [n|] eqn:Hn; simpl; [|answers_error].
  apply read_i32_iff in Hn as [Hr Hat]. pose proof (at_pos_bound _ _ _ Hat) as Hb. simpl in Hb.
  destruct (Z.ltb_spec n 5) as [|H5]; [answers_error|].
  rewrite checked_add_position by (done || lia). case_decide as Hend; [|answers_error].
  destruct (slice_at m pos (pos + Z.to_nat n)) as (-> & Htext & Hlen); [lia..|].
  destruct (from_reader _) as [d|] eqn:Hd; eexists; (split; [done|]); [|done].
  intros d' pos' [= <- <-]. split; [lia|]. eexists. split; [|split; [exact Htext|lia]].
  unfold framed. rewrite Hlen. unfold is_i32, i32_max in *.
  replace (Z.of_nat _) with n by lia. split; [done|]. split; [lia|].
  exists (drop 4 (take (pos + Z.to_nat n - pos) (drop pos m))).
  rewrite <- (at_pos_take _ _ _ Hat) at 1. simpl length.
  rewrite <- (take_drop 4 (take (pos + _ - _) _)) at 1. f_equal.
  rewrite take_take. f_equal. lia.
Qed.

Lemma read_document_at pos e b d :
  framed b d → at_pos m pos b → (pos + length b ≤ e)%nat → (e ≤ length m)%nat →
  read_document error_text m pos e = Returns (Ok (d, (pos + length b)%nat)).
Proof.
  intros (Hd & Hlen & rest & Hb) Hat He Hem. unfold read_document.
  assert (read_i32 m pos = Ok (Z.of_nat (length b))) as ->.
  { apply read_i32_iff. split; [unfold is_i32, i32_min, i32_max in *; lia|].
    rewrite Hb in Hat. by apply at_pos_app in Hat as [? _]. }
  simpl. destruct (Z.ltb_spec (Z.of_nat (length b)) 5) as [|_]; [lia|].
  rewrite checked_add_position by (unfold is_i32, i32_min, i32_max in *; lia).
  rewrite Nat2Z.id, decide_True by done.
  destruct (slice_at m pos (pos + length b)) as (-> & Htext & Hl); [lia..|].
  rewrite (at_pos_functional _ _ _ _ Htext Hat) by lia. by rewrite Hd.
Qed.

Lemma read_documents_returns fuel pos e acc :
  (pos ≤ e)%nat → (e ≤ length m)%nat → (e - pos < fuel)%nat →
  ∃ r, read_documents error_text fuel m pos e acc = Returns r ∧
    ∀ ds pos', r = Ok (ds, pos') → pos' = e ∧ ∃ docs, Forall (λ x, framed (fst x) (snd x)) docs ∧
      ds = acc ++ (BDocument ∘ snd <$> docs) ∧ at_pos m pos (concat (fst <$> docs)) ∧
      length (concat (fst <$> docs)) = (e - pos)%nat.
Proof.
  revert pos acc. induction fuel as [|fuel IH]; intros pos acc Hpos He Hf; [lia|].
  cbn [read_documents]. case_decide as Hlt.
  2: { eexists. split; [done|]. intros ds pos' [= <- <-]. split; [lia|]. exists [].
       simpl. rewrite app_nil_r. split_and!; [done|done|apply at_pos_nil; lia|lia]. }
  destruct (read_document_returns pos e He) as (r & -> & Hr).
  destruct r as [[d pos1]|]; cbn [parsed_bind fst snd]; [|answers_error].
  destruct (Hr _ _ eq_refl) as (Hp & b & Hb & Hat & Hl).
  destruct (IH pos1 (acc ++ [BDocument d])) as (r & -> & Hrest); [lia..|].
  eexists. split; [done|]. intros ds pos' ->.
  destruct (Hrest _ _ eq_refl) as (-> & docs & Hdocs & -> & Hat' & Hl').
  split; [done|]. exists ((b, d) :: docs). csimpl. split; [by constructor|].
  split; [by rewrite <- (assoc_L (++))|]. split; [|rewrite length_app; lia].
  apply at_pos_app. split; [done|]. by replace (pos + length b)%nat with pos1 by lia.
Qed.

Lemma read_documents_at fuel docs pos acc :
  Forall (λ x, framed (fst x) (snd x)) docs → at_pos m pos (concat (fst <$> docs)) →
  (length docs < fuel)%nat →
  read_documents error_text fuel m pos (pos + length (concat (fst <$> docs))) acc =
    Returns (Ok (acc ++ (BDocument ∘ snd <$> docs), (pos + length (concat (fst <$> docs)))%nat)).
Proof.
  revert pos acc docs. induction fuel as [|fuel IH]; intros pos acc docs Hd Hat Hf; [lia|].
  cbn [read_documents]. pose proof (at_pos_bound _ _ _ Hat) as Hbound.
  destruct docs as [|[b d] docs]; csimpl in *.
  - rewrite decide_False by lia. by rewrite app_nil_r, Nat.add_0_r.
  - inversion Hd as [|? ? Hbd Hd']; subst. simpl in Hbd.
    apply at_pos_app in Hat as [Hat Hat']. rewrite length_app in *.
    pose proof Hbd as (_ & Hlen & _). rewrite decide_True by lia.
    rewrite (read_document_at _ _ b d) by (done || lia). cbn [parsed_bind fst snd].
    replace (pos + (length b + length (concat docs.*1)))%nat
      with (pos + length b + length (concat docs.*1))%nat by lia.
    rewrite (IH (pos + length b)%nat (acc ++ [BDocument d]) docs) by (done || lia).
    by rewrite <- (assoc_L (++)).
Qed.

Lemma read_sequence_returns pos :
  ∃ r, read_sequence error_text m pos = Returns r ∧
    ∀ name ds pos', r = Ok (name, ds, pos') → ∃ identifier docs,
      well_formed (Sequence identifier docs) ∧ name = String.string_of_list_byte identifier ∧
      ds = (BDocument ∘ snd <$> docs) ∧ pos' = (pos + 4 + length (sequence_text identifier docs))%nat ∧
      at_pos m pos (to_le_bytes (Z.of_nat (4 + length (sequence_text identifier docs)))
                    ++ sequence_text identifier docs).
Proof.
  unfold read_sequence.
  destruct (read_i32 m pos) as [n|] eqn:Hn; cbn [parsed_bind]; [|answers_error].
  apply read_i32_iff in Hn as [Hr Hat]. pose proof (at_pos_bound _ _ _ Hat) as Hb. simpl in Hb.
  destruct (Z.ltb_spec n 5) as [|H5]; [answers_error|].
  rewrite checked_add_position by (done || lia). cbn [mbind option_bind].
  case_decide as He; cbn [parsed_bind ok_or]; [|answers_error].
  set (e := (pos + Z.to_nat n)%nat) in *.
  destruct (slice_at m (pos + 4) e) as (-> & Hrest & Hlrest); [subst e; lia..|].
  destruct (position_of_nul _) as [offset|] eqn:Hnul; cbn [parsed_bind ok_or]; [|answers_error].
  apply position_of_nul_iff in Hnul as (identifier & post & Htext & Hnz & Ho).
  rewrite Htext in Hrest, Hlrest.
  rewrite length_app in Hlrest. cbn [length] in Hlrest.
  destruct (slice_at m (pos + 4) (pos + 4 + offset)) as (-> & Hid & Hlid); [subst e; lia..|].
  pose proof (proj1 (at_pos_app _ _ _ _) Hrest) as [Hid' Hpost].
  assert (∀ l, l = take (pos + 4 + offset - (pos + 4)) (drop (pos + 4) m) → l = identifier) as Hident.
  { intros l ->. eapply at_pos_functional; [done..|]. lia. }
  rewrite (Hident _ eq_refl) in *. clear Hident.
  destruct (from_utf8 identifier) as [name|] eqn:Hname; cbn [parsed_bind ok_or]; [|answers_error].
  case_decide as Hempty; [answers_error|].
  change (Byte.x00 :: post) with ([Byte.x00] ++ post) in Hpost. apply at_pos_app in Hpost as [_ Hpost].
  cbn [length] in Hpost. rewrite Ho in Hpost.
  destruct (read_documents_returns (S (length m)) (pos + 4 + offset + 1) e [])
    as (r & -> & Hdocs); [subst e; lia..|].
  destruct r as [[ds pos1]|]; cbn [parsed_bind fst snd]; [|answers_error].
  destruct (Hdocs _ _ eq_refl) as (-> & docs & Hfr & -> & Hatd & Hld).
  assert (post = concat (fst <$> docs)) as ->.
  { eapply at_pos_functional; [done..|]. lia. }
  assert (Z.of_nat (4 + length (sequence_text identifier docs)) = n) as Hlen.
  { unfold sequence_text. rewrite !length_app. cbn [length]. subst e. lia. }
  eexists. split; [done|]. intros name' ds pos' [= <- <- <-]. exists identifier, docs.
  rewrite Hlen. split_and!.
  - split; [by exists name|]. split; [done|]. rewrite Hlen. by destruct Hr.
  - unfold from_utf8 in Hname. case_match; congruence.
  - done.
  - subst e. lia.
  - apply at_pos_app. split; [done|]. exact Hrest.
Qed.

Lemma read_sequence_at pos identifier docs :
  well_formed (Sequence identifier docs) →
  at_pos m pos (to_le_bytes (Z.of_nat (4 + length (sequence_text identifier docs)))
                ++ sequence_text identifier docs) →
  read_sequence error_text m pos =
    Returns (Ok (String.string_of_list_byte identifier, BDocument ∘ snd <$> docs,
                 (pos + 4 + length (sequence_text identifier docs))%nat)).
Proof.
  intros ((name & Hnz & Hname & Hne) & Hdocs & Hmax) Hat.
  pose proof (at_pos_bound _ _ _ Hat) as Hb. rewrite length_app in Hb. cbn [length to_le_bytes] in Hb.
  apply at_pos_app in Hat as [Hat Htext]. cbn [length to_le_bytes] in Htext.
  unfold read_sequence.
  set (n := (4 + length (sequence_text identifier docs))%nat) in *.
  assert (read_i32 m pos = Ok (Z.of_nat n)) as ->.
  { apply read_i32_iff. split; [|done]. unfold is_i32, i32_min. lia. }
  assert (n = 4 + (length identifier + 1 + length (concat (fst <$> docs))))%nat as Hn.
  { subst n. unfold sequence_text. rewrite !length_app. simpl. lia. }
  cbn [parsed_bind]. destruct (Z.ltb_spec (Z.of_nat n) 5) as [|_]; [lia|].
  rewrite checked_add_position by (unfold is_i32, i32_min in *; lia). cbn [mbind option_bind].
  rewrite Nat2Z.id, decide_True by lia. cbn [parsed_bind ok_or].
  destruct (slice_at m (pos + 4) (pos + n)) as (-> & Hrest & Hl); [lia..|].
  rewrite (at_pos_functional _ _ _ _ Hrest Htext) by lia. clear Hrest Hl.
  assert (position_of_nul (sequence_text identifier docs) = Some (length identifier)) as ->.
  { apply position_of_nul_iff. by exists identifier, (concat (fst <$> docs)). }
  cbn [parsed_bind ok_or].
  apply at_pos_app in Htext as [Hid Hrest].
  destruct (slice_at m (pos + 4) (pos + 4 + length identifier)) as (-> & Ht & Hl); [lia..|].
  rewrite (at_pos_functional _ _ _ _ Ht Hid) by lia. clear Ht Hl.
  rewrite Hname. cbn [parsed_bind ok_or]. rewrite decide_False by done.
  apply at_pos_app in Hrest as [_ Hrest]. cbn [length] in Hrest.
  pose proof (framed_docs_long docs Hdocs).
  replace (pos + n)%nat with (pos + 4 + length identifier + 1 + length (concat (fst <$> docs)))%nat by lia.
  rewrite (read_documents_at _ docs) by (done || lia). cbn [parsed_bind fst snd].
  unfold from_utf8 in Hname. case_match; [|done]. injection Hname as <-.
  do 3 f_equal. lia.
Qed.

(** What the sections from [pos] on add to what was read before them. *)
Definition sections_answer pos body seqs body' seqs' : Prop :=
  ∃ l, Forall well_formed l ∧
    at_pos m pos (concat (section_text <$> l)) ∧
    length (concat (section_text <$> l)) = (length m - pos)%nat ∧
    option_list body' = option_list body ++ bodies l ∧ seqs' = seqs ++ sequences l.

Lemma sections_answer_cons s pos body seqs body1 body' seqs' :
  well_formed s → at_pos m pos (section_text s) →
  option_list body1 = option_list body ++ bodies [s] →
  sections_answer (pos + length (section_text s)) body1 (seqs ++ sequences [s]) body' seqs' →
  sections_answer pos body seqs body' seqs'.
Proof.
  intros Hs Hats Hbody (l & Hl & Hatl & Hlen & Hb' & ->). exists (s :: l).
  pose proof (at_pos_bound _ _ _ Hats). rewrite fmap_cons. cbn [concat].
  split; [by constructor|]. split; [by apply at_pos_app|]. split; [rewrite length_app; lia|].
  rewrite Hb', Hbody, (bodies_cons s l), (sequences_cons s l), !(assoc_L (++)). done.
Qed.

Lemma read_sections_returns fuel pos body seqs :
  (pos ≤ length m)%nat → (length m - pos < fuel)%nat →
  ∃ r, read_sections error_text fuel m pos body seqs = Returns r ∧
    ∀ body' seqs', r = Ok (body', seqs') → sections_answer pos body seqs body' seqs'.
Proof.
  revert pos body seqs. induction fuel as [|fuel IH]; intros pos body seqs Hpos Hf; [lia|].
  cbn [read_sections]. case_decide as Hlt.
  2: { eexists. split; [done|]. intros body' seqs' [= <- <-]. exists [].
       simpl. rewrite !app_nil_r. split_and!; [done|apply at_pos_nil; lia|lia|done|done]. }
  destruct (lookup_lt_is_Some_2 m pos Hlt) as [kind Hkind]. rewrite Hkind. cbn [parsed_bind ok_or].
  assert (∀ b, byte_val b = byte_val kind → at_pos m pos [b]) as Hat.
  { intros b Hb. exists (take pos m), (drop (S pos) m). simpl.
    rewrite <- (byte_of_val b), Hb, byte_of_val. split; [by rewrite take_drop_middle|].
    apply length_take_le. lia. }
  assert (∀ s pos1 body1 seqs1, well_formed s → at_pos m pos (section_text s) →
    pos1 = (pos + length (section_text s))%nat → option_list body1 = option_list body ++ bodies [s] →
    seqs1 = seqs ++ sequences [s] →
    ∃ r, read_sections error_text fuel m pos1 body1 seqs1 = Returns r ∧
      ∀ body' seqs', r = Ok (body', seqs') → sections_answer pos body seqs body' seqs') as Hnext.
  { intros s pos1 body1 seqs1 Hs Hats -> Hbody ->.
    pose proof (at_pos_bound _ _ _ Hats). pose proof (section_text_length s).
    destruct (IH (pos + length (section_text s))%nat body1 (seqs ++ sequences [s]))
      as (r & -> & Hrest); [lia..|].
    eexists. split; [done|]. intros body' seqs' ->. eapply sections_answer_cons; eauto. }
  destruct (Z.eqb_spec (byte_val kind) 0) as [H0|H0].
  - destruct body as [d|]; [answers_error|].
    destruct (read_document_returns (pos + 1) (length m)) as (r & -> & Hr); [done|].
    destruct r as [[d pos1]|]; cbn [parsed_bind fst snd]; [|answers_error].
    destruct (Hr _ _ eq_refl) as (Hp & b & Hb & Hatb & Hl).
    apply (Hnext (Body b d)); cbn [section_text length]; try done.
    + change (Byte.x00 :: b) with ([Byte.x00] ++ b). apply at_pos_app. split; [by apply Hat|done].
    + lia.
    + by rewrite app_nil_r.
  - destruct (Z.eqb_spec (byte_val kind) 1) as [H1|H1]; [|answers_error].
    destruct (read_sequence_returns (pos + 1)) as (r & -> & Hr).
    destruct r as [[[name ds] pos1]|]; cbn [parsed_bind fst snd]; [|answers_error].
    destruct (Hr _ _ _ eq_refl) as (identifier & docs & Hwf & -> & -> & -> & Hats).
    apply (Hnext (Sequence identifier docs)); try done.
    + cbn [section_text]. apply at_pos_app. split; [by apply Hat|done].
    + cbn [section_text]. rewrite !length_app. cbn [length to_le_bytes]. lia.
    + by rewrite app_nil_r.
Qed.

Lemma read_sections_at fuel l pos body seqs :
  Forall well_formed l → at_pos m pos (concat (section_text <$> l)) →
  (pos + length (concat (section_text <$> l)) = length m)%nat → (length l < fuel)%nat →
  (length (option_list body ++ bodies l) ≤ 1)%nat →
  ∃ body', read_sections error_text fuel m pos body seqs = Returns (Ok (body', seqs ++ sequences l)) ∧
    option_list body' = option_list body ++ bodies l.
Proof.
  revert pos body seqs l. induction fuel as [|fuel IH]; intros pos body seqs l Hl Hat Hlen Hf Hone;
    [lia|].
  cbn [read_sections]. destruct l as [|s l].
  { simpl in Hlen. rewrite decide_False by lia. exists body. by rewrite !app_nil_r. }
  rewrite fmap_cons in *. cbn [concat length] in *.
  inversion Hl as [|? ? Hs Hl']; subst. rewrite length_app in Hlen.
  apply at_pos_app in Hat as [Hats Hat]. pose proof (section_text_length s).
  rewrite decide_True by lia.
  rewrite (bodies_cons s l), (sequences_cons s l) in *.
  assert (∀ kind t, section_text s = [kind] ++ t → m !! pos = Some kind ∧ at_pos m (pos + 1) t) as Hk.
  { intros kind t Ht. rewrite Ht in Hats. apply at_pos_app in Hats as [(pre & post & -> & <-) Ht'].
    split; [|exact Ht']. by rewrite lookup_app_r, Nat.sub_diag by lia. }
  destruct s as [b d|identifier docs]; cbn [section_text] in *.
  - destruct (Hk Byte.x00 b eq_refl) as [-> Hb]. cbn [parsed_bind ok_or].
    change (byte_val Byte.x00 =? 0) with true. cbn iota.
    destruct body as [d'|]; [rewrite !length_app in Hone; simpl in Hone; lia|].
    cbn [length] in *. rewrite (read_document_at _ _ b d) by (done || lia). cbn [parsed_bind fst snd].
    destruct (IH (pos + 1 + length b)%nat (Some d) seqs l) as (body' & Hr & Hbody);
      [done| |lia|lia| |].
    + by replace (pos + 1 + length b)%nat with (pos + S (length b))%nat by lia.
    + exact Hone.
    + exists body'. by rewrite Hr.
  - destruct (Hk Byte.x01 _ eq_refl) as [-> Hb]. cbn [parsed_bind ok_or].
    change (byte_val Byte.x01 =? 0) with false. change (byte_val Byte.x01 =? 1) with true. cbn iota.
    rewrite (read_sequence_at _ identifier docs) by done. cbn [parsed_bind fst snd].
    rewrite !length_app in *. cbn [length to_le_bytes] in *.
    set (n := length (sequence_text identifier docs)) in *.
    destruct (IH (pos + 1 + 4 + n)%nat body
                (seqs ++ sequences [Sequence identifier docs]) l) as (body' & Hr & Hbody);
      [done| |lia|lia| |].
    + by replace (pos + 1 + 4 + n)%nat with (pos + (1 + (4 + n)))%nat by lia.
    + rewrite length_app. simpl in Hone. lia.
    + exists body'. change (sequences [Sequence identifier docs]) with
        [(String.string_of_list_byte identifier, (BDocument ∘ snd <$> docs) : list bson)] in *.
      rewrite <- (assoc_L (++)) in Hr. by rewrite Hr.
Qed.

Lemma parse_msg_returns id : (20 ≤ length m)%nat → ∃ r, parse_msg error_text m id = Returns r.
Proof.
  intros Hlen. unfold parse_msg.
  destruct (read_u32 m 16) as [flags|]; cbn [parsed_bind]; [|eauto].
  case_match; [eauto|].
  destruct (read_sections_returns (S (length m)) 20 None []) as ([[]|] & -> & _); [lia..| |];
    cbn [parsed_bind]; eauto.
Qed.

Lemma parse_msg_iff id r :
  (20 ≤ length m)%nat →
  parse_msg error_text m id = Returns (Ok r) ↔
  ∃ flags l d, (flags = 0 ∨ flags = MORE_TO_COME) ∧ Forall well_formed l ∧ bodies l = [d] ∧
    at_pos m 16 (to_le_bytes flags ++ concat (section_text <$> l)) ∧
    (20 + length (concat (section_text <$> l)))%nat = length m ∧
    msg_request error_text id flags (Some d) (sequences l) = Ok r.
Proof.
  intros Hlen. unfold parse_msg. split.
  - destruct (read_u32 m 16) as [flags|] eqn:Hflags; cbn [parsed_bind]; [|done].
    apply read_u32_iff in Hflags as [Hu Hat].
    destruct (Z.eqb_spec (Z.land flags (u32_max - MORE_TO_COME)) 0) as [Hz|]; [|done]. simpl negb.
    cbn iota. destruct (read_sections_returns (S (length m)) 20 None []) as (rs & -> & Hrs); [lia..|].
    destruct rs as [[body seqs]|]; cbn [parsed_bind fst snd]; [|done]. intros [= Hr].
    destruct (Hrs _ _ eq_refl) as (l & Hl & Hatl & Hll & Hb & ->). simpl in Hb.
    destruct body as [d|]; [|done].
    exists flags, l, d. split_and!; try done.
    + by apply more_to_come_only.
    + by apply at_pos_app.
    + lia.
  - intros (flags & l & d & Hflags & Hl & Hb & Hat & Hll & Hr).
    apply at_pos_app in Hat as [Hat Hatl].
    assert (read_u32 m 16 = Ok flags) as ->.
    { apply read_u32_iff. split; [|done]. destruct Hflags as [-> | ->]; unfold is_u32; by compute. }
    cbn [parsed_bind].
    replace (Z.land flags (u32_max - MORE_TO_COME)) with 0 by (by destruct Hflags as [-> | ->]).
    cbn [negb Z.eqb].
    destruct (read_sections_at (S (length m)) l 20 None []) as (body & -> & Hbody); try done.
    + pose proof (sections_long l). lia.
    + rewrite Hb. simpl. lia.
    + simpl in Hbody. rewrite Hb in Hbody. destruct body as [d'|]; [|done].
      injection Hbody as ->. cbn [parsed_bind fst snd].
      change ([] ++ sequences l) with (sequences l). by rewrite Hr.
Qed.

Lemma parse_query_returns id :
  (20 ≤ length m)%nat → ∃ r, parse_query error_text m id = Returns r.
Proof.
  intros Hlen. unfold parse_query, get_from. rewrite decide_True by lia. cbn [mbind option_bind].
  destruct (position_of_nul _) as [offset|] eqn:Hnul; cbn [parsed_bind ok_or]; [|eauto].
  apply position_of_nul_iff in Hnul as (pre & post & Heq & _ & <-).
  apply (f_equal length) in Heq. rewrite length_drop, length_app in Heq. cbn [length] in Heq.
  destruct (slice_at m 20 (20 + length pre)) as (-> & _); [lia..|].
  destruct (from_utf8 _); cbn [parsed_bind ok_or]; [|eauto].
  destruct (split_once_dot _) as [[]|]; [|eauto].
  repeat (case_decide; [|eauto]; []). case_decide; [eauto|].
  destruct (read_document_returns (20 + length pre + 1 + 8) (length m)) as (r & -> & _); [done|].
  destruct r as [[]|]; cbn [parsed_bind fst snd]; [|eauto]. case_decide; eauto.
Qed.

(** What follows the flags of an [OP_QUERY] that is read as [r]. *)
Definition query_text id r : Prop :=
  ∃ collection skips b d database name, length skips = 8%nat ∧ (Byte.x00 ∉ collection) ∧
    from_utf8 collection = Some name ∧ split_once_dot name = Some (database, "$cmd"%string) ∧
    database ≠ EmptyString ∧ framed b d ∧
    at_pos m 20 (collection ++ [Byte.x00] ++ skips ++ b) ∧
    (20 + length (collection ++ [Byte.x00] ++ skips ++ b))%nat = length m ∧
    query_request error_text id database d = Ok r.

Lemma parsed_query id r :
  (20 ≤ length m)%nat → parse_query error_text m id = Returns (Ok r) → query_text id r.
Proof.
  intros Hlen. unfold parse_query, get_from. rewrite decide_True by lia. cbn [mbind option_bind].
  destruct (position_of_nul _) as [offset|] eqn:Hnul; cbn [parsed_bind ok_or]; [|done].
  apply position_of_nul_iff in Hnul as (collection & post & Heq & Hnz & <-).
  pose proof (at_pos_intro m 20 (length m - 20) ltac:(lia)) as Hat.
  rewrite take_ge in Hat by (rewrite length_drop; lia). rewrite Heq in Hat.
  apply (f_equal length) in Heq. rewrite length_drop, length_app in Heq. cbn [length] in Heq.
  change (Byte.x00 :: post) with ([Byte.x00] ++ post) in Hat.
  pose proof (proj1 (at_pos_app _ _ _ _) Hat) as [Hc Hpost].
  destruct (slice_at m 20 (20 + length collection)) as (-> & Ht & Hl); [lia..|].
  rewrite (at_pos_functional _ _ _ _ Ht Hc) by lia. clear Ht Hl.
  destruct (from_utf8 collection) as [name|] eqn:Hname; cbn [parsed_bind ok_or]; [|done].
  destruct (split_once_dot name) as [[database rest]|] eqn:Hsplit; [|done].
  case_decide as Hcmd; [|done]. subst rest. case_decide as Hdb; [done|].
  destruct (read_document_returns (20 + length collection + 1 + 8) (length m))
    as (rd & -> & Hrd); [done|].
  destruct rd as [[d pos']|]; cbn [parsed_bind fst snd]; [|done].
  case_decide as Hend; [|done]. intros [= Hr].
  destruct (Hrd _ _ eq_refl) as (Hb1 & b & Hfr & Hatb & Hlb).
  apply at_pos_app in Hpost as [Hnulat Hpost]. cbn [length] in Hpost.
  assert (take 8 post ++ b = post) as Hpb.
  { apply (at_pos_functional m (20 + length collection + 1)); [|done|].
    - apply at_pos_app. rewrite <- (take_drop 8 post) in Hpost. apply at_pos_app in Hpost as [? _].
      split; [done|]. rewrite length_take.
      by replace (20 + length collection + 1 + Nat.min 8 (length post))%nat
        with (20 + length collection + 1 + 8)%nat by lia.
    - rewrite length_app, length_take. lia. }
  exists collection, (take 8 post), b, d, database, name. rewrite Hpb.
  split_and!; try done.
  + rewrite length_take. lia.
  + rewrite !length_app. cbn [length]. lia.
Qed.

Lemma query_parsed id r :
  (20 ≤ length m)%nat → query_text id r → parse_query error_text m id = Returns (Ok r).
Proof.
  intros Hlen. unfold parse_query, get_from. rewrite decide_True by lia. cbn [mbind option_bind].
  intros (collection & skips & b & d & database & name & Hskips & Hnz & Hname & Hsplit & Hdb &
    Hfr & Hat & Hl & Hr).
  rewrite !length_app in Hl. cbn [length] in Hl.
  assert (drop 20 m = collection ++ Byte.x00 :: skips ++ b) as Hdrop.
  { pose proof (at_pos_intro m 20 (length m - 20) ltac:(lia)) as Hat2.
    rewrite take_ge in Hat2 by (rewrite length_drop; lia).
    apply (at_pos_functional _ _ _ _ Hat2 Hat). rewrite length_drop, !length_app. simpl. lia. }
  assert (position_of_nul (drop 20 m) = Some (length collection)) as ->.
  { apply position_of_nul_iff. exists collection, (skips ++ b). by split_and!. }
  cbn [parsed_bind ok_or]. apply at_pos_app in Hat as [Hc Hat].
  destruct (slice_at m 20 (20 + length collection)) as (-> & Ht & Hlt); [lia..|].
  rewrite (at_pos_functional _ _ _ _ Ht Hc) by lia. rewrite Hname. cbn [parsed_bind ok_or].
  rewrite Hsplit, decide_True, decide_False by done.
  apply at_pos_app in Hat as [_ Hat]. apply at_pos_app in Hat as [_ Hat]. rewrite Hskips in Hat.
  cbn [length] in Hat.
  rewrite (read_document_at _ _ b d) by (done || lia). cbn [parsed_bind fst snd].
  rewrite decide_True by lia. by rewrite Hr.
Qed.

Lemma parse_query_iff id r :
  (20 ≤ length m)%nat → parse_query error_text m id = Returns (Ok r) ↔ query_text id r.
Proof. intros Hlen. split; [by apply parsed_query|by apply query_parsed]. Qed.
End buffer.

(** A buffer splits at the end of its header. *)
Lemma whole_frame m id op_code rest :
  (16 ≤ length m)%nat →
  (at_pos m 0 (to_le_bytes (Z.of_nat (length m))) ∧ at_pos m 4 (to_le_bytes id) ∧
   at_pos m 12 (to_le_bytes op_code) ∧ at_pos m 16 rest ∧ (16 + length rest)%nat = length m) ↔
  ∃ response_to, length response_to = 4%nat ∧
    m = header (length m) id response_to op_code ++ rest.
Proof.
  intros Hlen. unfold header. split.
  - intros (H0 & H4 & H12 & H16 & Hl). exists (take 4 (drop 8 m)). split.
    { rewrite length_take, length_drop. lia. }
    assert (length (take 4 (drop 8 m)) = 4%nat) as H8 by (rewrite length_take, length_drop; lia).
    apply at_pos_whole; [|rewrite !length_app, H8; cbn [length to_le_bytes]; lia].
    apply at_pos_app. split; [apply at_pos_app; split; [done|]|].
    + apply at_pos_app. split; [done|]. apply at_pos_app. split; [apply at_pos_intro; simpl; lia|].
      by rewrite H8.
    + rewrite !length_app, H8. done.
  - intros (response_to & Hr & Hm). pose proof (at_pos_self m) as Hat. rewrite Hm in Hat at 2.
    assert (length (header (length m) id response_to op_code) = 16%nat) as Hh.
    { unfold header. rewrite !length_app, Hr. done. }
    unfold header in Hh. apply at_pos_app in Hat as [Hat Hrest]. rewrite Hh in Hrest.
    apply at_pos_app in Hat as [H0 Hat]. apply at_pos_app in Hat as [H4 Hat].
    apply at_pos_app in Hat as [_ H12]. rewrite Hr in H12.
    split_and!; try done. apply (f_equal length) in Hm. rewrite length_app in Hm. lia.
Qed.

Lemma declared_length m n :
  read_i32 m 0 = Ok n → (n <? 0) || negb (n =? Z.of_nat (length m)) = false →
  n = Z.of_nat (length m) ∧ Z.of_nat (length m) ≤ i32_max ∧ at_pos m 0 (to_le_bytes n).
Proof.
  intros [Hr Hat]%read_i32_iff Hn. apply orb_false_iff in Hn as [_ Hn].
  apply negb_false_iff, Z.eqb_eq in Hn. unfold is_i32 in Hr. split_and!; [done|lia|done].
Qed.

Lemma parse_returns m : ∃ r, parse error_text m = Returns r.
Proof.
  unfold parse. case_decide as Hlen; [eauto|].
  destruct (read_i32 m 0) as [n|] eqn:Hn0; cbn [parsed_bind]; [|eauto].
  destruct (_ || _) eqn:Hn; [eauto|]. destruct (declared_length m n Hn0 Hn) as (-> & Hm & _).
  destruct (read_i32 m 4) as [id|]; cbn [parsed_bind]; [|eauto].
  destruct (read_i32 m 12) as [op|]; cbn [parsed_bind]; [|eauto].
  case_match; [apply parse_msg_returns; lia|].
  case_match; [apply parse_query_returns; lia|eauto].
Qed.

(** Every buffer of bytes is answered with a request or an error: no slice is out of range,
    no addition overflows and every loop ends. *)
Theorem every_buffer_is_answered m : ∃ r, parse error_text m = Returns r.
Proof. apply parse_returns. Qed.

Lemma parse_headed m id op_code response_to rest :
  m = header (length m) id response_to op_code ++ rest → length response_to = 4%nat →
  (21 ≤ length m)%nat → is_i32 id → Z.of_nat (length m) ≤ i32_max →
  op_code = OP_MSG ∨ op_code = OP_QUERY →
  parse error_text m =
    if op_code =? OP_MSG then parse_msg error_text m id else parse_query error_text m id.
Proof.
  intros Hm Hr Hlen Hid Hmax Hop.
  destruct (proj2 (whole_frame m id op_code rest ltac:(lia))) as (H0 & H4 & H12 & _); [by eexists|].
  unfold parse. rewrite decide_False by lia.
  assert (read_i32 m 0 = Ok (Z.of_nat (length m))) as ->.
  { apply read_i32_iff. split; [|done]. unfold is_i32, i32_min. lia. }
  assert (read_i32 m 4 = Ok id) as H4' by (by apply read_i32_iff).
  assert (read_i32 m 12 = Ok op_code) as H12'.
  { apply read_i32_iff. split; [|done]. by destruct Hop as [-> | ->]. }
  cbn [parsed_bind]. destruct (Z.ltb_spec (Z.of_nat (length m)) 0) as [|_]; [lia|].
  rewrite Z.eqb_refl. cbn [orb negb]. rewrite H4', H12'. cbn [parsed_bind].
  by destruct Hop as [-> | ->].
Qed.

Lemma parsed_is_accepted m r : parse error_text m = Returns (Ok r) → accepts m r.
Proof.
  intros Hp. pose proof Hp as Hp'. unfold parse in Hp. case_decide as Hlen; [done|].
  destruct (read_i32 m 0) as [n|] eqn:Hn0; cbn [parsed_bind] in Hp; [|done].
  destruct (_ || _) eqn:Hn; [done|]. destruct (declared_length m n Hn0 Hn) as (-> & Hm & Hat0).
  destruct (read_i32 m 4) as [id|] eqn:H4; cbn [parsed_bind] in Hp; [|done].
  destruct (read_i32 m 12) as [op|] eqn:H12; cbn [parsed_bind] in Hp; [|done].
  apply read_i32_iff in H4 as [Hid H4]. apply read_i32_iff in H12 as [_ H12].
  destruct (Z.eqb_spec op OP_MSG) as [->|_].
  + left. apply parse_msg_iff in Hp as (flags & l & d & Hflags & Hl & Hb & Hat & Hll & Hr); [|lia..].
    destruct (proj1 (whole_frame m id OP_MSG (to_le_bytes flags ++ concat (section_text <$> l))
                ltac:(lia))) as (resp & Hresp & Hm2).
    { by split_and!. }
    by exists id, resp, flags, l, d.
  + destruct (Z.eqb_spec op OP_QUERY) as [->|_]; [|done].
    right. apply parse_query_iff in Hp as (collection & skips & b & d & database & name & Hs & Hnz &
      Hname & Hsplit & Hdb & Hfr & Hat & Hl & Hr); [|lia..].
    set (rest := collection ++ [Byte.x00] ++ skips ++ b) in *.
    pose proof (at_pos_intro m 16 4 ltac:(lia)) as Hflags.
    assert (length (take 4 (drop 16 m)) = 4%nat) as Hfl by (rewrite length_take, length_drop; lia).
    destruct (proj1 (whole_frame m id OP_QUERY (take 4 (drop 16 m) ++ rest) ltac:(lia)))
      as (resp & Hresp & Hm2).
    { split_and!; try done; [|rewrite length_app; lia].
      apply at_pos_app. by rewrite Hfl. }
    exists id, resp, (take 4 (drop 16 m)), collection, skips, b, d, database.
    split_and!; try done. by exists name.
Qed.

Lemma accepted_is_parsed m r : accepts m r → parse error_text m = Returns (Ok r).
Proof.
  intros [(id & resp & flags & l & d & Hm & Hresp & Hid & Hmax & Hflags & Hl & Hb & Hr)
         |(id & resp & flags & collection & skips & b & d & database & Hm & Hresp & Hfl & Hs & Hid &
           Hmax & Hnz & (name & Hname & Hsplit) & Hdb & Hfr & Hr)].
  + pose proof (f_equal length Hm) as Hlen. rewrite !length_app in Hlen.
    assert (1 ≤ length (concat (section_text <$> l)))%nat.
    { destruct l as [|s l]; [done|]. rewrite fmap_cons. cbn [concat]. rewrite length_app.
      pose proof (section_text_length s). lia. }
    unfold header in Hlen. rewrite !length_app, Hresp in Hlen. cbn [length to_le_bytes] in Hlen.
    rewrite (parse_headed _ _ _ _ _ Hm) by (auto || lia).
    rewrite Z.eqb_refl. apply parse_msg_iff; [done|lia|].
    destruct (proj2 (whole_frame m id OP_MSG _ ltac:(lia)) (ex_intro _ resp (conj Hresp Hm)))
      as (_ & _ & _ & H16 & _).
    exists flags, l, d. split_and!; done || lia.
  + pose proof (f_equal length Hm) as Hlen. rewrite !length_app in Hlen.
    unfold header in Hlen. rewrite !length_app, Hresp, Hfl, Hs in Hlen. cbn [length to_le_bytes] in Hlen.
    rewrite (parse_headed _ _ _ _ _ Hm) by (auto || lia).
    change (OP_QUERY =? OP_MSG) with false. cbn iota.
    apply parse_query_iff; [done|lia|].
    destruct (proj2 (whole_frame m id OP_QUERY _ ltac:(lia)) (ex_intro _ resp (conj Hresp Hm)))
      as (_ & _ & _ & H16 & _).
    apply at_pos_app in H16 as [_ H20]. rewrite Hfl in H20.
    exists collection, skips, b, d, database, name. split_and!; try done.
    rewrite !length_app, Hs. cbn [length]. lia.
Qed.

Lemma parse_iff m r :
  parse error_text m = Returns (Ok r) ↔ accepts m r.
Proof. split; [apply parsed_is_accepted|apply accepted_is_parsed]. Qed.

(** C6. A buffer is accepted with a request exactly when it is a frame of the grammar: header,
    flags, one body section and any document sequences in any order, or a handshake query, whose
    request it is. *)
Theorem parse_accepts_the_wire_format m r :
  parse error_text m = Returns (Ok r) ↔ accepts m r.
Proof. apply parse_iff. Qed.
End grammar.

(** ** A message on the wire

    A codec for documents of strings and 32-bit integers, which also writes the arrays of
    documents that sequences become; and the handshake and the insert of the parser's tests. *)

Definition cstring (s : string) : bytes := String.list_byte_of_string s ++ [Byte.x00].

Fixpoint encode_doc (fuel : nat) (d : Doc) : bytes :=
  match fuel with
  | O => []
  | S fuel =>
      let element (e : string * Bson Doc nat Empty_set) : bytes :=
        match snd e with
        | Int32 z => [Byte.x10] ++ cstring (fst e) ++ to_le_bytes z
        | BString s =>
            [Byte.x02] ++ cstring (fst e) ++ to_le_bytes (Z.of_nat (length (cstring s))) ++ cstring s
        | BDocument d => [Byte.x03] ++ cstring (fst e) ++ encode_doc fuel d
        | Array l => [Byte.x04] ++ cstring (fst e) ++
            encode_doc fuel (mkDoc (imap (λ i v, (pretty (Z.of_nat i), v)) l))
        | _ => []
        end in
      let body := concat (element <$> doc_entries d) in
      to_le_bytes (Z.of_nat (4 + length body + 1)) ++ body ++ [Byte.x00]
  end.

Definition the_end (b : bytes) : bool :=
  match b with [last] => Byte.eqb last Byte.x00 | _ => false end.

Fixpoint decode_elements (fuel : nat) (b : bytes) : option (list (string * Bson Doc nat Empty_set)) :=
  if the_end b then Some []
  else match fuel, b with
  | S fuel, tag :: b =>
      n ← position_of_nul b;
      let key := String.string_of_list_byte (take n b) in
      let b := drop (S n) b in
      if Byte.eqb tag Byte.x10 then
        rest ← decode_elements fuel (drop 4 b);
        Some ((key, Int32 (as_i32 (from_le_bytes (take 4 b)))) :: rest)
      else if Byte.eqb tag Byte.x02 then
        let k := Z.to_nat (from_le_bytes (take 4 b)) in
        rest ← decode_elements fuel (drop (4 + k) b);
        Some ((key, BString (String.string_of_list_byte (take (k - 1) (drop 4 b)))) :: rest)
      else None
  | _, _ => None
  end.

#[local] Instance mini_codec : BsonLib Doc nat Empty_set (list Byte.byte) unit := {
  doc_new := mkDoc [];
  doc_get k d := assoc_get k (doc_entries d);
  doc_insert k v d := mkDoc (assoc_set k v (doc_entries d));
  doc_remove k d := (assoc_get k (doc_entries d), mkDoc (assoc_del k (doc_entries d)));
  doc_first_key d := fst <$> head (doc_entries d);
  to_vec d := Ok (encode_doc 8 d);
  from_reader b := ok_or tt (mkDoc <$> decode_elements (length b) (drop 4 b));
}.

Definition mini_doc (l : list (string * Bson Doc nat Empty_set)) : bytes * Doc :=
  (encode_doc 8 (mkDoc l), mkDoc l).

Definition insert_sections : list wsection :=
  let body := mini_doc [("insert"%string, BString "items"); ("ordered"%string, Int32 1);
                        ("$db"%string, BString "app")] in
  [Sequence (String.list_byte_of_string "documents")
     [mini_doc [("value"%string, Int32 1)]; mini_doc [("value"%string, Int32 (-2))]];
   Body (fst body) (snd body)].

Definition on_the_wire (id op_code : Z) (rest : bytes) : bytes :=
  header (16 + length rest) id (to_le_bytes 0) op_code ++ rest.

Definition insert_message : bytes :=
  on_the_wire 42 OP_MSG (to_le_bytes 2 ++ concat (section_text <$> insert_sections)).

Example an_insert_is_parsed :
  parse (λ _, ""%string) insert_message =
  Returns (Ok (mkRequest 42 true false "app" "insert"
    (encode_doc 8 (mkDoc [("insert"%string, BString "items"); ("ordered"%string, Int32 1);
       ("documents"%string, Array [BDocument (mkDoc [("value"%string, Int32 1)]);
                                   BDocument (mkDoc [("value"%string, Int32 (-2))])])])))).
Proof. vm_compute. reflexivity. Qed.

Definition handshake : bytes :=
  on_the_wire 7 OP_QUERY (to_le_bytes 0 ++ cstring "admin.$cmd" ++ to_le_bytes 0 ++ to_le_bytes (-1)
    ++ encode_doc 8 (mkDoc [("isMaster"%string, Int32 1)])).

Example a_handshake_is_parsed :
  parse (λ _, ""%string) handshake =
  Returns (Ok (mkRequest 7 false true "admin" "isMaster"
    (encode_doc 8 (mkDoc [("isMaster"%string, Int32 1)])))).
Proof. vm_compute. reflexivity. Qed.

Lemma wire_format_witness : ∃ r, accepts (λ _, ""%string) insert_message r ∧ request_id r = 42.
Proof.
  eexists. split; [apply parse_accepts_the_wire_format; vm_compute; reflexivity|reflexivity].
Defined.
