(* ===== verification/Marker.v ===== *)
(** * The marker of the repair pass, on a disk that can fail

    [src/repair/marker.rs] and [src/repair/origin.rs] over the part of [std::fs] they use. The
    files of the data directory are a map from names; an operation may fail, and one that
    writes may fail half way. [record] is a program of such operations, so that it can be run
    to its end and also stopped at any point: [interrupted] has the disks a process that dies
    leaves, and [power_loss] what is left of one when the device loses what was not synced. *)
From S2P Require Import Prelude Text.

(** ** Files *)

Record file := mkFile { content : string; synced : bool }.

Abbreviation Disk := (gmap string file).

Inductive fs_op :=
| Create (path : string)
| WriteAll (path : string) (text : string)
| SyncAll (path : string)
| Rename (from to : string)
| RemoveFile (path : string).

(** A fault stops an operation; a write has then written that many bytes. *)
Inductive fault := NoFault | Fails (written : nat).

Definition append_to (path text : string) (d : Disk) : Disk :=
  match d !! path with
  | Some f => <[path := mkFile (content f ++ text) false]> d
  | None => d
  end.

Definition perform (op : fs_op) (f : fault) (d : Disk) : bool * Disk :=
  match op, f with
  | Create path, NoFault => (true, <[path := mkFile "" false]> d)
  | WriteAll path text, NoFault => (true, append_to path text d)
  | WriteAll path text, Fails n => (false, append_to path (String.substring 0 n text) d)
  | SyncAll path, NoFault => (true, alter (λ f, mkFile (content f) true) path d)
  | Rename from to, NoFault =>
      match d !! from with
      | Some f => (true, <[to := f]> (delete from d))
      | None => (false, d)
      end
  | RemoveFile path, NoFault =>
      match d !! path with
      | Some _ => (true, delete path d)
      | None => (false, d)
      end
  | _, Fails _ => (false, d)
  end.

(** A program of file operations, each answering whether it worked. *)
Inductive fs_prog (A : Type) : Type :=
| FsDone (answer : A)
| FsOp (op : fs_op) (k : bool → fs_prog A).
Arguments FsDone {A} answer.
Arguments FsOp {A} op k.

Fixpoint fs_bind {A B} (m : fs_prog A) (f : A → fs_prog B) : fs_prog B :=
  match m with
  | FsDone a => f a
  | FsOp op k => FsOp op (λ ok, fs_bind (k ok) f)
  end.

(** To the end; operations after the listed faults work. *)
Fixpoint run_fs {A} (m : fs_prog A) (faults : list fault) (d : Disk) : A * Disk :=
  match m with
  | FsDone a => (a, d)
  | FsOp op k =>
      let '(ok, d') := perform op (default NoFault (head faults)) d in
      run_fs (k ok) (tail faults) d'
  end.

(** The disks on the way, the first and the last included. *)
Fixpoint interrupted {A} (m : fs_prog A) (faults : list fault) (d : Disk) : list Disk :=
  d :: match m with
       | FsDone _ => []
       | FsOp op k =>
           let '(ok, d') := perform op (default NoFault (head faults)) d in
           interrupted (k ok) (tail faults) d'
       end.

(** What the device has of a file when the power goes: all of it if it was synced, and else any
    beginning, or nothing at all. *)
Definition survives (was left_ : option file) : Prop :=
  match was with
  | None => left_ = None
  | Some f =>
      if synced f then left_ = Some f
      else left_ = None ∨ ∃ n, left_ = Some (mkFile (String.substring 0 n (content f)) true)
  end.

(** No directory is synced, so what a name leads to may be what it led to at any of the moments
    so far: a rename, a creation or a removal may be lost. *)
Definition power_loss (moments : list Disk) (d' : Disk) : Prop :=
  ∀ path, ∃ d, d ∈ moments ∧ survives (d !! path) (d' !! path).

(** ** The marker *)

Inductive MarkerState := Recorded | Missing.

Definition FILE_NAME : string := ".embedded-mongodb-index-repair".
Definition PARTIAL_FILE_NAME : string := ".embedded-mongodb-index-repair.partial".
Definition RECORD : string := "embedded-mongodb index repair v1".
Definition EXPLANATION : string :=
"Written by embedded-mongodb after checking this directory for the missing index entries that
builds before the DatabaseHolder::openDb fix left behind. See the README section `Repairing a
directory an older build damaged`. Delete this file to have the next open check again.
".

Definition MARKER_TEXT : string := RECORD ++ String newline EXPLANATION.

(** [Marker::state]; the file may be unreadable, or not text. *)
Definition marker_state (readable : bool) (d : Disk) : MarkerState :=
  match d !! FILE_NAME with
  | Some f =>
      if readable && utf8_valid (String.list_byte_of_string (content f))
         && bool_decide (first_line (content f) = Some RECORD)
      then Recorded else Missing
  | None => Missing
  end.

Definition write_partial (partial : string) : fs_prog bool :=
  FsOp (Create partial) (λ ok,
    if ok then FsOp (WriteAll partial MARKER_TEXT) (λ ok,
      if ok then FsOp (SyncAll partial) FsDone else FsDone false)
    else FsDone false).

(** [Marker::record] *)
Definition record_marker : fs_prog bool :=
  fs_bind (write_partial PARTIAL_FILE_NAME) (λ ok,
    if ok then FsOp (Rename PARTIAL_FILE_NAME FILE_NAME) FsDone
    else FsOp (RemoveFile PARTIAL_FILE_NAME) (λ _, FsDone false)).

Inductive Origin := PreExisting | Fresh.

(** [origin]: only a file of that name tells, and only before the engine starts. *)
Definition origin (d : Disk) : Origin :=
  match d !! "WiredTiger"%string with Some _ => PreExisting | None => Fresh end.

(** ** What a marker is worth *)

Definition whole_marker : file := mkFile MARKER_TEXT true.

(** The file is the whole marker, or what it was. *)
Definition marker_intact (before d : Disk) : Prop :=
  d !! FILE_NAME = before !! FILE_NAME ∨ d !! FILE_NAME = Some whole_marker.

(** Nothing but the marker and its partial file is touched. *)
Definition others_untouched (before d : Disk) : Prop :=
  ∀ path, path ≠ FILE_NAME → path ≠ PARTIAL_FILE_NAME → d !! path = before !! path.

Local Opaque MARKER_TEXT FILE_NAME PARTIAL_FILE_NAME.

(** A program all of whose operations are on one file. *)
Fixpoint only_on {A} (path : string) (m : fs_prog A) : Prop :=
  match m with
  | FsDone _ => True
  | FsOp op k =>
      match op with
      | Create p | WriteAll p _ | SyncAll p | RemoveFile p => p = path
      | Rename _ _ => False
      end ∧ ∀ ok, only_on path (k ok)
  end.

Lemma perform_elsewhere op f (d : Disk) ok d' path :
  perform op f d = (ok, d') →
  match op with
  | Create p | WriteAll p _ | SyncAll p | RemoveFile p => path ≠ p
  | Rename a b => path ≠ a ∧ path ≠ b
  end →
  d' !! path = d !! path.
Proof.
  destruct op, f; simpl; unfold append_to; repeat case_match; intros [= <- <-] Hp;
    destruct_and?; rewrite ?lookup_insert_ne, ?lookup_delete_ne, ?lookup_alter_ne by congruence; done.
Qed.

Lemma only_on_elsewhere {A} path (m : fs_prog A) faults d d1 p :
  only_on path m → d1 ∈ interrupted m faults d → p ≠ path → d1 !! p = d !! p.
Proof.
  intros Hm Hin Hp. revert faults d Hin. induction m as [a|op k IH]; intros faults d Hin; simpl in *.
  - by apply list_elem_of_singleton in Hin as ->.
  - apply elem_of_cons in Hin as [->|Hin]; [done|].
    destruct (perform op _ d) as [ok d'] eqn:Hop. destruct Hm as [Hpath Hk].
    rewrite (IH ok (Hk ok) _ _ Hin). eapply perform_elsewhere; [done|].
    destruct op; naive_solver.
Qed.

Lemma interrupted_last {A} (m : fs_prog A) faults d : (run_fs m faults d).2 ∈ interrupted m faults d.
Proof.
  revert faults d. induction m as [a|op k IH]; intros faults d; simpl; [by left|].
  destruct (perform op _ d) as [ok d']. right. apply IH.
Qed.

Lemma interrupted_bind {A B} (m : fs_prog A) (f : A → fs_prog B) faults d d1 :
  d1 ∈ interrupted (fs_bind m f) faults d →
  d1 ∈ interrupted m faults d ∨
  ∃ faults', let '(a, d') := run_fs m faults d in d1 ∈ interrupted (f a) faults' d'.
Proof.
  revert faults d. induction m as [a|op k IH]; intros faults d Hin; simpl in *; [eauto|].
  apply elem_of_cons in Hin as [->|Hin]; [left; by left|].
  destruct (perform op _ d) as [ok d'] eqn:Hop.
  destruct (IH ok _ _ Hin) as [?|?]; [left; by right|by right].
Qed.

Lemma write_partial_only p : only_on p (write_partial p).
Proof. simpl. split; [done|]. intros []; simpl; [|done]. split; [done|]. by intros []. Qed.

(** Where the partial file was written without a fault it is whole, and on the device. *)
Lemma write_partial_whole p faults d d' :
  run_fs (write_partial p) faults d = (true, d') → d' !! p = Some whole_marker.
Proof.
  unfold write_partial. cbn [run_fs].
  destruct (default NoFault (head faults)); [|done]. cbn [perform run_fs].
  destruct (default NoFault (head (tail faults))); [|done]. cbn [perform run_fs].
  destruct (default NoFault (head (tail (tail faults)))); [|done]. cbn [perform run_fs].
  intros [= <-]. unfold append_to. rewrite lookup_insert_eq, lookup_alter_eq, lookup_insert_eq. done.
Qed.

Lemma record_marker_keeps faults d d1 :
  d1 ∈ interrupted record_marker faults d → marker_intact d d1 ∧ others_untouched d d1.
Proof.
  intros Hin. unfold marker_intact, others_untouched.
  assert (∀ d2 d3 : Disk, (∀ p, p ≠ PARTIAL_FILE_NAME → d3 !! p = d2 !! p) →
    (d3 !! FILE_NAME = d2 !! FILE_NAME ∨ d3 !! FILE_NAME = Some whole_marker) ∧
    ∀ p, p ≠ FILE_NAME → p ≠ PARTIAL_FILE_NAME → d3 !! p = d2 !! p) as Hpartial.
  { intros d2 d3 Hm. split; [left; by apply Hm|]. intros p _ Hp. by apply Hm. }
  apply interrupted_bind in Hin as [Hin|[faults' Hin]].
  { apply Hpartial. intros p. eapply only_on_elsewhere; [apply write_partial_only|done]. }
  destruct (run_fs (write_partial PARTIAL_FILE_NAME) faults d) as [ok d2] eqn:Hw.
  assert (∀ p, p ≠ PARTIAL_FILE_NAME → d2 !! p = d !! p) as Hd2.
  { intros p. eapply only_on_elsewhere; [apply write_partial_only|].
    replace d2 with (run_fs (write_partial PARTIAL_FILE_NAME) faults d).2 by (by rewrite Hw).
    apply interrupted_last. }
  destruct ok.
  - apply write_partial_whole in Hw. cbn [interrupted] in Hin.
    apply elem_of_cons in Hin as [->|Hin]; [by apply Hpartial|].
    destruct (default NoFault (head faults')); cbn [perform] in Hin.
    + rewrite Hw in Hin. apply list_elem_of_singleton in Hin as ->. split.
      * right. by rewrite lookup_insert_eq.
      * intros p Hp Hp'. rewrite lookup_insert_ne, lookup_delete_ne by done. auto.
    + apply list_elem_of_singleton in Hin as ->. by apply Hpartial.
  - apply Hpartial. intros p Hp. rewrite <- (Hd2 p Hp).
    eapply (only_on_elsewhere PARTIAL_FILE_NAME); [|exact Hin|done]. simpl. auto.
Qed.

(** C10. At whatever point recording stops, and whatever a power loss then takes, of what was
    not synced or of any change of a name, the marker file is the one that was there or the
    whole new one, and no other synced file changes. *)
Theorem a_marker_is_never_half_written faults d before d1 after d2 :
  (∀ f, d !! FILE_NAME = Some f → synced f = true) →
  interrupted record_marker faults d = before ++ d1 :: after →
  d2 = d1 ∨ power_loss (before ++ [d1]) d2 →
  (d2 !! FILE_NAME = d !! FILE_NAME ∨ d2 !! FILE_NAME = Some whole_marker) ∧
  (∀ path f, path ≠ FILE_NAME → path ≠ PARTIAL_FILE_NAME →
     d !! path = Some f → synced f = true → d2 !! path = Some f).
Proof.
  intros Hsynced Hin Hloss.
  assert (∀ d0, d0 ∈ before ++ [d1] → marker_intact d d0 ∧ others_untouched d d0) as Hmoments.
  { intros d0 Hd0. apply (record_marker_keeps faults). rewrite Hin. set_solver. }
  assert (∀ path, ∃ d0, d0 ∈ before ++ [d1] ∧
    (d2 !! path = d0 !! path ∨ survives (d0 !! path) (d2 !! path))) as Hnow.
  { intros path. destruct Hloss as [->|Hloss]; [exists d1; set_solver|].
    destruct (Hloss path) as (d0 & ? & ?). eauto. }
  split.
  - destruct (Hnow FILE_NAME) as (d0 & [[Hm|Hm] _]%Hmoments & [->|Hs]);
      [by auto| |by auto|].
    + left. rewrite Hm in Hs. unfold survives in Hs. destruct (d !! FILE_NAME) as [f|]; [|done].
      by rewrite (Hsynced f eq_refl) in Hs.
    + right. by rewrite Hm in Hs.
  - intros path f Hn Hp Hf Hsync. destruct (Hnow path) as (d0 & [_ Ho]%Hmoments & Hs).
    rewrite (Ho path Hn Hp), Hf in Hs. unfold survives in Hs. rewrite Hsync in Hs. by destruct Hs.
Qed.

Local Transparent MARKER_TEXT FILE_NAME PARTIAL_FILE_NAME.

Lemma whole_marker_recorded (d : Disk) :
  d !! FILE_NAME = Some whole_marker → marker_state true d = Recorded.
Proof. unfold marker_state. intros ->. vm_compute. reflexivity. Qed.

Local Opaque MARKER_TEXT FILE_NAME PARTIAL_FILE_NAME.

Lemma run_fs_bind {A B} (m : fs_prog A) (f : A → fs_prog B) faults d :
  ∃ n, run_fs (fs_bind m f) faults d =
       let '(a, d') := run_fs m faults d in run_fs (f a) (drop n faults) d'.
Proof.
  revert faults d. induction m as [a|op k IH]; intros faults d; simpl; [by exists 0%nat|].
  destruct (perform op _ d) as [ok d']. destruct (IH ok (tail faults) d') as [n Hn].
  exists (S n). replace (drop (S n) faults) with (drop n (tail faults)); [done|].
  destruct faults; [by destruct n|done].
Qed.

Definition faultless (faults : list fault) : Prop := Forall (λ f, f = NoFault) faults.

Lemma faultless_head faults n : faultless faults → default NoFault (head (drop n faults)) = NoFault.
Proof.
  intros Hf. apply (Forall_drop _ n) in Hf. destruct Hf; done.
Qed.

Lemma write_partial_works p faults d :
  faultless faults → (run_fs (write_partial p) faults d).1 = true.
Proof.
  intros Hf. unfold write_partial. cbn [run_fs].
  rewrite <- (drop_0 faults), (faultless_head faults 0 Hf). cbn [perform run_fs].
  replace (tail (drop 0 faults)) with (drop 1 faults) by (by destruct faults).
  rewrite (faultless_head faults 1 Hf). cbn [perform run_fs].
  replace (tail (drop 1 faults)) with (drop 2 faults) by (by destruct faults as [|? []]).
  rewrite (faultless_head faults 2 Hf). done.
Qed.

Lemma record_outcome faults d d' ok :
  run_fs record_marker faults d = (ok, d') →
  (ok = true → marker_state true d' = Recorded ∧ d' !! PARTIAL_FILE_NAME = None) ∧
  (ok = false → d' !! FILE_NAME = d !! FILE_NAME) ∧
  (faultless faults → ok = true).
Proof.
  unfold record_marker.
  destruct (run_fs_bind (write_partial PARTIAL_FILE_NAME)
    (λ ok, if ok then FsOp (Rename PARTIAL_FILE_NAME FILE_NAME) FsDone
           else FsOp (RemoveFile PARTIAL_FILE_NAME) (λ _, FsDone false)) faults d) as [n ->].
  destruct (run_fs (write_partial PARTIAL_FILE_NAME) faults d) as [wrote d1] eqn:Hw.
  assert (∀ p, p ≠ PARTIAL_FILE_NAME → d1 !! p = d !! p) as Hd1.
  { intros p. eapply only_on_elsewhere; [apply write_partial_only|].
    replace d1 with (run_fs (write_partial PARTIAL_FILE_NAME) faults d).2 by (by rewrite Hw).
    apply interrupted_last. }
  destruct wrote; cbn [run_fs].
  - pose proof (write_partial_whole _ _ _ _ Hw) as Hwhole.
    destruct (default NoFault (head (drop n faults))) eqn:Hf; cbn [perform].
    + rewrite Hwhole. intros [= <- <-]. split_and!; [|done|done]. intros _. split.
      * apply whole_marker_recorded. by rewrite lookup_insert_eq.
      * rewrite lookup_insert_ne by done. by rewrite lookup_delete_eq.
    + intros [= <- <-]. split_and!; [done| |].
      * intros _. by apply Hd1.
      * intros Hall. by rewrite (faultless_head _ n Hall) in Hf.
  - destruct (perform (RemoveFile PARTIAL_FILE_NAME) _ d1) as [removed d2] eqn:Hp.
    intros [= <- <-]. split_and!; [done| |].
    + intros _. rewrite (perform_elsewhere _ _ _ _ _ FILE_NAME Hp) by done. by apply Hd1.
    + intros Hall%(write_partial_works PARTIAL_FILE_NAME faults d). by rewrite Hw in Hall.
Qed.

(** C24. A record that answers success is read back as recorded and leaves no partial file; one
    that fails leaves the marker as it was; and without a fault it succeeds. *)
Theorem record_answers_whether_the_marker_is_there faults d d' ok :
  run_fs record_marker faults d = (ok, d') →
  (ok = true → marker_state true d' = Recorded ∧ d' !! PARTIAL_FILE_NAME = None) ∧
  (ok = false → d' !! FILE_NAME = d !! FILE_NAME) ∧
  (faultless faults → ok = true).
Proof. apply record_outcome. Qed.

Local Transparent MARKER_TEXT FILE_NAME PARTIAL_FILE_NAME.

(** The partial file goes when it could not be written, and stays when it could not be renamed. *)
Theorem a_failed_rename_leaves_the_partial_file :
  run_fs record_marker [NoFault; NoFault; NoFault; Fails 0] ∅ =
    (false, {[PARTIAL_FILE_NAME := whole_marker]}) ∧
  run_fs record_marker [NoFault; Fails 5] ∅ = (false, ∅).
Proof. split; vm_compute; reflexivity. Qed.

Definition old_directory : Disk := {["WiredTiger"%string := mkFile "WiredTiger" true]}.

Definition torn_directory : Disk := <[PARTIAL_FILE_NAME := mkFile "emb" true]> old_directory.

(** The process dies with five bytes of the partial file written, and the device loses two. *)
Lemma half_written_witness :
  (torn_directory !! FILE_NAME = old_directory !! FILE_NAME ∨
   torn_directory !! FILE_NAME = Some whole_marker) ∧
  (∀ path f, path ≠ FILE_NAME → path ≠ PARTIAL_FILE_NAME →
     old_directory !! path = Some f → synced f = true → torn_directory !! path = Some f).
Proof.
  pose (created := <[PARTIAL_FILE_NAME := mkFile "" false]> old_directory).
  pose (torn := <[PARTIAL_FILE_NAME := mkFile "embed" false]> old_directory).
  apply (a_marker_is_never_half_written [NoFault; Fails 5] old_directory
           [old_directory; created] torn [delete PARTIAL_FILE_NAME torn]).
  - intros f Hf. vm_compute in Hf. discriminate.
  - vm_compute. reflexivity.
  - right. intros path. exists torn. split; [by right; right; left|].
    unfold torn, torn_directory. destruct (decide (path = PARTIAL_FILE_NAME)) as [->|Hne].
    + rewrite !lookup_insert_eq. right. exists 3%nat. reflexivity.
    + rewrite !lookup_insert_ne by done. unfold old_directory.
      destruct (decide (path = "WiredTiger"%string)) as [->|Hw].
      * rewrite lookup_singleton_eq. reflexivity.
      * rewrite lookup_singleton_ne by done. reflexivity.
Defined.

Lemma record_marker_witness :
  marker_state true (run_fs record_marker [] old_directory).2 = Recorded ∧
  (run_fs record_marker [] old_directory).2 !! PARTIAL_FILE_NAME = None.
Proof.
  apply (record_answers_whether_the_marker_is_there [] old_directory _
           (run_fs record_marker [] old_directory).1); [|vm_compute; reflexivity].
  apply surjective_pairing.
Defined.
