(* ===== verification/Repair.v ===== *)
(** * The one-time index repair pass

    [src/repair]: what a [validate] reply says ([report.rs]), the commands and the catalog
    ([commands.rs], [namespace.rs]), what is announced ([announce.rs]) and the pass itself with
    its marker ([mod.rs]). The client is any that runs commands; the pass writes to a log, the
    [tracing] events at WARN, and to the data directory of [Marker]. *)
From stdpp Require Import pretty.
From S2P Require Import Prelude Text EngineOptions Options Slot Reaper SessionPool Errors Bson.
From S2P Require Import Response Effects Client Find Marker.

(** ** Namespaces and reports *)

Record Namespace := mkNamespace { ns_database : string; ns_collection : string }.

#[export] Instance Namespace_eq_dec : EqDecision Namespace.
Proof. solve_decision. Defined.

Definition Namespace_to_string (n : Namespace) : string := ns_database n ++ "." ++ ns_collection n.

Record Damage := mkDamage { damage_errors : list string; missing_index_entries : nat }.

Inductive Health :=
| Sound
| Damaged (damage : Damage)
| Inconclusive (reason : string).

Record Repaired := mkRepaired {
  inserted_index_entries : Z;
  moved_documents : Z;
  removed_corrupt_records : Z;
  removed_extra_index_entries : Z;
  lost_and_found : option Namespace;
  repaired_warnings : list string;
}.

Definition VALIDATION_THREW : string := "exception during collection validation".

Inductive Mode := Check | Repair.

Definition LIST_COLLECTIONS : string := "$cmd.listCollections".
Definition VIEW : string := "view".

(** What the pass says at WARN, one constructor per line of the log. *)
Inductive Event :=
| RepairingDamage (namespace : Namespace) (damage : Damage)
| RepairedEntries (namespace : Namespace) (repaired : Repaired)
| DeletedRecords (namespace : Namespace) (removed : Z)
| MovedNowhere (namespace : Namespace) (moved : Z) (engine_warnings : list string)
| ResidualDamage (namespace : Namespace) (damage : Damage)
| CouldNotCheck (namespace : Namespace)
| CouldNotList
| NoCollectionsListed (databases : nat)
| PassIncomplete
| CouldNotRecord.

Inductive Outcome := Complete | Incomplete.

Record Catalog := mkCatalog { databases : nat; namespaces_of : list Namespace }.

Definition changed_anything (r : Repaired) : bool :=
  (0 <? inserted_index_entries r) || (0 <? moved_documents r) || (0 <? removed_corrupt_records r)
  || (0 <? removed_extra_index_entries r).

Section repair.
Context `{BsonLib Document ObjectId Other Bytes BE} {IOE X : Type}.
Context `{!Commands K Document (Error BE IOE X Document)}.
(** The text of a binary value that is a UUID, and reading an entry of a cursor. *)
Context (uuid_text : Other → option string) (deserialize : Document → result BE Document).
Local Abbreviation error := (Error BE IOE X Document).
Local Abbreviation bson := (Bson Document ObjectId Other).
Local Abbreviation logged A := (io (K * list Event) A).

(** *** [report.rs] *)

Definition strings (document : Document) (key : string) : list string :=
  omap (λ v, match v with BString s => Some s | _ => None end) (default [] (get_array key document)).

Definition integer (document : Document) (key : string) : Z :=
  match doc_get key document with
  | Some (Int32 value) => value
  | Some (Int64 value) => value
  | _ => 0
  end.

Definition get_bool (key : string) (document : Document) : option bool :=
  match doc_get key document with Some (Boolean b) => Some b | _ => None end.

Definition lost_and_found_of (reply : Document) (moved : Z) : option Namespace :=
  if moved =? 0 then None
  else
    match doc_get "uuid" reply with
    | Some (OtherBson binary) =>
        (λ uuid, mkNamespace "local" ("lost_and_found." ++ uuid)) <$> uuid_text binary
    | _ => None
    end.

Definition Health_parse (reply : Document) : Health :=
  match head (filter (λ w, contains VALIDATION_THREW w = true) (strings reply "warnings")) with
  | Some reason => Inconclusive reason
  | None =>
      let errors := strings reply "errors" in
      let missing := length (default [] (get_array "missingIndexEntries" reply)) in
      if default false (get_bool "valid" reply) && bool_decide (errors = []) && (missing =? 0)%nat
      then Sound
      else Damaged (mkDamage errors missing)
  end.

Definition Repaired_parse (reply : Document) : Repaired :=
  let moved := integer reply "numDocumentsMovedToLostAndFound" in
  mkRepaired (integer reply "numInsertedMissingIndexEntries") moved
    (integer reply "numRemovedCorruptRecords") (integer reply "numRemovedExtraIndexEntries")
    (lost_and_found_of reply moved) (strings reply "warnings").

(** *** [announce.rs], as the events each function emits *)

Definition announce_damage (n : Namespace) (d : Damage) : list Event := [RepairingDamage n d].

Definition announce_deletions (n : Namespace) (r : Repaired) : list Event :=
  if removed_corrupt_records r =? 0 then [] else [DeletedRecords n (removed_corrupt_records r)].

Definition announce_missing_destination (n : Namespace) (r : Repaired) : list Event :=
  if (moved_documents r =? 0) || match lost_and_found r with Some _ => true | None => false end
  then [] else [MovedNowhere n (moved_documents r) (repaired_warnings r)].

Definition announce_repair (n : Namespace) (r : Repaired) : list Event :=
  if changed_anything r
  then RepairedEntries n r :: announce_deletions n r ++ announce_missing_destination n r
  else [].

Definition announce_residual_damage (n : Namespace) (d : Damage) : list Event :=
  [ResidualDamage n d].

(** *** Talking to the engine, and to the log *)

Definition on_client {A} (m : io K A) : logged A := λ s,
  let '(r, k) := m (fst s) in (r, (k, snd s)).

Definition emit (es : list Event) : logged unit := λ s, (Returns tt, (fst s, snd s ++ es)).

(** *** [commands.rs] *)

Definition validate_command (n : Namespace) (mode : Mode) : Document :=
  let command := doc [("validate"%string, BString (ns_collection n) : bson)] in
  match mode with Repair => doc_insert "repair" (Boolean true) command | Check => command end.

Definition validate (n : Namespace) (mode : Mode) : io K (result error Document) :=
  command (ns_database n) (validate_command n mode).

Definition is_collection (entry : Document) : bool :=
  negb (bool_decide (get_str "type" entry = Some VIEW)).

(** The [for] over the cursor; leaving it early drops the cursor. *)
Fixpoint collect_names (fuel : nat) (database : string) (cur : Cursor Document)
    (found : list Namespace) : io K (result error (list Namespace)) :=
  match fuel with
  | O => λ k, (NoFuel, k)
  | S fuel =>
      let! answer := next deserialize (S fuel) cur in
      match answer with
      | (None, cur) => let! _ := Cursor_drop cur in ret (Ok found)
      | (Some (Err e), cur) => let! _ := Cursor_drop cur in ret (Err e)
      | (Some (Ok entry), cur) =>
          if is_collection entry then
            match get_str "name" entry with
            | Some name => collect_names fuel database cur (found ++ [mkNamespace database name])
            | None =>
                let! _ := Cursor_drop cur in
                ret (Err (InvalidResponse "listCollections response has an entry without a name"))
            end
          else collect_names fuel database cur found
      end
  end.

Definition collections (fuel : nat) (database : string) : io K (result error (list Namespace)) :=
  let!? reply := command database
    (doc [("listCollections"%string, Int32 1 : bson); ("nameOnly"%string, Boolean true)]) in
  let!? cursor := lift (Cursor_from_response database LIST_COLLECTIONS reply "firstBatch") in
  collect_names fuel database cursor [].

(** The [for] over the entries of [listDatabases]. *)
Fixpoint list_databases (fuel : nat) (entries : list bson) (found : list Namespace)
    : io K (result error (list Namespace)) :=
  match entries with
  | [] => ret (Ok found)
  | entry :: entries =>
      match as_document entry ≫= get_str "name" with
      | None => ret (Err (InvalidResponse "listDatabases response has an entry without a name"))
      | Some name =>
          let!? more := collections fuel name in
          list_databases fuel entries (found ++ more)
      end
  end.

Definition namespaces (fuel : nat) : io K (result error Catalog) :=
  let!? reply := command "admin"
    (doc [("listDatabases"%string, Int32 1 : bson); ("nameOnly"%string, Boolean true)]) in
  match doc_get "databases" reply with
  | Some (Array dbs) =>
      let!? found := list_databases fuel dbs [] in ret (Ok (mkCatalog (length dbs) found))
  | _ => ret (Err (InvalidResponse "listDatabases response has no databases array"))
  end.

(** *** [mod.rs] *)

Definition did_not_finish (n : Namespace) (reason : string) : error :=
  InvalidResponse ("validate on " ++ Namespace_to_string n ++ " did not finish: " ++ reason).

Definition visit (n : Namespace) : logged (result error unit) :=
  let!? reply := on_client (validate n Check) in
  match Health_parse reply with
  | Sound => ret (Ok tt)
  | Inconclusive reason => ret (Err (did_not_finish n reason))
  | Damaged damage =>
      let! _ := emit (announce_damage n damage) in
      let!? reply := on_client (validate n Repair) in
      let! _ := emit (announce_repair n (Repaired_parse reply)) in
      let!? reply := on_client (validate n Check) in
      match Health_parse reply with
      | Sound => ret (Ok tt)
      | Damaged residual => let! _ := emit (announce_residual_damage n residual) in ret (Ok tt)
      | Inconclusive reason => ret (Err (did_not_finish n reason))
      end
  end.

Fixpoint sweep_from (outcome : Outcome) (ns : list Namespace)
    (check : Namespace → logged (result error unit)) : logged Outcome :=
  match ns with
  | [] => ret outcome
  | n :: ns =>
      let! checked := check n in
      match checked with
      | Err _ => let! _ := emit [CouldNotCheck n] in sweep_from Incomplete ns check
      | Ok _ => sweep_from outcome ns check
      end
  end.

Definition sweep (ns : list Namespace) (check : Namespace → logged (result error unit))
    : logged Outcome := sweep_from Complete ns check.

Definition pass (fuel : nat) : logged Outcome :=
  let! listed := on_client (namespaces fuel) in
  match listed with
  | Err _ => let! _ := emit [CouldNotList] in ret Incomplete
  | Ok catalog =>
      if (0 <? databases catalog)%nat && bool_decide (namespaces_of catalog = [])
      then let! _ := emit [NoCollectionsListed (databases catalog)] in ret Incomplete
      else sweep (namespaces_of catalog) visit
  end.
End repair.

Definition SKIP_VALUES : list string := ["1"; "true"; "yes"; "on"]%string.

(** The variable's value, if it is set; [None] inside where it is not UTF-8. *)
Definition skip_requested (value : option (option string)) : bool :=
  match value with
  | Some (Some value) => existsb (λ affirmative, eq_ignore_ascii_case (trim value) affirmative) SKIP_VALUES
  | _ => false
  end.

(** What the pass sees of the world: the client, the log, the data directory with the faults
    its next operations will meet, and whether the marker can be read. *)
Record World (K : Type) := mkWorld {
  client_of : K;
  events : list Event;
  directory : Disk;
  disk_faults : list fault;
  readable : bool;
}.
Arguments mkWorld {K} _ _ _ _ _.
Arguments client_of {K} _.
Arguments events {K} _.
Arguments directory {K} _.
Arguments disk_faults {K} _.
Arguments readable {K} _.

Section run.
Context `{BsonLib Document ObjectId Other Bytes BE} {IOE X : Type}.
Context `{!Commands K Document (Error BE IOE X Document)}.
Context (uuid_text : Other → option string) (deserialize : Document → result BE Document).

Definition record : io (World K) unit := λ w,
  let '(ok, d) := run_fs record_marker (disk_faults w) (directory w) in
  (Returns tt, mkWorld (client_of w) (if ok then events w else events w ++ [CouldNotRecord]) d
                 (disk_faults w) (readable w)).

Definition logged_in_world {A} (m : io (K * list Event) A) : io (World K) A := λ w,
  let '(r, (k, es)) := m (client_of w, events w) in
  (r, mkWorld k es (directory w) (disk_faults w) (readable w)).

Definition run (fuel : nat) (variable : option (option string)) (origin : Origin)
    : io (World K) unit := λ w,
  if skip_requested variable then (Returns tt, w)
  else
    match marker_state (readable w) (directory w) with
    | Recorded => (Returns tt, w)
    | Missing =>
        match origin with
        | Fresh => record w
        | PreExisting =>
            (let! outcome := logged_in_world
               (pass (IOE := IOE) (X := X) uuid_text deserialize fuel) in
             match outcome with
             | Complete => record
             | Incomplete => logged_in_world (emit [PassIncomplete])
             end) w
        end
    end.
End run.
