(* ===== verification/RepairProps.v ===== *)
(** * What the repair pass promises

    A directory is marked only over collections that were all conclusively checked; nothing is
    moved or deleted without a line in the log; and an open is never failed by the pass. *)
From S2P Require Import Prelude Text EngineOptions Options Slot Reaper SessionPool Errors Bson.
From S2P Require Import Response Effects Client Find Marker Repair.

Section promises.
Context `{BsonLib Document ObjectId Other Bytes BE} {IOE X : Type}.
Context `{!Commands K Document (Error BE IOE X Document)}.
Context (uuid_text : Other → option string).
Local Abbreviation error := (Error BE IOE X Document).
Local Abbreviation visit := (visit (IOE := IOE) (X := X) uuid_text).
Implicit Types (s : K * list Event) (w : World K).

(** The check sent in state [k] was answered, with a verdict, and left the client at [k']. *)
Definition verdict (n : Namespace) (k : K) (health : Health) (k' : K) : Prop :=
  (∃ reply, validate n Check k = (Returns (Ok (E := error) reply), k') ∧ Health_parse reply = health)
  ∧ ∀ reason, health ≠ Inconclusive reason.

(** From [k] to [k'] a collection was found sound, or it was found damaged, its repair was
    answered, and so was the check after it, whatever that one then found. *)
Inductive checked (n : Namespace) (k k' : K) : Prop :=
| checked_sound : verdict n k Sound k' → checked n k k'
| checked_repaired damage k1 repaired k2 health :
    verdict n k (Damaged damage) k1 →
    validate n Repair k1 = (Returns (Ok (E := error) repaired), k2) →
    verdict n k2 health k' → checked n k k'.

(** One after the other, from [k] to [k'], with nothing sent in between. *)
Inductive all_checked : list Namespace → K → K → Prop :=
| checked_nil k : all_checked [] k k
| checked_cons n ns k k1 k' :
    checked n k k1 → all_checked ns k1 k' → all_checked (n :: ns) k k'.

Lemma on_client_inv {A} (m : io K A) s a s' :
  on_client m s = (Returns a, s') → m (fst s) = (Returns a, fst s') ∧ snd s' = snd s.
Proof.
  unfold on_client. destruct (m (fst s)) as [r k] eqn:Hm. by intros [= -> <-].
Qed.

Lemma visit_ok n s s' : visit n s = (Returns (Ok tt), s') → checked n (fst s) (fst s').
Proof.
  unfold Repair.visit. intros Hv. apply try_ok_inv in Hv as (reply & s1 & Hc & Hv).
  apply on_client_inv in Hc as [Hc _].
  destruct (Health_parse reply) as [|damage|reason] eqn:Hh; [| |done].
  - injection Hv as <-. apply checked_sound. split; [eauto|done].
  - unfold bind at 1 in Hv. cbn [emit] in Hv.
    apply try_ok_inv in Hv as (reply2 & s2 & Hr & Hv). apply on_client_inv in Hr as [Hr _].
    unfold bind at 1 in Hv. cbn [emit] in Hv.
    apply try_ok_inv in Hv as (reply3 & s3 & Hc3 & Hv). apply on_client_inv in Hc3 as [Hc3 _].
    assert (fst s' = fst s3 ∧ ∀ reason, Health_parse reply3 ≠ Inconclusive reason) as [-> Hh3].
    { destruct (Health_parse reply3) as [|residual|reason]; [| |done]; unfold bind in Hv;
        cbn [emit] in Hv; by injection Hv as <-. }
    eapply checked_repaired; [split; [eauto|done]|done|split; [eauto|done]].
Qed.

Lemma sweep_incomplete ns check s o s' :
  sweep_from (BE := BE) (IOE := IOE) (X := X) (Document := Document) Incomplete ns check s
    = (Returns o, s') → o = Incomplete.
Proof.
  revert s. induction ns as [|n ns IH]; intros s; simpl; [by intros [= <- _]|].
  unfold bind. destruct (check n s) as [[[[]|e]| | |] s1]; try done; [apply IH|]. cbn [emit].
  apply IH.
Qed.

Lemma sweep_complete ns s s' :
  sweep ns visit s = (Returns Complete, s') → all_checked ns (fst s) (fst s').
Proof.
  unfold sweep. revert s. induction ns as [|n ns IH]; intros s; simpl.
  - intros [= <-]. constructor.
  - unfold bind at 1. destruct (visit n s) as [[[[]|e]| | |] s1] eqn:Hv; try done.
    + intros Hs. apply visit_ok in Hv. econstructor; [done|]. by apply IH.
    + unfold bind. cbn [emit]. intros Hs. by apply sweep_incomplete in Hs.
Qed.

(** The engine found the collection damaged and answered the repair it was asked for. *)
Definition repair_answered (n : Namespace) (k : K) (reply : Document) : Prop :=
  ∃ found k1 damage k2, validate n Check k = (Returns (Ok (E := error) found), k1) ∧
    Health_parse found = Damaged damage ∧
    validate n Repair k1 = (Returns (Ok (E := error) reply), k2).

Lemma visit_announces n s reply r s' :
  repair_answered n (fst s) reply → visit n s = (Returns r, s') →
  ∃ before after, snd s' = before ++ announce_repair n (Repaired_parse uuid_text reply) ++ after.
Proof.
  intros (found & k1 & damage & k2 & Hcheck & Hh & Hrepair).
  unfold Repair.visit, try_bind, bind, on_client at 1. rewrite Hcheck, Hh. cbn [emit].
  unfold on_client at 1. cbn [fst]. rewrite Hrepair. cbn [emit snd fst].
  set (log := (snd s ++ announce_damage n damage) ++ announce_repair n _).
  unfold on_client. destruct (validate n Check (fst (k2, log))) as [[[last|e]| | |] k3]; try done.
  - destruct (Health_parse last); intros [= <- <-]; simpl.
    1,3: exists (snd s ++ announce_damage n damage), []; by rewrite app_nil_r.
    exists (snd s ++ announce_damage n damage), (announce_residual_damage n damage0). subst log.
    by rewrite <- !(assoc_L (++)).
  - intros [= <- <-]. simpl. exists (snd s ++ announce_damage n damage), []. by rewrite app_nil_r.
Qed.

(** C22. When the engine answered a repair that moved or deleted documents, the log says so,
    even when the confirming check then fails. *)
Theorem nothing_is_moved_or_deleted_silently n s reply r s' :
  repair_answered n (fst s) reply → visit n s = (Returns r, s') →
  let done := Repaired_parse uuid_text reply in
  (0 < moved_documents done →
   RepairedEntries n done ∈ snd s' ∧
   (lost_and_found done = None → MovedNowhere n (moved_documents done) (repaired_warnings done) ∈ snd s')) ∧
  (0 < removed_corrupt_records done → DeletedRecords n (removed_corrupt_records done) ∈ snd s').
Proof.
  intros Hr Hv did. destruct (visit_announces n s reply r s' Hr Hv) as (before & after & ->).
  fold did. unfold announce_repair, announce_deletions, announce_missing_destination.
  assert (∀ b, 0 < b → (b =? 0) = false) as Hz by (intros b Hb; apply Z.eqb_neq; lia).
  assert (changed_anything did = false → moved_documents did ≤ 0 ∧ removed_corrupt_records did ≤ 0) as Hch.
  { unfold changed_anything. rewrite !orb_false_iff, !Z.ltb_ge. intuition. }
  destruct (changed_anything did); [|specialize (Hch eq_refl); split; intros; lia].
  split.
  - intros Hm. rewrite (Hz _ Hm). simpl. split; [set_solver|]. intros ->. set_solver.
  - intros Hm. rewrite (Hz _ Hm). set_solver.
Qed.

Context (deserialize : Document → result BE Document).
Local Abbreviation run := (run (IOE := IOE) (X := X) uuid_text deserialize).

Lemma pass_complete fuel s s' :
  pass (IOE := IOE) (X := X) uuid_text deserialize fuel s = (Returns Complete, s') →
  ∃ catalog k, namespaces (IOE := IOE) (X := X) deserialize fuel (fst s)
      = (Returns (Ok catalog), k) ∧
    (databases catalog = 0%nat ∨ namespaces_of catalog ≠ []) ∧
    all_checked (namespaces_of catalog) k (fst s').
Proof.
  unfold pass. unfold bind at 1.
  destruct (on_client _ s) as [[listed| | |] s1] eqn:Hl; try done.
  apply on_client_inv in Hl as [Hl _]. destruct listed as [catalog|e]; [|done].
  destruct (_ && _) eqn:Hempty; [done|]. intros Hs. apply sweep_complete in Hs.
  exists catalog, (fst s1). split; [done|]. split; [|done].
  apply andb_false_iff in Hempty as [Hd|Hn].
  - left. apply Nat.ltb_ge in Hd. lia.
  - right. by apply bool_decide_eq_false in Hn.
Qed.

(** C21. A directory of an earlier build is marked only by a run in which its collections were
    listed and then, one after the other and with nothing sent in between, each was checked and
    found sound, or found damaged, repaired and checked again, every one of those commands
    answered and the last check of each with a verdict. *)
Theorem a_marker_is_recorded_only_over_checked_collections fuel variable w w' :
  run fuel variable PreExisting w = (Returns tt, w') →
  marker_state true (directory w) = Missing →
  marker_state true (directory w') = Recorded →
  ∃ catalog k, namespaces (IOE := IOE) (X := X) deserialize fuel (client_of w)
      = (Returns (Ok catalog), k) ∧
    (databases catalog = 0%nat ∨ namespaces_of catalog ≠ []) ∧
    all_checked (namespaces_of catalog) k (client_of w').
Proof.
  intros Hrun Hbefore Hafter. unfold Repair.run in Hrun.
  destruct (skip_requested variable); [congruence|].
  destruct (marker_state (readable w) (directory w)); [congruence|].
  unfold bind in Hrun. unfold logged_in_world at 1 in Hrun.
  destruct (pass uuid_text deserialize fuel _) as [[outcome| | |] [k es]] eqn:Hp; try done.
  destruct outcome.
  - apply pass_complete in Hp as (catalog & k1 & Hn & Hc & Hall).
    exists catalog, k1. split; [done|]. split; [done|].
    unfold record in Hrun. destruct (run_fs record_marker _ _) as [ok d].
    injection Hrun as <-. done.
  - unfold logged_in_world, emit in Hrun. injection Hrun as <-. simpl in Hafter. congruence.
Qed.

(** An engine every command of which comes back. *)
Section answering.
Context (Hcommand : ∀ database (c : Document) k, ∃ (r : result error Document) k',
           command database c k = (Returns r, k')).

Lemma on_client_returns n mode s :
  ∃ (r : result error Document) s', on_client (validate n mode) s = (Returns r, s').
Proof.
  unfold on_client, validate.
  destruct (Hcommand (ns_database n) (validate_command n mode) (fst s)) as (r & k' & ->). eauto.
Qed.

Lemma visit_returns n s : ∃ r s', visit n s = (Returns r, s').
Proof.
  unfold Repair.visit, try_bind, bind.
  destruct (on_client_returns n Check s) as ([found|e] & s1 & ->); [|by repeat eexists].
  destruct (Health_parse found); [by repeat eexists| |by repeat eexists]. cbn [emit].
  destruct (on_client_returns n Repair (fst s1, snd s1 ++ announce_damage n damage))
    as ([reply|e] & s2 & ->); [|by repeat eexists].
  cbn [emit]. set (s3 := (fst s2, _)).
  destruct (on_client_returns n Check s3) as ([last|e] & s4 & ->); [|by repeat eexists].
  destruct (Health_parse last); by repeat eexists.
Qed.

Lemma sweep_returns o ns s : ∃ o' s', sweep_from o ns visit s = (Returns o', s').
Proof.
  revert o s. induction ns as [|n ns IH]; intros o s; simpl; [by repeat eexists|].
  unfold bind at 1. destruct (visit_returns n s) as ([[]|e] & s1 & ->); [apply IH|].
  unfold bind. cbn [emit]. apply IH.
Qed.

Lemma record_returns w :
  ∃ w', record w = (Returns tt, w') ∧ client_of w' = client_of w ∧
    others_untouched (directory w) (directory w').
Proof.
  unfold record. destruct (run_fs record_marker _ _) as [ok d] eqn:Hr.
  eexists. split; [done|]. split; [done|]. simpl.
  apply (record_marker_keeps (disk_faults w) (directory w)).
  replace d with (run_fs record_marker (disk_faults w) (directory w)).2 by (by rewrite Hr).
  apply interrupted_last.
Qed.

Lemma repair_run_returns fuel variable origin w :
  (∃ r k, namespaces (IOE := IOE) (X := X) deserialize fuel (client_of w) = (Returns r, k)) →
  ∃ w', run fuel variable origin w = (Returns tt, w') ∧
    others_untouched (directory w) (directory w').
Proof.
  intros (listed & k & Hlisted). unfold Repair.run.
  assert (others_untouched (directory w) (directory w)) as Hself by done.
  destruct (skip_requested variable); [by eauto|].
  destruct (marker_state _ _); [by eauto|]. destruct origin.
  2: { destruct (record_returns w) as (w' & -> & _ & ?). eauto. }
  assert (∃ o s', pass (IOE := IOE) (X := X) uuid_text deserialize fuel (client_of w, events w)
            = (Returns o, s')) as (o & [k' es] & Hpass).
  { unfold pass, bind, on_client. cbn [fst]. rewrite Hlisted. cbn [emit snd].
    destruct listed as [catalog|e]; [|by repeat eexists].
    destruct (_ && _); [by repeat eexists|]. apply sweep_returns. }
  unfold bind, logged_in_world at 1. rewrite Hpass. destruct o.
  - destruct (record_returns (mkWorld k' es (directory w) (disk_faults w) (readable w)))
      as (w' & -> & _ & Hw'). eauto.
  - unfold logged_in_world. cbn [emit]. eexists. split; [done|]. done.
Qed.

(** *** The listing ends *)

(** Every batch a [getMore] answers and leaves its cursor open is one of the finitely many the
    engine still has to give. *)
Context (owed : K → nat).
Context (Howed : ∀ database collection id k response k' id' batch,
  command database (get_more_command id collection) k = (Returns (Ok response), k') →
  take_cursor_batch response "nextBatch" = Ok (E := error) (id', batch) → id' ≠ 0 →
  (owed k' < owed k)%nat).

(** How many more batches a cursor can ask for, and one more for the open cursor. *)
Definition rank (cur : Cursor Document) (k : K) : nat :=
  if finished cur || (cur_id cur =? 0) then 0 else S (owed k).

Definition shorter (cur : Cursor Document) (k : K) (cur' : Cursor Document) (k' : K) : Prop :=
  (rank cur' k' < rank cur k)%nat
  ∨ rank cur' k' = rank cur k ∧ (length (documents cur') < length (documents cur))%nat.

Lemma fetch_returns cur k :
  finished cur = false → cur_id cur ≠ 0 →
  ∃ r k', fetch_next_batch (IOE := IOE) (X := X) cur k = (Returns r, k')
    ∧ ∀ cur', r = Ok cur' → (rank cur' k' < rank cur k)%nat.
Proof using Hcommand Howed.
  intros Hf Hid. unfold fetch_next_batch.
  destruct (Hcommand (cur_database cur) (get_more_command (cur_id cur) (cur_collection cur)) k)
    as ([response|e] & k' & Hc); unfold try_bind, bind; rewrite Hc; [|by repeat eexists].
  unfold lift. destruct (take_cursor_batch response "nextBatch") as [[id' batch]|e] eqn:Ht;
    [|by repeat eexists].
  do 2 eexists. split; [done|]. intros ? [= <-]. unfold rank. cbn [finished cur_id]. rewrite Hf.
  rewrite (proj2 (Z.eqb_neq _ _) Hid). simpl. destruct (Z.eqb_spec id' 0); [lia|].
  apply -> Nat.succ_lt_mono. eauto.
Qed.

(** A call of [next] ends, and one that answered a document has a shorter listing before it. *)
Lemma next_ends cur k :
  ∃ fuel0 r cur' k', (∀ fuel, (fuel0 ≤ fuel)%nat →
      next (IOE := IOE) (X := X) deserialize fuel cur k = (Returns (r, cur'), k'))
    ∧ ∀ entry, r = Some (Ok entry) → shorter cur k cur' k'.
Proof using Hcommand Howed.
  remember (rank cur k) as n eqn:Hn. revert cur k Hn.
  induction (lt_wf n) as [n _ IH]. intros cur k ->.
  destruct (documents cur) as [|d ds] eqn:Hds.
  2: { exists 1%nat. do 3 eexists. split.
       - intros [|fuel] Hfuel; [lia|]. simpl. rewrite Hds. done.
       - intros _ _. right. unfold rank. cbn. rewrite Hds. simpl. split; [done|lia]. }
  destruct (finished cur || (cur_id cur =? 0)) eqn:Hend.
  { exists 1%nat. do 3 eexists. split.
    - intros [|fuel] Hfuel; [lia|]. simpl. by rewrite Hds, Hend.
    - done. }
  pose proof Hend as [Hf Hid%Z.eqb_neq]%orb_false_iff.
  destruct (fetch_returns cur k Hf Hid) as ([cur1|e] & k1 & Hfetch & Hlt).
  - destruct (IH _ (Hlt _ eq_refl) cur1 k1 eq_refl) as (fuel0 & r & cur' & k' & Hnext & Hshort).
    exists (S fuel0), r, cur', k'. split.
    + intros [|fuel] Hfuel; [lia|]. simpl. rewrite Hds, Hend.
      rewrite (bind_returns _ _ _ _ _ Hfetch). apply Hnext. lia.
    + intros entry Hr. left. specialize (Hlt _ eq_refl). destruct (Hshort _ Hr); lia.
  - exists 1%nat. do 3 eexists. split.
    + intros [|fuel] Hfuel; [lia|]. simpl. rewrite Hds, Hend.
      by rewrite (bind_returns _ _ _ _ _ Hfetch).
    + done.
Qed.

Lemma drop_returns (cur : Cursor Document) k :
  ∃ k', Cursor_drop (IOE := IOE) (X := X) cur k = (Returns tt, k').
Proof using Hcommand.
  unfold Cursor_drop, kill. destruct (_ =? 0); [by eexists|]. unfold bind. cbn [cur_database cur_collection].
  destruct (Hcommand (cur_database cur) (kill_cursors_command (cur_collection cur) (cur_id cur)) k)
    as (r & k' & ->). by eexists.
Qed.

Lemma shorter_wf : well_founded (λ p q : Cursor Document * K, shorter (fst q) (snd q) (fst p) (snd p)).
Proof using.
  intros [cur k]. remember (rank cur k) as n eqn:Hn. revert cur k Hn.
  induction (lt_wf n) as [n _ IH]. intros cur k ->.
  remember (length (documents cur)) as m eqn:Hm. revert cur k Hm IH.
  induction (lt_wf m) as [m _ IHm]. intros cur k -> IH. constructor. intros [cur' k'] Hs. simpl in Hs.
  destruct Hs as [Hlt|[Heq Hlt]]; [by eapply IH|].
  eapply IHm; [exact Hlt|done|]. rewrite Heq. exact IH.
Qed.

Lemma collect_names_ends database cur k found :
  ∃ fuel0 r k', ∀ fuel, (fuel0 ≤ fuel)%nat →
    collect_names (IOE := IOE) (X := X) deserialize fuel database cur found k = (Returns r, k').
Proof using Hcommand Howed.
  pose proof (shorter_wf (cur, k)) as Hacc. remember (cur, k) as p eqn:Hp. revert cur k found Hp.
  induction Hacc as [p _ IH]. intros cur k found ->.
  destruct (next_ends cur k) as (fuel1 & r & cur' & k1 & Hnext & Hshort).
  destruct (drop_returns cur' k1) as (k2 & Hdrop).
  assert (∀ answer, (∀ fuel, (S fuel1 ≤ fuel)%nat → collect_names (IOE := IOE) (X := X) deserialize fuel database cur found k
            = (Returns answer, k2)) → ∃ fuel0 r k', ∀ fuel, (fuel0 ≤ fuel)%nat →
    collect_names (IOE := IOE) (X := X) deserialize fuel database cur found k = (Returns r, k')) as Hstop.
  { intros answer Ha. by exists (S fuel1), answer, k2. }
  destruct r as [[entry|e]|].
  2,3: eapply Hstop; intros [|fuel] Hfuel; [lia|]; cbn [collect_names];
    rewrite (bind_returns _ _ _ _ _ (Hnext (S fuel) ltac:(lia)));
    by rewrite (bind_returns _ _ _ _ _ Hdrop).
  assert (∀ found', ∃ fuel0 r k', ∀ fuel, (fuel0 ≤ fuel)%nat →
    collect_names (IOE := IOE) (X := X) deserialize fuel database cur' found' k1 = (Returns r, k')) as Hrest.
  { intros found'. eapply (IH (cur', k1)); [by eapply Hshort|done]. }
  destruct (is_collection entry) eqn:Hcoll; [destruct (get_str "name" entry) as [name|] eqn:Hname|].
  - destruct (Hrest (found ++ [mkNamespace database name])) as (fuel2 & r & k' & Hr).
    exists (S (fuel1 + fuel2)), r, k'. intros [|fuel] Hfuel; [lia|]. cbn [collect_names].
    rewrite (bind_returns _ _ _ _ _ (Hnext (S fuel) ltac:(lia))), Hcoll, Hname. apply Hr. lia.
  - eapply Hstop; intros [|fuel] Hfuel; [lia|]; cbn [collect_names].
    rewrite (bind_returns _ _ _ _ _ (Hnext (S fuel) ltac:(lia))), Hcoll, Hname.
    by rewrite (bind_returns _ _ _ _ _ Hdrop).
  - destruct (Hrest found) as (fuel2 & r & k' & Hr).
    exists (S (fuel1 + fuel2)), r, k'. intros [|fuel] Hfuel; [lia|]. cbn [collect_names].
    rewrite (bind_returns _ _ _ _ _ (Hnext (S fuel) ltac:(lia))), Hcoll. apply Hr. lia.
Qed.

Lemma collections_ends database k :
  ∃ fuel0 r k', ∀ fuel, (fuel0 ≤ fuel)%nat →
    collections (IOE := IOE) (X := X) deserialize fuel database k = (Returns r, k').
Proof using Hcommand Howed.
  unfold collections, try_bind, bind, lift.
  destruct (Hcommand database (doc [("listCollections"%string, Int32 1 : Bson Document ObjectId Other);
    ("nameOnly"%string, Boolean true)]) k) as ([reply|e] & k1 & ->); [|by exists 0%nat; repeat eexists].
  destruct (Cursor_from_response _ _ _ _) as [cur|e]; [|by exists 0%nat; repeat eexists].
  apply collect_names_ends.
Qed.

Lemma list_databases_ends entries found k :
  ∃ fuel0 r k', ∀ fuel, (fuel0 ≤ fuel)%nat →
    list_databases (IOE := IOE) (X := X) deserialize fuel entries found k = (Returns r, k').
Proof using Hcommand Howed.
  revert found k. induction entries as [|entry entries IH]; intros found k; cbn [list_databases];
    [by exists 0%nat; repeat eexists|].
  destruct (as_document entry ≫= get_str "name") as [name|]; [|by exists 0%nat; repeat eexists].
  destruct (collections_ends name k) as (fuel1 & [more|e] & k1 & Hmore).
  - destruct (IH (found ++ more) k1) as (fuel2 & r & k' & Hr).
    exists (fuel1 + fuel2)%nat, r, k'. intros fuel Hfuel.
    rewrite (try_ok _ _ _ _ _ (Hmore fuel ltac:(lia))). apply Hr. lia.
  - exists fuel1. do 2 eexists. intros fuel Hfuel. unfold try_bind, bind. by rewrite Hmore.
Qed.

Lemma namespaces_ends k :
  ∃ fuel0 r k', ∀ fuel, (fuel0 ≤ fuel)%nat →
    namespaces (IOE := IOE) (X := X) deserialize fuel k = (Returns r, k').
Proof using Hcommand Howed.
  unfold namespaces.
  destruct (Hcommand "admin" (doc [("listDatabases"%string, Int32 1 : Bson Document ObjectId Other);
    ("nameOnly"%string, Boolean true)]) k) as ([reply|e] & k1 & Hc).
  2: { exists 0%nat. do 2 eexists. intros fuel _. unfold try_bind, bind. by rewrite Hc. }
  destruct (doc_get "databases" reply) as [[]|] eqn:Hdbs;
    try (exists 0%nat; do 2 eexists; intros fuel _; rewrite (try_ok _ _ _ _ _ Hc), Hdbs; done).
  destruct (list_databases_ends values [] k1) as (fuel0 & [found|e] & k' & Hr).
  all: exists fuel0; do 2 eexists; intros fuel Hfuel; rewrite (try_ok _ _ _ _ _ Hc), Hdbs.
  - by rewrite (try_ok _ _ _ _ _ (Hr fuel Hfuel)).
  - unfold try_bind, bind. by rewrite (Hr fuel Hfuel).
Qed.

Lemma repair_run_listing fuel fuel' variable origin w :
  namespaces (IOE := IOE) (X := X) deserialize fuel (client_of w)
  = namespaces (IOE := IOE) (X := X) deserialize fuel' (client_of w) →
  run fuel variable origin w = run fuel' variable origin w.
Proof using.
  intros Hl. unfold Repair.run, bind, logged_in_world, pass, bind, on_client. cbn [fst].
  by rewrite Hl.
Qed.

(** C23. On an engine whose commands come back and which has only finitely many batches to
    answer getMores with, the pass comes back with enough fuel, whatever the commands answer and
    whatever the disk does, and touches no file but its marker and the partial one. *)
Theorem the_pass_never_fails_an_open variable origin w :
  ∃ fuel0 w', (∀ fuel, (fuel0 ≤ fuel)%nat → run fuel variable origin w = (Returns tt, w')) ∧
    ∀ path, path ≠ FILE_NAME → path ≠ PARTIAL_FILE_NAME →
      directory w' !! path = directory w !! path.
Proof using Hcommand Howed.
  destruct (namespaces_ends (client_of w)) as (fuel0 & r & k & Hl).
  destruct (repair_run_returns fuel0 variable origin w) as (w' & Hrun & Hw'); [eauto|].
  exists fuel0, w'. split; [|exact Hw']. intros fuel Hfuel. rewrite <- Hrun.
  apply repair_run_listing. by rewrite !Hl.
Qed.
End answering.

(** What recording leaves on a disk that works. *)
Lemma record_records w :
  faultless (disk_faults w) →
  ∃ d, record w = (Returns tt, mkWorld (client_of w) (events w) d (disk_faults w) (readable w)) ∧
    marker_state true d = Recorded.
Proof.
  intros Hf. unfold record. destruct (run_fs record_marker _ _) as [ok d] eqn:Hr.
  destruct (record_outcome _ _ _ _ Hr) as (Hok & _ & Hworks).
  rewrite (Hworks Hf) in *. exists d. split; [done|]. by apply Hok.
Qed.

Lemma marker_state_same d d' :
  d' !! FILE_NAME = d !! FILE_NAME → marker_state true d' = marker_state true d.
Proof. unfold marker_state. by intros ->. Qed.

(** A recorded marker ends the pass before it begins. *)
Lemma recorded_run fuel variable origin w :
  readable w = true → marker_state true (directory w) = Recorded →
  run fuel variable origin w = (Returns tt, w).
Proof.
  intros Hr Hm. unfold Repair.run. destruct (skip_requested variable); [done|]. by rewrite Hr, Hm.
Qed.

(** C38. On a disk that works, a pass that was not asked to be skipped leaves the directory
    recorded or says in the log that it is incomplete; over a fresh or a recorded directory the
    engine is asked nothing; and a recorded directory is left alone by every later open until
    its marker changes: nothing is asked, logged or written. *)
Theorem a_directory_is_checked_until_it_is_recorded fuel variable origin w w' :
  run fuel variable origin w = (Returns tt, w') →
  skip_requested variable = false → faultless (disk_faults w) → readable w = true →
  (marker_state true (directory w') = Recorded ∨ PassIncomplete ∈ events w') ∧
  (origin = Fresh ∨ marker_state true (directory w) = Recorded →
    marker_state true (directory w') = Recorded ∧ client_of w' = client_of w) ∧
  (marker_state true (directory w') = Recorded →
    ∀ fuel2 variable2 origin2 w2,
      directory w2 !! FILE_NAME = directory w' !! FILE_NAME → readable w2 = true →
      run fuel2 variable2 origin2 w2 = (Returns tt, w2)).
Proof.
  intros Hrun Hskip Hf Hr. split_and!.
  - unfold Repair.run in Hrun. rewrite Hskip, Hr in Hrun.
    destruct (marker_state true (directory w)) eqn:Hm; [left; congruence|].
    destruct origin.
    2: { left. destruct (record_records w Hf) as (d & Hrec & Hd). rewrite Hrec in Hrun. by simplify_eq/=. }
    unfold bind in Hrun. unfold logged_in_world at 1 in Hrun.
    destruct (pass uuid_text deserialize fuel _) as [[outcome| | |] [k es]]; try done.
    destruct outcome.
    + left. destruct (record_records
        (mkWorld k es (directory w) (disk_faults w) (readable w)) Hf) as (d & Hrec & Hd).
      rewrite Hrec in Hrun. by simplify_eq/=.
    + right. unfold logged_in_world in Hrun. simpl in Hrun. simplify_eq/=. set_solver.
  - intros [->|Hm].
    + unfold Repair.run in Hrun. rewrite Hskip, Hr in Hrun.
      destruct (marker_state true (directory w)) eqn:Hm; [by simplify_eq|].
      destruct (record_records w Hf) as (d & Hrec & Hd). rewrite Hrec in Hrun. by simplify_eq/=.
    + rewrite (recorded_run _ _ _ _ Hr Hm) in Hrun. by simplify_eq.
  - intros Hm fuel2 variable2 origin2 w2 Hsame Hr2. apply recorded_run; [done|].
    by rewrite (marker_state_same _ _ Hsame).
Qed.
End promises.

(** ** A damaged directory

    One collection with a missing entry, whose repair moves a document. *)

Definition no_uuid (b : Empty_set) : option string := match b with end.

Definition listed_databases : Doc :=
  doc [("databases"%string, Array [BDocument (doc [("name"%string, BString "shop")])]);
       ("ok"%string, Int32 1)].
Definition listed_collections : Doc :=
  cursor_reply 0 "firstBatch"
    [doc [("name"%string, BString "recent"); ("type"%string, BString VIEW)];
     doc [("name"%string, BString "orders"); ("type"%string, BString "collection")]].
Definition a_damaged_reply : Doc :=
  doc [("valid"%string, Boolean false);
       ("missingIndexEntries"%string, Array [BDocument (doc [])])].
Definition a_repair_reply : Doc :=
  doc [("numInsertedMissingIndexEntries"%string, Int32 1);
       ("numDocumentsMovedToLostAndFound"%string, Int32 2)].
Definition a_sound_reply : Doc := doc [("valid"%string, Boolean true)].

Definition orders : Namespace := mkNamespace "shop" "orders".

Definition damaged_world : World Script :=
  mkWorld (mkScript [listed_databases; listed_collections; a_damaged_reply; a_repair_reply;
                     a_sound_reply] []) [] old_directory [] true.

Definition repaired_world : World Script :=
  snd (run (IOE := unit) (X := unit) no_uuid as_is 5 None PreExisting damaged_world).

Lemma checked_marker_witness :
  ∃ catalog k, namespaces (IOE := unit) (X := unit) as_is 5 (client_of damaged_world)
      = (Returns (Ok catalog), k) ∧
    (databases catalog = 0%nat ∨ namespaces_of catalog ≠ []) ∧
    all_checked (IOE := unit) (X := unit) (namespaces_of catalog) k (client_of repaired_world).
Proof.
  apply (a_marker_is_recorded_only_over_checked_collections (IOE := unit) (X := unit)
           no_uuid as_is 5 None damaged_world repaired_world); vm_compute; reflexivity.
Defined.

(** A check that throws afterwards does not take the announcement with it. *)
Definition throwing_script : Script := mkScript [a_damaged_reply; a_repair_reply] [].

Lemma silent_witness :
  RepairedEntries orders (mkRepaired 1 2 0 0 None []) ∈
    snd (snd (visit (IOE := unit) (X := unit) no_uuid orders (throwing_script, []))) ∧
  MovedNowhere orders 2 [] ∈
    snd (snd (visit (IOE := unit) (X := unit) no_uuid orders (throwing_script, []))).
Proof.
  destruct (nothing_is_moved_or_deleted_silently (IOE := unit) (X := unit) no_uuid orders
    (throwing_script, []) a_repair_reply (Err Closed)
    (snd (visit (IOE := unit) (X := unit) no_uuid orders (throwing_script, [])))) as [Hmoved _].
  - eexists _, _, _, _. split; [vm_compute; reflexivity|]. split; vm_compute; reflexivity.
  - vm_compute. reflexivity.
  - destruct Hmoved as [H1 H2]; [vm_compute; reflexivity|].
    split; [exact H1|]. apply H2. vm_compute. reflexivity.
Defined.

(** The script has as many batches to give as it has replies. *)
Lemma script_owes database collection id (k : Script) response k' id' batch :
  command database (get_more_command id collection) k = (Returns (Ok response), k') →
  take_cursor_batch response "nextBatch" = Ok (E := script_error) (id', batch) → id' ≠ 0 →
  (length (replies k') < length (replies k))%nat.
Proof.
  simpl. destruct (replies k) as [|reply rest] eqn:Hk; intros Hc; simplify_eq/=. intros _ _. lia.
Qed.

Lemma never_fails_witness :
  ∃ fuel0 w', (∀ fuel, (fuel0 ≤ fuel)%nat →
      run (IOE := unit) (X := unit) no_uuid as_is fuel None PreExisting damaged_world
      = (Returns tt, w')) ∧
    ∀ path, path ≠ FILE_NAME → path ≠ PARTIAL_FILE_NAME →
      directory w' !! path = old_directory !! path.
Proof.
  apply (the_pass_never_fails_an_open (IOE := unit) (X := unit) no_uuid as_is)
    with (owed := λ k : Script, length (replies k)).
  - intros database c k. simpl. destruct (replies k); by repeat eexists.
  - apply script_owes.
Defined.

(** The damaged directory is repaired, recorded, and left alone by the next open. *)
Lemma checked_once_witness :
  run (IOE := unit) (X := unit) no_uuid as_is 5 None PreExisting
    (mkWorld (mkScript [] []) [] (directory repaired_world) [] true)
  = (Returns tt, mkWorld (mkScript [] []) [] (directory repaired_world) [] true).
Proof.
  destruct (a_directory_is_checked_until_it_is_recorded (IOE := unit) (X := unit) no_uuid as_is
    5 None PreExisting damaged_world repaired_world) as (_ & _ & H).
  - vm_compute. reflexivity.
  - reflexivity.
  - constructor.
  - reflexivity.
  - apply H; vm_compute; reflexivity.
Defined.
