(* ===== verification/Handle.v ===== *)
(** * Handles: what Java holds for an open client

    [embedded-mongodb-android/src/handle.rs]. An id is a 63-bit number made of a tag drawn once
    per process and a 32-bit sequence; [Counter] hands them out. What the operating system's
    randomness hashes to is an argument, [drawn]. *)
From S2P Require Import Prelude.

(** A [NonZeroI64]; [HandleId_new] is the only way in from Java. *)
Record HandleId := mkHandleId { handle_raw : Z }.

#[export] Instance HandleId_eq_dec : EqDecision HandleId.
Proof. solve_decision. Defined.
#[export] Instance HandleId_countable : Countable HandleId.
Proof. apply (inj_countable' handle_raw mkHandleId). by intros []. Defined.

Definition SEQUENCE_BITS : Z := 32.
Definition TAG_MASK : Z := Z.shiftl 1 (64 - 1 - SEQUENCE_BITS) - 1.

Definition NonZeroI64_new (raw : Z) : option Z := if decide (raw = 0) then None else Some raw.

Definition HandleId_new (raw : Z) : option HandleId :=
  NonZeroI64_new raw ≫= λ raw, if decide (0 < raw) then Some (mkHandleId raw) else None.

Definition HandleId_get (id : HandleId) : Z := handle_raw id.

(** [<<] drops what leaves the 64 bits. The [debug_assert] is not part of a release build. *)
Definition from_parts (tag sequence : Z) : option HandleId :=
  mkHandleId <$> NonZeroI64_new (Z.lor (i64_wrap (Z.shiftl tag SEQUENCE_BITS)) sequence).

Inductive Counter :=
| Unstarted
| Next (tag sequence : Z)
| Spent.

(** [drawn] is [hasher.finish()], 64 bits. *)
Definition process_tag (drawn : Z) : Z := Z.max (Z.land (i64_wrap drawn) TAG_MASK) 1.

Definition checked_succ (sequence : Z) : option Z :=
  if decide (sequence + 1 ≤ u32_max) then Some (sequence + 1) else None.

Definition take_next (drawn : Z) (c : Counter) : option HandleId * Counter :=
  let compose tag sequence :=
    let id := from_parts tag sequence in
    (id, match id, checked_succ sequence with
         | Some _, Some sequence => Next tag sequence
         | _, _ => Spent
         end) in
  match c with
  | Unstarted => compose (process_tag drawn) 1
  | Next tag sequence => compose tag sequence
  | Spent => (None, Spent)
  end.

(** ** The ids of a process *)

Lemma tag_mask_ones : TAG_MASK = Z.ones 31.
Proof. reflexivity. Qed.

Lemma process_tag_range drawn : 1 ≤ process_tag drawn ≤ TAG_MASK.
Proof.
  unfold process_tag. rewrite tag_mask_ones, Z.land_ones by lia.
  pose proof (Z.mod_pos_bound (i64_wrap drawn) (2 ^ 31) ltac:(lia)).
  change (Z.ones 31) with (2 ^ 31 - 1). lia.
Qed.

(** Tag and sequence sit side by side. *)
Lemma from_parts_value tag sequence :
  1 ≤ tag ≤ TAG_MASK → is_u32 sequence →
  from_parts tag sequence = Some (mkHandleId (tag * 2 ^ 32 + sequence)).
Proof.
  unfold is_u32, u32_max, u32_modulus. change TAG_MASK with (2 ^ 31 - 1). intros Ht Hs.
  unfold from_parts, SEQUENCE_BITS. rewrite Z.shiftl_mul_pow2 by lia.
  assert (i64_wrap (tag * 2 ^ 32) = tag * 2 ^ 32) as ->.
  { unfold i64_wrap. rewrite Z.mod_small; lia. }
  assert (Z.lor (tag * 2 ^ 32) sequence = tag * 2 ^ 32 + sequence) as ->.
  { pose proof (Z.add_lor_land sequence (tag * 2 ^ 32)) as Hsum.
    rewrite Z.lor_comm. assert (Z.land sequence (tag * 2 ^ 32) = 0) as Hz; [|lia]. clear Hsum.
    rewrite <- Z.shiftl_mul_pow2 by lia. apply Z.bits_inj'. intros n Hn.
    rewrite Z.land_spec, Z.bits_0. destruct (Z.lt_ge_cases n 32).
    - rewrite Z.shiftl_spec_low by lia. apply andb_false_r.
    - rewrite (Z.bits_above_log2 sequence n); [done|lia|].
      destruct (decide (sequence = 0)) as [->|]; [simpl; lia|].
      apply Z.log2_lt_pow2; [lia|]. apply Z.lt_le_trans with (2 ^ 32); [lia|].
      apply Z.pow_le_mono_r; lia. }
  unfold NonZeroI64_new. rewrite decide_False by lia. done.
Qed.

(** What a counter has left: the sequences from the next one on. *)
Definition counter_wf (drawn : Z) (c : Counter) : Prop :=
  match c with
  | Next tag sequence => tag = process_tag drawn ∧ 1 < sequence ≤ u32_max
  | _ => True
  end.

Definition next_sequence (c : Counter) : Z :=
  match c with Unstarted => 1 | Next _ sequence => sequence | Spent => u32_max + 1 end.

Lemma take_next_value drawn c :
  counter_wf drawn c →
  counter_wf drawn (snd (take_next drawn c)) ∧
  (next_sequence c ≤ u32_max →
     fst (take_next drawn c) = Some (mkHandleId (process_tag drawn * 2 ^ 32 + next_sequence c)) ∧
     next_sequence (snd (take_next drawn c)) = next_sequence c + 1) ∧
  (u32_max < next_sequence c → take_next drawn c = (None, Spent)).
Proof.
  intros Hwf. pose proof (process_tag_range drawn) as Ht.
  assert (∀ sequence, 1 ≤ sequence ≤ u32_max →
    from_parts (process_tag drawn) sequence
      = Some (mkHandleId (process_tag drawn * 2 ^ 32 + sequence)) ∧
    (match checked_succ sequence with Some s => s = sequence + 1 ∧ s ≤ u32_max
     | None => sequence = u32_max end)) as Hp.
  { intros s Hs. split; [apply from_parts_value; [done|unfold is_u32; lia]|].
    unfold checked_succ. case_decide; lia. }
  destruct c as [|tag sequence|]; simpl in *.
  - destruct (Hp 1) as [-> Hs]; [unfold u32_max, u32_modulus; lia|].
    destruct (checked_succ 1) as [s|]; simpl; split_and!; try done; intros;
      destruct_and?; try lia; by subst.
  - destruct Hwf as [-> Hr]. destruct (Hp sequence) as [-> Hs]; [lia|].
    destruct (checked_succ sequence) as [s|]; simpl; split_and!; try done; intros;
      destruct_and?; try lia; subst; split_and?; done || lia.
  - split_and!; [done|lia|done].
Qed.

(** The answer of the [n]-th call on a fresh counter, from zero. *)
Fixpoint nth_id (drawn : Z) (n : nat) (c : Counter) : option HandleId :=
  match n with
  | O => fst (take_next drawn c)
  | S n => nth_id drawn n (snd (take_next drawn c))
  end.

Lemma nth_id_value drawn n c :
  counter_wf drawn c →
  nth_id drawn n c =
    if decide (next_sequence c + Z.of_nat n ≤ u32_max)
    then Some (mkHandleId (process_tag drawn * 2 ^ 32 + (next_sequence c + Z.of_nat n))) else None.
Proof.
  revert c. induction n as [|n IH]; intros c Hwf;
    destruct (take_next_value drawn c Hwf) as (Hwf' & Hlow & Hhigh); cbn [nth_id].
  - destruct (Z.le_gt_cases (next_sequence c) u32_max) as [Hle|Hgt].
    + destruct (Hlow Hle) as [-> _]. rewrite decide_True by lia. by rewrite Z.add_0_r.
    + rewrite (Hhigh Hgt). by rewrite decide_False by lia.
  - rewrite (IH _ Hwf'). destruct (Z.le_gt_cases (next_sequence c) u32_max) as [Hle|Hgt].
    + destruct (Hlow Hle) as [_ ->]. rewrite Nat2Z.inj_succ.
      replace (next_sequence c + 1 + Z.of_nat n) with (next_sequence c + Z.succ (Z.of_nat n)) by lia.
      done.
    + rewrite (Hhigh Hgt). simpl. rewrite !decide_False by lia. done.
Qed.

(** The fields of an id, read back. *)
Lemma id_fields tag sequence :
  is_u32 sequence →
  Z.shiftr (tag * 2 ^ 32 + sequence) SEQUENCE_BITS = tag ∧
  Z.land (tag * 2 ^ 32 + sequence) (Z.ones SEQUENCE_BITS) = sequence.
Proof.
  unfold is_u32, u32_max, u32_modulus, SEQUENCE_BITS. intros Hs.
  rewrite Z.shiftr_div_pow2, Z.land_ones by lia. rewrite Z.add_comm.
  rewrite Z.div_add, Z.mod_add by lia. rewrite Z.div_small, Z.mod_small by lia. lia.
Qed.

(** C26. The id of a process's n-th open, from zero, has the process's tag, 31 bits and never
    zero, above its low 32 bits and n + 1 in them, is positive in a Java long and accepted back,
    and no other turn and no other tag has it; there is an id exactly for the first 2^32 - 1
    opens. *)
Theorem an_id_names_its_process_and_its_turn drawn n :
  (nth_id drawn n Unstarted = None ↔ u32_max ≤ Z.of_nat n) ∧
  ∀ id, nth_id drawn n Unstarted = Some id →
    Z.shiftr (HandleId_get id) SEQUENCE_BITS = process_tag drawn ∧
    Z.land (HandleId_get id) (Z.ones SEQUENCE_BITS) = Z.of_nat n + 1 ∧
    1 ≤ process_tag drawn ≤ 2 ^ 31 - 1 ∧
    0 < HandleId_get id ≤ i64_max ∧ HandleId_new (HandleId_get id) = Some id ∧
    ∀ drawn' n', nth_id drawn' n' Unstarted = Some id →
      process_tag drawn' = process_tag drawn ∧ n' = n.
Proof.
  rewrite nth_id_value by done. cbn [next_sequence].
  split; [case_decide; split; done || lia|]. intros id.
  case_decide as Hn; [|done]. intros [= <-]. pose proof (process_tag_range drawn) as Ht.
  change TAG_MASK with (2 ^ 31 - 1) in Ht. unfold HandleId_get. cbn [handle_raw].
  destruct (id_fields (process_tag drawn) (1 + Z.of_nat n)) as [-> ->]; [unfold is_u32; lia|].
  unfold u32_max, u32_modulus in Hn. unfold HandleId_new, NonZeroI64_new.
  rewrite decide_False by lia. cbn [mbind option_bind]. rewrite decide_True by lia.
  split_and!; try (done || (unfold i64_max; lia)).
  intros drawn' n'. rewrite nth_id_value by done. cbn [next_sequence].
  unfold u32_max, u32_modulus. case_decide; [|done]. intros [= Heq].
  pose proof (process_tag_range drawn') as Ht'. change TAG_MASK with (2 ^ 31 - 1) in Ht'. lia.
Qed.

Lemma id_witness :
  nth_id 5 2 Unstarted = Some (mkHandleId (5 * 2 ^ 32 + 3)) ∧
  Z.shiftr (5 * 2 ^ 32 + 3) SEQUENCE_BITS = process_tag 5 ∧
  Z.land (5 * 2 ^ 32 + 3) (Z.ones SEQUENCE_BITS) = 3 ∧
  HandleId_new (5 * 2 ^ 32 + 3) = Some (mkHandleId (5 * 2 ^ 32 + 3)).
Proof.
  split; [vm_compute; reflexivity|].
  destruct (an_id_names_its_process_and_its_turn 5 2) as [_ Hid].
  destruct (Hid (mkHandleId (5 * 2 ^ 32 + 3))) as (Htag & Hseq & _ & _ & Hback & _);
    [vm_compute; reflexivity|]. done.
Defined.
