(* ===== verification/Registry.v ===== *)
(** * The registry of open clients, under any interleaving

    [embedded-mongodb-android/src/registry.rs]: the map from ids to entries behind the
    registry's mutex, and each entry's reader-writer lock. The operations are functions on the
    registry; [rstep] runs them for any number of Java threads, one lock operation or native
    call at a time, and labels each step with what the outside sees of it. An entry outlives its
    place in the map for as long as a thread holds its [Arc]; the heap keeps them all. *)
From S2P Require Import Prelude Handle.

(** [Entry] with its [RwLock]: who is inside, and whether the client is still in the slot. *)
Record Entry := mkEntry { readers : nat; writing : bool; occupied : bool }.

Record Registry := mkRegistry {
  counter : Counter;
  entries : gmap HandleId nat;
  heap : list Entry;
}.

Definition Registry_new : Registry := mkRegistry Unstarted ∅ [].

(** [Registry::insert]; [None] where the ids are spent and the client is closed again. *)
Definition Registry_insert (drawn : Z) (r : Registry) : option HandleId * Registry :=
  match take_next drawn (counter r) with
  | (None, c) => (None, mkRegistry c (entries r) (heap r))
  | (Some id, c) =>
      (Some id, mkRegistry c (<[id := length (heap r)]> (entries r))
                  (heap r ++ [mkEntry 0 false true]))
  end.

(** [Registry::lookup]: a clone of the entry's [Arc]. *)
Definition Registry_lookup (id : HandleId) (r : Registry) : option nat := entries r !! id.

(** The removal in [Registry::close]. *)
Definition Registry_remove (id : HandleId) (r : Registry) : option (nat * Registry) :=
  match entries r !! id with
  | Some e => Some (e, mkRegistry (counter r) (delete id (entries r)) (heap r))
  | None => None
  end.

(** [RwLock::read] and [RwLock::write]; [None] where they wait. *)
Definition Entry_read (e : Entry) : option Entry :=
  if writing e then None else Some (mkEntry (S (readers e)) false (occupied e)).
Definition Entry_write (e : Entry) : option Entry :=
  if writing e || negb (readers e =? 0)%nat then None else Some (mkEntry 0 true (occupied e)).

(** The guards' drops, and [slot.take()]. *)
Definition Entry_read_drop (e : Entry) : Entry := mkEntry (pred (readers e)) (writing e) (occupied e).
Definition Entry_write_drop (e : Entry) : Entry := mkEntry (readers e) false (occupied e).
Definition Entry_take (e : Entry) : bool * Entry :=
  (occupied e, mkEntry (readers e) (writing e) false).

(** Where a thread is between its lock operations. *)
Inductive jthread :=
| Outside
| Looked (id : HandleId) (e : nat)
| Reading (id : HandleId) (e : nat)
| Running (id : HandleId) (e : nat)
| Removed (id : HandleId) (e : nat)
| Writing (id : HandleId) (e : nat)
| Closing (id : HandleId) (e : nat).

#[export] Instance jthread_eq_dec : EqDecision jthread.
Proof. solve_decision. Defined.

(** What the outside sees. *)
Inductive event :=
| Issued (id : HandleId)
| IssueRefused
| CommandBegins (id : HandleId)
| CommandEnds (id : HandleId)
| CommandRefused (id : HandleId)
| CloseBegins (id : HandleId)
| ClientCloses (id : HandleId)
| CloseEnds (id : HandleId)
| CloseRefused (id : HandleId).

Record rsystem := mkRsystem { registry : Registry; jthreads : list jthread }.

Definition update_entry (e : nat) (new : Entry) (r : Registry) : Registry :=
  mkRegistry (counter r) (entries r) (<[e := new]> (heap r)).

(** One step of a thread. [drawn] is the process's draw; the native command and the native
    close run between [Running] or [Closing] and the step that leaves it. *)
Inductive rstep_thread (drawn : Z) : jthread → Registry → option event → jthread → Registry → Prop :=
| step_insert r id r' :
    Registry_insert drawn r = (Some id, r') →
    rstep_thread drawn Outside r (Some (Issued id)) Outside r'
| step_spent r r' :
    Registry_insert drawn r = (None, r') →
    rstep_thread drawn Outside r (Some IssueRefused) Outside r'
| step_lookup_miss r id :
    Registry_lookup id r = None →
    rstep_thread drawn Outside r (Some (CommandRefused id)) Outside r
| step_lookup r id e :
    Registry_lookup id r = Some e →
    rstep_thread drawn Outside r None (Looked id e) r
| step_read r id e entry entry' :
    heap r !! e = Some entry → Entry_read entry = Some entry' →
    rstep_thread drawn (Looked id e) r None (Reading id e) (update_entry e entry' r)
| step_found_empty r id e entry :
    heap r !! e = Some entry → occupied entry = false →
    rstep_thread drawn (Reading id e) r (Some (CommandRefused id)) Outside
      (update_entry e (Entry_read_drop entry) r)
| step_begin r id e entry :
    heap r !! e = Some entry → occupied entry = true →
    rstep_thread drawn (Reading id e) r (Some (CommandBegins id)) (Running id e) r
| step_end r id e entry :
    heap r !! e = Some entry →
    rstep_thread drawn (Running id e) r (Some (CommandEnds id)) Outside
      (update_entry e (Entry_read_drop entry) r)
| step_remove_miss r id :
    Registry_remove id r = None →
    rstep_thread drawn Outside r (Some (CloseRefused id)) Outside r
| step_remove r id e r' :
    Registry_remove id r = Some (e, r') →
    rstep_thread drawn Outside r (Some (CloseBegins id)) (Removed id e) r'
| step_write r id e entry entry' :
    heap r !! e = Some entry → Entry_write entry = Some entry' →
    rstep_thread drawn (Removed id e) r None (Writing id e) (update_entry e entry' r)
| step_take r id e entry entry' :
    heap r !! e = Some entry → Entry_take entry = (true, entry') →
    rstep_thread drawn (Writing id e) r (Some (ClientCloses id)) (Closing id e)
      (update_entry e entry' r)
| step_take_empty r id e entry entry' :
    heap r !! e = Some entry → Entry_take entry = (false, entry') →
    rstep_thread drawn (Writing id e) r (Some (CloseRefused id)) Outside
      (update_entry e (Entry_write_drop entry') r)
| step_close_end r id e entry :
    heap r !! e = Some entry →
    rstep_thread drawn (Closing id e) r (Some (CloseEnds id)) Outside
      (update_entry e (Entry_write_drop entry) r).

Inductive rstep (drawn : Z) : rsystem → option event → rsystem → Prop :=
| rstep_at i t t' r r' ts label :
    ts !! i = Some t → rstep_thread drawn t r label t' r' →
    rstep drawn (mkRsystem r ts) label (mkRsystem r' (<[i := t']> ts)).

Definition rinitial (s : rsystem) : Prop :=
  registry s = Registry_new ∧ ∀ t, t ∈ jthreads s → t = Outside.

(** A run, with the events seen on it. *)
Inductive rruns (drawn : Z) : rsystem → list event → rsystem → Prop :=
| rruns_nil s : rruns drawn s [] s
| rruns_step s s1 s2 tr label :
    rruns drawn s tr s1 → rstep drawn s1 label s2 → rruns drawn s (tr ++ option_list label) s2.

(** ** What a registry promises

    Each id that was issued is open, closing or closed, with so many commands inside. A command
    begins only on a client that is not closed yet, the client is closed once, with nobody
    inside, by the one close that began; and a call is refused only where a close has begun or
    no id was issued. *)
Inductive status := Open | ClosingDown | ShutDown.

#[export] Instance status_eq_dec : EqDecision status.
Proof. solve_decision. Defined.

Record promise := mkPromise { stat : status; inside : nat }.

Abbreviation promises := (gmap HandleId promise).

Definition not_open (p : promises) (id : HandleId) : Prop := stat <$> p !! id ≠ Some Open.

Inductive promised : promises → event → promises → Prop :=
| promised_issue p id : p !! id = None → promised p (Issued id) (<[id := mkPromise Open 0]> p)
| promised_spent p : promised p IssueRefused p
| promised_begin p id st n :
    p !! id = Some (mkPromise st n) → st ≠ ShutDown →
    promised p (CommandBegins id) (<[id := mkPromise st (S n)]> p)
| promised_end p id st n :
    p !! id = Some (mkPromise st (S n)) →
    promised p (CommandEnds id) (<[id := mkPromise st n]> p)
| promised_refuse p id : not_open p id → promised p (CommandRefused id) p
| promised_close p id n :
    p !! id = Some (mkPromise Open n) →
    promised p (CloseBegins id) (<[id := mkPromise ClosingDown n]> p)
| promised_shut p id :
    p !! id = Some (mkPromise ClosingDown 0) →
    promised p (ClientCloses id) (<[id := mkPromise ShutDown 0]> p)
| promised_closed p id : stat <$> p !! id = Some ShutDown → promised p (CloseEnds id) p
| promised_close_refused p id : not_open p id → promised p (CloseRefused id) p.

Inductive keeps : promises → list event → promises → Prop :=
| keeps_nil p : keeps p [] p
| keeps_step p p1 p2 tr ev : keeps p tr p1 → promised p1 ev p2 → keeps p (tr ++ [ev]) p2.

(** ** Schedules that can be run

    What a thread outside does next is chosen; inside a call it goes on, if it can. *)
Inductive choice := DoInsert | DoRun (id : HandleId) | DoClose (id : HandleId) | GoOn.

Definition rperform_thread (drawn : Z) (c : choice) (t : jthread) (r : Registry)
    : option (option event * jthread * Registry) :=
  match t, c with
  | Outside, DoInsert =>
      match Registry_insert drawn r with
      | (Some id, r') => Some (Some (Issued id), Outside, r')
      | (None, r') => Some (Some IssueRefused, Outside, r')
      end
  | Outside, DoRun id =>
      match Registry_lookup id r with
      | None => Some (Some (CommandRefused id), Outside, r)
      | Some e => Some (None, Looked id e, r)
      end
  | Outside, DoClose id =>
      match Registry_remove id r with
      | None => Some (Some (CloseRefused id), Outside, r)
      | Some (e, r') => Some (Some (CloseBegins id), Removed id e, r')
      end
  | Looked id e, GoOn =>
      entry ← heap r !! e; entry' ← Entry_read entry;
      Some (None, Reading id e, update_entry e entry' r)
  | Reading id e, GoOn =>
      entry ← heap r !! e;
      if occupied entry then Some (Some (CommandBegins id), Running id e, r)
      else Some (Some (CommandRefused id), Outside, update_entry e (Entry_read_drop entry) r)
  | Running id e, GoOn =>
      entry ← heap r !! e;
      Some (Some (CommandEnds id), Outside, update_entry e (Entry_read_drop entry) r)
  | Removed id e, GoOn =>
      entry ← heap r !! e; entry' ← Entry_write entry;
      Some (None, Writing id e, update_entry e entry' r)
  | Writing id e, GoOn =>
      entry ← heap r !! e;
      match Entry_take entry with
      | (true, entry') => Some (Some (ClientCloses id), Closing id e, update_entry e entry' r)
      | (false, entry') =>
          Some (Some (CloseRefused id), Outside, update_entry e (Entry_write_drop entry') r)
      end
  | Closing id e, GoOn =>
      entry ← heap r !! e;
      Some (Some (CloseEnds id), Outside, update_entry e (Entry_write_drop entry) r)
  | _, _ => None
  end.

Fixpoint rschedule (drawn : Z) (l : list (nat * choice)) (s : rsystem)
    : option (list event * rsystem) :=
  match l with
  | [] => Some ([], s)
  | (i, c) :: l =>
      t ← jthreads s !! i;
      '(label, t', r') ← rperform_thread drawn c t (registry s);
      '(tr, s') ← rschedule drawn l (mkRsystem r' (<[i := t']> (jthreads s)));
      Some (option_list label ++ tr, s')
  end.

#[local] Hint Constructors rstep_thread : emongo.

Lemma rperform_thread_sound drawn c t r label t' r' :
  rperform_thread drawn c t r = Some (label, t', r') → rstep_thread drawn t r label t' r'.
Proof.
  destruct t, c; simpl; try done; intros Hp; simplify_option_eq;
    repeat (case_match; simplify_option_eq);
    eauto with emongo.
  - eapply step_take; [done|]. unfold Entry_take. by f_equal.
  - eapply step_take_empty; [done|]. unfold Entry_take. by f_equal.
Qed.

Lemma rruns_app drawn s tr1 s1 tr2 s2 :
  rruns drawn s tr1 s1 → rruns drawn s1 tr2 s2 → rruns drawn s (tr1 ++ tr2) s2.
Proof.
  intros H1 H2. induction H2 as [|s1 s2 s3 tr label _ IH Hs]; [by rewrite app_nil_r|].
  rewrite (assoc_L (++)). econstructor; eauto.
Qed.

Lemma rschedule_sound drawn l s tr s' : rschedule drawn l s = Some (tr, s') → rruns drawn s tr s'.
Proof.
  revert s tr. induction l as [|[i c] l IH]; intros [r ts] tr; simpl.
  - intros [= <- <-]. constructor.
  - intros Hs. destruct (ts !! i) as [t|] eqn:Hi; simpl in Hs; [|done].
    destruct (rperform_thread drawn c t r) as [[[label t'] r']|] eqn:Hp; simpl in Hs; [|done].
    destruct (rschedule drawn l _) as [[tr' s2]|] eqn:Hl; simpl in Hs; [|done].
    injection Hs as <- <-. eapply rruns_app; [|by apply IH].
    change (option_list label) with ([] ++ option_list label).
    eapply rruns_step; [constructor|]. eapply rstep_at; [done|]. by apply rperform_thread_sound in Hp.
Qed.
