(* ===== verification/RegistryInv.v ===== *)
(** * The registry keeps its promises

    A simulation from the locks and slots of [Registry] to its [promised] behaviour, and what
    follows for the threads: nobody runs on a client that is closing, and nobody waits for
    ever. *)
From S2P Require Import Prelude Handle Registry.

(** ** Counting threads by what they do with an id *)

Definition is_reading (id : HandleId) (t : jthread) : bool :=
  match t with Reading i _ | Running i _ => bool_decide (i = id) | _ => false end.
Definition is_running (id : HandleId) (t : jthread) : bool :=
  match t with Running i _ => bool_decide (i = id) | _ => false end.
Definition is_writing (id : HandleId) (t : jthread) : bool :=
  match t with Writing i _ | Closing i _ => bool_decide (i = id) | _ => false end.
Definition is_closer (id : HandleId) (t : jthread) : bool :=
  match t with Removed i _ | Writing i _ => bool_decide (i = id) | _ => false end.
Definition is_closing (id : HandleId) (t : jthread) : bool :=
  match t with Closing i _ => bool_decide (i = id) | _ => false end.

Definition thread_ref (t : jthread) : option (HandleId * nat) :=
  match t with
  | Outside => None
  | Looked i e | Reading i e | Running i e | Removed i e | Writing i e | Closing i e => Some (i, e)
  end.

Lemma count_mono {A} (f g : A → bool) l :
  (∀ x, f x = true → g x = true) → count f l ≤ count g l.
Proof.
  intros H. induction l as [|x l IH]; simpl; [done|].
  specialize (H x). destruct (f x); [rewrite H by done|destruct (g x)]; lia.
Qed.

Lemma running_le_reading id ts : count (is_running id) ts ≤ count (is_reading id) ts.
Proof. apply count_mono. by intros []. Qed.

(** ** The simulation *)

(** What the locks and slots of an entry say about the promise made for its id. *)
Definition entry_keeps (ts : list jthread) (r : Registry) (id : HandleId) (e : nat)
    (pr : promise) : Prop :=
  ∃ entry, heap r !! e = Some entry ∧
    Z.of_nat (readers entry) = count (is_reading id) ts ∧
    (if writing entry then 1 else 0) = count (is_writing id) ts ∧
    (writing entry = true → readers entry = 0%nat) ∧
    occupied entry = negb (bool_decide (stat pr = ShutDown)) ∧
    entries r !! id = (if decide (stat pr = Open) then Some e else None) ∧
    Z.of_nat (inside pr) = count (is_running id) ts ∧
    count (is_closer id) ts = (if decide (stat pr = ClosingDown) then 1 else 0) ∧
    (0 < count (is_closing id) ts → stat pr = ShutDown).

Record simulated (drawn : Z) (g : gmap HandleId nat) (s : rsystem) (p : promises) : Prop := {
  sim_inj id id' e : g !! id = Some e → g !! id' = Some e → id = id';
  sim_dom id : p !! id = None ↔ g !! id = None;
  sim_entry id e pr : g !! id = Some e → p !! id = Some pr →
    entry_keeps (jthreads s) (registry s) id e pr;
  sim_threads t id e : t ∈ jthreads s → thread_ref t = Some (id, e) → g !! id = Some e;
  sim_map id e : entries (registry s) !! id = Some e → g !! id = Some e;
  sim_counter : counter_wf drawn (counter (registry s));
  sim_issued id e : g !! id = Some e →
    handle_raw id < process_tag drawn * 2 ^ 32 + next_sequence (counter (registry s));
}.

Definition about (id : HandleId) (t : jthread) : Prop :=
  match thread_ref t with Some (i, _) => i = id | None => True end.

Lemma other_thread id id' t :
  about id t → id' ≠ id →
  is_reading id' t = false ∧ is_running id' t = false ∧ is_writing id' t = false ∧
  is_closer id' t = false ∧ is_closing id' t = false.
Proof.
  intros Ha Hne. destruct t; unfold about in Ha; simpl in *; subst;
    rewrite ?bool_decide_eq_false_2 by done; done.
Qed.

(** Replacing a thread that is about one id changes no count of another. *)
Lemma other_keeps ts r r' id id' i t t' e' pr :
  ts !! i = Some t → about id t → about id t' → id' ≠ id →
  heap r' !! e' = heap r !! e' → entries r' !! id' = entries r !! id' →
  entry_keeps ts r id' e' pr → entry_keeps (<[i := t']> ts) r' id' e' pr.
Proof.
  intros Hi Ha Ha' Hne Hh He (entry & Hentry & Hk). exists entry. rewrite Hh, He.
  destruct (other_thread id id' t Ha Hne) as (H1 & H2 & H3 & H4 & H5).
  destruct (other_thread id id' t' Ha' Hne) as (H1' & H2' & H3' & H4' & H5').
  split; [done|]. rewrite !(count_insert _ ts i t t' Hi).
  rewrite H1, H2, H3, H4, H5, H1', H2', H3', H4', H5'.
  rewrite !Z.add_0_r, !Z.sub_0_r. done.
Qed.

(** A step of one thread on one id, where the entry is shown to keep the new promise. *)
Lemma simulated_step drawn g r r' ts p i t t' id e pr' :
  simulated drawn g (mkRsystem r ts) p →
  ts !! i = Some t → about id t → about id t' → g !! id = Some e →
  (t' = Outside ∨ thread_ref t' = Some (id, e)) →
  (∀ e', e' ≠ e → heap r' !! e' = heap r !! e') →
  (∀ id', id' ≠ id → entries r' !! id' = entries r !! id') →
  counter r' = counter r →
  entry_keeps (<[i := t']> ts) r' id e pr' →
  simulated drawn g (mkRsystem r' (<[i := t']> ts)) (<[id := pr']> p).
Proof.
  intros [Hinj Hdom Hentry Hthreads Hmap Hc Hissued] Hi Ha Ha' Hg Ht' Hheap Hentries Hcounter Hk.
  simpl in *. split; simpl.
  - done.
  - intros id'. destruct (decide (id' = id)) as [->|Hne].
    + rewrite lookup_insert_eq, Hg. done.
    + rewrite lookup_insert_ne by done. apply Hdom.
  - intros id' e' pr Hg' Hp. destruct (decide (id' = id)) as [->|Hne].
    + rewrite lookup_insert_eq in Hp. simplify_eq. done.
    + rewrite lookup_insert_ne in Hp by done.
      apply (other_keeps ts r r' id id' i t t' e' pr); auto.
      apply Hheap. intros Heq. subst e'. by apply Hne, (Hinj id' id e).
  - intros t0 id' e' Hin Href. apply list_elem_of_lookup in Hin as [j Hj].
    destruct (decide (i = j)) as [<-|Hne].
    + rewrite list_lookup_insert_eq in Hj by (by eapply lookup_lt_Some). simplify_eq.
      destruct Ht' as [->|Ht']; [done|]. by simplify_eq.
    + rewrite list_lookup_insert_ne in Hj by done. eapply Hthreads; [|done].
      by eapply list_elem_of_lookup_2.
  - intros id' e' He. destruct (decide (id' = id)) as [->|Hne].
    + destruct Hk as (entry & _ & _ & _ & _ & _ & Hent & _). rewrite Hent in He.
      case_decide; by simplify_eq.
    + rewrite Hentries in He by done. eauto.
  - by rewrite Hcounter.
  - rewrite Hcounter. done.
Qed.

(** The entry behind a thread, and the promise for its id. *)
Lemma thread_entry drawn g r ts p i t id e :
  simulated drawn g (mkRsystem r ts) p → ts !! i = Some t → thread_ref t = Some (id, e) →
  g !! id = Some e ∧ ∃ pr, p !! id = Some pr ∧ entry_keeps ts r id e pr.
Proof.
  intros Hsim Hi Href.
  assert (g !! id = Some e) as Hg.
  { apply (sim_threads _ _ _ _ Hsim t id e); [|done]. by eapply list_elem_of_lookup_2. }
  split; [done|]. destruct (p !! id) as [pr|] eqn:Hp.
  - exists pr. split; [done|]. by apply (sim_entry _ _ _ _ Hsim).
  - apply (sim_dom _ _ _ _ Hsim) in Hp. congruence.
Qed.

Lemma not_in_map_not_open drawn g r ts p id :
  simulated drawn g (mkRsystem r ts) p → entries r !! id = None → not_open p id.
Proof.
  intros Hsim He Hopen. unfold not_open in *. destruct (p !! id) as [pr|] eqn:Hp; [|done].
  simpl in Hopen. destruct (g !! id) as [e|] eqn:Hg.
  - destruct (sim_entry _ _ _ _ Hsim id e pr Hg Hp) as (entry & _ & _ & _ & _ & _ & Hent & _).
    simpl in Hent. rewrite decide_True in Hent by congruence. congruence.
  - apply (sim_dom _ _ _ _ Hsim) in Hg. congruence.
Qed.

Lemma thread_counted (f : jthread → bool) ts i t : ts !! i = Some t → f t = true → 0 < count f ts.
Proof. intros Hi Hf. apply count_pos. exists t. split; [by eapply list_elem_of_lookup_2|done]. Qed.

(** Works out the counts of a thread list in which one thread has moved on. *)
Ltac moved_counts Hi :=
  rewrite ?(count_insert _ _ _ _ _ Hi); simpl;
  rewrite ?bool_decide_eq_true_2 by done;
  rewrite ?Z.add_0_r, ?Z.sub_0_r.

(** The parts of [entry_keeps] a step leaves as they were. *)
Ltac keep_rest Hk :=
  let H1 := fresh "Hreaders" in let H2 := fresh "Hwriting" in let H3 := fresh "Hexclusive" in
  let H4 := fresh "Hoccupied" in let H5 := fresh "Hmapped" in let H6 := fresh "Hinside" in
  let H7 := fresh "Hcloser" in let H8 := fresh "Hclosing" in
  destruct Hk as (H1 & H2 & H3 & H4 & H5 & H6 & H7 & H8);
  split_and!; first [done|lia|intros; apply H8; lia|by rewrite H7|by intros ?%H8|idtac].

(** No thread holds an id that was not issued. *)
Lemma unissued_uncounted (g : gmap HandleId nat) ts id (f : jthread → bool) :
  (∀ t id e, t ∈ ts → thread_ref t = Some (id, e) → g !! id = Some e) → g !! id = None →
  (∀ t, f t = true → ∃ e, thread_ref t = Some (id, e)) → count f ts = 0.
Proof.
  intros Hthreads Hfresh Hf. apply count_zero. intros t Hin. destruct (f t) eqn:Hft; [|done].
  destruct (Hf t Hft) as [e He]. specialize (Hthreads t id e Hin He). congruence.
Qed.

(** A fresh entry keeps ids on entries of their own. *)
Lemma fresh_entry_injective (g : gmap HandleId nat) (n : nat) id :
  (∀ j j' e, g !! j = Some e → g !! j' = Some e → j = j') →
  (∀ j e, g !! j = Some e → (e < n)%nat) →
  ∀ j j' e, <[id := n]> g !! j = Some e → <[id := n]> g !! j' = Some e → j = j'.
Proof.
  intros Hinj Hbound j j' e Hj Hj'.
  destruct (decide (j = id)) as [->|Hn], (decide (j' = id)) as [->|Hn']; try done;
    rewrite ?lookup_insert_eq, ?lookup_insert_ne in Hj by done;
    rewrite ?lookup_insert_eq, ?lookup_insert_ne in Hj' by done.
  - injection Hj as <-. apply Hbound in Hj'. lia.
  - injection Hj' as <-. apply Hbound in Hj. lia.
  - eauto.
Qed.

Lemma new_entry_simulated drawn g r r' ts p i id :
  simulated drawn g (mkRsystem r ts) p → ts !! i = Some Outside →
  Registry_insert drawn r = (Some id, r') →
  p !! id = None ∧
  simulated drawn (<[id := length (heap r)]> g) (mkRsystem r' (<[i := Outside]> ts))
    (<[id := mkPromise Open 0]> p).
Proof.
  intros Hsim Hi Hins. destruct Hsim as [Hinj Hdom Hentry Hthreads Hmap Hc Hissued]. simpl in *.
  rewrite list_insert_id by done. unfold Registry_insert in Hins.
  destruct (take_next_value drawn (counter r) Hc) as (Hc' & Hlow & Hhigh).
  destruct (take_next drawn (counter r)) as [[id'|] c] eqn:Ht; [|done].
  injection Hins as <- <-. simpl in *.
  destruct (Z.le_gt_cases (next_sequence (counter r)) u32_max) as [Hle|Hgt];
    [|by specialize (Hhigh Hgt)].
  destruct (Hlow Hle) as [[= Hid] Hnext].
  assert (g !! id' = None) as Hfresh.
  { destruct (g !! id') as [e|] eqn:Hg; [|done]. specialize (Hissued id' e Hg).
    rewrite Hid in Hissued. simpl in Hissued. lia. }
  assert (∀ id e, g !! id = Some e → (e < length (heap r))%nat) as Hbound.
  { intros id e Hg. destruct (p !! id) as [pr|] eqn:Hp.
    - destruct (Hentry id e pr Hg Hp) as (entry & Hh & _). by eapply lookup_lt_Some.
    - apply Hdom in Hp. congruence. }
  split; [by apply Hdom|]. split; simpl.
  - by apply fresh_entry_injective.
  - intros j. destruct (decide (j = id')) as [->|Hn]; [by rewrite !lookup_insert_eq|].
    rewrite !lookup_insert_ne by done. apply Hdom.
  - intros j e pr Hj Hp. destruct (decide (j = id')) as [->|Hn].
    + rewrite lookup_insert_eq in Hj. rewrite lookup_insert_eq in Hp.
      injection Hj as <-. injection Hp as <-.
      pose proof (λ f, unissued_uncounted g ts id' f Hthreads Hfresh) as Hzero.
      exists (mkEntry 0 false true). simpl.
      rewrite !Hzero by (intros []; simpl; try done; intros ?%bool_decide_eq_true; subst; eauto).
      rewrite lookup_app_r, Nat.sub_diag, lookup_insert_eq by lia. split_and!; try done.
    + rewrite lookup_insert_ne in Hj by done. rewrite lookup_insert_ne in Hp by done.
      destruct (Hentry j e pr Hj Hp) as (entry & Hh & Hk). exists entry. simpl.
      rewrite lookup_app_l, lookup_insert_ne by (done || by eapply Hbound). done.
  - intros t j e Hin Href. rewrite lookup_insert_ne; [eauto|].
    intros ->. specialize (Hthreads t j e Hin Href). congruence.
  - intros j e Hj. destruct (decide (j = id')) as [->|Hn].
    + rewrite lookup_insert_eq in Hj. by rewrite lookup_insert_eq.
    + rewrite lookup_insert_ne in Hj by done. rewrite lookup_insert_ne by done. eauto.
  - done.
  - intros j e Hj. rewrite Hnext. destruct (decide (j = id')) as [->|Hn].
    + rewrite Hid. simpl. lia.
    + rewrite lookup_insert_ne in Hj by done. specialize (Hissued j e Hj). lia.
Qed.

Lemma heap_elsewhere r e new e' : e' ≠ e → heap (update_entry e new r) !! e' = heap r !! e'.
Proof. intros Hne. unfold update_entry. simpl. by rewrite list_lookup_insert_ne. Qed.

Lemma heap_updated r e old new : heap r !! e = Some old → heap (update_entry e new r) !! e = Some new.
Proof.
  intros Hold. unfold update_entry. simpl. apply list_lookup_insert_eq. by eapply lookup_lt_Some.
Qed.

(** What a step promises, and that the simulation goes on. *)
Definition goes_on (drawn : Z) (s : rsystem) (p : promises) (label : option event) : Prop :=
  ∃ g' p', simulated drawn g' s p' ∧
    match label with None => p' = p | Some ev => promised p ev p' end.

Section steps.
Context (drawn : Z) (g : gmap HandleId nat) (r : Registry) (ts : list jthread) (p : promises).
Context (Hsim : simulated drawn g (mkRsystem r ts) p).
Context (i : nat) (id : HandleId) (e : nat).

(** The shape of every step of a thread on an entry: the entry and the promise change. *)
Lemma on_entry t t' entry new r' pr pr' label :
  ts !! i = Some t → about id t → (t' = Outside ∨ thread_ref t' = Some (id, e)) →
  g !! id = Some e → p !! id = Some pr → heap r !! e = Some entry →
  r' = update_entry e new r →
  (entry_keeps ts r id e pr → entry_keeps (<[i := t']> ts) r' id e pr') →
  match label with None => pr' = pr | Some ev => promised p ev (<[id := pr']> p) end →
  goes_on drawn (mkRsystem r' (<[i := t']> ts)) p label.
Proof.
  intros Hi Ha Ht' Hg Hp Hentry -> Hk Hl. exists g, (<[id := pr']> p). split.
  - apply (simulated_step drawn g r (update_entry e new r) ts p i t t' id e pr'); try done.
    + unfold about. by destruct Ht' as [->| ->].
    + intros e' Hne. by apply heap_elsewhere.
    + apply Hk. by apply (sim_entry _ _ _ _ Hsim).
  - destruct label; [done|]. subst pr'. by apply insert_id.
Qed.

Lemma read_goes_on entry entry' :
  ts !! i = Some (Looked id e) → heap r !! e = Some entry → Entry_read entry = Some entry' →
  goes_on drawn (mkRsystem (update_entry e entry' r) (<[i := Reading id e]> ts)) p None.
Proof.
  intros Hi He Hread. destruct (thread_entry _ _ _ _ _ _ _ id e Hsim Hi eq_refl) as (Hg & pr & Hp & _).
  eapply (on_entry _ _ entry entry' _ pr pr); try done; [by right|].
  unfold Entry_read in Hread. destruct (writing entry) eqn:Hw; [done|]. injection Hread as <-.
  intros (entry0 & He0 & Hk). rewrite He in He0. injection He0 as <-. rewrite Hw in Hk.
  eexists. split; [by eapply heap_updated|]. moved_counts Hi. simpl.
  keep_rest Hk.
Qed.

Lemma found_empty_goes_on entry :
  ts !! i = Some (Reading id e) → heap r !! e = Some entry → occupied entry = false →
  goes_on drawn (mkRsystem (update_entry e (Entry_read_drop entry) r) (<[i := Outside]> ts)) p
    (Some (CommandRefused id)).
Proof.
  intros Hi He Ho. destruct (thread_entry _ _ _ _ _ _ _ id e Hsim Hi eq_refl) as (Hg & pr & Hp & Hk0).
  eapply (on_entry _ _ entry (Entry_read_drop entry) _ pr pr); try done; [by left| |].
  - intros (entry0 & He0 & Hk). rewrite He in He0. injection He0 as <-.
    eexists. split; [by eapply heap_updated|]. moved_counts Hi. simpl.
    pose proof (thread_counted (is_reading id) _ _ _ Hi (bool_decide_eq_true_2 _ eq_refl)).
    keep_rest Hk. intros Hw. by rewrite (Hexclusive Hw).
  - rewrite insert_id by done. constructor. unfold not_open. rewrite Hp. simpl.
    destruct Hk0 as (entry0 & He0 & _ & _ & _ & Hocc & _). simpl in He0. rewrite He in He0.
    injection He0 as <-. rewrite Ho in Hocc. symmetry in Hocc.
    apply negb_false_iff, bool_decide_eq_true in Hocc. rewrite Hocc. done.
Qed.

(** Both guards of a command give the entry's count of readers back. *)
Lemma end_goes_on entry :
  ts !! i = Some (Running id e) → heap r !! e = Some entry →
  goes_on drawn (mkRsystem (update_entry e (Entry_read_drop entry) r) (<[i := Outside]> ts)) p
    (Some (CommandEnds id)).
Proof.
  intros Hi He. destruct (thread_entry _ _ _ _ _ _ _ id e Hsim Hi eq_refl) as (Hg & pr & Hp & Hk0).
  pose proof (thread_counted (is_reading id) _ _ _ Hi (bool_decide_eq_true_2 _ eq_refl)).
  pose proof (thread_counted (is_running id) _ _ _ Hi (bool_decide_eq_true_2 _ eq_refl)).
  eapply (on_entry _ _ entry (Entry_read_drop entry) _ pr (mkPromise (stat pr) (pred (inside pr))));
    try done; [by left| |].
  - intros (entry0 & He0 & Hk). rewrite He in He0. injection He0 as <-.
    eexists. split; [by eapply heap_updated|]. moved_counts Hi. simpl.
    keep_rest Hk. intros Hw. by rewrite (Hexclusive Hw).
  - destruct Hk0 as (entry0 & _ & _ & _ & _ & _ & _ & Hins & _). simpl in Hins.
    destruct pr as [st n]. simpl in *. destruct n as [|n]; [lia|]. simpl. by apply promised_end.
Qed.

Lemma begin_goes_on entry :
  ts !! i = Some (Reading id e) → heap r !! e = Some entry → occupied entry = true →
  goes_on drawn (mkRsystem r (<[i := Running id e]> ts)) p (Some (CommandBegins id)).
Proof.
  intros Hi He Ho. destruct (thread_entry _ _ _ _ _ _ _ id e Hsim Hi eq_refl) as (Hg & pr & Hp & Hk0).
  assert (r = update_entry e entry r) as Hr.
  { destruct r. unfold update_entry. simpl in *. by rewrite list_insert_id. }
  eapply (on_entry _ _ entry entry _ pr (mkPromise (stat pr) (S (inside pr)))); try done; [by right| |].
  - intros (entry0 & He0 & Hk). rewrite He in He0. injection He0 as <-.
    exists entry. split; [done|]. moved_counts Hi. simpl. keep_rest Hk.
  - destruct Hk0 as (entry0 & He0 & _ & _ & _ & Hocc & _). simpl in He0. rewrite He in He0.
    injection He0 as <-. rewrite Ho in Hocc. symmetry in Hocc.
    apply negb_true_iff, bool_decide_eq_false in Hocc. destruct pr as [st n].
    by apply promised_begin.
Qed.

Lemma write_goes_on entry entry' :
  ts !! i = Some (Removed id e) → heap r !! e = Some entry → Entry_write entry = Some entry' →
  goes_on drawn (mkRsystem (update_entry e entry' r) (<[i := Writing id e]> ts)) p None.
Proof.
  intros Hi He Hwrite.
  destruct (thread_entry _ _ _ _ _ _ _ id e Hsim Hi eq_refl) as (Hg & pr & Hp & _).
  eapply (on_entry _ _ entry entry' _ pr pr); try done; [by right|].
  unfold Entry_write in Hwrite. destruct (writing entry) eqn:Hw; [done|].
  destruct (readers entry =? 0)%nat eqn:Hr; [|done]. apply Nat.eqb_eq in Hr.
  injection Hwrite as <-.
  intros (entry0 & He0 & Hk). rewrite He in He0. injection He0 as <-. rewrite Hw, Hr in Hk.
  eexists. split; [by eapply heap_updated|]. moved_counts Hi. simpl. keep_rest Hk.
Qed.

(** At the take nobody else is inside, and the client is still there. *)
Lemma writer_alone entry pr :
  ts !! i = Some (Writing id e) → heap r !! e = Some entry → p !! id = Some pr →
  entry_keeps ts r id e pr →
  stat pr = ClosingDown ∧ inside pr = 0%nat ∧ occupied entry = true.
Proof.
  intros Hi He Hp (entry0 & He0 & Hk). rewrite He in He0. injection He0 as <-.
  destruct Hk as (H1 & H2 & H3 & H4 & H5 & H6 & H7 & H8).
  pose proof (thread_counted (is_closer id) _ _ _ Hi (bool_decide_eq_true_2 _ eq_refl)) as Hc.
  pose proof (thread_counted (is_writing id) _ _ _ Hi (bool_decide_eq_true_2 _ eq_refl)) as Hw.
  rewrite H7 in Hc. case_decide as Hst; [|lia].
  destruct (writing entry); [|lia]. rewrite (H3 eq_refl) in H1.
  pose proof (running_le_reading id ts). pose proof (count_nonneg (is_running id) ts).
  split_and!; [done|lia|]. rewrite H4, Hst. done.
Qed.

Lemma take_goes_on entry entry' :
  ts !! i = Some (Writing id e) → heap r !! e = Some entry → Entry_take entry = (true, entry') →
  goes_on drawn (mkRsystem (update_entry e entry' r) (<[i := Closing id e]> ts)) p
    (Some (ClientCloses id)).
Proof.
  intros Hi He Htake.
  destruct (thread_entry _ _ _ _ _ _ _ id e Hsim Hi eq_refl) as (Hg & pr & Hp & Hk0).
  destruct (writer_alone entry pr Hi He Hp Hk0) as (Hst & Hin & _).
  injection Htake as Ho <-.
  eapply (on_entry _ _ entry _ _ pr (mkPromise ShutDown 0)); try done; [by right| |].
  - intros (entry0 & He0 & Hk). rewrite He in He0. injection He0 as <-. rewrite Hst, Hin in Hk.
    eexists. split; [by eapply heap_updated|]. moved_counts Hi. simpl. keep_rest Hk.
  - destruct pr as [st n]. simpl in *. subst. by apply promised_shut.
Qed.

Lemma take_empty_impossible entry entry' :
  ts !! i = Some (Writing id e) → heap r !! e = Some entry → Entry_take entry ≠ (false, entry').
Proof.
  intros Hi He [= Ho _].
  destruct (thread_entry _ _ _ _ _ _ _ id e Hsim Hi eq_refl) as (Hg & pr & Hp & Hk0).
  destruct (writer_alone entry pr Hi He Hp Hk0) as (_ & _ & ?). congruence.
Qed.

Lemma close_end_goes_on entry :
  ts !! i = Some (Closing id e) → heap r !! e = Some entry →
  goes_on drawn (mkRsystem (update_entry e (Entry_write_drop entry) r) (<[i := Outside]> ts)) p
    (Some (CloseEnds id)).
Proof.
  intros Hi He. destruct (thread_entry _ _ _ _ _ _ _ id e Hsim Hi eq_refl) as (Hg & pr & Hp & Hk0).
  pose proof (thread_counted (is_closing id) _ _ _ Hi (bool_decide_eq_true_2 _ eq_refl)) as Hcl.
  pose proof (thread_counted (is_writing id) _ _ _ Hi (bool_decide_eq_true_2 _ eq_refl)) as Hw.
  eapply (on_entry _ _ entry _ _ pr pr); try done; [by left| |].
  - intros (entry0 & He0 & Hk). rewrite He in He0. injection He0 as <-.
    eexists. split; [by eapply heap_updated|]. moved_counts Hi. simpl.
    destruct (writing entry); [|destruct Hk as (_ & Hk & _); lia]. keep_rest Hk.
  - rewrite insert_id by done. constructor. rewrite Hp. simpl.
    destruct Hk0 as (entry0 & _ & _ & _ & _ & _ & _ & _ & _ & Hst). by rewrite (Hst Hcl).
Qed.

Lemma remove_goes_on r' :
  ts !! i = Some Outside → Registry_remove id r = Some (e, r') →
  goes_on drawn (mkRsystem r' (<[i := Removed id e]> ts)) p (Some (CloseBegins id)).
Proof.
  intros Hi Hrem. unfold Registry_remove in Hrem.
  destruct (entries r !! id) as [e0|] eqn:Hent; [|done]. injection Hrem as -> <-.
  pose proof (sim_map _ _ _ _ Hsim id e Hent) as Hg.
  destruct (p !! id) as [[st n]|] eqn:Hp; [|apply (sim_dom _ _ _ _ Hsim) in Hp; congruence].
  pose proof (sim_entry _ _ _ _ Hsim id e _ Hg Hp) as (entry & He & Hk). simpl in *.
  assert (st = Open) as ->.
  { destruct Hk as (_ & _ & _ & _ & Hm & _). simpl in Hm. rewrite Hent in Hm. by case_decide. }
  exists g, (<[id := mkPromise ClosingDown n]> p). split; [|by apply promised_close].
  eapply (simulated_step drawn g r _ ts p i Outside (Removed id e) id e); try done; [by right| |].
  - intros id' Hne. simpl. by rewrite lookup_delete_ne.
  - exists entry. simpl. split; [done|]. moved_counts Hi. rewrite lookup_delete_eq. keep_rest Hk.
Qed.

Lemma lookup_goes_on :
  ts !! i = Some Outside → Registry_lookup id r = Some e →
  goes_on drawn (mkRsystem r (<[i := Looked id e]> ts)) p None.
Proof.
  intros Hi Hent. pose proof (sim_map _ _ _ _ Hsim id e Hent) as Hg.
  destruct (p !! id) as [pr|] eqn:Hp; [|apply (sim_dom _ _ _ _ Hsim) in Hp; congruence].
  pose proof (sim_entry _ _ _ _ Hsim id e _ Hg Hp) as (entry & He & Hk). simpl in *.
  exists g, p. split; [|done]. rewrite <- (insert_id p id pr) by done.
  eapply (simulated_step drawn g r r ts p i Outside (Looked id e) id e); try done; [by right|].
  exists entry. split; [done|]. moved_counts Hi. keep_rest Hk.
Qed.
End steps.

(** A step that changes nothing the promises speak of. *)
Lemma unmoved_simulated drawn g r ts p i t :
  simulated drawn g (mkRsystem r ts) p → ts !! i = Some t →
  simulated drawn g (mkRsystem r (<[i := t]> ts)) p.
Proof. intros Hsim Hi. by rewrite list_insert_id. Qed.

Lemma spent_simulated drawn g r r' ts p :
  simulated drawn g (mkRsystem r ts) p → Registry_insert drawn r = (None, r') →
  simulated drawn g (mkRsystem r' ts) p.
Proof.
  intros [Hinj Hdom Hentry Hthreads Hmap Hc Hissued] Hins. unfold Registry_insert in Hins.
  simpl in *. destruct (take_next_value drawn (counter r) Hc) as (Hc' & Hlow & Hhigh).
  destruct (take_next drawn (counter r)) as [[id|] c] eqn:Ht; [done|]. injection Hins as <-.
  destruct (Z.le_gt_cases (next_sequence (counter r)) u32_max) as [Hle|Hgt].
  - by destruct (Hlow Hle) as [? _].
  - specialize (Hhigh Hgt). injection Hhigh as ->. split; simpl in *; try done.
    intros id e Hg. specialize (Hissued id e Hg). simpl in *.
    assert (next_sequence (counter r) ≤ u32_max + 1); [|lia].
    destruct (counter r); simpl in *; unfold u32_max, u32_modulus in *; lia.
Qed.

Lemma step_goes_on drawn g s p label s' :
  simulated drawn g s p → rstep drawn s label s' → goes_on drawn s' p label.
Proof.
  intros Hsim Hstep. destruct Hstep as [i t t' r r' ts label Hi Hstep].
  destruct Hstep as [r id r' Hins|r r' Hins|r id Hl|r id e Hl|r id e entry entry' He Hr
    |r id e entry He Ho|r id e entry He Ho|r id e entry He|r id Hrem|r id e r' Hrem
    |r id e entry entry' He Hw|r id e entry entry' He Ht|r id e entry entry' He Ht|r id e entry He].
  - destruct (new_entry_simulated _ _ _ _ _ _ _ _ Hsim Hi Hins) as [Hp Hs].
    eexists _, _. split; [exact Hs|]. by constructor.
  - eexists g, p. split; [|constructor]. rewrite list_insert_id by done. by eapply spent_simulated.
  - eexists g, p. split; [by apply unmoved_simulated|]. constructor. by eapply not_in_map_not_open.
  - by eapply lookup_goes_on.
  - by eapply read_goes_on.
  - by eapply found_empty_goes_on.
  - by eapply begin_goes_on.
  - by eapply end_goes_on.
  - eexists g, p. split; [by apply unmoved_simulated|]. constructor.
    eapply not_in_map_not_open; [done|]. unfold Registry_remove in Hrem. by case_match.
  - by eapply remove_goes_on.
  - by eapply write_goes_on.
  - by eapply take_goes_on.
  - exfalso. by eapply take_empty_impossible.
  - by eapply close_end_goes_on.
Qed.

Lemma initial_simulated drawn s : rinitial s → simulated drawn ∅ s ∅.
Proof.
  intros [Hr Ht]. split; try (intros *; rewrite ?lookup_empty; done).
  - intros t id e Hin Href. rewrite (Ht t Hin) in Href. done.
  - rewrite Hr. intros id e. simpl. by rewrite lookup_empty.
  - by rewrite Hr.
Qed.

Lemma run_simulated drawn s tr s' :
  rinitial s → rruns drawn s tr s' → ∃ g p, simulated drawn g s' p ∧ keeps ∅ tr p.
Proof.
  intros Hinit. induction 1 as [s|s s1 s2 tr label _ IH Hstep].
  - exists ∅, ∅. split; [by apply initial_simulated|constructor].
  - destruct (IH Hinit) as (g & p & Hsim & Hk).
    destruct (step_goes_on _ _ _ _ _ _ Hsim Hstep) as (g' & p' & Hsim' & Hl).
    exists g', p'. split; [done|]. destruct label; simpl.
    + by econstructor.
    + subst p'. by rewrite app_nil_r.
Qed.

(** C3. Whatever any number of Java threads do, in whatever interleaving of their lock
    operations, what the outside sees is a run of the contract: ids are fresh, commands run only
    on open clients, a close happens once and waits for every command inside. *)
Theorem the_registry_keeps_its_promises drawn s tr s' :
  rinitial s → rruns drawn s tr s' → ∃ p, keeps ∅ tr p.
Proof. intros Hi Hr. destruct (run_simulated _ _ _ _ Hi Hr) as (g & p & _ & Hk). eauto. Qed.

(** ** What the promises mean for a trace *)

Definition begins (id : HandleId) (ev : event) : bool :=
  match ev with CommandBegins i => bool_decide (i = id) | _ => false end.
Definition ends (id : HandleId) (ev : event) : bool :=
  match ev with CommandEnds i => bool_decide (i = id) | _ => false end.
Definition closes (id : HandleId) (ev : event) : bool :=
  match ev with ClientCloses i => bool_decide (i = id) | _ => false end.

Definition inside_of (p : promises) (id : HandleId) : Z :=
  match p !! id with Some pr => Z.of_nat (inside pr) | None => 0 end.

(** Commands inside are those begun and not ended; a client was closed iff it is shut down. *)
Lemma promised_counts p ev p' id :
  promised p ev p' →
  inside_of p' id = inside_of p id + (if begins id ev then 1 else 0) - (if ends id ev then 1 else 0) ∧
  (stat <$> p' !! id = Some ShutDown ↔ stat <$> p !! id = Some ShutDown ∨ closes id ev = true) ∧
  (stat <$> p !! id = Some ShutDown → begins id ev = false ∧ closes id ev = false) ∧
  (closes id ev = true → inside_of p id = 0).
Proof.
  unfold inside_of. destruct 1 as [p j Hj|p|p j st n Hj Hst|p j st n Hj|p j Hj|p j n Hj|p j Hj|p j Hj|p j Hj];
    simpl; try (split_and!; [lia|naive_solver|done|done]);
    (destruct (decide (j = id)) as [->|Hne];
     [rewrite ?lookup_insert_eq, ?Hj, ?bool_decide_eq_true_2 by done
     |rewrite ?lookup_insert_ne, ?bool_decide_eq_false_2 by done]; simpl;
     split_and!; try lia; naive_solver).
Qed.

Lemma keeps_counts tr p id :
  keeps ∅ tr p →
  inside_of p id = count (begins id) tr - count (ends id) tr ∧
  (stat <$> p !! id = Some ShutDown ↔ 0 < count (closes id) tr).
Proof.
  remember ∅ as p0 eqn:Hp0. induction 1 as [p|p p1 p2 tr ev _ IH Hpr]; subst.
  - unfold inside_of. rewrite lookup_empty. simpl. split; [done|]. split; [done|lia].
  - destruct (IH eq_refl) as [Hin Hst].
    destruct (promised_counts _ _ _ id Hpr) as (Hin' & Hst' & _ & _).
    rewrite !count_app. cbn [count]. pose proof (count_nonneg (closes id) tr). split; [lia|].
    rewrite Hst', Hst. destruct (closes id ev); intuition lia.
Qed.

Lemma keeps_snoc p0 tr ev p :
  keeps p0 (tr ++ [ev]) p → ∃ p1, keeps p0 tr p1 ∧ promised p1 ev p.
Proof.
  intros Hk. remember (tr ++ [ev]) as l eqn:Hl. destruct Hk as [p|p p1 p2 tr' ev' Hk Hp].
  - by destruct tr.
  - apply app_inj_2 in Hl as [-> [= ->]]; eauto.
Qed.

Lemma keeps_split p0 tr1 ev tr2 p :
  keeps p0 (tr1 ++ ev :: tr2) p →
  ∃ p1 p2, keeps p0 tr1 p1 ∧ promised p1 ev p2 ∧ keeps p2 tr2 p.
Proof.
  revert p. induction tr2 as [|ev2 tr2 IH] using rev_ind; intros p Hk.
  - apply keeps_snoc in Hk as (p1 & ? & ?). exists p1, p. split_and!; try done. constructor.
  - rewrite app_comm_cons, (assoc_L (++)) in Hk. apply keeps_snoc in Hk as (p1 & Hk & Hp).
    destruct (IH p1 Hk) as (q1 & q2 & ? & ? & ?). exists q1, q2. split_and!; try done.
    by econstructor.
Qed.

Lemma keeps_shut p tr p' id :
  keeps p tr p' → stat <$> p !! id = Some ShutDown →
  stat <$> p' !! id = Some ShutDown ∧ count (begins id) tr = 0 ∧ count (closes id) tr = 0.
Proof.
  induction 1 as [p|p p1 p2 tr ev _ IH Hpr]; intros Hs; [done|].
  destruct (IH Hs) as (Hs1 & Hb & Hc).
  destruct (promised_counts _ _ _ id Hpr) as (_ & Hst & Hno & _). destruct (Hno Hs1) as [Hb1 Hc1].
  rewrite !count_app. cbn [count]. rewrite Hb1, Hc1. split; [apply Hst; by left|]. lia.
Qed.

(** In every run each client is closed at most once, with no command inside it, and no
    command begins on it afterwards. *)
Theorem a_client_is_closed_once_with_nobody_inside drawn s tr1 id tr2 s' :
  rinitial s → rruns drawn s (tr1 ++ ClientCloses id :: tr2) s' →
  count (begins id) tr1 = count (ends id) tr1 ∧
  (CommandBegins id ∉ tr2) ∧ (ClientCloses id ∉ tr1 ++ tr2).
Proof.
  intros Hi Hr. destruct (run_simulated _ _ _ _ Hi Hr) as (g & p & _ & Hk).
  apply keeps_split in Hk as (p1 & p2 & Hk1 & Hp & Hk2).
  destruct (keeps_counts _ _ id Hk1) as [Hin Hst].
  destruct (promised_counts _ _ _ id Hp) as (_ & Hst' & Hno & Hz). simpl in *.
  rewrite bool_decide_eq_true_2 in * by done.
  destruct (keeps_shut _ _ _ id Hk2) as (_ & Hb & Hc); [by apply Hst'; right|].
  assert (∀ f l (x : event), count f l = 0 → f x = true → x ∉ l) as Hout.
  { intros f l x Hcount Hf Hin'. rewrite (proj1 (count_zero f l) Hcount x Hin') in Hf. done. }
  split; [specialize (Hz eq_refl); lia|]. split.
  - apply (Hout _ _ _ Hb). simpl. by apply bool_decide_eq_true_2.
  - rewrite elem_of_app. intros [H1|H2].
    + assert (0 < count (closes id) tr1) as Hpos.
      { apply count_pos. exists (ClientCloses id). split; [done|]. by apply bool_decide_eq_true_2. }
      apply Hst in Hpos. destruct (Hno Hpos). done.
    + revert H2. apply (Hout _ _ _ Hc). simpl. by apply bool_decide_eq_true_2.
Qed.

(** ** Every call can be finished *)

(** How many steps a thread has before it is outside again. *)
Definition steps_left (t : jthread) : nat :=
  match t with
  | Outside => 0
  | Running _ _ | Closing _ _ => 1
  | Reading _ _ | Writing _ _ => 2
  | Looked _ _ | Removed _ _ => 3
  end.

Definition calls_left (ts : list jthread) : nat := sum_list (steps_left <$> ts).

Lemma calls_left_insert ts i t t' :
  ts !! i = Some t →
  (calls_left (<[i := t']> ts) + steps_left t = calls_left ts + steps_left t')%nat.
Proof.
  intros Hi. destruct (list_insert_split _ _ _ Hi) as (l1 & l2 & -> & _ & ->).
  unfold calls_left. rewrite !fmap_app, !sum_list_with_app. csimpl. lia.
Qed.


(** A thread that has its lock can go on. *)
Lemma holder_steps drawn g r ts p j u :
  simulated drawn g (mkRsystem r ts) p → ts !! j = Some u →
  steps_left u = 1%nat ∨ steps_left u = 2%nat →
  ∃ j u u' r' label, ts !! j = Some u ∧ rstep_thread drawn u r label u' r' ∧
    (steps_left u' < steps_left u)%nat.
Proof.
  intros Hsim Hj Hu.
  assert (∃ id' e', thread_ref u = Some (id', e')) as (id' & e' & Href')
    by (destruct u; destruct Hu; by eauto).
  destruct (thread_entry _ _ _ _ _ _ _ id' e' Hsim Hj Href') as (_ & pr' & _ & entry' & He' & _).
  simpl in He'. destruct u; destruct Hu; try done; simpl in Href'; simplify_eq;
    exists j; eexists; try (destruct (occupied entry') eqn:Ho).
  - eexists _, _, _. split_and!; [done|by eapply step_begin|simpl; lia].
  - eexists _, _, _. split_and!; [done|by eapply step_found_empty|simpl; lia].
  - eexists _, _, _. split_and!; [done|by eapply step_end|simpl; lia].
  - eexists _, _, _. split_and!; [done|by eapply step_end|simpl; lia].
  - eexists _, _, _. split_and!; [done|eapply step_take; [done|]|simpl; lia].
    unfold Entry_take. by rewrite Ho.
  - eexists _, _, _. split_and!; [done|eapply step_take_empty; [done|]|simpl; lia].
    unfold Entry_take. by rewrite Ho.
  - eexists _, _, _. split_and!; [done|by eapply step_close_end|simpl; lia].
  - eexists _, _, _. split_and!; [done|by eapply step_close_end|simpl; lia].
Qed.

(** A thread inside a call can take a step, or the thread it waits for can. *)
Lemma can_step drawn g r ts p i t :
  simulated drawn g (mkRsystem r ts) p → ts !! i = Some t → t ≠ Outside →
  ∃ j u u' r' label, ts !! j = Some u ∧ rstep_thread drawn u r label u' r' ∧
    (steps_left u' < steps_left u)%nat.
Proof.
  intros Hsim Hi Hout.
  assert (∃ id e, thread_ref t = Some (id, e)) as (id & e & Href) by (destruct t; by eauto).
  destruct (thread_entry _ _ _ _ _ _ _ id e Hsim Hi Href) as (Hg & pr & Hp & entry & He & Hk).
  destruct Hk as (Hr & Hw & Hx & _).
  pose proof (λ j u, holder_steps drawn g r ts p j u Hsim) as Hready.
  assert (∀ f : jthread → bool, (∀ u, f u = true → steps_left u = 1%nat ∨ steps_left u = 2%nat) →
    0 < count f ts → ∃ j u u' r' label, ts !! j = Some u ∧ rstep_thread drawn u r label u' r' ∧
      (steps_left u' < steps_left u)%nat) as Hwaits.
  { intros f Hf (u & Hin & Hu)%count_pos. apply list_elem_of_lookup in Hin as [j Hj].
    apply (Hready j u Hj). by apply Hf. }
  assert (∀ u, is_writing id u = true → steps_left u = 1%nat ∨ steps_left u = 2%nat) as Hfw
    by (intros []; simpl; auto; done).
  assert (∀ u, is_reading id u = true → steps_left u = 1%nat ∨ steps_left u = 2%nat) as Hfr
    by (intros []; simpl; auto; done).
  simpl in *.
  destruct t as [|id0 e0|id0 e0|id0 e0|id0 e0|id0 e0|id0 e0]; simpl in Href; simplify_eq;
    try (apply (Hready i _ Hi); simpl; by auto).
  - destruct (writing entry) eqn:Hwr; [apply (Hwaits _ Hfw); lia|].
    exists i. eexists _, _, _, _. split_and!; [done| |].
    + eapply step_read; [done|]. unfold Entry_read. by rewrite Hwr.
    + simpl. lia.
  - destruct (writing entry) eqn:Hwr; [apply (Hwaits _ Hfw); lia|].
    destruct (readers entry) as [|n] eqn:Hrd; [|apply (Hwaits _ Hfr); lia].
    exists i. eexists _, _, _, _. split_and!; [done| |].
    + eapply step_write; [done|]. unfold Entry_write. by rewrite Hwr, Hrd.
    + simpl. lia.
Qed.

(** A step of a thread inside a call always brings it closer to the end. *)
Lemma inside_steps_down drawn t r label t' r' :
  rstep_thread drawn t r label t' r' → t ≠ Outside → (steps_left t' < steps_left t)%nat.
Proof. destruct 1; simpl; done || lia. Qed.

(** A step of some thread that is inside a call. *)
Inductive inside_step (drawn : Z) : rsystem → rsystem → Prop :=
| inside_step_at i t t' r r' ts label :
    ts !! i = Some t → t ≠ Outside → rstep_thread drawn t r label t' r' →
    inside_step drawn (mkRsystem r ts) (mkRsystem r' (<[i := t']> ts)).

Lemma inside_step_runs drawn s tr s1 s2 :
  rruns drawn s tr s1 → inside_step drawn s1 s2 → ∃ tr', rruns drawn s tr' s2.
Proof. intros Hr H. destruct H. eexists. eapply rruns_step; [done|]. by econstructor. Qed.

Lemma inside_step_down drawn s1 s2 :
  inside_step drawn s1 s2 → (calls_left (jthreads s2) < calls_left (jthreads s1))%nat.
Proof.
  intros H. destruct H as [i t t' r r' ts label Hi Hout Hstep]. simpl.
  pose proof (calls_left_insert ts i t t' Hi).
  pose proof (inside_steps_down _ _ _ _ _ _ Hstep Hout). lia.
Qed.

Lemma inside_nsteps_down drawn n s1 s2 :
  nsteps (inside_step drawn) n s1 s2 →
  (n + calls_left (jthreads s2) ≤ calls_left (jthreads s1))%nat.
Proof.
  induction 1 as [|n s1 s2 s3 H _ IH]; [lia|]. pose proof (inside_step_down _ _ _ H). lia.
Qed.

Lemma inside_nsteps_runs drawn s tr n s1 s2 :
  rruns drawn s tr s1 → nsteps (inside_step drawn) n s1 s2 → ∃ tr', rruns drawn s tr' s2.
Proof.
  intros Hr H. revert tr Hr. induction H as [|n s1 s2 s3 H _ IH]; intros tr Hr; [eauto|].
  destruct (inside_step_runs _ _ _ _ _ Hr H) as [tr1 Hr1]. eauto.
Qed.

Lemma calls_left_bound ts : (calls_left ts ≤ 3 * length ts)%nat.
Proof. unfold calls_left. induction ts as [|[] ts IH]; csimpl; lia. Qed.

Definition everybody_outside (s : rsystem) : Prop := ∀ t, t ∈ jthreads s → t = Outside.

Lemma inside_step_or_outside drawn s tr s1 :
  rinitial s → rruns drawn s tr s1 → red (inside_step drawn) s1 ∨ everybody_outside s1.
Proof.
  intros Hi Hr. destruct (run_simulated _ _ _ _ Hi Hr) as (g & p & Hsim & _).
  destruct s1 as [r ts].
  destruct (decide (Forall (λ t, t = Outside) ts)) as [Hall|Hnot].
  { right. intros t Ht. by eapply Forall_forall in Ht; [|exact Hall]. }
  apply not_Forall_Exists, Exists_exists in Hnot as (t & Hin & Hout); [|apply _].
  apply list_elem_of_lookup in Hin as [i Hti]. left.
  destruct (can_step _ _ _ _ _ _ _ Hsim Hti Hout) as (j & u & u' & r' & label & Hj & Hstep & Hlt).
  eexists. eapply inside_step_at; [done| |done]. intros ->. simpl in Hlt. lia.
Qed.

Lemma inside_steps_end drawn s tr s1 :
  rinitial s → rruns drawn s tr s1 →
  ∃ n s2, nsteps (inside_step drawn) n s1 s2 ∧ everybody_outside s2.
Proof.
  intros Hi. remember (calls_left (jthreads s1)) as m eqn:Hm. revert tr s1 Hm.
  induction (lt_wf m) as [m _ IH]. intros tr s1 -> Hr.
  destruct (inside_step_or_outside _ _ _ _ Hi Hr) as [[s2 H]|Hend];
    [|exists 0%nat, s1; by repeat constructor].
  destruct (inside_step_runs _ _ _ _ _ Hr H) as [tr2 Hr2].
  destruct (IH _ (inside_step_down _ _ _ H) tr2 s2 eq_refl Hr2) as (n & s3 & Hn & Hend).
  exists (S n), s3. split; [by econstructor|done].
Qed.

(** C27. Calls end: from every state the registry can be in, the threads inside calls take at
    most three steps each, whatever their interleaving; as long as one is inside, some thread
    can take a step; and taking them brings everybody back outside. *)
Theorem every_registry_call_ends drawn s tr s1 :
  rinitial s → rruns drawn s tr s1 →
  (∀ n s2, nsteps (inside_step drawn) n s1 s2 →
    (n ≤ 3 * length (jthreads s1))%nat ∧ (nf (inside_step drawn) s2 → everybody_outside s2)) ∧
  (∃ n s2, nsteps (inside_step drawn) n s1 s2 ∧ everybody_outside s2).
Proof.
  intros Hi Hr. split; [|by eapply inside_steps_end].
  intros n s2 Hn. pose proof (inside_nsteps_down _ _ _ _ Hn).
  pose proof (calls_left_bound (jthreads s1)). split; [lia|]. intros Hnf.
  destruct (inside_nsteps_runs _ _ _ _ _ _ Hr Hn) as [tr2 Hr2].
  by destruct (inside_step_or_outside _ _ _ _ Hi Hr2).
Qed.

(** ** Two threads and one client

    A command and a close race: the command has the entry before the close removes it, and runs
    before the client goes; a later one is refused. *)
Definition first_id : HandleId := mkHandleId (5 * 2 ^ 32 + 1).

Definition racing : list event :=
  [Issued first_id; CloseBegins first_id; CommandBegins first_id; CommandEnds first_id]
  ++ ClientCloses first_id :: [CommandRefused first_id; CloseEnds first_id].

Definition two_outside : rsystem := mkRsystem Registry_new [Outside; Outside].

Definition race : list (nat * choice) :=
  [(0%nat, DoInsert); (0%nat, DoRun first_id); (1%nat, DoClose first_id); (0%nat, GoOn);
   (0%nat, GoOn); (0%nat, GoOn); (1%nat, GoOn); (1%nat, GoOn); (0%nat, DoRun first_id);
   (1%nat, GoOn)].

Lemma racing_run : rruns 5 two_outside racing
  (mkRsystem (mkRegistry (Next 5 2) ∅ [mkEntry 0 false false]) [Outside; Outside]).
Proof. apply (rschedule_sound 5 race). vm_compute. reflexivity. Qed.

Lemma two_outside_initial : rinitial two_outside.
Proof. split; [done|]. intros t. simpl. set_solver. Qed.

Lemma registry_promises_witness : ∃ p, keeps ∅ racing p.
Proof.
  exact (the_registry_keeps_its_promises 5 two_outside racing _ two_outside_initial racing_run).
Defined.

Lemma closed_once_witness :
  count (begins first_id) [Issued first_id; CloseBegins first_id; CommandBegins first_id;
                           CommandEnds first_id] = 1 ∧
  (CommandBegins first_id ∉ [CommandRefused first_id; CloseEnds first_id]).
Proof.
  split; [reflexivity|].
  exact (proj1 (proj2 (a_client_is_closed_once_with_nobody_inside 5 two_outside
    [Issued first_id; CloseBegins first_id; CommandBegins first_id; CommandEnds first_id] first_id
    [CommandRefused first_id; CloseEnds first_id] _ two_outside_initial racing_run))).
Defined.

(** The race stopped with the command inside its client and the close waiting for it. *)
Definition racing_inside : rsystem :=
  mkRsystem (mkRegistry (Next 5 2) ∅ [mkEntry 1 false true])
    [Running first_id 0; Removed first_id 0].

Lemma racing_inside_run :
  rruns 5 two_outside [Issued first_id; CloseBegins first_id; CommandBegins first_id] racing_inside.
Proof. apply (rschedule_sound 5 (take 5 race)). vm_compute. reflexivity. Qed.

Lemma call_ends_witness :
  ¬ everybody_outside racing_inside ∧
  ∃ n s2, nsteps (inside_step 5) n racing_inside s2 ∧ everybody_outside s2.
Proof.
  split.
  - intros H. specialize (H (Running first_id 0) ltac:(left)). discriminate.
  - exact (proj2 (every_registry_call_ends 5 two_outside _ racing_inside two_outside_initial
                    racing_inside_run)).
Defined.
