(* ===== verification/Bridge.v ===== *)
(** * The JNI boundary

    [embedded-mongodb-android]: the codes and messages an error reaches Java with ([error.rs]),
    the options as they cross in a [long[]] ([options.rs]), the reading of arguments and the four
    native methods ([bridge.rs]) and the turning of errors and panics into a pending exception
    ([jvm.rs]). What the JVM itself does is given: whether a JNI call fails, and what a [String]
    argument holds. *)
From stdpp Require Import pretty.
From S2P Require Import Prelude Text EngineOptions Options Errors Handle Registry.

(** ** [error.rs] *)

Inductive ErrorCode :=
| ClosedHandle
| InvalidArgumentCode
| PanicCode
| JniCode
| NativeCode
| Mongo (code : Z).

Record BridgeError := mkBridgeError { be_code : ErrorCode; be_message : string }.

Definition as_java (code : ErrorCode) : Z :=
  match code with
  | ClosedHandle => -1
  | InvalidArgumentCode => -2
  | PanicCode => -3
  | JniCode => -4
  | NativeCode => -5
  | Mongo code => code
  end.

Definition closed_handle (message : string) : BridgeError := mkBridgeError ClosedHandle message.
Definition invalid_argument (message : string) : BridgeError :=
  mkBridgeError InvalidArgumentCode message.

(** What [panic!] was given: a literal, a formatted string, or something else. *)
Inductive Payload := StaticStr (s : string) | OwnedString (s : string) | OtherPayload.

Definition from_panic (payload : Payload) : BridgeError :=
  mkBridgeError PanicCode
    match payload with
    | StaticStr message | OwnedString message => "embedded MongoDB binding panicked: " +:+ message
    | OtherPayload => "embedded MongoDB binding panicked"
    end.

Definition BridgeError_to_string (e : BridgeError) : string :=
  be_message e +:+ " (code " +:+ pretty (as_java (be_code e)) +:+ ")".

Definition server_code (code : option Z) : ErrorCode :=
  let code := code ≫= λ c, if decide (i32_min ≤ c ≤ i32_max) then Some c else None in
  let code := code ≫= λ c, if decide (0 < c) then Some c else None in
  match code with Some c => Mongo c | None => NativeCode end.

(** [str::strip_prefix], [char::is_ascii_digit], splitting at the first character that is none,
    and [str::parse::<i32>] of digits, which checks every multiplication and addition. *)
Fixpoint strip_prefix_str (p s : string) : option string :=
  match p, s with
  | EmptyString, _ => Some s
  | String a p, String b s => if Ascii.eqb a b then strip_prefix_str p s else None
  | String _ _, EmptyString => None
  end.

Definition digit_value (c : ascii) : option Z :=
  let n := Z.of_N (N_of_ascii c) in if decide (48 ≤ n ≤ 57) then Some (n - 48) else None.

Fixpoint split_digits (s : string) : string * string :=
  match s with
  | String c s' =>
      match digit_value c with
      | Some _ => let '(digits, tail) := split_digits s' in (String c digits, tail)
      | None => (EmptyString, s)
      end
  | EmptyString => (EmptyString, EmptyString)
  end.

Fixpoint parse_digits (acc : Z) (s : string) : option Z :=
  match s with
  | EmptyString => Some acc
  | String c s =>
      d ← digit_value c;
      if decide (10 * acc + d ≤ i32_max) then parse_digits (10 * acc + d) s else None
  end.

Definition parse_i32 (s : string) : option Z :=
  match s with EmptyString => None | _ => parse_digits 0 s end.

Definition starts_with_colon (s : string) : bool :=
  match s with String c _ => Ascii.eqb c ":"%char | EmptyString => false end.

Definition location_code (message : string) : option Z :=
  rest ← strip_prefix_str "Location" message;
  let '(digits, tail) := split_digits rest in
  if negb (bool_decide (tail = EmptyString)) && negb (starts_with_colon tail) then None
  else code ← parse_i32 digits; if decide (0 < code) then Some code else None.

Section from_error.
Context {BE IOE X D : Type} (bson_text : BE → string) (io_text : IOE → string) (what : X → string).

(** [impl From<EmbeddedError> for BridgeError] *)
Definition BridgeError_from (error : Error BE IOE X D) : BridgeError :=
  let text := Error_to_string bson_text io_text what error in
  match error with
  | Native (NativeException exception) =>
      let message := what exception in
      mkBridgeError (match location_code message with Some c => Mongo c | None => NativeCode end) message
  | Server code _ _ => mkBridgeError (server_code code) text
  | BsonError _ | Closed | EngineThread _ | FreeDiskFloorNotRestored _ _ _ | InvalidArgument _
  | InvalidResponse _ | Native NativeClosed | NonUtf8Path => mkBridgeError NativeCode text
  end.
End from_error.

Definition BridgeError_from_jni (failure : string) : BridgeError :=
  mkBridgeError JniCode ("JNI call failed: " +:+ failure).

(** ** [options.rs] *)

Definition SLOTS : nat := 3.

Inductive PreallocationSlot := SlotUnset | SlotEnabled | SlotDisabled.

Definition PreallocationSlot_read (value : Z) : result BridgeError PreallocationSlot :=
  if value =? 0 then Ok SlotUnset
  else if value =? 1 then Ok SlotEnabled
  else if value =? 2 then Ok SlotDisabled
  else Err (invalid_argument
    ("journal_preallocation must be 0 (the engine's default), 1 (enabled) or 2 (disabled), got "
     +:+ pretty value)).

Definition requested (slot : PreallocationSlot) : option Preallocation :=
  match slot with
  | SlotUnset => None
  | SlotEnabled => Some Enabled
  | SlotDisabled => Some Disabled
  end.

Definition size_slot (value : Z) (name : string) : result BridgeError (option Z) :=
  if value =? 0 then Ok None
  else if decide (is_u32 value) then Ok (Some value)
  else Err (invalid_argument
    (name +:+ " must fit an unsigned 32-bit integer, got " +:+ pretty value)).

Definition range {T} (checked : result OutOfRange T) : result BridgeError T :=
  map_err (λ e, invalid_argument (OutOfRange_to_string e)) checked.

Definition open_options (cache journal preallocation : Z) : result BridgeError OpenOptions :=
  let options := OpenOptions_new in
  let? mebibytes := size_slot cache "cache_size_mebibytes" in
  let? options :=
    match mebibytes with
    | Some mebibytes =>
        map_ok (OpenOptions_cache_size options) (range (CacheSize_from_mebibytes mebibytes))
    | None => Ok options
    end in
  let? kibibytes := size_slot journal "journal_file_kibibytes" in
  let? options :=
    match kibibytes with
    | Some kibibytes =>
        map_ok (OpenOptions_journal_file_size options)
          (range (JournalFileSize_from_kibibytes kibibytes))
    | None => Ok options
    end in
  let? slot := PreallocationSlot_read preallocation in
  Ok (match requested slot with
      | Some p => OpenOptions_journal_preallocation options p
      | None => options
      end).

(** ** [bridge.rs] *)

Inductive Throwable :=
| EmbeddedMongoException (message : string) (code : Z)
| RuntimeException (message : string)
| OtherThrowable.

(** A JNI call that failed, and the exception it left pending, if any: an OutOfMemoryError where
    the JVM could not make room, say. *)
Record JniFailure := mkJniFailure { jni_text : string; jni_pending : option Throwable }.

(** An error on its way out of a native method, and what is pending in the JVM by then. *)
Record Failed := mkFailed { failed_with : BridgeError; failed_pending : option Throwable }.

Definition plainly (e : BridgeError) : Failed := mkFailed e None.
Definition from_jni (f : JniFailure) : Failed :=
  mkFailed (BridgeError_from_jni (jni_text f)) (jni_pending f).

(** A [jstring] argument: null, or what reading it gives. *)
Definition read_string (value : option (result JniFailure string)) (name : string)
    : result Failed string :=
  match value with
  | None => Err (plainly (invalid_argument (name +:+ " must not be null")))
  | Some s => map_err from_jni s
  end.

(** A [long[]] argument: null, or what its length and the copy give. As many of its slots as
    this build knows are copied, the rest stay zero. *)
Definition read_slots (options : option (result JniFailure (list Z))) : result Failed (list Z) :=
  match options with
  | None =>
      Err (plainly (invalid_argument
        "options must not be null; an empty array asks for the engine's defaults"))
  | Some options =>
      let? options := map_err from_jni options in
      let read := min (length options) SLOTS in
      Ok (take read options ++ drop read (replicate SLOTS 0))
  end.

(** The array pattern of [options::open_options]: the type has [SLOTS] of them. *)
Definition slot (slots : list Z) (i : nat) : Z := default 0 (slots !! i).

Definition handle_id (handle : Z) : result BridgeError HandleId :=
  ok_or (closed_handle ("embedded MongoDB handle " +:+ pretty handle
                          +:+ " is not a handle this process issued")) (HandleId_new handle).

(** ** [registry.rs]: what a call answers when its locks are granted

    [Registry.v] has the same operations one lock at a time. A client is its place in the
    heap; [None] is a wait for a lock. *)

Definition closed (id : HandleId) : BridgeError :=
  closed_handle ("embedded MongoDB handle " +:+ pretty (HandleId_get id)
                   +:+ " is unknown or already closed").

(** [closing] is what shutting the surplus client down came to. *)
Definition spent (closing : result BridgeError unit) : BridgeError :=
  let detail := match closing with
                | Ok _ => EmptyString
                | Err failure => "; closing it again failed: " +:+ BridgeError_to_string failure
                end in
  closed_handle ("embedded MongoDB handle ids are exhausted; this process cannot open another client"
                   +:+ detail).

Section natives.
Context {BE IOE X D : Type} (bson_text : BE → string) (io_text : IOE → string) (what : X → string).
(** The client's own operations, of the crate below: open a path with options, run a command,
    close. *)
Context (client_open : string → option OpenOptions → result (Error BE IOE X D) unit)
        (client_run : nat → string → list Z → result (Error BE IOE X D) (list Z))
        (client_close : nat → result (Error BE IOE X D) unit).
(** What the process drew for its tag. *)
Context (drawn : Z).

Local Abbreviation from := (BridgeError_from bson_text io_text what).

Definition registry_insert (r : Registry) : result BridgeError HandleId * Registry :=
  match Registry_insert drawn r with
  | (Some id, r) => (Ok id, r)
  | (None, r) => (Err (spent (map_err from (client_close (length (heap r))))), r)
  end.

Definition registry_run_command (id : HandleId) (database : string) (command : list Z) (r : Registry)
    : option (result BridgeError (list Z) * Registry) :=
  match Registry_lookup id r with
  | None => Some (Err (closed id), r)
  | Some e =>
      entry ← heap r !! e;
      entry ← Entry_read entry;
      Some ((if occupied entry then map_err from (client_run e database command)
             else Err (closed id)),
            update_entry e (Entry_read_drop entry) r)
  end.

Definition registry_close (id : HandleId) (r : Registry)
    : option (result BridgeError unit * Registry) :=
  match Registry_remove id r with
  | None => Some (Err (closed id), r)
  | Some (e, r) =>
      entry ← heap r !! e;
      entry ← Entry_write entry;
      let '(taken, entry) := Entry_take entry in
      Some ((if taken : bool then map_err from (client_close e) else Err (closed id)),
            update_entry e (Entry_write_drop entry) r)
  end.

(** *** The four native methods, before their answer is turned into Java's *)

Definition issue (r : Registry) : result BridgeError Z * Registry :=
  let '(id, r) := registry_insert r in (map_ok HandleId_get id, r).

Definition native_open (path : option (result JniFailure string)) (r : Registry)
    : result Failed Z * Registry :=
  match (let? path := read_string path "path" in
         map_err plainly (map_err from (client_open path None))) with
  | Err e => (Err e, r)
  | Ok _ => let '(answer, r) := issue r in (map_err plainly answer, r)
  end.

Definition native_open_with_options (path : option (result JniFailure string))
    (options : option (result JniFailure (list Z))) (r : Registry) : result Failed Z * Registry :=
  match (let? path := read_string path "path" in
         let? slots := read_slots options in
         let? options := map_err plainly (open_options (slot slots 0) (slot slots 1) (slot slots 2)) in
         map_err plainly (map_err from (client_open path (Some options)))) with
  | Err e => (Err e, r)
  | Ok _ => let '(answer, r) := issue r in (map_err plainly answer, r)
  end.

(** [command] is a [byte[]]: null, or what copying it out gives; [reply_array] is what copying
    the reply into the JVM comes to. *)
Definition native_command (handle : Z) (database : option (result JniFailure string))
    (command : option (result JniFailure (list Z))) (reply_array : list Z → option JniFailure)
    (r : Registry) : option (result Failed (list Z) * Registry) :=
  match (let? id := map_err plainly (handle_id handle) in
         let? database := read_string database "database" in
         let? command := ok_or (plainly (invalid_argument "command must not be null")) command in
         let? request := map_err from_jni command in
         Ok (id, database, request)) with
  | Err e => Some (Err e, r)
  | Ok (id, database, request) =>
      '(response, r) ← registry_run_command id database request r;
      Some ((let? response := map_err plainly response in
             match reply_array response with
             | None => Ok response
             | Some failure => Err (from_jni failure)
             end), r)
  end.

Definition native_close (handle : Z) (r : Registry) : option (result Failed unit * Registry) :=
  match handle_id handle with
  | Err e => Some (Err (plainly e), r)
  | Ok id =>
      '(answer, r) ← registry_close id r;
      Some (map_err plainly answer, r)
  end.
End natives.

(** ** [jvm.rs] *)

(** How the JVM answers [Throw] *)
Inductive ThrowAnswer := ThrowOk | ThrowJavaException | ThrowFailed (failure : string).

(** How the JVM answers the calls of [raise], in order, and what a failed one leaves pending. *)
Record Jvm := mkJvm {
  find_class : option string;
  from_str : option string;
  new_object : option string;
  cast_local : option string;
  throw_exception : ThrowAnswer;
  left_pending : option Throwable;
  throw_new : bool;
}.

Definition raise (jvm : Jvm) (error : BridgeError) : option string * option Throwable :=
  let exception := EmbeddedMongoException (be_message error) (as_java (be_code error)) in
  match find_class jvm, from_str jvm, new_object jvm, cast_local jvm with
  | None, None, None, None =>
      match throw_exception jvm with
      | ThrowOk | ThrowJavaException => (None, Some exception)
      | ThrowFailed failure => (Some failure, left_pending jvm)
      end
  | Some failure, _, _, _ | _, Some failure, _, _ | _, _, Some failure, _ | _, _, _, Some failure =>
      (Some failure, left_pending jvm)
  end.

(** [throw]: what is pending afterwards, from what was pending before. *)
Definition throw (jvm : Jvm) (error : BridgeError) (pending : option Throwable)
    : option Throwable :=
  match pending with
  | Some _ => pending
  | None =>
      match raise jvm error with
      | (None, pending) => pending
      | (Some failure, _) =>
          if throw_new jvm
          then Some (RuntimeException (BridgeError_to_string error +:+ "; and then "
                                         +:+ failure +:+ " while reporting it"))
          else None
      end
  end.

(** What the body of a native method came to, what was pending where it began, and what the method returns and leaves pending:
    [ThrowEmbeddedMongoException::on_error] and [on_panic]. *)
Inductive body (T : Type) :=
| Returned (answer : result Failed T)
| Panicked (payload : Payload).
Arguments Returned {T} answer.
Arguments Panicked {T} payload.

Definition resolve {T} (dflt : T) (jvm : Jvm) (b : body T) (pending : option Throwable)
    : T * option Throwable :=
  match b with
  | Returned (Ok value) => (value, pending)
  | Returned (Err (mkFailed error held)) =>
      (dflt, throw jvm error (match pending with Some _ => pending | None => held end))
  | Panicked payload => (dflt, throw jvm (from_panic payload) pending)
  end.

(** ** Reading [Location<n>] *)

Definition is_digit (c : ascii) : bool := bool_decide (is_Some (digit_value c)).

Fixpoint all_digits (s : string) : bool :=
  match s with EmptyString => true | String c s => is_digit c && all_digits s end.

(** What a run of digits is worth, unbounded, after [acc]. *)
Fixpoint decimal (acc : Z) (s : string) : Z :=
  match s with
  | EmptyString => acc
  | String c s => decimal (10 * acc + default 0 (digit_value c)) s
  end.

Definition ends_the_number (tail : string) : bool :=
  bool_decide (tail = EmptyString) || starts_with_colon tail.

Lemma digit_value_nonneg c d : digit_value c = Some d → 0 ≤ d ≤ 9.
Proof. unfold digit_value. case_decide; intros; simplify_eq; lia. Qed.

Lemma is_digit_value c : is_digit c = true → ∃ d, digit_value c = Some d ∧ 0 ≤ d ≤ 9.
Proof.
  intros Hd%bool_decide_eq_true. destruct Hd as [d Hd]. exists d.
  split; [done|]. by eapply digit_value_nonneg.
Qed.

Lemma decimal_cons acc c s d :
  digit_value c = Some d → decimal acc (String c s) = decimal (10 * acc + d) s.
Proof. intros H. cbn [decimal]. by rewrite H. Qed.

Lemma parse_digits_cons acc c s d :
  digit_value c = Some d →
  parse_digits acc (String c s)
  = if decide (10 * acc + d ≤ i32_max) then parse_digits (10 * acc + d) s else None.
Proof. intros H. cbn [parse_digits]. by rewrite H. Qed.

Lemma decimal_grows s acc : 0 ≤ acc → all_digits s = true → acc ≤ decimal acc s.
Proof.
  revert acc. induction s as [|c s IH]; intros acc Hacc Hs; [cbn; lia|].
  apply andb_true_iff in Hs as [(d & Hc & Hd)%is_digit_value Hs].
  rewrite (decimal_cons _ _ _ d) by done. specialize (IH (10 * acc + d) ltac:(lia) Hs). lia.
Qed.

(** The checked parse is the unbounded value, where that fits. *)
Lemma parse_digits_spec s acc n :
  0 ≤ acc ≤ i32_max → all_digits s = true →
  parse_digits acc s = Some n ↔ decimal acc s = n ∧ n ≤ i32_max.
Proof.
  revert acc. induction s as [|c s IH]; intros acc Hacc Hs.
  - simpl. split; [intros; simplify_eq; split; [done|lia]|by intros [-> _]].
  - apply andb_true_iff in Hs as [(d & Hc & Hd)%is_digit_value Hs].
    rewrite (decimal_cons _ _ _ d), (parse_digits_cons _ _ _ d) by done.
    case_decide.
    + apply IH; [lia|done].
    + split; [done|]. intros [<- Hn].
      pose proof (decimal_grows s (10 * acc + d) ltac:(lia) Hs). lia.
Qed.

Lemma strip_prefix_str_spec p s rest : strip_prefix_str p s = Some rest ↔ s = p +:+ rest.
Proof.
  revert s. induction p as [|a p IH]; intros s; simpl.
  - split; [by intros [=]|by intros ->].
  - destruct s as [|b s]; simpl; [split; [done|by intros [=]]|].
    destruct (Ascii.eqb_spec a b) as [->|Hab]; [rewrite IH|]; (split; [|by intros [=]]); [|done].
    by intros ->.
Qed.

Lemma split_digits_app s digits tail :
  split_digits s = (digits, tail) → s = digits +:+ tail ∧ all_digits digits = true.
Proof.
  revert digits. induction s as [|c s IH]; intros digits; simpl; [by intros [= <- <-]|].
  destruct (digit_value c) eqn:E; [|by intros [= <- <-]].
  destruct (split_digits s) as [ds t] eqn:Es. intros [= <- <-]. simpl.
  destruct (IH ds eq_refl) as [-> ->]. split; [done|].
  by rewrite andb_true_r; apply bool_decide_eq_true.
Qed.

Lemma split_digits_of digits tail :
  all_digits digits = true → ends_the_number tail = true →
  split_digits (digits +:+ tail) = (digits, tail).
Proof.
  intros Hd Ht. induction digits as [|c s IH]; simpl in *.
  - destruct tail as [|c tail]; simpl; [done|]. unfold ends_the_number in Ht. simpl in Ht.
    apply Ascii.eqb_eq in Ht as ->. done.
  - apply andb_true_iff in Hd as [(d & -> & _)%is_digit_value Hd]. by rewrite IH.
Qed.

Lemma parse_i32_spec s n :
  all_digits s = true → 0 < n → parse_i32 s = Some n ↔ decimal 0 s = n ∧ n ≤ i32_max.
Proof.
  intros Hs Hn. destruct s as [|c s]; simpl.
  - split; [done|lia].
  - apply (parse_digits_spec (String c s) 0 n); [unfold i32_max; lia|done].
Qed.

Lemma location_code_spec m n :
  location_code m = Some n ↔
  ∃ digits tail, m = "Location" +:+ digits +:+ tail ∧ all_digits digits = true ∧
    ends_the_number tail = true ∧ decimal 0 digits = n ∧ 1 ≤ n ≤ i32_max.
Proof.
  unfold location_code. split.
  - destruct (strip_prefix_str _ m) as [rest|] eqn:Em; simpl; [|done].
    apply strip_prefix_str_spec in Em as ->.
    destruct (split_digits rest) as [digits tail] eqn:Es.
    apply split_digits_app in Es as [-> Hd].
    destruct (_ && _) eqn:Et; [done|].
    destruct (parse_i32 digits) as [code|] eqn:Ep; simpl; [|done].
    destruct (decide (0 < code)); [|by intros]. intros [= <-]. apply parse_i32_spec in Ep as [Hv Hn]; [|done..].
    exists digits, tail. split_and!; try done || lia.
    unfold ends_the_number. by rewrite <- negb_orb, negb_false_iff in Et.
  - intros (digits & tail & -> & Hd & Ht & Hv & Hn).
    assert (strip_prefix_str "Location" ("Location" +:+ digits +:+ tail) = Some (digits +:+ tail))
      as -> by by apply strip_prefix_str_spec.
    cbn [mbind option_bind]. rewrite split_digits_of by done.
    rewrite <- negb_orb. fold (ends_the_number tail). rewrite Ht. cbn [negb].
    rewrite (proj2 (parse_i32_spec digits n Hd ltac:(lia))) by (split; [done|lia]).
    simpl. by rewrite decide_True by lia.
Qed.

Lemma server_code_range code :
  server_code code = NativeCode ∨
  ∃ n, server_code code = Mongo n ∧ code = Some n ∧ 1 ≤ n ≤ i32_max.
Proof.
  unfold server_code. destruct code as [c|]; simpl; [|by left].
  case_decide; simpl; [|by left]. case_decide; simpl; [|by left].
  right. exists c. split_and!; [done..|lia|lia].
Qed.

(** ** What Java is told *)

Section told.
Context {BE IOE X D : Type} (bson_text : BE → string) (io_text : IOE → string) (what : X → string).

Lemma BridgeError_from_code (error : Error BE IOE X D) :
  be_code (BridgeError_from bson_text io_text what error) = NativeCode ∨
  ∃ n, be_code (BridgeError_from bson_text io_text what error) = Mongo n ∧ 1 ≤ n ≤ i32_max.
Proof.
  destruct error as [| | | | | |[|x]| |code ? ?]; simpl; try by left.
  - destruct (location_code (what x)) as [n|] eqn:E; [right|by left].
    apply location_code_spec in E as (? & ? & _ & _ & _ & _ & Hn). by exists n.
  - destruct (server_code_range code) as [->|(n & -> & _ & Hn)]; [by left|right]. by exists n.
Qed.

(** No error reaches Java as code 0, and it reaches Java as a positive code exactly when
    the reply named that code or the exception's message is Location and that number, alone or
    before a colon, within an i32. *)
Theorem the_engines_codes_reach_java_unchanged (error : Error BE IOE X D) (n : Z) :
  as_java (be_code (BridgeError_from bson_text io_text what error)) ≠ 0 ∧
  (0 < n →
   as_java (be_code (BridgeError_from bson_text io_text what error)) = n ↔
     n ≤ i32_max ∧
     ((∃ message response, error = Server (Some n) message response) ∨
      (∃ exception digits tail, error = Native (NativeException exception) ∧
         what exception = "Location" +:+ digits +:+ tail ∧ all_digits digits = true ∧
         ends_the_number tail = true ∧ decimal 0 digits = n))).
Proof.
  split.
  { destruct (BridgeError_from_code error) as [->|(c & -> & Hc)]; simpl; lia. }
  intros Hn. split.
  - destruct error as [| | | | | |[|x]| |code msg d]; simpl; try lia.
    + destruct (location_code (what x)) as [c|] eqn:E; simpl; [|lia]. intros ->.
      apply location_code_spec in E as (ds & t & ? & ? & ? & ? & ?).
      split; [lia|]. right. by exists x, ds, t.
    + destruct (server_code_range code) as [->|(c & -> & -> & Hc)]; simpl; [lia|]. intros ->.
      split; [lia|]. left. by exists msg, d.
  - intros [Hmax [(msg & d & ->)|(x & ds & t & -> & Hw & Hd & Ht & Hv)]]; simpl.
    + unfold server_code. simpl. rewrite decide_True by (unfold i32_min; lia). simpl.
      by rewrite decide_True by done.
    + assert (location_code (what x) = Some n) as ->; [|done].
      apply location_code_spec. exists ds, t. split_and!; done || lia.
Qed.
End told.

Lemma engine_codes_witness :
  as_java (be_code (BridgeError_from (BE:=Empty_set) (IOE:=unit) (X:=unit) (D:=unit)
    (λ _, EmptyString) (λ _, EmptyString) (λ _, "Location13180000: only one")
    (Native (NativeException tt)))) = 13180000.
Proof.
  refine (proj2 (proj2 (the_engines_codes_reach_java_unchanged (BE:=Empty_set) (IOE:=unit) (X:=unit)
    (D:=unit) (λ _, EmptyString) (λ _, EmptyString) (λ _, "Location13180000: only one")
    (Native (NativeException tt)) 13180000) _) _); [lia|].
  split; [by vm_compute|right]. exists tt, "13180000", ": only one". by vm_compute.
Defined.

(** ** The options' slots *)

(** What a vector of slots may ask for. *)
Definition slots_in_range (cache journal preallocation : Z) : Prop :=
  (cache = 0 ∨ CacheSize_MIN_MEBIBYTES ≤ cache ≤ CacheSize_MAX_MEBIBYTES) ∧
  (journal = 0 ∨ JournalFileSize_MIN_KIBIBYTES ≤ journal ≤ JournalFileSize_MAX_KIBIBYTES) ∧
  0 ≤ preallocation ≤ 2.

Lemma read_slots_nth options slots i :
  read_slots (Some (Ok options)) = Ok slots → (i < SLOTS)%nat →
  slot slots i = default 0 (options !! i).
Proof.
  unfold read_slots, slot, SLOTS. cbn [map_err result_bind]. intros [= <-] Hi.
  destruct options as [|a [|b [|c l]]]; destruct i as [|[|[|i]]]; simpl; try done; lia.
Qed.

(** A size slot and the range check behind it, whatever the limit. *)
Lemma size_slot_checked {T S} (v low high : Z) name n u (mk : Z → S) (set : S → T) (unset : T) :
  0 < low → high ≤ u32_max →
  match (let? size := size_slot v name in
         match size with
         | Some size => map_ok set (range (map_ok mk (check_range n u size low high)))
         | None => Ok unset
         end) with
  | Ok t => (v = 0 ∧ t = unset) ∨ (low ≤ v ≤ high ∧ v ≠ 0 ∧ t = set (mk v))
  | Err e => (¬ (v = 0 ∨ low ≤ v ≤ high)) ∧ be_code e = InvalidArgumentCode
  end.
Proof.
  intros Hlow Hhigh. unfold size_slot. destruct (Z.eqb_spec v 0) as [->|Hv]; [by left|].
  case_decide as Hu; simpl.
  - destruct (decide (low ≤ v ≤ high)) as [Hr|Hr].
    + rewrite check_range_ok by done. simpl. by right.
    + rewrite check_range_err by done. simpl. split; [by intros [?|?]|done].
  - split; [|done]. unfold is_u32 in Hu. lia.
Qed.

Lemma PreallocationSlot_read_spec v :
  match PreallocationSlot_read v with
  | Ok s => 0 ≤ v ≤ 2 ∧ map_or 0 Preallocation_native (requested s) = v
  | Err e => (¬ 0 ≤ v ≤ 2) ∧ be_code e = InvalidArgumentCode
  end.
Proof.
  unfold PreallocationSlot_read.
  destruct (Z.eqb_spec v 0) as [->|]; [done|]. destruct (Z.eqb_spec v 1) as [->|]; [done|].
  destruct (Z.eqb_spec v 2) as [->|]; [done|].
  split; [lia|done].
Qed.

Lemma open_options_spec c j p :
  match open_options c j p with
  | Ok o => slots_in_range c j p ∧ oo_free_disk_floor o = None ∧ oo_concurrency o = None ∧
            to_ffi (oo_engine o) = mkNativeOpenOptions c j p
  | Err e => (¬ slots_in_range c j p) ∧ be_code e = InvalidArgumentCode
  end.
Proof.
  unfold open_options, slots_in_range, CacheSize_from_mebibytes, JournalFileSize_from_kibibytes.
  pose proof (size_slot_checked c CacheSize_MIN_MEBIBYTES CacheSize_MAX_MEBIBYTES
    "cache_size_mebibytes" "cache size" "MiB" mkCacheSize (OpenOptions_cache_size OpenOptions_new)
    OpenOptions_new ltac:(done) ltac:(done)) as Hc.
  unfold result_bind at 1 in Hc. unfold result_bind at 1.
  destruct (size_slot c _) as [mb|e] eqn:Ec; [|destruct Hc; tauto].
  destruct (match mb with Some _ => _ | None => _ end) as [o1|e]; [|destruct Hc; simpl; tauto].
  cbn [result_bind].
  pose proof (size_slot_checked j JournalFileSize_MIN_KIBIBYTES JournalFileSize_MAX_KIBIBYTES
    "journal_file_kibibytes" "journal file size" "KiB" mkJournalFileSize
    (OpenOptions_journal_file_size o1) o1 ltac:(done) ltac:(done)) as Hj.
  unfold result_bind at 1 in Hj. unfold result_bind at 1.
  destruct (size_slot j _) as [kb|e]; [|destruct Hj; tauto].
  destruct (match kb with Some _ => _ | None => _ end) as [o2|e]; [|destruct Hj; simpl; tauto].
  cbn [result_bind]. pose proof (PreallocationSlot_read_spec p) as Hp.
  destruct (PreallocationSlot_read p) as [s|e]; cbn [result_bind]; [|tauto].
  destruct Hp as [Hp Hs].
  destruct Hc as [[-> ->]|(? & ? & ->)], Hj as [[-> ->]|(? & ? & ->)], s;
    simpl in *; unfold to_ffi; simpl; subst; split_and!; auto; lia.
Qed.

(** A vector of option slots, short, exact or long, is accepted exactly when its slots are
    in range, and then what crosses to the engine is those slots, with no floor and no
    concurrency named; otherwise it is refused as an invalid argument. *)
Theorem the_slots_cross_to_the_engine_unchanged (options : list Z) :
  let asked i := default 0 (options !! i) in
  match (let? slots := read_slots (Some (Ok options)) in
         map_err plainly (open_options (slot slots 0) (slot slots 1) (slot slots 2))) with
  | Ok o => slots_in_range (asked 0%nat) (asked 1%nat) (asked 2%nat) ∧
            oo_free_disk_floor o = None ∧ oo_concurrency o = None ∧
            to_ffi (oo_engine o)
            = mkNativeOpenOptions (asked 0%nat) (asked 1%nat) (asked 2%nat)
  | Err e => (¬ slots_in_range (asked 0%nat) (asked 1%nat) (asked 2%nat)) ∧
             be_code (failed_with e) = InvalidArgumentCode
  end.
Proof.
  intros asked. destruct (read_slots (Some (Ok options))) as [slots|] eqn:E; [|done].
  cbn [result_bind]. unfold asked, SLOTS in *.
  rewrite <- !(read_slots_nth options slots) by (done || (unfold SLOTS; lia)).
  pose proof (open_options_spec (slot slots 0) (slot slots 1) (slot slots 2)) as Hspec.
  by destruct (open_options _ _ _).
Qed.

(** ** What is pending when a native method returns *)

(** The JVM refused the exception and then its replacement. *)
Definition refuses_everything (jvm : Jvm) (error : BridgeError) : Prop :=
  throw_new jvm = false ∧ fst (raise jvm error) ≠ None.

Lemma throw_spec jvm error pending :
  (is_Some (throw jvm error pending) ∨ refuses_everything jvm error) ∧
  (∀ t, pending = Some t → throw jvm error pending = Some t) ∧
  (pending = None → fst (raise jvm error) = None →
   throw jvm error pending
   = Some (EmbeddedMongoException (be_message error) (as_java (be_code error)))).
Proof.
  unfold throw, refuses_everything. destruct pending as [t|]; [split_and!; eauto; done|].
  destruct (raise jvm error) as [[failure|] after] eqn:E; simpl.
  - split_and!; [|done|done]. destruct (throw_new jvm); [by left; eauto|by right].
  - assert (after = Some (EmbeddedMongoException (be_message error) (as_java (be_code error))))
      as -> by (unfold raise in E; repeat case_match; by simplify_eq).
    split_and!; [by left; eauto|done|done].
Qed.

(** A native method that fails or panics returns Java's default with an exception pending,
    the one a failed JNI call left or else the error's own where the JVM takes it, unless the JVM
    refuses even the replacement; one that works leaves what was pending alone. *)
Theorem a_failed_call_returns_with_an_exception_pending {T} (dflt : T) (jvm : Jvm) (b : body T)
    (pending : option Throwable) :
  match b with
  | Returned (Ok value) => resolve dflt jvm b pending = (value, pending)
  | Returned (Err (mkFailed error held)) =>
      ∃ after, resolve dflt jvm b pending = (dflt, after) ∧
        (is_Some after ∨ refuses_everything jvm error) ∧
        (∀ t, pending = None → held = Some t → after = Some t) ∧
        (pending = None → held = None → fst (raise jvm error) = None →
         after = Some (EmbeddedMongoException (be_message error) (as_java (be_code error))))
  | Panicked payload =>
      ∃ after, resolve dflt jvm b pending = (dflt, after) ∧
        (is_Some after ∨ refuses_everything jvm (from_panic payload)) ∧
        (pending = None → fst (raise jvm (from_panic payload)) = None →
         after = Some (EmbeddedMongoException (be_message (from_panic payload)) (-3)))
  end.
Proof.
  destruct b as [[value|[error held]]|payload]; [done|..].
  - set (before := match pending with Some _ => pending | None => held end).
    destruct (throw_spec jvm error before) as (H1 & H3 & H2).
    exists (throw jvm error before). subst before.
    split_and!; [done|done|by intros t -> ->; auto|by intros -> ->; auto].
  - destruct (throw_spec jvm (from_panic payload) pending) as (H1 & _ & H2).
    exists (throw jvm (from_panic payload) pending). done.
Qed.

(** ** Handles that are not open *)

Section refused.
Context {BE IOE X D : Type} (bson_text : BE → string) (io_text : IOE → string) (what : X → string).
Context (client_run : nat → string → list Z → result (Error BE IOE X D) (list Z))
        (client_close : nat → result (Error BE IOE X D) unit).

(** A handle Java was never given, or one that is closed, is refused as closed by both methods
    and changes nothing. *)
Theorem a_handle_that_is_not_open_is_refused (handle : Z) (database : string) (request : list Z)
    (reply_array : list Z → option JniFailure) (r : Registry) :
  (∀ id, HandleId_new handle = Some id → entries r !! id = None) →
  ∃ e1 e2,
    native_close bson_text io_text what client_close handle r = Some (Err e1, r) ∧
    native_command bson_text io_text what client_run handle (Some (Ok database))
      (Some (Ok request)) reply_array r = Some (Err e2, r) ∧
    as_java (be_code (failed_with e1)) = -1 ∧ as_java (be_code (failed_with e2)) = -1.
Proof.
  intros Hr. unfold native_close, native_command, handle_id.
  destruct (HandleId_new handle) as [id|]; simpl; [|by eexists _, _].
  specialize (Hr id eq_refl).
  unfold registry_close, registry_run_command, Registry_remove, Registry_lookup. rewrite Hr.
  simpl. by eexists _, _.
Qed.
End refused.

Lemma refused_witness :
  ∃ e1 e2,
    native_close (BE:=Empty_set) (IOE:=unit) (X:=unit) (D:=unit) (λ _, EmptyString)
      (λ _, EmptyString) (λ _, EmptyString) (λ _, Ok tt) 5 Registry_new = Some (Err e1, Registry_new) ∧
    native_command (BE:=Empty_set) (IOE:=unit) (X:=unit) (D:=unit) (λ _, EmptyString)
      (λ _, EmptyString) (λ _, EmptyString) (λ _ _ _, Ok []) 5 (Some (Ok "admin")) (Some (Ok []))
      (λ _, None) Registry_new = Some (Err e2, Registry_new) ∧
    as_java (be_code (failed_with e1)) = -1 ∧ as_java (be_code (failed_with e2)) = -1.
Proof.
  refine (a_handle_that_is_not_open_is_refused (BE:=Empty_set) (IOE:=unit) (X:=unit) (D:=unit)
    (λ _, EmptyString) (λ _, EmptyString) (λ _, EmptyString) (λ _ _ _, Ok []) (λ _, Ok tt)
    5 "admin" [] (λ _, None) Registry_new _).
  intros id _. done.
Defined.
