(* ===== verification/NativeClient.v ===== *)
(** * Who owns the engine

    [embedded-mongodb-sys/src/client.rs]: the engine handle behind an [Arc] that the client and
    every session share, and each session behind an [Arc] that its killers share. An operation
    is one atomic change of a reference count with the native call it makes; a sequence of them
    is any interleaving of any number of threads, since [drop] of the last reference to a
    session, and a [close] that finds the engine shared, let go of the engine in a step of
    their own. What the engine answers is an argument. *)
From stdpp Require Import gmultiset.
From S2P Require Import Prelude EngineOptions Options Errors.

(** What the program holds: the client, a session, a killer of a session, or the bare
    [Arc<Runtime>] of something that is being dropped. *)
Inductive ref := RClient | RSession (i : nat) | RKiller (i : nat) | RRuntime.

#[export] Instance ref_eq_dec : EqDecision ref.
Proof. solve_decision. Defined.
#[export] Instance ref_countable : Countable ref.
Proof.
  refine (inj_countable'
    (λ r, match r with
          | RClient => inl true | RRuntime => inl false
          | RSession i => inr (inl i) | RKiller i => inr (inr i) end)
    (λ s, match s with
          | inl true => RClient | inl false => RRuntime
          | inr (inl i) => RSession i | inr (inr i) => RKiller i end) _).
  by intros [].
Defined.

(** [SessionInner] in its [Arc]: the count, and whether the native pointer is non-null. *)
Record SessionInner := mkSessionInner { si_strong : nat; si_session : bool }.

(** [Runtime] in its [Arc], the sessions, and what the program holds of them. *)
Record process := mkProcess {
  rt_strong : nat;
  rt_handle : bool;
  inners : gmap nat SessionInner;
  next_inner : nat;
  refs : gmultiset ref;
}.

(** The calls that reach the engine. *)
Inductive native_event :=
| NewSession (i : nat)
| Command (i : nat)
| Interrupt (i : nat)
| FreeSession (i : nat)
| CloseEngine
| FreeEngine.

#[export] Instance native_event_eq_dec : EqDecision native_event.
Proof. solve_decision. Defined.

Section client.
Context {X R : Type}.

Inductive reply := RDone | RBytes (bytes : R) | RRef (r : ref).

Inductive op :=
| OpenSession (answer : result X bool)
| RunCommand (i : nat) (answer : result X R)
| TakeKiller (i : nat)
| CloneKiller (i : nat)
| Kill (i : nat) (answer : result X unit)
| Drop (r : ref)
| Close (answer : result X unit).

(** [Client::from_inner]; the argument is [!inner.is_null()]. *)
Definition from_inner (inner : bool) : result (NativeError X) process :=
  if inner then Ok (mkProcess 1 true ∅ 0 {[+ RClient +]}) else Err NativeClosed.

(** [Client::open] and [Client::open_with_options], after the native call. *)
Definition Client_open (answer : result X bool) : result (NativeError X) process :=
  let? inner := map_err NativeException answer in from_inner inner.

(** [Drop] of an [Arc<Runtime>]: the last one frees the handle. *)
Definition drop_runtime (p : process) : list native_event * process :=
  let strong := pred (rt_strong p) in
  (if (strong =? 0)%nat then [FreeEngine] else [],
   mkProcess strong (rt_handle p) (inners p) (next_inner p) (refs p)).

(** [Drop] of an [Arc<SessionInner>]: the last one frees the session, then lets go of the
    runtime, which is the [RRuntime] it leaves. *)
Definition drop_inner (i : nat) (p : process) : option (list native_event * process) :=
  s ← inners p !! i;
  Some (if (pred (si_strong s) =? 0)%nat
        then ([FreeSession i],
              mkProcess (rt_strong p) (rt_handle p) (delete i (inners p)) (next_inner p)
                ({[+ RRuntime +]} ⊎ refs p))
        else ([],
              mkProcess (rt_strong p) (rt_handle p)
                (<[i := mkSessionInner (pred (si_strong s)) (si_session s)]> (inners p))
                (next_inner p) (refs p))).

Definition take_ref (r : ref) (p : process) : option process :=
  if decide (r ∈ refs p)
  then Some (mkProcess (rt_strong p) (rt_handle p) (inners p) (next_inner p) (refs p ∖ {[+ r +]}))
  else None.

Definition add_ref (r : ref) (p : process) : process :=
  mkProcess (rt_strong p) (rt_handle p) (inners p) (next_inner p) ({[+ r +]} ⊎ refs p).

(** [Runtime::open_session] and [Client::open_session]. *)
Definition open_session (answer : result X bool) (p : process)
    : list native_event * result (NativeError X) reply * process :=
  if rt_handle p then
    match answer with
    | Err e => ([], Err (NativeException e), p)
    | Ok false => ([], Err NativeClosed, p)
    | Ok true =>
        let i := next_inner p in
        ([NewSession i], Ok (RRef (RSession i)),
         mkProcess (S (rt_strong p)) (rt_handle p)
           (<[i := mkSessionInner 1 true]> (inners p)) (S i) ({[+ RSession i +]} ⊎ refs p))
    end
  else ([], Err NativeClosed, p).

(** [Session::run_command] and [Killer::kill]: a call on the session's native handle. *)
Definition on_session {A : Type} (i : nat) (event : native_event) (answer : result X A)
    (give : A → reply) (p : process)
    : option (list native_event * result (NativeError X) reply * process) :=
  s ← inners p !! i;
  Some (if si_session s
        then ([event], map_ok give (map_err NativeException answer), p)
        else ([], Err NativeClosed, p)).

(** [Session::killer] and [Killer::clone]. *)
Definition share_inner (i : nat) (p : process)
    : option (list native_event * result (NativeError X) reply * process) :=
  s ← inners p !! i;
  Some ([], Ok (RRef (RKiller i)),
        add_ref (RKiller i)
          (mkProcess (rt_strong p) (rt_handle p)
             (<[i := mkSessionInner (S (si_strong s)) (si_session s)]> (inners p))
             (next_inner p) (refs p))).

(** [Client::close]. The last owner closes the engine and then frees the handle; an owner
    among others gives its [Arc] up, which is still to be dropped. *)
Definition close (answer : result X unit) (p : process)
    : list native_event * result (NativeError X) reply * process :=
  if (rt_strong p =? 1)%nat
  then ([CloseEngine; FreeEngine], map_ok (λ _, RDone) (map_err NativeException answer),
        mkProcess 0 (rt_handle p) (inners p) (next_inner p) (refs p))
  else ([], Ok RDone, add_ref RRuntime p).

(** One operation; [None] where the program does not hold what the operation is called on. *)
Definition perform (o : op) (p : process)
    : option (list native_event * result (NativeError X) reply * process) :=
  match o with
  | OpenSession answer => if decide (RClient ∈ refs p) then Some (open_session answer p) else None
  | RunCommand i answer =>
      if decide (RSession i ∈ refs p) then on_session i (Command i) answer RBytes p else None
  | TakeKiller i => if decide (RSession i ∈ refs p) then share_inner i p else None
  | CloneKiller i => if decide (RKiller i ∈ refs p) then share_inner i p else None
  | Kill i answer =>
      if decide (RKiller i ∈ refs p) then on_session i (Interrupt i) answer (λ _, RDone) p else None
  | Drop r =>
      p ← take_ref r p;
      '(events, p) ← match r with
                     | RClient | RRuntime => Some (drop_runtime p)
                     | RSession i | RKiller i => drop_inner i p
                     end;
      Some (events, Ok RDone, p)
  | Close answer => p ← take_ref RClient p; Some (close answer p)
  end.

Fixpoint performs (ops : list op) (p : process) : option (list native_event * process) :=
  match ops with
  | [] => Some ([], p)
  | o :: ops =>
      '(events, _, p) ← perform o p;
      '(more, p) ← performs ops p;
      Some (events ++ more, p)
  end.
End client.
Arguments reply : clear implicits.
Arguments op : clear implicits.

(** ** What the engine requires of its callers

    A session is opened, used and freed while the engine is there, and the engine is closed at
    most once, and freed, with no session left. *)

Inductive engine := Live (sessions : gset nat) | Shut | Freed.

Definition engine_takes (n : engine) (e : native_event) : option engine :=
  match n, e with
  | Live s, NewSession i => if decide (i ∈ s) then None else Some (Live ({[ i ]} ∪ s))
  | Live s, (Command i | Interrupt i) => if decide (i ∈ s) then Some n else None
  | Live s, FreeSession i => if decide (i ∈ s) then Some (Live (s ∖ {[ i ]})) else None
  | Live s, CloseEngine => if decide (s = ∅) then Some Shut else None
  | Live s, FreeEngine => if decide (s = ∅) then Some Freed else None
  | Shut, FreeEngine => Some Freed
  | _, _ => None
  end.

Definition engine_takes_all (n : engine) (es : list native_event) : option engine :=
  foldl (λ n e, n ≫= λ n, engine_takes n e) (Some n) es.

(** ** The counts are the references *)

Abbreviation held r p := (multiplicity r (refs p)).

Definition inner_counted (p : process) (i : nat) : Prop :=
  match inners p !! i with
  | Some s => si_strong s = (held (RSession i) p + held (RKiller i) p)%nat ∧
              (0 < si_strong s)%nat ∧ si_session s = true ∧ (i < next_inner p)%nat
  | None => held (RSession i) p = 0%nat ∧ held (RKiller i) p = 0%nat
  end.

Record counted (p : process) (n : engine) : Prop := {
  counted_runtime : rt_strong p = (held RClient p + held RRuntime p + size (inners p))%nat;
  counted_handle : rt_handle p = true;
  counted_inners : ∀ i, inner_counted p i;
  counted_engine : n = if (rt_strong p =? 0)%nat then Freed else Live (dom (inners p));
}.

Lemma multiplicity_add r r' (m : gmultiset ref) :
  multiplicity r ({[+ r' +]} ⊎ m) = ((if decide (r = r') then 1 else 0) + multiplicity r m)%nat.
Proof. by rewrite multiplicity_disj_union, multiplicity_singleton. Qed.

Lemma multiplicity_take r r' (m : gmultiset ref) :
  multiplicity r (m ∖ {[+ r' +]}) = (multiplicity r m - (if decide (r = r') then 1 else 0))%nat.
Proof. by rewrite multiplicity_difference, multiplicity_singleton. Qed.

Lemma held_pos r p : r ∈ refs p ↔ (0 < held r p)%nat.
Proof. apply elem_of_multiplicity. Qed.

(** A program that holds anything has the engine alive. *)
Lemma counted_alive p n r :
  counted p n → r ∈ refs p → (0 < rt_strong p)%nat ∧ n = Live (dom (inners p)).
Proof.
  intros [Hrt _ Hin ->] Hr. rewrite held_pos in Hr.
  assert (0 < rt_strong p)%nat as Hpos.
  { assert (∀ i, (0 < held (RSession i) p + held (RKiller i) p → 0 < size (inners p))%nat) as Hi.
    { intros i Hm. specialize (Hin i). unfold inner_counted in Hin.
      destruct (inners p !! i) as [s|] eqn:E; [|lia].
      destruct (size (inners p)) eqn:Es; [|lia].
      apply map_size_empty_iff in Es. by rewrite Es in E. }
    destruct r as [|i|i|]; [lia|specialize (Hi i)..|lia]; lia. }
  split; [done|]. by rewrite (proj2 (Nat.eqb_neq _ _)) by lia.
Qed.

Lemma counted_inner p n i r :
  counted p n → r ∈ refs p → r = RSession i ∨ r = RKiller i →
  ∃ s, inners p !! i = Some s ∧ si_strong s = (held (RSession i) p + held (RKiller i) p)%nat ∧
       (0 < si_strong s)%nat ∧ si_session s = true.
Proof.
  intros Hp Hr Hi. rewrite held_pos in Hr. pose proof (counted_inners _ _ Hp i) as Hin. unfold inner_counted in Hin.
  destruct (inners p !! i) as [s|]; [exists s; tauto|]. destruct Hi as [->| ->]; lia.
Qed.

(** Nothing held: the engine is gone, and the other way around. *)
Lemma counted_empty p n : counted p n → n = Freed ↔ refs p = ∅.
Proof.
  intros Hp. split.
  - intros ->. apply gmultiset_eq. intros r. rewrite multiplicity_empty.
    destruct (decide (r ∈ refs p)) as [Hr|Hr].
    + by destruct (counted_alive _ _ r Hp Hr) as [_ ?].
    + rewrite held_pos in Hr. lia.
  - intros He. pose proof (counted_runtime _ _ Hp) as Hrt.
    assert (inners p = ∅) as Hi.
    { apply map_eq. intros i. rewrite lookup_empty.
      pose proof (counted_inners _ _ Hp i) as Hin. unfold inner_counted in Hin.
      destruct (inners p !! i) as [s|]; [|done].
      rewrite He, !multiplicity_empty in Hin. lia. }
    rewrite He, Hi, !multiplicity_empty, map_size_empty in Hrt.
    rewrite (counted_engine _ _ Hp), Hrt. done.
Qed.

(** Every reference counted, and the equalities between references decided. *)
Ltac count_refs :=
  repeat rewrite ?multiplicity_add, ?multiplicity_take in *;
  repeat (case_decide; simplify_eq/=); try (lia || (split_and?; destruct_and?; done || lia)).

Section steps.
Context {X R : Type}.
Implicit Types (p : process) (n : engine).

Lemma open_session_counted (answer : result X bool) p n :
  counted p n → RClient ∈ refs p →
  ∃ n', engine_takes_all n (fst (fst (open_session (R:=R) answer p))) = Some n' ∧
        counted (snd (open_session (R:=R) answer p)) n'.
Proof.
  intros Hp Hr. destruct (counted_alive _ _ _ Hp Hr) as [Hpos ->].
  unfold open_session. rewrite (counted_handle _ _ Hp).
  destruct answer as [[]|e]; [|by eexists..].
  unfold engine_takes_all. simpl.
  assert (inners p !! next_inner p = None) as Hfresh.
  { pose proof (counted_inners _ _ Hp (next_inner p)) as Hi. unfold inner_counted in Hi.
    destruct (inners p !! next_inner p); [lia|done]. }
  rewrite decide_False by (rewrite elem_of_dom, Hfresh; by intros [? ?]).
  eexists. split; [done|]. pose proof (counted_runtime _ _ Hp) as Hrt.
  split; simpl; [rewrite map_size_insert_None by done; count_refs|done| |].
  - intros i. pose proof (counted_inners _ _ Hp i) as Hi. unfold inner_counted in *. simpl.
    destruct (decide (i = next_inner p)) as [->|Hne].
    + rewrite lookup_insert_eq. rewrite Hfresh in Hi. simpl. count_refs.
    + rewrite lookup_insert_ne by done. destruct (inners p !! i); count_refs.
  - by rewrite dom_insert_L.
Qed.

Lemma on_session_counted {A} (i : nat) (event : native_event) (answer : result X A)
    (give : A → reply R) p n r es ans p' :
  counted p n → r ∈ refs p → r = RSession i ∨ r = RKiller i →
  event = Command i ∨ event = Interrupt i →
  on_session i event answer give p = Some (es, ans, p') →
  p' = p ∧ es = [event] ∧ engine_takes_all n es = Some n.
Proof.
  intros Hp Hr Hri He. destruct (counted_alive _ _ _ Hp Hr) as [_ ->].
  destruct (counted_inner _ _ _ _ Hp Hr Hri) as (s & Hs & _ & _ & Hnn).
  unfold on_session. rewrite Hs. simpl. rewrite Hnn. intros [= <- <- <-].
  split_and!; [done..|].
  assert (i ∈ dom (inners p)) by by apply elem_of_dom_2 in Hs.
  destruct He as [->| ->]; unfold engine_takes_all; simpl; by rewrite decide_True.
Qed.

Lemma share_inner_counted (i : nat) p n r es ans p' :
  counted p n → r ∈ refs p → r = RSession i ∨ r = RKiller i →
  share_inner (X:=X) (R:=R) i p = Some (es, ans, p') → es = [] ∧ counted p' n.
Proof.
  intros Hp Hr Hri. destruct (counted_alive _ _ _ Hp Hr) as [Hpos ->].
  destruct (counted_inner _ _ _ _ Hp Hr Hri) as (s & Hs & Hcount & Hspos & Hnn).
  unfold share_inner. rewrite Hs. simpl. intros [= <- <- <-]. split; [done|].
  pose proof (counted_runtime _ _ Hp) as Hrt.
  split; simpl; [rewrite map_size_insert_Some by done; count_refs|apply (counted_handle _ _ Hp)| |].
  - intros j. pose proof (counted_inners _ _ Hp j) as Hi. unfold inner_counted in *. simpl.
    destruct (decide (j = i)) as [->|Hne].
    + rewrite lookup_insert_eq. rewrite Hs in Hi. simpl. count_refs.
    + rewrite lookup_insert_ne by done. destruct (inners p !! j); count_refs.
  - rewrite (proj2 (Nat.eqb_neq _ _)) by lia.
    rewrite dom_insert_lookup_L; [done|by eexists].
Qed.

Lemma drop_runtime_counted p p' n r :
  counted p n → r = RClient ∨ r = RRuntime → take_ref r p = Some p' →
  ∃ n', engine_takes_all n (fst (drop_runtime p')) = Some n' ∧ counted (snd (drop_runtime p')) n'.
Proof.
  intros Hp Hr. unfold take_ref. case_decide as Hin; [|done]. intros [= <-].
  destruct (counted_alive _ _ _ Hp Hin) as [Hpos ->]. rewrite held_pos in Hin.
  pose proof (counted_runtime _ _ Hp) as Hrt. unfold drop_runtime. simpl.
  assert (∀ n', n' = (if (pred (rt_strong p) =? 0)%nat then Freed else Live (dom (inners p))) →
    counted (mkProcess (pred (rt_strong p)) (rt_handle p) (inners p) (next_inner p)
               (refs p ∖ {[+ r +]})) n') as Hc.
  { intros n' ->. split; simpl; [| apply (counted_handle _ _ Hp)| |done].
    - destruct Hr as [-> | ->]; count_refs.
    - intros i. pose proof (counted_inners _ _ Hp i) as Hi. unfold inner_counted in *. simpl.
      destruct (inners p !! i), Hr as [-> | ->]; count_refs. }
  destruct (pred (rt_strong p) =? 0)%nat eqn:E; simpl; eexists; (split; [|by apply Hc]); [|done].
  unfold engine_takes_all. simpl. apply Nat.eqb_eq in E.
  assert (inners p = ∅) as -> by (apply map_size_empty_iff; destruct Hr as [-> | ->]; lia).
  by rewrite decide_True by apply dom_empty_L.
Qed.

Lemma drop_inner_counted i p p' n r es p'' :
  counted p n → r = RSession i ∨ r = RKiller i → take_ref r p = Some p' →
  drop_inner i p' = Some (es, p'') → ∃ n', engine_takes_all n es = Some n' ∧ counted p'' n'.
Proof.
  intros Hp Hri. unfold take_ref. case_decide as Hin; [|done]. intros [= <-].
  destruct (counted_alive _ _ _ Hp Hin) as [Hpos ->].
  destruct (counted_inner _ _ _ _ Hp Hin Hri) as (s & Hs & Hcount & Hspos & Hnn).
  rewrite held_pos in Hin. pose proof (counted_runtime _ _ Hp) as Hrt.
  assert (size (inners p) ≠ 0%nat) as Hsize by by (apply map_size_non_empty_iff; intros E; rewrite E in Hs).
  unfold drop_inner. simpl. rewrite Hs. simpl.
  destruct (pred (si_strong s) =? 0)%nat eqn:E; intros [= <- <-];
    [apply Nat.eqb_eq in E|apply Nat.eqb_neq in E].
  - eexists. split.
    { unfold engine_takes_all. simpl. by rewrite decide_True by by eapply elem_of_dom_2. }
    split; simpl; [| apply (counted_handle _ _ Hp)| |].
    + rewrite map_size_delete_Some by done. destruct Hri as [-> | ->]; count_refs.
    + intros j. pose proof (counted_inners _ _ Hp j) as Hj. unfold inner_counted in *. simpl.
      destruct (decide (j = i)) as [->|Hne].
      * rewrite lookup_delete_eq. rewrite Hs in Hj. destruct Hri as [-> | ->]; count_refs.
      * rewrite lookup_delete_ne by done.
        destruct (inners p !! j), Hri as [-> | ->]; count_refs.
    + by rewrite dom_delete_L, (proj2 (Nat.eqb_neq _ _)) by lia.
  - eexists. split; [done|]. split; simpl; [| apply (counted_handle _ _ Hp)| |].
    + rewrite map_size_insert_Some by done. destruct Hri as [-> | ->]; count_refs.
    + intros j. pose proof (counted_inners _ _ Hp j) as Hj. unfold inner_counted in *. simpl.
      destruct (decide (j = i)) as [->|Hne].
      * rewrite lookup_insert_eq. rewrite Hs in Hj. simpl.
        destruct Hri as [-> | ->]; count_refs.
      * rewrite lookup_insert_ne by done.
        destruct (inners p !! j), Hri as [-> | ->]; count_refs.
    + rewrite dom_insert_lookup_L by done. by rewrite (proj2 (Nat.eqb_neq _ _)) by lia.
Qed.
End steps.

Lemma counted_start : counted (mkProcess 1 true ∅ 0 {[+ RClient +]}) (Live ∅).
Proof. split; simpl; [done|done| |by rewrite dom_empty_L]. intros i. by split. Qed.

(** The client can give its engine up eagerly exactly when nothing else is held. *)
Lemma sole_owner p n :
  counted p n → RClient ∈ refs p → rt_strong p = 1%nat ↔ refs p = {[+ RClient +]}.
Proof.
  intros Hp Hr. rewrite held_pos in Hr. pose proof (counted_runtime _ _ Hp) as Hrt.
  assert (∀ i, inner_counted p i) as Hin by apply Hp.
  split.
  - intros H1. assert (inners p = ∅) as Hi by (apply map_size_empty_iff; lia).
    apply gmultiset_eq. intros r. rewrite multiplicity_singleton.
    destruct r as [|i|i|]; case_decide; try done; try lia;
      specialize (Hin i); unfold inner_counted in Hin; rewrite Hi, lookup_empty in Hin; lia.
  - intros He. assert (inners p = ∅) as Hi.
    { apply map_eq. intros i. specialize (Hin i). unfold inner_counted in Hin.
      rewrite lookup_empty. destruct (inners p !! i); [|done].
      rewrite He, !multiplicity_singleton in Hin. simpl in Hin. lia. }
    rewrite Hi, He, !multiplicity_singleton, map_size_empty in Hrt. done.
Qed.

Section runs.
Context {X R : Type}.

Lemma close_counted (answer : result X unit) p p' n :
  counted p n → take_ref RClient p = Some p' →
  ∃ n', engine_takes_all n (fst (fst (close (R:=R) answer p'))) = Some n' ∧
        counted (snd (close (R:=R) answer p')) n'.
Proof.
  intros Hp Ht. pose proof Ht as Hdrop. unfold take_ref in Ht. case_decide as Hin; [|done].
  injection Ht as <-. destruct (counted_alive _ _ _ Hp Hin) as [Hpos ->].
  unfold close. simpl. destruct (Nat.eqb_spec (rt_strong p) 1) as [H1|H1]; simpl.
  - destruct (drop_runtime_counted _ _ _ RClient Hp (or_introl eq_refl) Hdrop) as (n' & Ht & Hc).
    unfold drop_runtime in Ht, Hc. simpl in Ht, Hc. rewrite H1 in Ht, Hc. simpl in Ht, Hc.
    exists n'. split; [|done]. unfold engine_takes_all in *. simpl in *.
    case_decide; [done|done].
  - eexists. split; [done|]. rewrite held_pos in Hin. pose proof (counted_runtime _ _ Hp) as Hrt.
    split; simpl; [count_refs|apply (counted_handle _ _ Hp)| |apply (counted_engine _ _ Hp)].
    intros i. pose proof (counted_inners _ _ Hp i) as Hi. unfold inner_counted in *. simpl.
    destruct (inners p !! i); count_refs.
Qed.

Lemma perform_counted (o : op X R) p n es ans p' :
  counted p n → perform o p = Some (es, ans, p') →
  ∃ n', engine_takes_all n es = Some n' ∧ counted p' n'.
Proof.
  intros Hp. destruct o as [answer|i answer|i|i|i answer|r|answer]; simpl.
  - case_decide as Hr; [|done]. intros [= H].
    destruct (open_session_counted (R:=R) answer p n Hp Hr) as (n' & Hn & Hc).
    rewrite H in Hn, Hc. by exists n'.
  - case_decide as Hr; [|done]. intros H.
    eapply on_session_counted in H as (-> & -> & Hn); eauto.
  - case_decide as Hr; [|done]. intros H.
    eapply share_inner_counted in H as [-> Hc]; eauto.
  - case_decide as Hr; [|done]. intros H.
    eapply share_inner_counted in H as [-> Hc]; eauto.
  - case_decide as Hr; [|done]. intros H.
    eapply on_session_counted in H as (-> & -> & Hn); eauto.
  - destruct (take_ref r p) as [p1|] eqn:Et; simpl; [|done].
    assert (r = RClient ∨ r = RRuntime ∨ ∃ i, r = RSession i ∨ r = RKiller i) as Hr
      by (destruct r; eauto).
    destruct Hr as [->|[->|(i & Hi)]].
    + intros [= <- _ <-]. apply (drop_runtime_counted p p1 n RClient); auto.
    + intros [= <- _ <-]. apply (drop_runtime_counted p p1 n RRuntime); auto.
    + assert (match r with RClient | RRuntime => Some (drop_runtime p1)
              | RSession i | RKiller i => drop_inner i p1 end = drop_inner i p1) as ->
        by (by destruct Hi as [-> | ->]).
      destruct (drop_inner i p1) as [[es1 p2]|] eqn:Ed; simpl; [|done].
      intros [= <- _ <-]. eapply drop_inner_counted; eauto.
  - destruct (take_ref RClient p) as [p1|] eqn:Et; simpl; [|done]. intros [= H].
    destruct (close_counted answer p p1 n Hp Et) as (n' & Hn & Hc).
    rewrite H in Hn, Hc. by exists n'.
Qed.

Lemma engine_takes_all_app n es1 es2 :
  engine_takes_all n (es1 ++ es2) = engine_takes_all n es1 ≫= λ n, engine_takes_all n es2.
Proof.
  unfold engine_takes_all. rewrite foldl_app. destruct (foldl _ _ es1); simpl; [done|].
  by induction es2.
Qed.

Lemma performs_counted (ops : list (op X R)) p n es p' :
  counted p n → performs ops p = Some (es, p') →
  ∃ n', engine_takes_all n es = Some n' ∧ counted p' n'.
Proof.
  revert p n es. induction ops as [|o ops IH]; intros p n es Hp; simpl.
  - intros [= <- <-]. by exists n.
  - destruct (perform o p) as [[[es1 ans] p1]|] eqn:Eo; simpl; [|done].
    destruct (performs ops p1) as [[es2 p2]|] eqn:Ep; simpl; [|done]. intros [= <- <-].
    destruct (perform_counted _ _ _ _ _ _ Hp Eo) as (n1 & Hn1 & Hp1).
    destruct (IH _ _ _ Hp1 Ep) as (n2 & Hn2 & Hp2).
    exists n2. split; [|done]. by rewrite engine_takes_all_app, Hn1.
Qed.
End runs.

(** Dropping a session that has no killers, to the end: the runtime is let go of as well. *)
Lemma drop_lone_session {X R X' R'} p n i :
  counted p n → held (RSession i) p = 1%nat → held (RKiller i) p = 0%nat →
  ∃ p1 es2 p2,
    perform (X:=X) (R:=R) (Drop (RSession i)) p = Some ([FreeSession i], Ok RDone, p1) ∧
    perform (X:=X') (R:=R') (Drop RRuntime) p1 = Some (es2, Ok RDone, p2) ∧
    refs p2 = refs p ∖ {[+ RSession i +]}.
Proof.
  intros Hp H1 H0. pose proof (counted_inners _ _ Hp i) as Hi. unfold inner_counted in Hi.
  destruct (inners p !! i) as [s|] eqn:Hs; [|lia]. destruct Hi as (Hcount & _).
  eexists _, _, _. split_and!.
  - simpl. unfold take_ref. rewrite decide_True by (rewrite held_pos; lia). simpl.
    unfold drop_inner. simpl. rewrite Hs. simpl. by rewrite Hcount, H1, H0.
  - simpl. unfold take_ref. rewrite decide_True by (simpl; multiset_solver). done.
  - simpl. multiset_solver.
Qed.

Section claims.
Context {X R : Type}.

(** C7. Every interleaving of opening, running, killing, cloning, dropping and closing sends the
    engine a legal sequence of calls: sessions are used and freed while it lives, it is closed
    at most once and freed last, exactly when nothing is held. *)
Theorem the_engine_outlives_everything_opened_on_it (ops : list (op X R)) (answer : result X bool)
    (p p' : process) (es : list native_event) :
  Client_open answer = Ok p → performs ops p = Some (es, p') →
  ∃ n, engine_takes_all (Live ∅) es = Some n ∧
       (n = Freed ↔ refs p' = ∅) ∧
       ((∃ r, r ∈ refs p') → ∃ s, n = Live s ∧
          ∀ i, i ∈ s ↔ RSession i ∈ refs p' ∨ RKiller i ∈ refs p').
Proof.
  intros Ho Hops. unfold Client_open in Ho. destruct answer as [[]|]; simplify_eq/=.
  destruct (performs_counted ops _ _ _ _ counted_start Hops) as (n & Hn & Hp).
  exists n. split_and!; [done|by apply (counted_empty _ _ Hp)..|].
  intros [r Hr]. destruct (counted_alive _ _ _ Hp Hr) as [_ ->].
  exists (dom (inners p')). split; [done|]. intros i. rewrite elem_of_dom, !held_pos.
  pose proof (counted_inners _ _ Hp i) as Hi. unfold inner_counted in Hi.
  destruct (inners p' !! i) as [s|].
  - split; [lia|by eexists].
  - split; [by intros [? ?]|lia].
Qed.

(** A close shuts the engine down at once, and reports what it said, exactly when the client is
    all that is held; otherwise the engine lives on for what is. *)
Theorem a_close_is_eager_exactly_when_nothing_else_is_held (ops : list (op X R))
    (opened : result X bool) (p p' : process) (es : list native_event) (answer : result X unit) :
  Client_open opened = Ok p → performs ops p = Some (es, p') → RClient ∈ refs p' →
  ∃ es' ans p'', perform (R:=R) (Close answer) p' = Some (es', ans, p'') ∧
    (refs p' = {[+ RClient +]} →
       es' = [CloseEngine; FreeEngine] ∧ refs p'' = ∅ ∧
       ans = map_ok (λ _, RDone) (map_err NativeException answer)) ∧
    (refs p' ≠ {[+ RClient +]} → es' = [] ∧ ans = Ok RDone ∧ RRuntime ∈ refs p'').
Proof.
  intros Ho Hops Hr. unfold Client_open in Ho. destruct opened as [[]|]; simplify_eq/=.
  destruct (performs_counted ops _ _ _ _ counted_start Hops) as (n & _ & Hp).
  pose proof (sole_owner _ _ Hp Hr) as Hsole.
  unfold take_ref. rewrite decide_True by done. simpl. unfold close. simpl.
  destruct (Nat.eqb_spec (rt_strong p') 1) as [H1|H1]; eexists _, _, _; (split; [done|]).
  - apply Hsole in H1. split; [|done]. intros _. split_and!; [done| |done].
    simpl. rewrite H1. multiset_solver.
  - split; [tauto|]. intros _. split_and!; [done..|]. simpl. multiset_solver.
Qed.
End claims.

(** Two sessions, a killer that outlives its session, and a close between the drops. *)
Definition sample_ops : list (op unit unit) :=
  [OpenSession (Ok true); OpenSession (Ok true); TakeKiller 0; RunCommand 0 (Ok ());
   Drop (RSession 0); Kill 0 (Ok ()); Close (Ok ()); Drop RRuntime; Drop (RSession 1);
   Drop RRuntime; Drop (RKiller 0); Drop RRuntime].

Lemma outlives_witness :
  ∃ es p', performs sample_ops (mkProcess 1 true ∅ 0 {[+ RClient +]}) = Some (es, p') ∧
  ∃ n, engine_takes_all (Live ∅) es = Some n ∧
       (n = Freed ↔ refs p' = ∅) ∧
       ((∃ r, r ∈ refs p') → ∃ s, n = Live s ∧
          ∀ i, i ∈ s ↔ RSession i ∈ refs p' ∨ RKiller i ∈ refs p').
Proof.
  eexists _, _. split; [vm_compute; reflexivity|].
  refine (the_engine_outlives_everything_opened_on_it (X:=unit) (R:=unit) sample_ops (Ok true)
    (mkProcess 1 true ∅ 0 {[+ RClient +]}) _ _ _ _); [done|by vm_compute].
Defined.

Lemma eager_witness :
  ∃ es' ans p'', perform (X:=unit) (R:=unit) (Close (Err tt)) (mkProcess 1 true ∅ 1 {[+ RClient +]})
    = Some (es', ans, p'') ∧
    (({[+ RClient +]} : gmultiset ref) = {[+ RClient +]} →
       es' = [CloseEngine; FreeEngine] ∧ refs p'' = ∅ ∧
       ans = map_ok (λ _ : unit, RDone) (map_err NativeException (Err tt))) ∧
    (({[+ RClient +]} : gmultiset ref) ≠ {[+ RClient +]} →
       es' = [] ∧ ans = Ok RDone ∧ RRuntime ∈ refs p'').
Proof.
  refine (a_close_is_eager_exactly_when_nothing_else_is_held (X:=unit) (R:=unit)
    [OpenSession (Ok true); Drop (RSession 0); Drop RRuntime] (Ok true)
    (mkProcess 1 true ∅ 0 {[+ RClient +]}) (mkProcess 1 true ∅ 1 {[+ RClient +]})
    [NewSession 0; FreeSession 0] (Err tt) _ _ _); [done|by vm_compute|].
  by apply gmultiset_elem_of_singleton.
Defined.
