(* ===== verification/Sound.v ===== *)
(** * Programs that keep an invariant

    A program is sound for an invariant when, started where it holds, it neither blocks nor
    panics and leaves it holding; running out of fuel is the one other way it may end. Sound
    programs compose, so whatever is built from the commands of a client is sound as soon as
    one command is: the cursors, the repair pass and the sections under the floors' lock. *)
From S2P Require Import Prelude EngineOptions Options Slot Reaper SessionPool Errors Bson.
From S2P Require Import Response Effects Client Find Limits Text Marker Repair.

Definition sound {K A : Type} (P : K → Prop) (m : io K A) : Prop :=
  ∀ k, P k →
    match m k with
    | (Returns _, k') | (NoFuel, k') => P k'
    | (Blocks, _) | (Panics, _) => False
    end.

Section combinators.
Context {K : Type} (P : K → Prop).

Lemma sound_ret {A} (a : A) : sound P (ret a).
Proof. by intros k. Qed.

Lemma sound_lift {E A} (r : result E A) : sound P (lift r).
Proof. by intros k. Qed.

Lemma sound_nofuel {A} : sound P (λ k, (NoFuel : call A, k)).
Proof. by intros k. Qed.

Lemma sound_bind {A B} (m : io K A) (f : A → io K B) :
  sound P m → (∀ a, sound P (f a)) → sound P (bind m f).
Proof.
  intros Hm Hf k Hk. unfold bind. specialize (Hm k Hk).
  destruct (m k) as [[a| | |] k']; try done. by apply Hf.
Qed.

Lemma sound_try {E A B} (m : io K (result E A)) (f : A → io K (result E B)) :
  sound P m → (∀ a, sound P (f a)) → sound P (try_bind m f).
Proof. intros Hm Hf. apply sound_bind; [done|]. intros [a|e]; [done|apply sound_ret]. Qed.
End combinators.

(** A program is taken apart until only what is already known to be sound is left. *)
Ltac keeps :=
  repeat lazymatch goal with
  | |- ∀ _, _ => intro
  | |- sound _ (ret _) => apply sound_ret
  | |- sound _ (lift _) => apply sound_lift
  | |- sound _ (λ k, (NoFuel, k)) => apply sound_nofuel
  | |- sound _ (try_bind _ _) => apply sound_try
  | |- sound _ (bind _ _) => apply sound_bind
  | |- sound _ (match ?x with _ => _ end) => destruct x
  | |- sound _ _ => assumption || match goal with H : _ |- _ => apply H end
  end.

Section client.
Context `{BsonLib Document ObjectId Other Bytes BE} {IOE X : Type}.
Context `{!Commands K Document (Error BE IOE X Document)}.
Context (P : K → Prop).
Context (Hcommand : ∀ database (c : Document), sound P (command (K:=K) database c)).

Lemma kill_sound (cur : Cursor Document) : sound P (kill cur).
Proof. unfold kill. keeps. Qed.

Lemma Cursor_drop_sound (cur : Cursor Document) : sound P (Cursor_drop cur).
Proof. unfold Cursor_drop. keeps. apply kill_sound. Qed.

Lemma next_sound {T} (deserialize : Document → result BE T) fuel (cur : Cursor Document) :
  sound P (next deserialize fuel cur).
Proof.
  revert cur. induction fuel as [|fuel IH]; intros cur; simpl; [keeps|].
  unfold fetch_next_batch. keeps.
Qed.

Context (uuid_text : Other → option string) (deserialize : Document → result BE Document).

Lemma collect_names_sound fuel database cur found :
  sound P (collect_names (IOE:=IOE) (X:=X) deserialize fuel database cur found).
Proof.
  revert cur found. induction fuel as [|fuel IH]; intros cur found;
    cbn [collect_names]; [keeps|].
  apply sound_bind; [apply next_sound|].
  keeps; apply Cursor_drop_sound.
Qed.

Lemma namespaces_sound fuel : sound P (namespaces (IOE:=IOE) (X:=X) deserialize fuel).
Proof.
  assert (∀ dbs found, sound P (list_databases (IOE:=IOE) (X:=X) deserialize fuel dbs found)) as Hl.
  { induction dbs as [|entry dbs IH]; intros found; simpl; [keeps|].
    unfold collections. keeps. apply collect_names_sound. }
  unfold namespaces. keeps.
Qed.

Local Abbreviation logged_P := (λ s : K * list Event, P (fst s)).

Lemma on_client_sound {A} (m : io K A) : sound P m → sound logged_P (on_client m).
Proof.
  intros Hm [k es] Hk. unfold on_client. simpl. specialize (Hm k Hk).
  by destruct (m k) as [[] ?].
Qed.

Lemma emit_sound es : sound logged_P (emit (K:=K) es).
Proof. by intros [k l]. Qed.

Lemma visit_sound n : sound logged_P (visit (IOE:=IOE) (X:=X) uuid_text n).
Proof.
  assert (∀ n mode, sound logged_P (on_client (validate (IOE:=IOE) (X:=X) n mode))) as Hv.
  { intros. apply on_client_sound, Hcommand. }
  unfold visit. keeps; apply emit_sound.
Qed.

Lemma pass_sound fuel : sound logged_P (pass (IOE:=IOE) (X:=X) uuid_text deserialize fuel).
Proof.
  assert (∀ ns o, sound logged_P
    (sweep_from (IOE:=IOE) (X:=X) o ns (visit uuid_text))) as Hs.
  { induction ns as [|n ns IH]; intros o; simpl; [keeps|].
    apply sound_bind; [apply visit_sound|]. keeps. apply emit_sound. }
  unfold pass, sweep. apply sound_bind; [apply on_client_sound, namespaces_sound|].
  keeps; apply emit_sound.
Qed.

Lemma repair_run_sound fuel variable org :
  sound (λ w : World K, P (client_of w)) (run (IOE:=IOE) (X:=X) uuid_text deserialize fuel variable org).
Proof.
  assert (sound (λ w : World K, P (client_of w)) record) as Hrec.
  { intros w Hw. unfold record. by destruct (run_fs _ _ _). }
  assert (∀ A (m : io (K * list Event) A), sound logged_P m →
    sound (λ w : World K, P (client_of w)) (logged_in_world m)) as Hlog.
  { intros A m Hm w Hw. unfold logged_in_world. specialize (Hm (client_of w, events w) Hw).
    by destruct (m _) as [[] [? ?]]. }
  intros w Hw. unfold run. destruct (skip_requested variable); [done|].
  destruct (marker_state _ _); [done|]. destruct org; [|by apply Hrec].
  apply (sound_bind _ (logged_in_world (pass uuid_text deserialize fuel))
    (λ outcome, match outcome with Complete => record
                | Incomplete => logged_in_world (emit [PassIncomplete]) end)); [|intros []|done].
  - apply Hlog, pass_sound.
  - done.
  - apply Hlog, emit_sound.
Qed.
End client.

Section sections.
Context `{BsonLib Document ObjectId Other Bytes BE} {IOE X : Type}.
Context `{!AdminCommands K Document (Error BE IOE X Document)} (P : K → Prop).

Lemma run_section_sound {A} (m : section (BE:=BE) (IOE:=IOE) (X:=X) (Document:=Document) A) :
  (∀ c, sound P (run_on_admin c)) → sound (λ s, P (fst s)) (run_section m).
Proof.
  intros Hadmin. induction m as [a|c k IH|k IH|v k IH]; intros [e rec] Hs; simpl in *.
  - done.
  - specialize (Hadmin c e Hs). destruct (run_on_admin c e) as [[r| | |] e']; try done.
    by apply IH.
  - by apply IH.
  - by apply IH.
Qed.
End sections.
