(* ===== verification/Open.v ===== *)
(** * Opening and closing a client

    [Client::open], [new], [with_options] and [close] of [src/client.rs], with everything they
    are made of: the path, the directory's origin, the engine ([NativeClient]), the pool of
    sessions ([SessionPool], [Client]), the free-disk floors ([Limits]) and the repair pass
    ([Repair]). The engine itself is given; its sessions are those [NativeClient] counts. *)
From stdpp Require Import gmultiset.
From S2P Require Import Prelude EngineOptions Options Slot Reaper SessionPool Errors Bson.
From S2P Require Import Response Effects Client Find Limits Text Marker Repair NativeClient Sound.

(** The engine: what its calls answer, and what starting it does to the directory. *)
Class EngineLib (E Bytes X : Type) := {
  engine_open : string → option NativeOpenOptions → E → Disk → E * Disk * result X bool;
  engine_open_session : E → E * result X bool;
  engine_run : nat → string → Bytes → E → E * result X Bytes;
  engine_close : E → E * result X unit;
  engine_now : E → Z;
}.

(** The engine, who owns it, and the calls that have reached the runtime in place. *)
Record NativeState (E : Type) := mkNative {
  native_proc : process;
  native_trace : list native_event;
  native_engine : E;
}.
Arguments mkNative {E} _ _ _.
Arguments native_proc {E} _.
Arguments native_trace {E} _.
Arguments native_engine {E} _.

(** Dropping a reference; the engine is asked nothing. Dropping a session without killers lets
    go of the runtime as well. *)
Definition native_drop {E} (r : ref) (w : NativeState E) : NativeState E :=
  match NativeClient.perform (X:=Empty_set) (R:=Empty_set) (Drop r) (native_proc w) with
  | Some (events, _, p) => mkNative p (native_trace w ++ events) (native_engine w)
  | None => w
  end.
Definition native_drop_session {E} (i : nat) (w : NativeState E) : NativeState E :=
  native_drop RRuntime (native_drop (RSession i) w).

Section native.
Context `{EngineLib E Bytes X}.
Implicit Types (w : NativeState E).

(** One operation on the native client. *)
Definition native_perform (o : op X Bytes) (e : E) w
    : option (result (NativeError X) (reply Bytes)) * NativeState E :=
  match NativeClient.perform o (native_proc w) with
  | Some (events, r, p) => (Some r, mkNative p (native_trace w ++ events) e)
  | None => (None, w)
  end.

#[export] Instance Native_NativeLib : NativeLib (NativeState E) nat Bytes X := {
  native_open_session w :=
    let '(e, answer) := engine_open_session (native_engine w) in
    let '(events, r, p) := open_session (R:=Bytes) answer (native_proc w) in
    (mkNative p (native_trace w ++ events) e, map_ok (λ _, next_inner (native_proc w)) r);
  native_run_command i database command w :=
    let '(e, answer) := engine_run i database command (native_engine w) in
    match native_perform (RunCommand i answer) e w with
    | (Some (Ok (RBytes response)), w) => (w, Ok response)
    | (Some (Err error), w) => (w, Err error)
    | (_, w) => (w, Err NativeClosed)
    end;
  native_now w := engine_now (native_engine w);
}.
End native.

(** The process around an open: the client in place, the floors recorded for the process, the
    data directory with the faults it will meet, and the log. *)
Record machine (E : Type) := mkMachine {
  m_client : Client (NativeState E) nat;
  m_recorded : option ReportedFloors;
  m_log : list Event;
  m_disk : Disk;
  m_faults : list fault;
  m_readable : bool;
}.
Arguments mkMachine {E} _ _ _ _ _ _.
Arguments m_client {E} _.
Arguments m_recorded {E} _.
Arguments m_log {E} _.
Arguments m_disk {E} _.
Arguments m_faults {E} _.
Arguments m_readable {E} _.

Definition with_client {E} (c : Client (NativeState E) nat) (m : machine E) : machine E :=
  mkMachine c (m_recorded m) (m_log m) (m_disk m) (m_faults m) (m_readable m).

Section open.
Context `{EngineLib E Bytes X, BsonLib Document ObjectId Other Bytes BE} {IOE : Type}.
Context (debug : Bson Document ObjectId Other → string) (uuid_text : Other → option string)
        (deserialize : Document → result BE Document).
Local Abbreviation error := (Error BE IOE X Document).
Local Abbreviation client := (Client (NativeState E) nat).
Implicit Types (m : machine E).

(** [NativeClient::open] or [open_with_options]: a runtime with its own count, or an error. *)
Definition open_runtime (path : string) (options : option OpenOptions)
    : io (machine E) (result error unit) := λ m,
  let w := runtime (m_client m) in
  let '(e, d, answer) := engine_open path (to_ffi ∘ oo_engine <$> options) (native_engine w) (m_disk m) in
  let put w := mkMachine (mkClient (limits (m_client m)) (idles (m_client m)) w)
                 (m_recorded m) (m_log m) d (m_faults m) (m_readable m) in
  match Client_open answer with
  | Ok p => (Returns (Ok tt), put (mkNative p [] e))
  | Err error => (Returns (Err (Error_from_native error)), put (mkNative (native_proc w) (native_trace w) e))
  end.

(** [SessionPool::open]; an error drops the runtime, the only thing open by then. *)
Definition open_pool (limits : Concurrency) : io (machine E) (result error unit) := λ m,
  let w := runtime (m_client m) in
  match SessionPool_open native_open_session native_drop_session w limits (native_now w) with
  | (w, Ok (idles, _)) => (Returns (Ok tt), with_client (mkClient limits idles w) m)
  | (w, Err error) =>
      (Returns (Err (Error_from_native error)),
       with_client (mkClient limits (idles (m_client m)) (native_drop RClient w)) m)
  end.

(** Dropping the pool: its reaper is stopped and joined, and its sessions go, first to last. *)
Definition drop_pool (c : client) : client :=
  mkClient (limits c) (mkState [] (open (idles c)) true)
    (foldl (λ w i, native_drop_session i w) (runtime c) (idle_session <$> idle (idles c))).

(** Dropping a client: the pool first, then the runtime. *)
Definition drop_client : io (machine E) unit := λ m,
  let c := drop_pool (m_client m) in
  (Returns tt, with_client (mkClient (limits c) (idles c) (native_drop RClient (runtime c))) m).

Definition establish_free_disk_floor (requested : option FreeDiskFloor)
    : io (machine E) (result error unit) := λ m,
  let '(r, (c, rec)) := run_section (establish debug requested) (m_client m, m_recorded m) in
  (r, mkMachine c rec (m_log m) (m_disk m) (m_faults m) (m_readable m)).

Definition repair_run (fuel : nat) (variable : option (option string)) (org : Origin)
    : io (machine E) unit := λ m,
  let '(r, w) := run (IOE:=IOE) (X:=X) uuid_text deserialize fuel variable org
                   (mkWorld (m_client m) (m_log m) (m_disk m) (m_faults m) (m_readable m)) in
  (r, mkMachine (client_of w) (m_recorded m) (events w) (directory w) (disk_faults w) (readable w)).

(** [Client::open]; the path as UTF-8, where it is that. The client is left in the machine. *)
Definition open (fuel : nat) (variable : option (option string)) (path : option string)
    (options : option OpenOptions) : io (machine E) (result error unit) := λ m,
  match path with
  | None => (Returns (Err NonUtf8Path), m)
  | Some text =>
      let org := origin (m_disk m) in
      (let!? _ := open_runtime text options in
       let!? _ := open_pool (resolve_concurrency options) in
       let! established := establish_free_disk_floor (options ≫= oo_free_disk_floor) in
       match established with
       | Err error => let! _ := drop_client in ret (Err error)
       | Ok _ => let! _ := repair_run fuel variable org in ret (Ok tt)
       end) m
  end.

Definition new (fuel : nat) (variable : option (option string)) (path : option string) :=
  open fuel variable path None.

Definition with_options (fuel : nat) (variable : option (option string)) (path : option string)
    (options : OpenOptions) := open fuel variable path (Some options).

(** [Client::close]: the pool goes first, so the runtime is the engine's sole owner. *)
Definition close : io (machine E) (result error unit) := λ m,
  let c := drop_pool (m_client m) in
  let '(e, answer) := engine_close (native_engine (runtime c)) in
  let '(r, w) := native_perform (Bytes:=Bytes) (Close answer) e (runtime c) in
  (Returns (match r with
            | Some r => map_ok (λ _, tt) (map_err Error_from_native r)
            | None => Err Closed
            end),
   with_client (mkClient (limits c) (idles c) w) m).
End open.

(** ** What is held *)

(** The calls so far respect the engine, and the counts are those of the references. *)
Definition tracked {E} (w : NativeState E) : Prop :=
  ∃ n, engine_takes_all (Live ∅) (native_trace w) = Some n ∧ counted (native_proc w) n.

(** The program holds the client and these sessions, and nothing else. *)
Definition holds {E} (w : NativeState E) (l : list nat) : Prop :=
  tracked w ∧ NoDup l ∧
  refs (native_proc w) = {[+ RClient +]} ⊎ list_to_set_disj (RSession <$> l).

(** Nothing is held any more, and the engine is gone. *)
Definition released {E} (w : NativeState E) : Prop :=
  refs (native_proc w) = ∅ ∧ engine_takes_all (Live ∅) (native_trace w) = Some Freed.

Section held.
Context {E : Type}.
Implicit Types (w : NativeState E) (l : list nat).

Lemma tracked_perform {X R} (o : op X R) w es r p (e : E) :
  tracked w → NativeClient.perform o (native_proc w) = Some (es, r, p) →
  tracked (mkNative p (native_trace w ++ es) e).
Proof.
  intros (n & Hn & Hc) Hp. destruct (perform_counted o _ _ _ _ _ Hc Hp) as (n' & Hn' & Hc').
  exists n'. simpl. split; [|done]. by rewrite engine_takes_all_app, Hn.
Qed.

Lemma tracked_released w : tracked w → refs (native_proc w) = ∅ → released w.
Proof.
  intros (n & Hn & Hc) He. split; [done|]. by rewrite Hn, (proj2 (counted_empty _ _ Hc) He).
Qed.

Lemma holds_perm w l l' : l ≡ₚ l' → holds w l → holds w l'.
Proof. intros Hl (Ht & Hd & Hr). split_and!; [done|by rewrite <- Hl|]. by rewrite Hr, Hl. Qed.

Lemma held_sessions l i :
  NoDup l → multiplicity (RSession i) (list_to_set_disj (RSession <$> l))
            = if decide (i ∈ l) then 1%nat else 0%nat.
Proof.
  induction 1 as [|j l Hj Hd IH]; [done|]. rewrite fmap_cons, list_to_set_disj_cons, multiplicity_add, IH.
  repeat case_decide; simplify_eq; try done; set_solver.
Qed.

Lemma held_others l r :
  (∀ i, r ≠ RSession i) → multiplicity r (list_to_set_disj (RSession <$> l)) = 0%nat.
Proof.
  intros Hr. induction l as [|j l IH]; [done|].
  rewrite fmap_cons, list_to_set_disj_cons, multiplicity_add, IH. by rewrite decide_False.
Qed.

Lemma holds_in w l i : holds w l → i ∈ l → RSession i ∈ refs (native_proc w).
Proof.
  intros (_ & _ & ->) Hi. apply gmultiset_elem_of_disj_union. right.
  apply elem_of_list_to_set_disj, list_elem_of_fmap. eauto.
Qed.

Lemma holds_client w l : holds w l → RClient ∈ refs (native_proc w).
Proof. intros (_ & _ & ->). multiset_solver. Qed.

(** A dropped session takes its hold of the runtime with it. *)
Lemma holds_drop_session w l i : holds w (i :: l) → holds (native_drop_session i w) l.
Proof.
  intros (Ht & Hd & Hr). pose proof Ht as (n & _ & Hc).
  destruct (drop_lone_session (X:=Empty_set) (R:=Empty_set) (X':=Empty_set) (R':=Empty_set) _ _ i Hc)
    as (p1 & es2 & p2 & H1 & H2 & H3).
  { rewrite Hr, multiplicity_disj_union, held_sessions by done. rewrite decide_True by left.
    by rewrite multiplicity_singleton_ne. }
  { rewrite Hr, multiplicity_disj_union, held_others by done. by rewrite multiplicity_singleton_ne. }
  pose proof (tracked_perform _ _ _ _ _ (native_engine w) Ht H1) as Ht1.
  pose proof (tracked_perform _ _ _ _ _ (native_engine w) Ht1 H2) as Ht2.
  unfold native_drop_session, native_drop. rewrite H1. cbn [native_proc]. rewrite H2.
  apply NoDup_cons in Hd as [_ Hd]. split_and!; [done|done|]. simpl. rewrite H3, Hr.
  rewrite fmap_cons, list_to_set_disj_cons. multiset_solver.
Qed.

Lemma holds_drop_sessions w l l' :
  holds w (l ++ l') → holds (foldl (λ w i, native_drop_session i w) w l) l'.
Proof.
  revert w. induction l as [|i l IH]; intros w Hw; [done|]. simpl. by apply IH, holds_drop_session.
Qed.

(** The client goes last. *)
Lemma holds_drop_client w : holds w [] → released (native_drop RClient w).
Proof.
  intros Hw. pose proof (holds_client _ _ Hw) as Hin. destruct Hw as (Ht & _ & Hr).
  destruct (NativeClient.perform (X:=Empty_set) (R:=Empty_set) (Drop RClient) (native_proc w))
    as [[[es r] p]|] eqn:Hp; unfold native_drop; rewrite Hp.
  - apply tracked_released; [by eapply tracked_perform|]. simpl in Hp. unfold take_ref in Hp.
    rewrite decide_True in Hp by done. simpl in Hp. injection Hp as _ _ <-. simpl.
    rewrite Hr. simpl. multiset_solver.
  - simpl in Hp. unfold take_ref in Hp. by rewrite decide_True in Hp.
Qed.
End held.

(** ** A client between calls *)

Section opened.
Context `{EngineLib E Bytes X, BsonLib Document ObjectId Other Bytes BE} {IOE : Type}.
Local Abbreviation error := (Error BE IOE X Document).
Local Abbreviation client := (Client (NativeState E) nat).
Implicit Types (c : client) (w : NativeState E).

Definition sessions c : list nat := idle_session <$> idle (idles c).

(** Every session of the pool is idle, and the pool's sessions and the client are all there is. *)
Definition opened c : Prop := client_wf c ∧ holds (runtime c) (sessions c).

Lemma holds_open_session w l :
  holds w l →
  match native_open_session w with
  | (w', Ok i) => holds w' (i :: l)
  | (w', Err _) => holds w' l
  end.
Proof.
  intros Hw. pose proof (holds_client _ _ Hw) as Hin.
  destruct Hw as (Ht & Hd & Hr). simpl.
  destruct (engine_open_session (native_engine w)) as [e answer].
  destruct (open_session answer (native_proc w)) as [[es r] p] eqn:Ho.
  assert (NativeClient.perform (X:=X) (R:=Bytes) (OpenSession answer) (native_proc w)
          = Some (es, r, p)) as Hp by (simpl; rewrite decide_True by done; by rewrite Ho).
  pose proof (tracked_perform _ _ _ _ _ e Ht Hp) as Ht'. destruct Ht as (n & _ & Hc).
  unfold open_session in Ho. rewrite (counted_handle _ _ Hc) in Ho.
  destruct answer as [[]|]; simplify_eq/=; [|done..]. split; [done|].
  assert (next_inner (native_proc w) ∉ l) as Hfresh.
  { intros Hl. pose proof (counted_inners _ _ Hc (next_inner (native_proc w))) as Hi.
    unfold inner_counted in Hi. rewrite Hr in Hi.
    rewrite multiplicity_disj_union, held_sessions, decide_True in Hi by done.
    destruct (inners _ !! _); lia. }
  split; [by constructor|]. cbn [native_proc refs].
  rewrite Hr, fmap_cons, list_to_set_disj_cons. multiset_solver.
Qed.

Lemma holds_run w l i database command :
  holds w l → i ∈ l → holds (fst (native_run_command i database command w)) l.
Proof.
  intros Hw Hi. pose proof (holds_in _ _ _ Hw Hi) as Hin. destruct Hw as (Ht & Hd & Hr). simpl.
  destruct (engine_run i database command (native_engine w)) as [e answer].
  unfold native_perform.
  destruct (NativeClient.perform (RunCommand i answer) (native_proc w)) as [[[es r] p]|] eqn:Hp.
  - pose proof (tracked_perform _ _ _ _ _ e Ht Hp) as Ht'. destruct Ht as (n & _ & Hc).
    simpl in Hp. rewrite decide_True in Hp by done.
    apply (on_session_counted _ _ _ _ _ _ _ _ _ _ Hc Hin) in Hp as (-> & _ & _); [|by left..].
    destruct r as [[]|]; by split_and!.
  - by split_and!.
Qed.

Lemma checkout_opened c :
  opened c →
  ∃ (r : result error nat) c', SessionPool_checkout c = (Returns r, c') ∧ limits c' = limits c ∧
    match r with
    | Ok s => one_out c' ∧ holds (runtime c') (s :: sessions c')
    | Err _ => opened c'
    end.
Proof.
  intros [Hwf Hh]. destruct (checkout_returns (BE:=BE) (Document:=Document) (IOE:=IOE) c Hwf) as (r & c' & Hr & Hl & Hcase).
  exists r, c'. split; [done|]. split; [done|]. unfold SessionPool_checkout, checkout in Hr.
  unfold opened, sessions in *.
  destruct (State_take (idles c)) as [[session|] st] eqn:Ht.
  - apply State_take_Some in Ht as (e & Hi & <- & Hop & _). simplify_eq/=.
    split; [by destruct Hcase|]. rewrite Hi, fmap_app in Hh.
    eapply holds_perm, Hh. symmetry. apply Permutation_cons_append.
  - apply State_take_None in Ht as [Hi _]. destruct (Reaper.open _ <? _); [|done].
    unfold grow in Hr. cbn [runtime limits idles] in Hr. rewrite Hi in Hh.
    pose proof (holds_open_session (runtime c) [] Hh) as Ho.
    destruct (native_open_session (runtime c)) as [w [i|ne]];
      injection Hr as <- <-; (split; [exact (proj1 Hcase)|simpl; by rewrite Hi]).
Qed.

(** The same under the policy it was opened with. *)
Definition opened_with (policy : Concurrency) c : Prop := opened c ∧ limits c = policy.

Lemma command_sound policy database (command : Document) :
  sound (opened_with policy) (run_command (IOE:=IOE) (W:=NativeState E) (Session:=nat) database command).
Proof.
  intros c [Hc <-]. unfold run_command, lift. destruct (to_vec command) as [encoded|e]; [|done].
  rewrite (try_ok _ _ encoded c c) by done.
  unfold try_bind at 1, bind at 1, send, bind, SessionPool_run.
  destruct (checkout_opened c Hc) as (r & c1 & -> & Hl & Hr).
  destruct r as [s|e]; [|done]. destruct Hr as [Hout Hh]. cbn [start CommandSlot_new].
  pose proof (holds_run (runtime c1) _ s database encoded Hh ltac:(left)) as Hrun.
  destruct (native_run_command s database encoded (runtime c1)) as [w answer]. simpl in Hrun.
  assert (opened_with (limits c) (Checkout_drop s (mkClient (limits c1) (idles c1) w))) as Hdone.
  { split; [|done]. split; [by apply drop_wf|]. unfold sessions. simpl. rewrite fmap_app.
    eapply holds_perm, Hrun. apply Permutation_cons_append. }
  destruct answer as [response|]; simpl; [|done].
  by destruct (from_reader response).
Qed.
End opened.

(** ** Opening *)

Section opening.
Context `{EngineLib E Bytes X, BsonLib Document ObjectId Other Bytes BE} {IOE : Type}.
Context (debug : Bson Document ObjectId Other → string) (uuid_text : Other → option string)
        (deserialize : Document → result BE Document).
Local Abbreviation client := (Client (NativeState E) nat).
Implicit Types (c : client) (w : NativeState E) (m : machine E).

Lemma open_sessions_holds n l w :
  holds w l →
  match open_sessions native_open_session native_drop_session n l w with
  | (w', Ok ss) => holds w' ss ∧ length ss = (length l + n)%nat
  | (w', Err _) => holds w' []
  end.
Proof.
  revert l w. induction n as [|n IH]; intros l w Hw; cbn [open_sessions].
  - split; [done|lia].
  - pose proof (holds_open_session w l Hw) as Ho.
    destruct (native_open_session w) as [w' [i|e]].
    + assert (holds w' (l ++ [i])) as Ho' by (eapply holds_perm, Ho; apply Permutation_cons_append).
      specialize (IH _ _ Ho'). rewrite length_app in IH. simpl in IH.
      destruct (open_sessions _ _ n (l ++ [i]) w') as [w'' [ss|]]; [|done].
      destruct IH as [? ?]. split; [done|lia].
    + apply holds_drop_sessions. by rewrite app_nil_r.
Qed.

Lemma pool_open_holds policy w now :
  Concurrency_wf policy → holds w [] →
  match SessionPool_open native_open_session native_drop_session w policy now with
  | (w', Ok (idles, _)) => opened_with policy (mkClient policy idles w')
  | (w', Err _) => holds w' []
  end.
Proof.
  intros Hwf Hw. unfold SessionPool_open.
  pose proof (open_sessions_holds (Z.to_nat (conc_min policy)) [] w Hw) as Ho.
  destruct (open_sessions _ _ _ [] w) as [w' [ss|e]]; [|done]. destruct Ho as [Ho Hlen].
  pose proof Hwf as (H1 & H2 & H3). unfold MIN_COUNT, MAX_COUNT in *.
  split; [|done]. split.
  - split; [done|]. simpl. rewrite length_fmap. simpl in Hlen. lia.
  - unfold sessions. simpl. rewrite <- list_fmap_compose.
    replace (_ <$> ss) with ss; [done|]. symmetry. apply list_fmap_id.
Qed.

Lemma establish_sound policy requested :
  sound (λ m, opened_with policy (m_client m)) (establish_free_disk_floor (IOE:=IOE) debug requested).
Proof.
  intros m Hm. unfold establish_free_disk_floor.
  pose proof (run_section_sound (IOE:=IOE) (X:=X) (opened_with policy) (establish debug requested)
    (command_sound policy "admin") (m_client m, m_recorded m) Hm) as Hs.
  destruct (run_section _ _) as [[] [c rec]]; done.
Qed.

Lemma repair_sound policy fuel variable org :
  sound (λ m, opened_with policy (m_client m))
    (repair_run (IOE:=IOE) uuid_text deserialize fuel variable org).
Proof.
  intros m Hm. unfold repair_run.
  pose proof (repair_run_sound (IOE:=IOE) (X:=X) (opened_with policy) (command_sound policy)
    uuid_text deserialize fuel variable org
    (mkWorld (m_client m) (m_log m) (m_disk m) (m_faults m) (m_readable m)) Hm) as Hs.
  destruct (run _ _ _ _ _ _) as [[] w]; done.
Qed.

Lemma drop_pool_holds c : opened c → holds (runtime (drop_pool c)) [].
Proof.
  intros [_ Hh]. unfold drop_pool. cbn [runtime]. apply holds_drop_sessions.
  by rewrite app_nil_r.
Qed.

Lemma open_spec fuel variable path options m :
  Concurrency_wf (resolve_concurrency options) →
  refs (native_proc (runtime (m_client m))) = ∅ →
  match open (IOE:=IOE) debug uuid_text deserialize fuel variable path options m with
  | (Returns (Ok _), m') | (NoFuel, m') =>
      opened_with (resolve_concurrency options) (m_client m')
  | (Returns (Err _), m') =>
      released (runtime (m_client m')) ∨
      (native_proc (runtime (m_client m')) = native_proc (runtime (m_client m)) ∧
       native_trace (runtime (m_client m')) = native_trace (runtime (m_client m)))
  | (Blocks, _) | (Panics, _) => False
  end.
Proof.
  intros Hwf Hnone. unfold open. destruct path as [text|]; [|by right].
  unfold try_bind at 1, bind at 1, open_runtime.
  destruct (engine_open _ _ _ _) as [[e d] answer].
  destruct (Client_open answer) as [p|err] eqn:Ho; [|by right].
  assert (holds (mkNative p [] e) []) as Hh.
  { unfold Client_open in Ho. destruct answer as [[]|]; simplify_eq/=.
    split_and!; [|constructor|simpl; multiset_solver].
    exists (Live ∅). split; [done|apply counted_start]. }
  unfold try_bind at 1, bind at 1, open_pool. cbn [m_client runtime idles].
  pose proof (pool_open_holds _ _ (native_now (mkNative p [] e)) Hwf Hh) as Hp.
  destruct (SessionPool_open _ _ _ _ _) as [w [[st t]|err]].
  2: { left. by apply holds_drop_client. }
  unfold bind at 1.
  match goal with |- context [establish_free_disk_floor _ _ ?m1] =>
    pose proof (establish_sound (resolve_concurrency options) (options ≫= oo_free_disk_floor) m1 Hp)
      as Hs; destruct (establish_free_disk_floor _ _ m1) as [[[[]|err]| | |] m2] end; try done.
  - unfold bind.
    pose proof (repair_sound (resolve_concurrency options) fuel variable (origin (m_disk m)) m2 Hs)
      as Hrep.
    by destruct (repair_run _ _ _ _ _ m2) as [[] ?].
  - left. unfold bind, drop_client, with_client. simpl.
    apply holds_drop_client, drop_pool_holds, Hs.
Qed.

(** C4. An open, whatever the engine, the disk and the repair pass do, neither blocks nor
    panics; it leaves a client with every session of its pool idle under the policy asked for,
    or, failing, nothing held and the engine freed or never started. *)
Theorem an_open_leaves_a_working_client_or_nothing_at_all fuel variable path options m :
  Concurrency_wf (resolve_concurrency options) →
  refs (native_proc (runtime (m_client m))) = ∅ →
  match open (IOE:=IOE) debug uuid_text deserialize fuel variable path options m with
  | (Returns (Ok _), m') | (NoFuel, m') =>
      opened_with (resolve_concurrency options) (m_client m')
  | (Returns (Err _), m') =>
      released (runtime (m_client m')) ∨
      (native_proc (runtime (m_client m')) = native_proc (runtime (m_client m)) ∧
       native_trace (runtime (m_client m')) = native_trace (runtime (m_client m)))
  | (Blocks, _) | (Panics, _) => False
  end.
Proof. apply open_spec. Qed.

(** Any number of commands, one after the other. *)
Fixpoint run_all (commands : list (string * Document)) : io client unit :=
  match commands with
  | [] => ret tt
  | (database, command) :: commands =>
      let! _ := run_command (IOE:=IOE) database command in run_all commands
  end.

Lemma run_all_returns commands c :
  opened c → ∃ c', run_all commands c = (Returns tt, c') ∧ opened c'.
Proof.
  revert c. induction commands as [|[database command] commands IH]; intros c Hc; [by exists c|].
  pose proof (command_sound (IOE:=IOE) (limits c) database command c (conj Hc eq_refl)) as Hs.
  destruct (a_command_returns (IOE:=IOE) database command c (proj1 Hc)) as (r & c' & Hr & _).
  rewrite Hr in Hs. cbn [run_all]. rewrite (bind_returns _ _ _ _ _ Hr). apply IH, Hs.
Qed.

Lemma drop_pool_engine c : native_engine (runtime (drop_pool c)) = native_engine (runtime c).
Proof.
  unfold drop_pool. cbn [runtime]. generalize (idle_session <$> idle (idles c)) as l.
  generalize (runtime c) as w. intros w l. revert w.
  assert (∀ r w, native_engine (native_drop r w) = native_engine w) as Hd.
  { intros r w. unfold native_drop. by destruct (NativeClient.perform _ _) as [[[] ?]|]. }
  induction l as [|i l IH]; intros w; [done|]. cbn [foldl]. rewrite IH.
  unfold native_drop_session. by rewrite !Hd.
Qed.

Lemma close_spec m :
  opened (m_client m) →
  ∃ m' before,
    close (BE:=BE) (IOE:=IOE) (Document:=Document) m
    = (Returns (map_err (λ e, Native (NativeException e))
                  (snd (engine_close (native_engine (runtime (m_client m)))))), m') ∧
    released (runtime (m_client m')) ∧
    native_trace (runtime (m_client m')) = before ++ [CloseEngine; FreeEngine].
Proof.
  intros Hm. pose proof (drop_pool_holds _ Hm) as Hh. pose proof (holds_client _ _ Hh) as Hin.
  unfold close. rewrite drop_pool_engine. generalize dependent (drop_pool (m_client m)).
  intros c Hh Hin. destruct (engine_close _) as [e answer]. destruct Hh as (Ht & _ & Hr).
  unfold native_perform.
  destruct (NativeClient.perform (R:=Bytes) (Close answer) _) as [[[es r] p]|] eqn:Hp.
  2: { simpl in Hp. unfold take_ref in Hp. by rewrite decide_True in Hp. }
  pose proof (tracked_perform _ _ _ _ _ e Ht Hp) as Ht'. destruct Ht as (n & _ & Hc).
  pose proof (proj2 (sole_owner _ _ Hc Hin)) as Hsole.
  simpl in Hp. unfold take_ref in Hp. rewrite decide_True in Hp by done. simpl in Hp.
  unfold NativeClient.close in Hp. simpl in Hp.
  rewrite Hsole in Hp by (rewrite Hr; simpl; multiset_solver). injection Hp as <- <- <-.
  exists (with_client (mkClient (limits c) (idles c)
    (mkNative (mkProcess 0 (rt_handle (native_proc (runtime c))) (inners (native_proc (runtime c)))
                 (next_inner (native_proc (runtime c)))
                 (refs (native_proc (runtime c)) ∖ {[+ RClient +]}))
       (native_trace (runtime c) ++ [CloseEngine; FreeEngine]) e)) m), (native_trace (runtime c)).
  split_and!.
  - by destruct answer as [[]|].
  - apply tracked_released; [done|]. simpl. rewrite Hr. simpl. multiset_solver.
  - done.
Qed.

(** C11. After any commands, closing a client drops its pool first, closes the engine eagerly,
    reports what the engine said and leaves nothing held. *)
Theorem a_close_reports_what_the_engine_said m commands :
  opened (m_client m) →
  ∃ c m' before,
    run_all commands (m_client m) = (Returns tt, c) ∧
    close (BE:=BE) (IOE:=IOE) (Document:=Document) (with_client c m)
    = (Returns (map_err (λ e, Native (NativeException e))
                  (snd (engine_close (native_engine (runtime c))))), m') ∧
    released (runtime (m_client m')) ∧
    native_trace (runtime (m_client m')) = before ++ [CloseEngine; FreeEngine].
Proof.
  intros Hm. destruct (run_all_returns commands _ Hm) as (c & Hr & Hc).
  destruct (close_spec (with_client c m) Hc) as (m' & before & H1 & H2 & H3).
  exists c, m', before. by split_and!.
Qed.
End opening.

(** ** A concrete engine

    It starts wherever it is pointed, leaves its file there, grants as many sessions as it was
    given, and answers every command with the floors and no databases. *)

Definition no_uuid (b : Empty_set) : option string := match b with end.

Record ToyEngine := mkToy { grants : nat; asked : list string }.

Definition toy_reply : Doc :=
  doc [("ok"%string, Int32 1); (INDEX_BUILD_FLOOR, Int64 500); (QUERY_SPILLING_FLOOR, Int64 524288000);
       ("databases"%string, Array [])].

#[export] Instance Toy_EngineLib : EngineLib ToyEngine Doc unit := {
  engine_open _ _ e d := (e, <["WiredTiger"%string := mkFile "WiredTiger" true]> d, Ok true);
  engine_open_session e :=
    match grants e with
    | O => (e, Err tt)
    | S n => (mkToy n (asked e), Ok true)
    end;
  engine_run i database command e := (mkToy (grants e) (asked e ++ [database]), Ok toy_reply);
  engine_close e := (e, Err tt);
  engine_now e := 0;
}.

Definition toy_machine (grants : nat) : machine ToyEngine :=
  mkMachine
    (mkClient Concurrency_DEFAULT (mkState [] 0 false)
       (mkNative (mkProcess 0 false ∅ 0 ∅) [] (mkToy grants [])))
    None [] ∅ [] true.

Abbreviation toy_open grants :=
  (open (E:=ToyEngine) (IOE:=unit) no_debug no_uuid (λ d, Ok d) 5 None (Some "data"%string) None
     (toy_machine grants)).

Lemma toy_default_wf : Concurrency_wf (resolve_concurrency None).
Proof. vm_compute. repeat split; discriminate. Qed.

(** Eight sessions asked for and three granted: the open fails, and nothing stays behind. *)
Lemma open_witness :
  fst (toy_open 8) = Returns (Ok tt) ∧ fst (toy_open 3) = Returns (Err (Native (NativeException tt))) ∧
  match toy_open 3 with
  | (Returns (Ok _), m') | (NoFuel, m') => opened_with (resolve_concurrency None) (m_client m')
  | (Returns (Err _), m') =>
      released (runtime (m_client m')) ∨
      (native_proc (runtime (m_client m')) = native_proc (runtime (m_client (toy_machine 3))) ∧
       native_trace (runtime (m_client m')) = native_trace (runtime (m_client (toy_machine 3))))
  | (Blocks, _) | (Panics, _) => False
  end.
Proof.
  split; [by vm_compute|]. split; [by vm_compute|].
  exact (an_open_leaves_a_working_client_or_nothing_at_all (E:=ToyEngine) (IOE:=unit) no_debug
    no_uuid (λ d, Ok d) 5 None (Some "data"%string) None (toy_machine 3)
    toy_default_wf eq_refl).
Defined.

Lemma toy_opened : opened (m_client (snd (toy_open 8))).
Proof.
  assert (fst (toy_open 8) = Returns (Ok tt)) as Hr by by vm_compute.
  pose proof (open_spec (E:=ToyEngine) (IOE:=unit) no_debug
    no_uuid (λ d, Ok d) 5 None (Some "data"%string) None (toy_machine 8)
    toy_default_wf eq_refl) as Ho.
  destruct (open _ _ _ _ _ _ _ _) as [r m']. cbn [fst snd] in *.
  rewrite Hr in Ho. exact (proj1 Ho).
Qed.

Lemma close_reports_engine_witness :
  ∃ c m' before,
    run_all (IOE:=unit) [("db"%string, ping)] (m_client (snd (toy_open 8))) = (Returns tt, c) ∧
    close (BE:=Empty_set) (IOE:=unit) (Document:=Doc) (with_client c (snd (toy_open 8)))
    = (Returns (map_err (λ e, Native (NativeException e))
                  (snd (engine_close (native_engine (runtime c))))), m') ∧
    released (runtime (m_client m')) ∧
    native_trace (runtime (m_client m')) = before ++ [CloseEngine; FreeEngine].
Proof.
  exact (a_close_reports_what_the_engine_said (E:=ToyEngine) (IOE:=unit) (snd (toy_open 8))
    [("db"%string, ping)] toy_opened).
Defined.
