(* ===== verification/LimitsLock.v ===== *)
(** * The floors from any number of threads

    [FloorMoves::one_at_a_time] of [src/limits/process.rs] and what goes through it: moving the
    floors, reading them, and establishing them at an open ([at_open.rs]). Threads send their
    commands one at a time in any interleaving; one that takes the lock keeps the others that
    take it out, one that does not is in nobody's way. All of the crate's floor operations take
    it, so they have the effect of running one after the other, and the two knobs never end up
    as half of one caller's pair and half of another's; without it they can. *)
From S2P Require Import Prelude EngineOptions Options Slot Reaper SessionPool Errors Bson.
From S2P Require Import WorkerState Response Effects Client Find Insert Async Limits Sound.

Section lock.
Context `{BsonLib Document ObjectId Other Bytes BE} {IOE X : Type}.
Local Abbreviation error := (Error BE IOE X Document).
Context `{!AdminCommands K Document error} {A : Type}.
Local Abbreviation prog := (section (Document:=Document) (BE:=BE) (IOE:=IOE) (X:=X) A).
Local Abbreviation shared := (K * option ReportedFloors)%type.

(** A call that touches the floors: under the lock, or with nothing between its commands and
    anybody else's. *)
Inductive fcall := Locked (m : prog) | Bare (m : prog).

(** [FloorMoves::one_at_a_time] *)
Definition FloorMoves_one_at_a_time (moving : prog) : fcall := Locked moving.

(** A thread before its call, inside the lock or without it and what it has left to do, and
    after. *)
Inductive fthread :=
| Ready (c : fcall)
| Inside (m : prog)
| Loose (m : prog)
| Finished (answer : A).

Record fsystem := mkFsystem { in_order : option nat; on_engine : shared; fthreads : list fthread }.

(** One command, or one access to the recorded floors. *)
Definition section_step (m : prog) (s : shared) : option (prog * shared) :=
  match m with
  | Done _ => None
  | SendCommand c k =>
      match run_on_admin c (fst s) with
      | (Returns r, e) => Some (k r, (e, snd s))
      | _ => None
      end
  | ReadRecorded k => Some (k (snd s), s)
  | WriteRecorded v k => Some (k, (fst s, Some v))
  end.

Inductive fstep : fsystem → fsystem → Prop :=
| f_lock i m s ts :
    ts !! i = Some (Ready (Locked m)) →
    fstep (mkFsystem None s ts) (mkFsystem (Some i) s (<[i := Inside m]> ts))
| f_inside i m m' s s' ts :
    ts !! i = Some (Inside m) → section_step m s = Some (m', s') →
    fstep (mkFsystem (Some i) s ts) (mkFsystem (Some i) s' (<[i := Inside m']> ts))
| f_unlock i a s ts :
    ts !! i = Some (Inside (Done a)) →
    fstep (mkFsystem (Some i) s ts) (mkFsystem None s (<[i := Finished a]> ts))
| f_begin holder i m s ts :
    ts !! i = Some (Ready (Bare m)) →
    fstep (mkFsystem holder s ts) (mkFsystem holder s (<[i := Loose m]> ts))
| f_loose holder i m m' s s' ts :
    ts !! i = Some (Loose m) → section_step m s = Some (m', s') →
    fstep (mkFsystem holder s ts) (mkFsystem holder s' (<[i := Loose m']> ts))
| f_end holder i a s ts :
    ts !! i = Some (Loose (Done a)) →
    fstep (mkFsystem holder s ts) (mkFsystem holder s (<[i := Finished a]> ts)).

Definition fstart (s : shared) (calls : list fcall) : fsystem := mkFsystem None s (Ready <$> calls).

(** The sections run one after the other, in the order of [done]. *)
Inductive in_turn (progs : list prog) (s0 : shared) : list (nat * A) → shared → Prop :=
| turn_none : in_turn progs s0 [] s0
| turn_next done s i m a s' :
    in_turn progs s0 done s → progs !! i = Some m → i ∉ done.*1 →
    run_section m s = (Returns a, s') →
    in_turn progs s0 (done ++ [(i, a)]) s'.

(** What the thread at [i] is, given what has been done. *)
Definition thread_ok (progs : list prog) (holder : option nat) (done : list (nat * A)) (i : nat)
    (t : fthread) : Prop :=
  match t with
  | Ready (Locked m) => progs !! i = Some m ∧ i ∉ done.*1
  | Ready (Bare _) | Loose _ => False
  | Inside _ => holder = Some i
  | Finished a => (i, a) ∈ done
  end.

(** The state is what the sections done so far leave in turn; the one inside has as much left
    as makes its whole section run from there. *)
Record serial (progs : list prog) (s0 : shared) (fs : fsystem) (done : list (nat * A)) (s : shared)
    : Prop := {
  serial_turns : in_turn progs s0 done s;
  serial_length : length (fthreads fs) = length progs;
  serial_threads : ∀ i t, fthreads fs !! i = Some t → thread_ok progs (in_order fs) done i t;
  serial_holder :
    match in_order fs with
    | None => on_engine fs = s
    | Some i => ∃ m m0, fthreads fs !! i = Some (Inside m) ∧ progs !! i = Some m0 ∧
        (i ∉ done.*1) ∧ run_section m (on_engine fs) = run_section m0 s
    end;
}.

Lemma section_step_run (m m' : prog) (s s' : shared) :
  section_step m s = Some (m', s') → run_section m s = run_section m' s'.
Proof.
  destruct m as [a|c k|k|v k]; simpl; [done| |by intros [= <- <-]..].
  destruct (run_on_admin c (fst s)) as [[r| | |] e]; try done. by intros [= <- <-].
Qed.

Lemma serial_start progs s0 :
  serial progs s0 (fstart s0 (FloorMoves_one_at_a_time <$> progs)) [] s0.
Proof.
  split; simpl; [constructor|by rewrite !length_fmap| |done].
  intros i t Ht. apply list_lookup_fmap_Some in Ht as (c & -> & Hc).
  apply list_lookup_fmap_Some in Hc as (m & -> & Hm). split; [done|].
  by apply not_elem_of_nil.
Qed.

(** A thread that changes leaves the others what they are. *)
Lemma others_ok progs holder holder' done done' ts i t' :
  (∀ j t, ts !! j = Some t → thread_ok progs holder done j t) →
  (∀ j t, j ≠ i → thread_ok progs holder done j t → thread_ok progs holder' done' j t) →
  (i < length ts → thread_ok progs holder' done' i t')%nat →
  ∀ j t, <[i := t']> ts !! j = Some t → thread_ok progs holder' done' j t.
Proof.
  intros Hts Hkeep Hi j t Hj. destruct (decide (j = i)) as [->|Hne].
  - apply list_lookup_insert_Some in Hj as [(_ & <- & Hlen)|[? _]]; [by apply Hi|done].
  - rewrite list_lookup_insert_ne in Hj by done. eauto.
Qed.

Lemma fstep_serial progs s0 fs fs' done s :
  serial progs s0 fs done s → fstep fs fs' → ∃ done' s', serial progs s0 fs' done' s'.
Proof.
  intros [Ht Hl Hth Hh]. destruct 1 as [i m s1 ts Hi|i m m' s1 s1' ts Hi Hs|i a s1 ts Hi
    |? i m s1 ts Hi|? i m m' s1 s1' ts Hi _|? i a s1 ts Hi]; simpl in *;
    try (by destruct (Hth i _ Hi)).
  - destruct (Hth i (Ready (Locked m)) Hi) as [Hp Hn]. exists done, s. subst s1. split; simpl; [done| | |].
    + by rewrite length_insert.
    + apply (others_ok progs None (Some i) done done ts i); [done| |done].
      intros j [[m1|m1]|m1|m1|a1] Hne; try done; by intros [=].
    + exists m, m. split_and!; [|done..]. apply list_lookup_insert_eq. by eapply lookup_lt_Some.
  - destruct Hh as (m1 & m0 & Hi1 & Hp & Hn & Hr). rewrite Hi in Hi1. injection Hi1 as <-.
    exists done, s. split; simpl; [done| | |].
    + by rewrite length_insert.
    + by apply (others_ok progs (Some i) (Some i) done done ts i).
    + exists m', m0. split_and!; [|done..|by rewrite <- Hr, <- (section_step_run m m' s1 s1')].
      apply list_lookup_insert_eq. by eapply lookup_lt_Some.
  - destruct Hh as (m1 & m0 & Hi1 & Hp & Hn & Hr). rewrite Hi in Hi1. injection Hi1 as <-.
    exists (done ++ [(i, a)]), s1. split; simpl; [| | |done].
    + by eapply turn_next.
    + by rewrite length_insert.
    + apply (others_ok progs (Some i) None done (done ++ [(i, a)]) ts i); [done| |].
      * intros j [[m1|m1]|m1|m1|a1] Hne; simpl; [|done|by intros [=]|done|set_solver].
        intros [? ?]. split; [done|]. rewrite fmap_app. set_solver.
      * intros _. simpl. set_solver.
Qed.

Lemma reachable_serial progs s0 fs :
  rtc fstep (fstart s0 (FloorMoves_one_at_a_time <$> progs)) fs →
  ∃ done s, serial progs s0 fs done s.
Proof.
  intros Hr.
  assert (∃ done s, serial progs s0 (fstart s0 (FloorMoves_one_at_a_time <$> progs)) done s) as Hi
    by eauto using serial_start.
  induction Hr as [|fs1 fs2 fs3 Hs _ IH]; [done|]. apply IH.
  destruct Hi as (done & s & Hi). by eapply fstep_serial.
Qed.

Lemma in_turn_nodup progs s0 done s : in_turn progs s0 done s → NoDup done.*1.
Proof.
  induction 1 as [|done s i m a s' _ IH _ Hn _]; [constructor|]. rewrite fmap_app.
  apply NoDup_app. split_and!; [done| |repeat constructor; set_solver]. set_solver.
Qed.

(** What the lock leaves: the sections in turn, each with the answer its thread has. *)
Lemma lock_free_in_turn progs s0 fs :
  rtc fstep (fstart s0 (FloorMoves_one_at_a_time <$> progs)) fs → in_order fs = None →
  ∃ done, in_turn progs s0 done (on_engine fs) ∧
    ∀ i a, fthreads fs !! i = Some (Finished a) ↔ (i, a) ∈ done.
Proof.
  intros Hr Hfree. destruct (reachable_serial _ _ _ Hr) as (done & s & [Ht Hl Hth Hh]).
  rewrite Hfree in Hh, Hth. subst s. exists done. split; [done|]. intros i a. split.
  - apply Hth.
  - intros Hin. assert (is_Some (progs !! i)) as Hi.
    { clear -Ht Hin. induction Ht as [|done s j m b s' _ IH Hp _ _]; [by apply not_elem_of_nil in Hin|].
      apply elem_of_app in Hin as [Hin|Hin]; [auto|]. apply list_elem_of_singleton in Hin.
      simplify_eq. by eexists. }
    apply lookup_lt_is_Some in Hi. rewrite <- Hl in Hi. apply lookup_lt_is_Some in Hi as [t Hi].
    rewrite Hi. specialize (Hth i t Hi). destruct t as [[m|m]|m|m|a']; simpl in Hth; try done.
    + destruct Hth as [_ []]. apply list_elem_of_fmap. by exists (i, a).
    + do 2 f_equal. pose proof (in_turn_nodup _ _ _ _ Ht) as Hd.
      apply list_elem_of_lookup in Hin as [x Hx], Hth as [y Hy].
      assert (x = y) as ->; [|by rewrite Hx in Hy; simplify_eq].
      eapply NoDup_lookup; [exact Hd|..]; rewrite list_lookup_fmap; [by rewrite Hx|by rewrite Hy].
Qed.
End lock.

(** ** The crate's floor operations *)

Inductive FloorOp :=
| OpMove (floor : FreeDiskFloor)                    (* [move_free_disk_floor] *)
| OpRead                                            (* [free_disk_floors] *)
| OpEstablish (requested : option FreeDiskFloor).   (* [establish], at an open *)

Section operations.
Context `{BsonLib Document ObjectId Other Bytes BE} {IOE X : Type}.
Context (debug : Bson Document ObjectId Other → string).
Local Abbreviation error := (Error BE IOE X Document).
Local Abbreviation sect := (section (Document:=Document) (BE:=BE) (IOE:=IOE) (X:=X)).

Inductive FloorAnswer :=
| Moved (answer : result error unit)
| Reads (answer : result error ReportedFloors).

(** What each does inside the lock, and its call. *)
Definition floor_section (op : FloorOp) : sect FloorAnswer :=
  match op with
  | OpMove floor => section_bind (move_free_disk_floor debug floor) (λ r, Done (Moved r))
  | OpRead => section_bind (free_disk_floors debug) (λ r, Done (Reads r))
  | OpEstablish requested => section_bind (establish debug requested) (λ r, Done (Moved r))
  end.

Definition floor_call (op : FloorOp) : fcall (A := FloorAnswer) :=
  FloorMoves_one_at_a_time (floor_section op).
End operations.
Arguments FloorAnswer Document BE IOE X : clear implicits.

(** ** The two knobs move as a pair *)

Section movers.
Context `{FloorEngine K Document ObjectId Other Bytes BE IOE X}.
Context (debug : Bson Document ObjectId Other → string).
Local Abbreviation error := (Error BE IOE X Document).
Local Abbreviation answer := (FloorAnswer Document BE IOE X).
Implicit Types (k : K) (done : list (nat * answer)).

(** The pair an operation names. *)
Definition names (op : FloorOp) (floor : FreeDiskFloor) : Prop :=
  op = OpMove floor ∨ op = OpEstablish (Some floor).

(** An answer that says the pair may be half moved: the error of a move that could not be put
    back, or an open that failed. *)
Definition half_made (op : FloorOp) (a : answer) : Prop :=
  match op, a with
  | OpMove _, Moved (Err (FreeDiskFloorNotRestored _ _ _)) => True
  | OpEstablish _, Moved (Err _) => True
  | _, _ => False
  end.

(** A whole pair: the one in force at first, the one recorded at first, or one a caller named
    that succeeded; [finished] says which calls have which answer. *)
Definition whole (ops : list FloorOp) k0 (rec0 : option ReportedFloors)
    (finished : nat → answer → Prop) (p : ReportedFloors) : Prop :=
  p = floors_in_force k0 ∨ rec0 = Some p ∨
  ∃ i op floor, ops !! i = Some op ∧ names op floor ∧ finished i (Moved (Ok tt)) ∧
    p = floors_of floor.

Lemma whole_mono ops k0 rec0 (f f' : nat → answer → Prop) p :
  (∀ i a, f i a → f' i a) → whole ops k0 rec0 f p → whole ops k0 rec0 f' p.
Proof. intros Hf. unfold whole. naive_solver. Qed.

(** One operation on its own, from a state whose pairs are whole: as long as it does not report
    a half-made move, so are the pairs it leaves and the pair it reads. *)
Lemma run_floor_section (P : ReportedFloors → Prop) op k (rec : option ReportedFloors) :
  engine_ok k → P (floors_in_force k) → (∀ p, rec = Some p → P p) →
  ∃ a k' rec', run_section (floor_section debug op) (k, rec) = (Returns a, (k', rec')) ∧
    engine_ok k' ∧
    (¬ half_made op a →
     (∀ floor, names op floor → a = Moved (Ok tt) → P (floors_of floor)) →
     P (floors_in_force k') ∧ (∀ p, rec' = Some p → P p) ∧ (∀ p, a = Reads (Ok p) → P p)).
Proof.
  intros Hok HP Hrec. destruct op as [floor| |requested]; unfold floor_section.
  - destruct (run_move debug floor k rec Hok) as (r & k' & Hr & Hok' & Hcase).
    exists (Moved r), k', rec. rewrite run_section_bind. unfold bind. rewrite Hr.
    split_and!; try done. intros Hhalf Hnamed.
    split_and!; [|done|done]. destruct Hcase as [[-> ->]|[(e & -> & ->)|(c & b & -> & _)]].
    + apply Hnamed; [by left|done].
    + done.
    + by destruct Hhalf.
  - destruct (run_reported_floors debug k rec Hok) as (r & k' & Hr & Hok' & Hsame & Hread).
    exists (Reads r), k', rec. rewrite run_section_bind. unfold bind, free_disk_floors. rewrite Hr.
    split_and!; try done. intros _ _. rewrite Hsame. split_and!; try done.
    intros p [= ->]. by rewrite (Hread p eq_refl).
  - destruct (run_establish debug requested k rec Hok) as (r & k' & rec' & Hr & Hok' & _ & Hput).
    exists (Moved r), k', rec'. rewrite run_section_bind. unfold bind. rewrite Hr.
    split_and!; try done. intros Hhalf Hnamed.
    destruct r as [[]|e]; [|by destruct Hhalf]. destruct (Hput eq_refl) as [-> ->].
    assert (P (own_floors k rec)) as Hown by (unfold own_floors; destruct rec; simpl; auto).
    split_and!; [|by intros p [= <-]|done].
    destruct requested as [floor|]; [apply Hnamed; [by right|done]|done].
Qed.

Lemma operations_in_turn ops k0 rec0 done s :
  engine_ok k0 → in_turn (floor_section debug <$> ops) (k0, rec0) done s →
  (∀ i op a, ops !! i = Some op → (i, a) ∈ done → ¬ half_made op a) →
  let whole := whole ops k0 rec0 (λ i a, (i, a) ∈ done) in
  engine_ok (fst s) ∧ whole (floors_in_force (fst s)) ∧ (∀ p, snd s = Some p → whole p) ∧
  ∀ i p, (i, Reads (Ok p)) ∈ done → whole p.
Proof.
  intros Hk Ht. induction Ht as [|done s i m a s' Ht IH Hp _ Hr]; intros Hno.
  { simpl. split_and!; [done|by left|by right; left|]. by intros i p ?%not_elem_of_nil. }
  destruct IH as (Hok & Hforce & Hrec & Hreads).
  { intros j op b Hj Hin. eapply Hno; [done|]. apply elem_of_app. by left. }
  apply list_lookup_fmap_Some in Hp as (op & -> & Hop). destruct s as [k rec]. cbn [fst snd] in *.
  set (before := whole ops k0 rec0 (λ i a, (i, a) ∈ done)) in *.
  set (after := whole ops k0 rec0 (λ j b, (j, b) ∈ done ++ [(i, a)])).
  assert (∀ p, before p → after p) as Hmono.
  { intros p. apply whole_mono. intros j b Hin. apply elem_of_app. by left. }
  destruct (run_floor_section after op k rec Hok) as (a' & k' & rec' & Hrun & Hok' & Hafter); [auto..|].
  rewrite Hrun in Hr. injection Hr as -> <-. cbn [fst snd].
  destruct Hafter as (H1 & H2 & H3).
  - eapply Hno; [done|]. apply elem_of_app. right. by left.
  - intros floor Hn ->. right; right. exists i, op, floor. split_and!; try done.
    apply elem_of_app. right. by left.
  - split_and!; try done. intros j p [Hin|Hin]%elem_of_app; [eauto|].
    apply list_elem_of_singleton in Hin. simplify_eq. by apply H3.
Qed.

(** C28. However many threads move the floors, read them and establish them at opens, in
    whatever interleaving of their commands: once the lock is free the engine and the recorded
    floors are as if the finished operations had run one after the other, each with the answer
    its thread has; and unless one reported a half-made move or an open failed, the pair in
    force and every pair that was read is the one there was, the one recorded before, or the
    whole pair of one caller that succeeded. *)
Theorem floor_operations_run_one_after_the_other ops k0 rec0 fs :
  engine_ok k0 → rtc fstep (fstart (k0, rec0) (floor_call debug <$> ops)) fs → in_order fs = None →
  let finished i a := fthreads fs !! i = Some (Finished a) in
  (∃ done, in_turn (floor_section debug <$> ops) (k0, rec0) done (on_engine fs) ∧
     ∀ i a, finished i a ↔ (i, a) ∈ done) ∧
  ((∀ i op a, ops !! i = Some op → finished i a → ¬ half_made op a) →
   whole ops k0 rec0 finished (floors_in_force (fst (on_engine fs))) ∧
   ∀ i p, finished i (Reads (Ok p)) → whole ops k0 rec0 finished p).
Proof.
  intros Hk Hr Hfree finished.
  change (floor_call debug) with (FloorMoves_one_at_a_time ∘ floor_section (IOE:=IOE) (X:=X) debug) in Hr.
  rewrite list_fmap_compose in Hr. destruct (lock_free_in_turn _ _ _ Hr Hfree) as (done & Ht & Hdone).
  split; [by exists done|]. intros Hno.
  destruct (operations_in_turn ops k0 rec0 done _ Hk Ht) as (_ & Hforce & _ & Hreads).
  { intros i op a Hop Hin. eapply Hno; [done|]. by apply Hdone. }
  assert (∀ p, whole ops k0 rec0 (λ i a, (i, a) ∈ done) p → whole ops k0 rec0 finished p) as Hw.
  { intros p. apply whole_mono. intros i a. apply Hdone. }
  split; [by apply Hw|]. intros i p Hf. apply Hw, (Hreads i). by apply Hdone.
Qed.
End movers.

(** ** On the engine of the crate's tests *)

Section picked.
Context {A : Type}.
Local Abbreviation system :=
  (fsystem (K:=FakeEngine) (Document:=Doc) (BE:=Empty_set) (IOE:=unit) (X:=unit) (A:=A)).

(** What the scheduler picks, executed. *)
Definition fperform (i : nat) (fs : system) : option system :=
  let put holder s t := Some (mkFsystem holder s (<[i := t]> (fthreads fs))) in
  match fthreads fs !! i with
  | Some (Ready (Locked m)) =>
      match in_order fs with None => put (Some i) (on_engine fs) (Inside m) | Some _ => None end
  | Some (Inside (Done a)) =>
      if decide (in_order fs = Some i) then put None (on_engine fs) (Finished a) else None
  | Some (Inside m) =>
      if decide (in_order fs = Some i) then
        '(m, s) ← section_step m (on_engine fs); put (Some i) s (Inside m)
      else None
  | Some (Ready (Bare m)) => put (in_order fs) (on_engine fs) (Loose m)
  | Some (Loose (Done a)) => put (in_order fs) (on_engine fs) (Finished a)
  | Some (Loose m) => '(m, s) ← section_step m (on_engine fs); put (in_order fs) s (Loose m)
  | _ => None
  end.

Lemma fperform_step i (fs fs' : system) : fperform i fs = Some fs' → fstep fs fs'.
Proof.
  destruct fs as [h s ts]; unfold fperform; cbn [in_order on_engine fthreads].
  destruct (ts !! i) as [[[m|m]|m|m|a]|] eqn:Hi; try done.
  - destruct h; [done|]. intros [= <-]. by apply f_lock.
  - intros [= <-]. by apply f_begin.
  - destruct (decide (h = Some i)) as [->|]; [|by destruct m].
    destruct (section_step m s) as [[m' s']|] eqn:Hs.
    + destruct m as [a|c k|k|v k]; [done|..]; cbn [mbind option_bind]; intros [= <-]; by eapply f_inside.
    + destruct m as [a|c k|k|v k]; [|done..]. intros [= <-]. by apply f_unlock.
  - destruct (section_step m s) as [[m' s']|] eqn:Hs.
    + destruct m as [a|c k|k|v k]; [done|..]; cbn [mbind option_bind]; intros [= <-]; by eapply f_loose.
    + destruct m as [a|c k|k|v k]; [|done..]. intros [= <-]. by apply f_end.
Qed.

Fixpoint fperforms (l : list nat) (fs : system) : option system :=
  match l with [] => Some fs | i :: l => fs ← fperform i fs; fperforms l fs end.

Lemma fperforms_steps l (fs fs' : system) : fperforms l fs = Some fs' → rtc fstep fs fs'.
Proof.
  revert fs. induction l as [|i l IH]; intros fs; simpl; [by intros [= ->]|].
  destruct (fperform i fs) as [fs1|] eqn:Hp; simpl; [|done]. intros Hl.
  apply rtc_l with fs1; [by eapply fperform_step|by apply IH].
Qed.
End picked.

(** A move to 32, one to 64, and a reader. *)
Definition three_ops : list FloorOp :=
  [OpMove (mkFreeDiskFloor 32); OpMove (mkFreeDiskFloor 64); OpRead].

Local Abbreviation fake_call := (floor_call (BE:=Empty_set) (IOE:=unit) (X:=unit) no_debug).
Local Abbreviation fake_section := (floor_section (BE:=Empty_set) (IOE:=unit) (X:=unit) no_debug).

(** The second mover first, then the reader, then the first mover: a lock, the commands and an
    unlock each. *)
Definition three_done :=
  fperforms [1; 1; 1; 1; 1; 2; 2; 2; 0; 0; 0; 0; 0]%nat
    (fstart (FakeEngine_reporting 500, None) (fake_call <$> three_ops)).

Lemma three_done_free :
  (λ fs, (in_order fs, fthreads fs !! 2%nat)) <$> three_done
  = Some (None, Some (Finished (Reads (Ok (floors_of (mkFreeDiskFloor 64)))))).
Proof. vm_compute. reflexivity. Qed.

Lemma floor_operations_witness :
  ∃ fs, three_done = Some fs ∧
    whole (K:=FakeEngine) (IOE:=unit) (X:=unit) three_ops (FakeEngine_reporting 500) None
      (λ i a, fthreads fs !! i = Some (Finished a)) (floors_of (mkFreeDiskFloor 64)).
Proof.
  destruct three_done as [fs|] eqn:Hm;
    [|discriminate (eq_trans (eq_sym (f_equal (fmap _) Hm)) three_done_free)].
  exists fs. split; [reflexivity|].
  pose proof three_done_free as Hf. rewrite Hm in Hf. cbn [fmap option_fmap option_map] in Hf.
  injection Hf as Hfree Hread.
  destruct (floor_operations_run_one_after_the_other (K:=FakeEngine) (BE:=Empty_set)
    (IOE:=unit) (X:=unit) no_debug three_ops (FakeEngine_reporting 500) None fs) as [_ Hwhole].
  - discriminate.
  - apply (fperforms_steps [1; 1; 1; 1; 1; 2; 2; 2; 0; 0; 0; 0; 0]%nat). exact Hm.
  - exact Hfree.
  - destruct Hwhole as [_ Hreads]; [|exact (Hreads 2%nat _ Hread)].
    vm_compute in Hm. injection Hm as <-.
    intros [|[|[|i]]] op a; simpl; intros [= <-] [= <-]; simpl; auto.
Defined.

(** Two moves that did not take the lock: each sets its index-build knob, then each its
    spilling knob, and what is in force is half of one pair and half of the other, though both
    succeeded. *)
Definition two_bare :=
  fperforms [0; 0; 1; 1; 0; 1; 1; 0; 0; 1]%nat
    (fstart (FakeEngine_reporting 500, None)
       ((λ op, Bare (fake_section op)) <$> take 2 three_ops)).

Lemma bare_moves_can_mix :
  ∃ fs, rtc fstep (fstart (FakeEngine_reporting 500, None)
          ((λ op, Bare (fake_section op)) <$> take 2 three_ops)) fs ∧
    fthreads fs = [Finished (Moved (Ok tt)); Finished (Moved (Ok tt))] ∧
    floors_in_force (fst (on_engine fs))
    = mkReportedFloors (index_build (floors_of (mkFreeDiskFloor 64)))
        (query_spilling (floors_of (mkFreeDiskFloor 32))).
Proof.
  destruct two_bare as [fs|] eqn:Hm; [|vm_compute in Hm; discriminate].
  exists fs. split; [by eapply fperforms_steps|]. vm_compute in Hm. injection Hm as <-.
  split; vm_compute; reflexivity.
Qed.

(** ** The handles: [blocking::ProcessLimits] and its async face *)

Section handles.
Context `{NativeLib W Session Bytes X, BsonLib Document ObjectId Other Bytes BE} {IOE : Type}.
Context (debug : Bson Document ObjectId Other → string).
Local Abbreviation error := (Error BE IOE X Document).
Local Abbreviation client := (Client W Session).
Local Abbreviation async := (AsyncClient W Session).

(** A section of this client's, with the lock free. Neither handle looks at what is recorded for
    the process. *)
Definition one_at_a_time {A} (m : section (BE:=BE) (IOE:=IOE) (X:=X) (Document:=Document) A)
    : io client A := λ c,
  let '(r, (c, _)) := run_section m (c, None) in (r, c).

Definition ProcessLimits_set_free_disk_floor (floor : FreeDiskFloor) : io client (result error unit) :=
  one_at_a_time (move_free_disk_floor debug floor).

Definition ProcessLimits_free_disk_floors : io client (result error ReportedFloors) :=
  one_at_a_time (free_disk_floors debug).

Definition async_set_free_disk_floor (floor : FreeDiskFloor) : io async (result error unit) :=
  Engine_run (ProcessLimits_set_free_disk_floor floor).

Definition async_free_disk_floors : io async (result error ReportedFloors) :=
  Engine_run ProcessLimits_free_disk_floors.

Lemma one_at_a_time_sound {A} (m : section (BE:=BE) (IOE:=IOE) (X:=X) (Document:=Document) A) :
  sound (client_wf (W:=W) (Session:=Session)) (one_at_a_time m).
Proof.
  intros c Hc. unfold one_at_a_time.
  assert (∀ d, sound client_wf (run_on_admin (K:=client) (E:=error) d)) as Hadmin.
  { intros d c1 Hc1. destruct (a_command_returns (IOE:=IOE) "admin" d c1 Hc1) as (r & c2 & Hr & Hc2).
    simpl. by rewrite Hr. }
  pose proof (run_section_sound client_wf m Hadmin (c, None) Hc) as Hs.
  by destruct (run_section m (c, None)) as [[] [c' rec]].
Qed.

(** On an open client an awaited move answers what a blocking one does. *)
Lemma awaits_limits {A} (m : section (BE:=BE) (IOE:=IOE) (X:=X) (Document:=Document) (result error A)) :
  awaits (Engine_run (one_at_a_time m)) (one_at_a_time m).
Proof.
  apply awaits_run. intros c Hwf. pose proof (one_at_a_time_sound m c Hwf) as Hs.
  by destruct (one_at_a_time m c) as [[] ?].
Qed.
End handles.
