(* ===== verification/AsyncProps.v ===== *)
(** * The async client answers what the blocking one does

    Every method of the async client that reaches the engine, side by side with the blocking
    method it wraps: the commands, cursors and inserts of [Async], the floors of [LimitsLock] and
    the close. *)
From S2P Require Import Prelude EngineOptions Options Slot Reaper SessionPool Errors Bson.
From S2P Require Import WorkerState Response Effects Client Find Insert Async Limits LimitsLock.

Section wrapped.
Context `{NativeLib W Session Bytes X, BsonLib Document ObjectId Other Bytes BE} {IOE : Type}.
Context {T G : Type} (deserialize : Document → result BE T).
Context (serialize : T → result BE Document) (new_id : G → G * ObjectId).
Context (debug : Bson Document ObjectId Other → string).
Local Abbreviation error := (Error BE IOE X Document).
Local Abbreviation client := (Client W Session).
Local Abbreviation async := (AsyncClient W Session).

(** C20. On an open engine with nothing queued, run_command, run_command_bytes, find, aggregate,
    a cursor's next, insert_one, insert_many and the two floor operations answer what their
    blocking counterparts do and leave the same client behind; so do find_one, try_collect and
    the drop of a cursor, once the killCursors they may have queued has been run, which may be
    later; and a close has every job that was queued run, each once, reports what the blocking
    close says, and has later commands refused. *)
Theorem async_calls_answer_what_blocking_ones_do
    fuel database collection filter pipeline cmd bytes floor cur t ts g
    (close : client → result error unit * client) :
  (awaits (async_run_command (IOE:=IOE) database cmd) (run_command database cmd) ∧
   awaits (async_run_command_bytes (BE:=BE) (IOE:=IOE) (Document:=Document) database bytes)
     (run_command_bytes database bytes) ∧
   awaits (async_find (IOE:=IOE) database collection filter) (find database collection filter) ∧
   awaits (async_aggregate (IOE:=IOE) database collection pipeline)
     (aggregate database collection pipeline) ∧
   awaits (async_next (IOE:=IOE) deserialize fuel cur) (next deserialize fuel cur) ∧
   awaits (fst (async_insert_one (IOE:=IOE) serialize new_id database collection t g))
     (fst (insert_one serialize new_id database collection t g)) ∧
   awaits (fst (async_insert_many (IOE:=IOE) serialize new_id database collection ts g))
     (fst (insert_many serialize new_id database collection ts g)) ∧
   awaits (async_set_free_disk_floor (IOE:=IOE) debug floor)
     (ProcessLimits_set_free_disk_floor debug floor) ∧
   awaits (async_free_disk_floors (IOE:=IOE) debug) (ProcessLimits_free_disk_floors debug)) ∧
  (settles (async_find_one (IOE:=IOE) deserialize fuel database collection filter)
     (find_one deserialize fuel database collection filter) ∧
   settles (async_collect (IOE:=IOE) deserialize fuel cur []) (try_collect deserialize fuel cur) ∧
   settles (async_Cursor_drop (IOE:=IOE) cur) (Cursor_drop (IOE:=IOE) (X:=X) cur)) ∧
  ∀ s : async, phase (wstate s) = Open → alive (wstate s) ≠ 0 →
    ∃ ran c s', ran ≡ₚ detached s ∧ c = run_all ran (blocking s) ∧
      async_close close s = (Returns (fst (close c)), s') ∧ blocking s' = snd (close c) ∧
      detached s' = [] ∧
      async_run_command (IOE:=IOE) database cmd s' = (Returns (Err Closed), s').
Proof.
  split_and!.
  - apply awaits_command.
  - apply awaits_bytes.
  - apply awaits_find.
  - apply awaits_aggregate.
  - apply awaits_next.
  - apply awaits_insert_one.
  - apply awaits_insert_many.
  - apply awaits_limits.
  - apply awaits_limits.
  - apply settles_find_one.
  - apply settles_collect.
  - apply settles_drop.
  - intros s Hp Ha.
    destruct (async_close_closes close s Hp Ha) as (ran & c & s' & ? & ? & ? & ? & ? & Hclosing).
    exists ran, c, s'. split_and!; try done.
    unfold async_run_command, Engine_run_cancellable. apply (try_err _ _ Closed s' s').
    apply dispatch_refused. by rewrite Hclosing.
Qed.
End wrapped.

(** ** A dropped cursor *)

(** The kill of the cursor is queued: the engine has not seen it yet, and sees it with the next
    command, as this schedule has it, or at the close. *)
Definition dropping : AsyncClient LoggingEngine nat :=
  mkAsync (wstate open_async) (blocking open_async) [] [[0]]%nat.

Lemma dropping_open : async_open dropping.
Proof. split_and!; [reflexivity..|exact pool_of_two_wf]. Qed.

Lemma async_answers_witness :
  fst (async_run_command (IOE:=unit) "db" ping open_async)
  = fst (run_command (IOE:=unit) "db" ping pool_of_two) ∧
  log (runtime (blocking (snd (async_Cursor_drop (IOE:=unit) open_cursor dropping)))) = [] ∧
  settled (snd (async_Cursor_drop (IOE:=unit) open_cursor dropping))
  = snd (Cursor_drop (IOE:=unit) (X:=Empty_set) open_cursor pool_of_two).
Proof.
  destruct (async_calls_answer_what_blocking_ones_do (IOE:=unit) as_is as_is counting no_debug 5
    "db" "c" ping [] ping ping (mkFreeDiskFloor 32) open_cursor ping [] 0%nat (λ c, (Ok tt, c)))
    as ((Hcommand & _) & (_ & _ & Hdrop) & _).
  destruct (Hcommand open_async open_async_open) as (answer & c' & s' & Hb & -> & _).
  split; [exact (eq_sym (f_equal fst Hb))|].
  split; [vm_compute; reflexivity|].
  destruct (Hdrop dropping dropping_open) as (answer2 & c2 & s2 & Hb2 & -> & Hsettled & _).
  cbn [snd]. rewrite Hsettled. exact (eq_sym (f_equal snd Hb2)).
Defined.

(** The next command is sent after the kill. *)
Example the_kill_is_sent_with_the_next_command :
  log (runtime (blocking (snd (async_run_command (IOE:=unit) "db" ping
         (snd (async_Cursor_drop (IOE:=unit) open_cursor dropping))))))
  = [(1%nat, cur_database open_cursor,
      kill_cursors_command (cur_collection open_cursor) (cur_id open_cursor));
     (1%nat, "db"%string, ping)].
Proof. vm_compute. reflexivity. Qed.
