(* ===== verification/Bindings.v ===== *)
(** * The Node and Python bindings

    [embedded-mongodb-node/src/lib.rs] and [embedded-mongodb-python/src]: a driver's message is
    parsed ([Wire]), its command is run on the client and the reply goes back with what the
    listener needs to frame it. The client is any with the three operations the bindings call:
    the async one of [Async] for Node and for Python's async class, the blocking one of [Client]
    and [Open] for Python's other. A call runs alone here; the reader-writer lock around the
    client is the one [Registry] has. *)
From S2P Require Import Prelude EngineOptions Options Slot Reaper SessionPool Errors Bson.
From S2P Require Import Response Effects Client Find Insert WorkerState Async Text Wire WireFormat.

(** What the bindings call of a client. *)
Class Driven (K Document Bytes E : Type) := {
  drive_bytes : string → Bytes → io K (result E Bytes);
  drive_command : string → Document → io K (result E Document);
  drive_close : io K (result E unit);
}.

Section bindings.
Context `{BsonLib Document ObjectId Other (list Byte.byte) BE} {IOE X : Type}.
Local Abbreviation error := (Error BE IOE X Document).
Context `{!Driven K Document (list Byte.byte) error}.
(** What the errors of other packages say. *)
Context (bson_text : BE → string) (io_text : IOE → string) (what : X → string).
Local Abbreviation text_of := (Error_to_string bson_text io_text what).

(** ** Node *)

Record RoundTrip := mkRoundTrip {
  rt_request_id : Z;
  rt_more_to_come : bool;
  rt_legacy : bool;
  rt_response : bytes;
}.

(** [Engine]: whether the client is still in its lock, the handshake's reply, the client. *)
Record NodeEngine := mkNodeEngine { present : bool; hello_reply : bytes; driven : K }.

(** [reason] of a [napi] error *)
Definition to_error {A} (r : result error A) : result string A := map_err text_of r.

Definition on_driven {A} (m : io K A) : io NodeEngine A := λ s,
  let '(r, k) := m (driven s) in (r, mkNodeEngine (present s) (hello_reply s) k).

Definition HELLO_FIELDS : list string :=
  ["logicalSessionTimeoutMinutes"; "topologyVersion"; "localTime"; "connectionId"]%string.

(** The edit of the engine's own handshake reply. *)
Definition edit_hello (reply : Document) : Document :=
  let reply := fold_left (λ reply field, snd (doc_remove field reply)) HELLO_FIELDS reply in
  doc_insert "ismaster" (Boolean true) (doc_insert "helloOk" (Boolean true) reply).

Definition encode (document : Document) : result string bytes := map_err bson_text (to_vec document).

Definition hello : io K (result string bytes) :=
  let! reply := drive_command "admin" (doc [("hello"%string, Int32 1)]) in
  match to_error reply with
  | Ok reply => ret (encode (edit_hello reply))
  | Err e => ret (Err e)
  end.

(** [Engine::wrap], on a client that has just been opened. A failure drops the client. *)
Definition wrap (k : K) : call (result string NodeEngine) * K :=
  match hello k with
  | (Returns (Ok reply), k) => (Returns (Ok (mkNodeEngine true reply k)), k)
  | (Returns (Err e), k) => (Returns (Err e), k)
  | (Blocks, k) => (Blocks, k)
  | (Panics, k) => (Panics, k)
  | (NoFuel, k) => (NoFuel, k)
  end.

Definition is_hello (command_name : string) : bool :=
  bool_decide (command_name = "hello"%string) || eq_ignore_ascii_case command_name "ismaster".

(** [Engine::round_trip] *)
Definition round_trip (message : bytes) : io NodeEngine (result string RoundTrip) := λ s,
  match parse bson_text message with
  | Returns (Err e) => (Returns (Err e), s)
  | Returns (Ok request) =>
      (let!? response :=
         if is_hello (command_name request) then ret (Ok (hello_reply s))
         else if present s then
           let! response := on_driven (drive_bytes (database request) (command request)) in
           ret (to_error response)
         else ret (Err "embedded MongoDB engine is closed"%string) in
       ret (Ok (mkRoundTrip (request_id request) (more_to_come request) (legacy request) response))) s
  | Blocks => (Blocks, s)
  | Panics => (Panics, s)
  | NoFuel => (NoFuel, s)
  end.

(** [Engine::close] *)
Definition node_close : io NodeEngine (result string unit) := λ s,
  if present s then
    (let! r := on_driven drive_close in ret (to_error r)) (mkNodeEngine false (hello_reply s) (driven s))
  else (Returns (Ok tt), s).

(** What the listener calls, one after the other: a message that came in, or the close. *)
Inductive Called := CMessage (message : bytes) | CClose.
Inductive Answered := AMessage (answer : result string RoundTrip) | AClose (answer : result string unit).

Fixpoint serve (calls : list Called) : io NodeEngine (list Answered) :=
  match calls with
  | [] => ret []
  | call :: calls =>
      let! answer := (match call with
                      | CMessage m => let! answer := round_trip m in ret (AMessage answer)
                      | CClose => let! answer := node_close in ret (AClose answer)
                      end) in
      let! answers := serve calls in ret (answer :: answers)
  end.

(** ** Python *)

Inductive PyErr := PyValueError (message : string) | PyRuntimeError (message : string).

(** [NativeClient] and [AsyncNativeClient], whose methods are the same but for the awaits. *)
Record PyClient := mkPyClient { py_present : bool; py_driven : K }.

Definition on_py {A} (m : io K A) : io PyClient A := λ s,
  let '(r, k) := m (py_driven s) in (r, mkPyClient (py_present s) k).

Definition py_round_trip (message : bytes) : io PyClient (result PyErr (Z * bool * bytes)) := λ s,
  match parse bson_text message with
  | Returns (Err e) => (Returns (Err (PyValueError e)), s)
  | Returns (Ok request) =>
      (let!? response :=
         if py_present s then
           let! response := on_py (drive_bytes (database request) (command request)) in
           ret (map_err PyRuntimeError (to_error response))
         else ret (Err (PyRuntimeError "embedded MongoDB client is closed")) in
       ret (Ok (request_id request, more_to_come request, response))) s
  | Blocks => (Blocks, s)
  | Panics => (Panics, s)
  | NoFuel => (NoFuel, s)
  end.

Definition py_close : io PyClient (result PyErr unit) := λ s,
  if py_present s then
    (let! r := on_py drive_close in ret (map_err PyRuntimeError (to_error r)))
      (mkPyClient false (py_driven s))
  else (Returns (Ok tt), s).
End bindings.

(** ** The two clients the bindings are built on

    [close] is the blocking client's own. *)

Section clients.
Context `{NativeLib W Session Bytes X, BsonLib Document ObjectId Other Bytes BE} {IOE : Type}.
Context (close : Client W Session → result (Error BE IOE X Document) unit * Client W Session).

Definition blocking_Driven : Driven (Client W Session) Document Bytes (Error BE IOE X Document) := {|
  drive_bytes := run_command_bytes;
  drive_command := run_command;
  drive_close := λ c, let '(r, c) := close c in (Returns r, c);
|}.

Definition async_Driven : Driven (AsyncClient W Session) Document Bytes (Error BE IOE X Document) := {|
  drive_bytes := async_run_command_bytes;
  drive_command := async_run_command;
  drive_close := async_close close;
|}.
End clients.

(** ** What a driver gets *)

Section promises.
Context `{BsonLib Document ObjectId Other (list Byte.byte) BE} {IOE X : Type}.
Local Abbreviation error := (Error BE IOE X Document).
Context `{!Driven K Document (list Byte.byte) error}.
Context (bson_text : BE → string) (io_text : IOE → string) (what : X → string).
Local Abbreviation text_of := (Error_to_string (D:=Document) bson_text io_text what).
Local Abbreviation node_round_trip := (round_trip bson_text io_text what).
Implicit Types (s : NodeEngine (K:=K)) (m : bytes) (r : Request).

Lemma round_trip_accepted m r s :
  accepts bson_text m r →
  node_round_trip m s =
    if is_hello (command_name r)
    then (Returns (Ok (mkRoundTrip (request_id r) (more_to_come r) (legacy r) (hello_reply s))), s)
    else if present s then
      let '(answer, k) := drive_bytes (database r) (command r) (driven s) in
      (match answer with
       | Returns (Ok response) =>
           Returns (Ok (mkRoundTrip (request_id r) (more_to_come r) (legacy r) response))
       | Returns (Err e) => Returns (Err (text_of e))
       | Blocks => Blocks
       | Panics => Panics
       | NoFuel => NoFuel
       end, mkNodeEngine true (hello_reply s) k)
    else (Returns (Err "embedded MongoDB engine is closed"%string), s).
Proof.
  intros Ha%parse_iff. unfold round_trip. rewrite Ha.
  destruct (is_hello (command_name r)); [done|]. destruct (present s) eqn:Hp; [|done].
  unfold try_bind, bind, on_driven, to_error.
  destruct (drive_bytes _ _ (driven s)) as [[[response|e]| | |] k]; simpl; by rewrite Hp.
Qed.

Lemma round_trip_refused m s :
  (∀ r, ¬ accepts bson_text m r) → ∃ e, node_round_trip m s = (Returns (Err e), s).
Proof.
  intros Hn. unfold round_trip. destruct (parse_returns bson_text m) as [[r|e] Hp].
  - by apply parse_iff, Hn in Hp.
  - rewrite Hp. eauto.
Qed.

(** The two bindings answer alike. *)
Lemma the_bindings_agree m r s :
  accepts bson_text m r → is_hello (command_name r) = false → present s = true →
  match node_round_trip m s, py_round_trip bson_text io_text what m (mkPyClient true (driven s)) with
  | (Returns (Ok n), s'), (Returns (Ok p), c) =>
      p = (rt_request_id n, rt_more_to_come n, rt_response n) ∧ py_driven c = driven s'
  | (Returns (Err e), s'), (Returns (Err p), c) => p = PyRuntimeError e ∧ py_driven c = driven s'
  | (Blocks, _), (Blocks, _) | (Panics, _), (Panics, _) | (NoFuel, _), (NoFuel, _) => True
  | _, _ => False
  end.
Proof.
  intros Ha Hh Hp. rewrite (round_trip_accepted m r s Ha), Hh, Hp. unfold py_round_trip.
  apply parse_iff in Ha. rewrite Ha. cbn [py_present].
  unfold try_bind, bind, on_py, to_error. cbn [py_driven].
  destruct (drive_bytes _ _ (driven s)) as [[[response|e]| | |] k]; done.
Qed.

(** After a close nothing reaches the client any more, and closing again is no error. *)
Lemma node_close_closes s :
  match node_close bson_text io_text what s with
  | (Returns _, s') =>
      present s' = false ∧ node_close bson_text io_text what s' = (Returns (Ok tt), s')
  | _ => True
  end.
Proof.
  unfold node_close. destruct (present s) eqn:Hp; [|by rewrite Hp].
  unfold bind, on_driven. cbn [driven]. destruct (drive_close (driven s)) as [[r| | |] k]; done.
Qed.

(** After a close a handshake is still answered from the reply kept at open, every other message
    is refused, and closing again does nothing. *)
Theorem a_closed_binding_refuses_everything_but_the_handshake s s' answer m r :
  node_close bson_text io_text what s = (Returns answer, s') →
  accepts bson_text m r →
  node_round_trip m s' =
    (if is_hello (command_name r)
     then Returns (Ok (mkRoundTrip (request_id r) (more_to_come r) (legacy r) (hello_reply s)))
     else Returns (Err "embedded MongoDB engine is closed"%string), s') ∧
  node_close bson_text io_text what s' = (Returns (Ok tt), s').
Proof.
  intros Hc Ha. pose proof (node_close_closes s) as Hs. rewrite Hc in Hs. destruct Hs as [Hp Hagain].
  split; [|done]. rewrite (round_trip_accepted m r s' Ha), Hp.
  assert (hello_reply s' = hello_reply s) as ->.
  { unfold node_close in Hc. destruct (present s); [|by simplify_eq].
    unfold bind, on_driven, ret in Hc. cbn [driven present hello_reply] in Hc.
    destruct (drive_close (driven s)) as [[] k]; by simplify_eq. }
  by destruct (is_hello (command_name r)).
Qed.

(** ** The handshake *)

Context `{!BsonLaws Document ObjectId Other (list Byte.byte) BE}.

Lemma removed_fields fields d key :
  doc_get key (fold_left (λ reply field, snd (doc_remove field reply)) fields d)
  = if decide (key ∈ fields) then None else doc_get key d.
Proof.
  revert d. induction fields as [|f fields IH]; intros d; simpl; [done|]. rewrite IH.
  destruct (decide (key = f)) as [->|Hne].
  - rewrite doc_get_remove. rewrite (decide_True (P := f ∈ f :: fields)) by left. by case_decide.
  - rewrite doc_get_remove_ne by done.
    destruct (decide (key ∈ fields)), (decide (key ∈ f :: fields)); set_solver.
Qed.

Lemma edit_hello_get d key :
  doc_get key (edit_hello d)
  = if decide (key = "ismaster" ∨ key = "helloOk")%string then Some (Boolean true)
    else if decide (key ∈ HELLO_FIELDS) then None else doc_get key d.
Proof.
  unfold edit_hello. destruct (decide (key = "ismaster"%string)) as [->|H1].
  { rewrite doc_get_insert, decide_True; auto. }
  rewrite doc_get_insert_ne by done. destruct (decide (key = "helloOk"%string)) as [->|H2].
  { rewrite doc_get_insert, decide_True; auto. }
  rewrite doc_get_insert_ne by done. rewrite (decide_False (P := _ ∨ _)) by tauto.
  apply removed_fields.
Qed.

Lemma wrap_inv k s k' :
  wrap bson_text io_text what k = (Returns (Ok s), k') →
  ∃ reply, drive_command "admin" (doc [("hello"%string, Int32 1)]) k = (Returns (Ok reply), k') ∧
    s = mkNodeEngine true (hello_reply s) k' ∧ to_vec (edit_hello reply) = Ok (hello_reply s).
Proof.
  unfold wrap, hello, bind. destruct (drive_command _ _ k) as [[[reply|e]| | |] k1]; try done.
  unfold to_error, encode. cbn [map_err ret]. destruct (to_vec (edit_hello reply)) as [b|] eqn:Hb; [|done].
  simpl. intros [= <- <-]. by exists reply.
Qed.

(** ** A driver's conversation *)

(** What a driver may be told, with [hello] the handshake that was kept, [is_open] whether it has
    closed and [k] the client: [conversation hello is_open k calls answers is_open' k']. A
    message is read by the grammar of [WireFormat]; only the commands of such messages reach the
    client, in their order, each before the close and on its own database, and their answers are
    the client's own. *)
Inductive conversation (hello : bytes) :
    bool → K → list Called → list Answered → bool → K → Prop :=
| talk_over is_open k : conversation hello is_open k [] [] is_open k
| talk_handshake is_open k m r calls answers is_open' k' :
    accepts bson_text m r → is_hello (command_name r) = true →
    conversation hello is_open k calls answers is_open' k' →
    conversation hello is_open k (CMessage m :: calls)
      (AMessage (Ok (mkRoundTrip (request_id r) (more_to_come r) (legacy r) hello)) :: answers)
      is_open' k'
| talk_answered k m r response k1 calls answers is_open' k' :
    accepts bson_text m r → is_hello (command_name r) = false →
    drive_bytes (database r) (command r) k = (Returns (Ok (E := error) response), k1) →
    conversation hello true k1 calls answers is_open' k' →
    conversation hello true k (CMessage m :: calls)
      (AMessage (Ok (mkRoundTrip (request_id r) (more_to_come r) (legacy r) response)) :: answers)
      is_open' k'
| talk_failed k m r e k1 calls answers is_open' k' :
    accepts bson_text m r → is_hello (command_name r) = false →
    drive_bytes (database r) (command r) k = (Returns (Err e), k1) →
    conversation hello true k1 calls answers is_open' k' →
    conversation hello true k (CMessage m :: calls) (AMessage (Err (text_of e)) :: answers) is_open' k'
| talk_after_close k m r calls answers k' :
    accepts bson_text m r → is_hello (command_name r) = false →
    conversation hello false k calls answers false k' →
    conversation hello false k (CMessage m :: calls)
      (AMessage (Err "embedded MongoDB engine is closed"%string) :: answers) false k'
| talk_unreadable is_open k m e calls answers is_open' k' :
    (∀ r, ¬ accepts bson_text m r) →
    conversation hello is_open k calls answers is_open' k' →
    conversation hello is_open k (CMessage m :: calls) (AMessage (Err e) :: answers) is_open' k'
| talk_close k (closed : result error unit) k1 calls answers k' :
    drive_close k = (Returns closed, k1) →
    conversation hello false k1 calls answers false k' →
    conversation hello true k (CClose :: calls) (AClose (map_err text_of closed) :: answers) false k'
| talk_close_again k calls answers k' :
    conversation hello false k calls answers false k' →
    conversation hello false k (CClose :: calls) (AClose (Ok tt) :: answers) false k'.

Local Abbreviation node_serve := (serve bson_text io_text what).

Lemma closed_stays hello k calls answers is_open k' :
  conversation hello false k calls answers is_open k' → is_open = false.
Proof. remember false as c eqn:Hc. induction 1; by auto. Qed.

(** One message, whoever is on the other side. *)
Lemma round_trip_talks m s answer s' :
  node_round_trip m s = (Returns answer, s') →
  present s' = present s ∧ hello_reply s' = hello_reply s ∧
  ∀ calls answers is_open' k',
    conversation (hello_reply s) (present s) (driven s') calls answers is_open' k' →
    conversation (hello_reply s) (present s) (driven s) (CMessage m :: calls)
      (AMessage answer :: answers) is_open' k'.
Proof.
  intros Hr. destruct (parse_returns bson_text m) as [[r|e] Hp].
  - apply parse_iff in Hp. rewrite (round_trip_accepted m r s Hp) in Hr.
    destruct (is_hello (command_name r)) eqn:Hh.
    { injection Hr as <- <-. split_and!; try done. intros. by apply talk_handshake. }
    destruct (present s) eqn:Hps.
    2: { injection Hr as <- <-. split_and!; try done. intros ???? Hc.
         pose proof (closed_stays _ _ _ _ _ _ Hc) as ->. by eapply talk_after_close. }
    destruct (drive_bytes _ _ (driven s)) as [[[response|e]| | |] k] eqn:Hd; try done;
      injection Hr as <- <-; split_and!; try done; intros.
    + by eapply talk_answered.
    + by eapply talk_failed.
  - assert (∀ r, ¬ accepts bson_text m r) as Hno by (intros r Ha%parse_iff; congruence).
    destruct (round_trip_refused m s Hno) as [e' He]. rewrite He in Hr. injection Hr as <- <-.
    split_and!; try done. intros. by apply talk_unreadable.
Qed.

(** The close. *)
Lemma close_talks s answer s' :
  node_close bson_text io_text what s = (Returns answer, s') →
  present s' = false ∧ hello_reply s' = hello_reply s ∧
  ∀ calls answers is_open' k',
    conversation (hello_reply s) false (driven s') calls answers is_open' k' →
    conversation (hello_reply s) (present s) (driven s) (CClose :: calls)
      (AClose answer :: answers) is_open' k'.
Proof.
  unfold node_close. destruct (present s) eqn:Hp.
  - unfold bind, on_driven. cbn [driven]. destruct (drive_close (driven s)) as [[r| | |] k] eqn:Hc; try done.
    unfold ret, to_error. intros [= <- <-]. split_and!; try done. intros ???? Ht.
    pose proof (closed_stays _ _ _ _ _ _ Ht) as ->. by eapply talk_close.
  - intros [= <- <-]. split_and!; try done. intros ???? Ht.
    pose proof (closed_stays _ _ _ _ _ _ Ht) as ->. by apply talk_close_again.
Qed.

Lemma serve_talks calls s answers s' :
  node_serve calls s = (Returns answers, s') →
  hello_reply s' = hello_reply s ∧
  conversation (hello_reply s) (present s) (driven s) calls answers (present s') (driven s').
Proof.
  revert s answers. induction calls as [|call calls IH]; intros s answers; cbn [serve].
  { intros [= <- <-]. split; [done|constructor]. }
  unfold bind, ret. destruct call as [m|].
  - destruct (node_round_trip m s) as [[answer| | |] s1] eqn:Hr; try done.
    destruct (node_serve calls s1) as [[rest| | |] s2] eqn:Hs; try done.
    intros [= <- <-]. destruct (IH _ _ Hs) as [Hh Hc].
    destruct (round_trip_talks _ _ _ _ Hr) as (Hp1 & Hh1 & Htalk).
    split; [congruence|]. apply Htalk. by rewrite <- Hh1, <- Hp1.
  - destruct (node_close bson_text io_text what s) as [[answer| | |] s1] eqn:Hr; try done.
    destruct (node_serve calls s1) as [[rest| | |] s2] eqn:Hs; try done.
    intros [= <- <-]. destruct (IH _ _ Hs) as [Hh Hc].
    destruct (close_talks _ _ _ Hr) as (Hp1 & Hh1 & Htalk).
    split; [congruence|]. apply Htalk. by rewrite <- Hh1, <- Hp1.
Qed.

(** A client whose calls come back is answered for. *)
Lemma serve_returns calls s :
  (∀ database c k, ∃ a k', drive_bytes database c k = (Returns a, k')) →
  (∀ k, ∃ a k', drive_close k = (Returns a, k')) →
  ∃ answers s', node_serve calls s = (Returns answers, s').
Proof.
  intros Hbytes Hclose. revert s. induction calls as [|call calls IH]; intros s; cbn [serve];
    [by repeat eexists|]. unfold bind, ret. destruct call as [m|].
  - assert (∃ a s1, node_round_trip m s = (Returns a, s1)) as (a & s1 & ->).
    { destruct (parse_returns bson_text m) as [[r|e] Hp].
      - apply parse_iff in Hp. rewrite (round_trip_accepted m r s Hp).
        destruct (is_hello _); [by repeat eexists|]. destruct (present s); [|by repeat eexists].
        destruct (Hbytes (database r) (command r) (driven s)) as ([] & k' & ->); by repeat eexists.
      - unfold round_trip. rewrite Hp. by repeat eexists. }
    destruct (IH s1) as (answers & s2 & ->). by repeat eexists.
  - assert (∃ a s1, node_close bson_text io_text what s = (Returns a, s1)) as (a & s1 & ->).
    { unfold node_close. destruct (present s); [|by repeat eexists]. unfold bind, on_driven. cbn [driven].
      destruct (Hclose (driven s)) as (a & k' & ->). by repeat eexists. }
    destruct (IH s1) as (answers & s2 & ->). by repeat eexists.
Qed.

(** C29. Whatever messages and closes a driver sends an engine opened by the Node binding, it is
    answered as in a conversation with the engine: a message of the wire format before the close
    has its command run on its database and is answered with the engine's bytes or error and its
    own request id; a handshake, before and after the close, with the engine's own reply at
    open, less four fields and with two set; a close closes once; any other message after it is
    refused, as is at all times one that is not of the format, and reaches nothing. And if the
    client's calls come back, so does each of these. *)
Theorem a_driver_converses_with_the_engine_itself k s k0 :
  wrap bson_text io_text what k = (Returns (Ok s), k0) →
  (∃ reply, drive_command "admin" (doc [("hello"%string, Int32 1)]) k = (Returns (Ok reply), k0) ∧
     to_vec (edit_hello reply) = Ok (hello_reply s) ∧
     ∀ key, doc_get key (edit_hello reply)
       = if decide (key = "ismaster" ∨ key = "helloOk")%string then Some (Boolean true)
         else if decide (key ∈ HELLO_FIELDS) then None else doc_get key reply) ∧
  (∀ calls answers s', node_serve calls s = (Returns answers, s') →
     conversation (hello_reply s) true k0 calls answers (present s') (driven s')) ∧
  ((∀ database c k, ∃ a k', drive_bytes database c k = (Returns a, k')) →
   (∀ k, ∃ a k', drive_close k = (Returns a, k')) →
   ∀ calls, ∃ answers s', node_serve calls s = (Returns answers, s')).
Proof.
  intros (reply & Hreply & Hs & Hvec)%wrap_inv. split_and!.
  - exists reply. split_and!; [done..|]. apply edit_hello_get.
  - intros calls answers s' (_ & Hc)%serve_talks. by rewrite Hs in Hc at 2 3.
  - intros Hb Hc calls. by apply serve_returns.
Qed.
End promises.

(** ** A concrete client

    It counts the commands it was sent, and answers each with the bytes of the command, and a
    [hello] with a session timeout. The codec is the one of [WireFormat]'s examples. *)

#[local] Existing Instance mini_codec.

#[local] Instance Echo : Driven nat Doc (list Byte.byte) (Error unit unit unit Doc) := {
  drive_bytes _ command n := (Returns (Ok command), S n);
  drive_command _ _ n :=
    (Returns (Ok (mkDoc [("logicalSessionTimeoutMinutes"%string, Int32 30);
                         ("maxWireVersion"%string, Int32 25)])), S n);
  drive_close n := (Returns (Ok tt), n);
}.

Definition silent {A} (_ : A) : string := EmptyString.

#[local] Instance mini_laws : BsonLaws Doc nat Empty_set (list Byte.byte) unit.
Proof.
  split; simpl.
  - done.
  - intros. rewrite assoc_get_set. by rewrite decide_True.
  - intros. rewrite assoc_get_set. by rewrite decide_False.
  - done.
  - intros. by apply assoc_get_del.
  - intros. apply assoc_get_del_eq.
Qed.

Definition echo_engine : NodeEngine (K:=nat) := mkNodeEngine true [] 0%nat.

Lemma insert_message_accepted :
  ∃ r, accepts silent insert_message r ∧ is_hello (command_name r) = false.
Proof. eexists. split; [apply parse_iff; vm_compute; reflexivity|reflexivity]. Qed.

(** An insert is answered, the close closes, and then the insert is refused and the handshake
    still answered. *)
Definition echo_hello : bytes :=
  encode_doc 8 (mkDoc [("maxWireVersion"%string, Int32 25); ("helloOk"%string, Boolean true);
                       ("ismaster"%string, Boolean true)]).

Definition inserted_echo : RoundTrip :=
  mkRoundTrip 42 true false
    (encode_doc 8 (mkDoc [("insert"%string, BString "items"); ("ordered"%string, Int32 1);
       ("documents"%string, Array [BDocument (mkDoc [("value"%string, Int32 1)]);
                                   BDocument (mkDoc [("value"%string, Int32 (-2))])])])).

Lemma converses_witness :
  conversation (IOE:=unit) (X:=unit) silent silent silent echo_hello true 1%nat
    [CMessage insert_message; CClose; CMessage insert_message; CMessage handshake]
    [AMessage (Ok inserted_echo); AClose (Ok tt);
     AMessage (Err "embedded MongoDB engine is closed"%string);
     AMessage (Ok (mkRoundTrip 7 false true echo_hello))] false 2%nat.
Proof.
  destruct (a_driver_converses_with_the_engine_itself (IOE:=unit) (X:=unit) silent silent silent
    0%nat (mkNodeEngine true echo_hello 1%nat) 1%nat) as (_ & Htalk & _); [vm_compute; reflexivity|].
  apply (Htalk [CMessage insert_message; CClose; CMessage insert_message; CMessage handshake]
    [AMessage (Ok inserted_echo); AClose (Ok tt);
     AMessage (Err "embedded MongoDB engine is closed"%string);
     AMessage (Ok (mkRoundTrip 7 false true echo_hello))] (mkNodeEngine false echo_hello 2%nat)).
  vm_compute. reflexivity.
Defined.

Lemma closed_binding_witness :
  ∃ r, round_trip (IOE:=unit) (X:=unit) silent silent silent handshake
         (snd (node_close (IOE:=unit) (X:=unit) silent silent silent echo_engine))
       = (if is_hello (command_name r)
          then Returns (Ok (mkRoundTrip (request_id r) (more_to_come r) (legacy r) []))
          else Returns (Err "embedded MongoDB engine is closed"%string),
          snd (node_close (IOE:=unit) (X:=unit) silent silent silent echo_engine)) ∧
       is_hello (command_name r) = true.
Proof.
  exists (mkRequest 7 false true "admin" "isMaster" (encode_doc 8 (mkDoc [("isMaster"%string, Int32 1)]))).
  split; [|vm_compute; reflexivity].
  refine (proj1 (a_closed_binding_refuses_everything_but_the_handshake (IOE:=unit) (X:=unit)
    silent silent silent echo_engine
    (snd (node_close (IOE:=unit) (X:=unit) silent silent silent echo_engine)) (Ok tt) handshake
    (mkRequest 7 false true "admin" "isMaster" (encode_doc 8 (mkDoc [("isMaster"%string, Int32 1)]))) _ _));
    [reflexivity|apply parse_iff; vm_compute; reflexivity].
Defined.
