(* ===== verification/BlockOn.v ===== *)
(** * Driving one future on the calling thread

    [embedded-mongodb-python/src/wait.rs]: [block_on] polls, parks and polls again, and the
    waker unparks. The future and whoever completes it are given; what they promise is the
    contract of [Future::poll], as a class. Parking takes the thread's permit, and may also
    return for no reason. *)
From S2P Require Import Prelude.

Class FutureLib (F T : Type) := {
  (** [poll]: whether the waker was called meanwhile, and the value where it is ready. *)
  poll : F → bool * F * option T;
  (** What the rest of the program does to the future, and whether it calls the waker. *)
  env : F → bool → F → Prop;
}.

(** The contract: a future that answered [Pending] stays pending until it calls the waker. *)
Class FutureLaws (F T : Type) `{FutureLib F T} := {
  armed : F → Prop;
  poll_arms f f' : poll f = (false, f', None) → armed f';
  env_keeps_armed f f' : armed f → env f false f' → armed f';
  armed_pending f : armed f → snd (poll f) = None;
}.

(** Where [block_on]'s loop is. *)
Inductive bpc (T : Type) := Polling | Parking | Answered (value : T).
Arguments Polling {T}.
Arguments Parking {T}.
Arguments Answered {T} value.

Record bstate (F T : Type) := mkBstate { permit : bool; bpc_of : bpc T; future : F }.
Arguments mkBstate {F T} _ _ _.
Arguments permit {F T} _.
Arguments bpc_of {F T} _.
Arguments future {F T} _.

Section block_on.
Context `{FutureLib F T}.
Local Abbreviation state := (bstate F T).
Implicit Types (s : state).

(** [Unpark::wake]: a permit, which is kept if the thread is not parked. *)
Definition unpark s : state := mkBstate true (bpc_of s) (future s).

(** The thread's next step; [None] where it is parked or has returned. *)
Definition block_on_step s : option state :=
  match bpc_of s with
  | Polling =>
      let '(woken, f, r) := poll (future s) in
      Some (mkBstate (permit s || woken)
              (match r with Some value => Answered value | None => Parking end) f)
  | Parking => if permit s then Some (mkBstate false Polling (future s)) else None
  | Answered _ => None
  end.

Inductive bstep : state → state → Prop :=
| b_thread s s' : block_on_step s = Some s' → bstep s s'
| b_spurious s : bpc_of s = Parking → bstep s (mkBstate (permit s) Polling (future s))
| b_env s woken f' :
    env (future s) woken f' →
    bstep s (let s := mkBstate (permit s) (bpc_of s) f' in if woken then unpark s else s).

Definition binitial (f : F) : state := mkBstate false Polling f.

(** The thread alone, for so many steps. *)
Fixpoint block_on_steps (n : nat) s : state :=
  match n with
  | O => s
  | S n => match block_on_step s with Some s => block_on_steps n s | None => s end
  end.
End block_on.

Section promise.
Context `{FutureLaws F T}.
Local Abbreviation state := (bstate F T).
Implicit Types (s : state).

(** A thread that sleeps without a permit sleeps on a future that owes it a wake. *)
Definition owed s : Prop := bpc_of s = Parking → permit s = false → armed (future s).

Lemma bstep_owed s s' : owed s → bstep s s' → owed s'.
Proof.
  intros Ho. destruct 1 as [s s' Hs|s Hp|s woken f' He].
  - unfold block_on_step in Hs. destruct (bpc_of s).
    + destruct (poll (future s)) as [[woken f] [v|]] eqn:Hpoll; simplify_eq; intros Hp Hn; [done|].
      simpl in *. apply orb_false_iff in Hn as [_ ->]. by eapply poll_arms.
    + destruct (permit s); [|done]. by simplify_eq.
    + done.
  - by intros ?.
  - destruct woken; [by intros ? ?|]. intros Hp Hn. simpl in *.
    eapply env_keeps_armed, He. by apply Ho.
Qed.

Lemma reachable_owed f s : rtc bstep (binitial f) s → owed s.
Proof.
  intros Hr. assert (owed (binitial f)) as Hi by by intros ?.
  induction Hr as [|s1 s2 s3 Hs _ IH]; [done|]. apply IH. by eapply bstep_owed.
Qed.

(** C30. Whenever the future a thread waits for is ready, the thread has its answer or is two of
    its own steps from it: no wake that races a poll or the park is lost. *)
Theorem block_on_loses_no_wake f s value :
  rtc bstep (binitial f) s → snd (poll (future s)) = Some value →
  (∃ v, bpc_of s = Answered v) ∨ bpc_of (block_on_steps 2 s) = Answered value.
Proof.
  intros Hr Hv. apply reachable_owed in Hr. destruct (bpc_of s) as [| |v] eqn:Hpc; [| |by left; eauto].
  - right. unfold block_on_steps, block_on_step. rewrite Hpc.
    destruct (poll (future s)) as [[woken f'] r]. simpl in *. by subst.
  - right. destruct (permit s) eqn:Hp.
    + unfold block_on_steps, block_on_step at 1. rewrite Hpc, Hp.
      unfold block_on_step. cbn [bpc_of future].
      destruct (poll (future s)) as [[woken f'] r]. simpl in *. by subst.
    + exfalso. pose proof (armed_pending _ (Hr Hpc Hp)) as Hn. congruence.
Qed.
End promise.

(** ** A channel with one value, as [tokio::sync::oneshot] is *)

Record channel := mkChannel { sent : option nat; waker_registered : bool }.

Inductive channel_env : channel → bool → channel → Prop :=
| channel_send v w : channel_env (mkChannel None w) w (mkChannel (Some v) w).

#[export] Instance channel_FutureLib : FutureLib channel nat := {
  poll c := match sent c with
            | Some v => (false, c, Some v)
            | None => (false, mkChannel None true, None)
            end;
  env := channel_env;
}.

#[export] Instance channel_FutureLaws : FutureLaws channel nat.
Proof.
  refine {| armed := λ c, c = mkChannel None true |}.
  - intros [[v|] w] f'; simpl; by intros [= <-].
  - intros f f' -> He. inversion He.
  - by intros f ->.
Defined.

(** Polled, sent to before the thread parks, and answered. *)
Lemma no_wake_lost_witness :
  (∃ v : nat, Parking = Answered v) ∨
  bpc_of (block_on_steps 2 (mkBstate true Parking (mkChannel (Some 7%nat) true))) = Answered 7%nat.
Proof.
  refine (block_on_loses_no_wake (T:=nat) (mkChannel None false)
    (mkBstate true Parking (mkChannel (Some 7%nat) true)) 7%nat _ _); [|reflexivity].
  apply rtc_l with (mkBstate false Parking (mkChannel None true)).
  - apply b_thread. reflexivity.
  - apply rtc_once. apply (b_env (mkBstate false Parking (mkChannel None true)) true). constructor.
Defined.
