(* ===== verification/WorkerPoolAbandon.v ===== *)
(** * An engine nobody waits for is let go

    The last handle on the async client may be dropped without a close, and so may the future of
    an open that is still under way ([Engine::open] has the handle before it waits). Either
    abandons the pool ([src/nonblocking/engine.rs], [Drop for Handle]). Here: every schedule from
    there is finite, and where nothing more can happen nobody holds the engine any longer, so it
    has closed; every job accepted before was still taken. *)
From S2P Require Import Prelude EngineOptions Options Errors WorkerState Shutdown.
From S2P Require Import WorkerPool WorkerPoolInv WorkerPoolProps.

(** ** A measure every step of an abandoned pool decreases *)

(** As in a close, and the floor an opening thread still has to start counts with it. *)
Definition weight_left (w : worker) : Z :=
  match w with WOpening n => 9 * Z.of_nat n + 9 | _ => weight w end.

Fixpoint weights_left (ws : list worker) : Z :=
  match ws with [] => 0 | w :: ws' => weight_left w + weights_left ws' end.

Lemma weights_left_app l1 l2 : weights_left (l1 ++ l2) = weights_left l1 + weights_left l2.
Proof. induction l1 as [|w l1 IH]; simpl; [done|]. lia. Qed.

Lemma weights_left_insert ws (i : nat) w w' :
  ws !! i = Some w → weights_left (<[i := w']> ws) = weights_left ws + weight_left w' - weight_left w.
Proof.
  intros H. destruct (list_insert_split _ _ _ H) as (l1 & l2 & -> & _ & ->).
  rewrite !weights_left_app. simpl. lia.
Qed.

Lemma weights_left_nonneg ws : 0 ≤ weights_left ws.
Proof. induction ws as [|w ws IH]; simpl; [done|]. destruct w; simpl; lia. Qed.

Lemma weights_left_wake_all ws : weights_left (wake <$> ws) ≤ weights_left ws.
Proof. induction ws as [|w ws IH]; csimpl; [done|]. destruct w; simpl; lia. Qed.

Lemma weights_left_wake_one ws ws' : wake_one ws ws' → weights_left ws' ≤ weights_left ws.
Proof.
  intros H. destruct H as [|ws j since Hj]; [done|]. split_thread Hj.
  rewrite !weights_left_app. simpl. lia.
Qed.

Lemma forallb_false_witness {A} (g : A → bool) l :
  forallb g l = false → ∃ x, x ∈ l ∧ g x = false.
Proof.
  induction l as [|x l IH]; simpl; [done|]. intros [Hx|Hl]%andb_false_iff.
  - exists x. split; [left|done].
  - destruct (IH Hl) as (y & ? & ?). exists y. split; [by right|done].
Qed.

Section abandoned.
Context (limits : Concurrency) (closed : result (Error unit unit unit unit) unit).
Context (Hwf : Concurrency_wf limits).
Local Abbreviation step := (wstep limits closed).
Local Abbreviation reach := (reachable (wstep limits closed) winitial).

(** The thread that opens the engine has not counted itself yet. *)
Definition unopened (s : wsystem) : bool :=
  match workers s with [] => negb (opened s) | _ => false end.

Definition abandoned_measure (s : wsystem) : Z :=
  weights_left (workers s) + 3 * Z.of_nat (length (queue (pool s))) + notifies s
  + (if notify_all_due s then 1 else 0) + lingering s
  + (if unopened s then 9 * conc_min limits + 1 else 0).

Lemma wake_one_length ws ws' : wake_one ws ws' → length ws' = length ws.
Proof. by destruct 1; rewrite ?length_insert. Qed.

(** A thread that has counted itself stays in the list. *)
Lemma workers_grow s s' : step s s' → (length (workers s) ≤ length (workers s'))%nat.
Proof using.
  destruct 1; simpl; rewrite ?length_app, ?length_insert, ?length_fmap; try lia.
  - rewrite H. simpl. lia.
  - by rewrite (wake_one_length _ _ H0).
Qed.

Lemma unopened_back s s' : step s s' → unopened s' = true → unopened s = true.
Proof using.
  intros Hs. pose proof (workers_grow s s' Hs) as Hl. unfold unopened.
  destruct (workers s') eqn:E'; [|done]. destruct (workers s) eqn:E; [|simpl in Hl; lia].
  destruct Hs; simpl in *; try done; congruence || (by rewrite ?E in * ).
Qed.

Lemma abandoned_next_job s i w now turn held' p' :
  phase (pool s) = Abandoned → workers s !! i = Some w →
  match w with
  | WReady => next_job_turn limits None now (Some tt) (waiting (pool s)) = (turn, held', p')
  | WWoken since => next_job_turn limits since now (Some tt) (pool s) = (turn, held', p')
  | _ => False
  end →
  phase p' = Abandoned ∧
  ((∃ j, turn = TurnJob j ∧ queue (pool s) = j :: queue p')
   ∨ (turn = TurnRetire ∧ queue (pool s) = [] ∧ queue p' = [])).
Proof.
  intros Hph Hi Hn. unfold next_job_turn, take_job in Hn.
  destruct w; try done; simpl in Hn; destruct (queue (pool s)) as [|j rest] eqn:E;
    unfold abandoned in Hn; simpl in Hn; rewrite ?Hph, ?bool_decide_true in Hn by done;
    simplify_eq/=; rewrite ?E; split_and!; eauto.
Qed.

Lemma abandoned_step_decreases s s' :
  wpool_inv limits s → phase (pool s) = Abandoned → step s s' →
  phase (pool s') = Abandoned ∧ 0 ≤ abandoned_measure s' < abandoned_measure s.
Proof using Hwf.
  intros H Hph Hs.
  assert (1 ≤ conc_min limits) as Hmin by (destruct Hwf as (Hm & _); unfold MIN_COUNT in Hm; lia).
  assert (0 ≤ abandoned_measure s') as Hpos.
  { pose proof (wpool_inv_step limits closed Hwf s s' H Hs) as H'.
    pose proof (wi_counts _ _ H'). pose proof (weights_left_nonneg (workers s')).
    unfold abandoned_measure. destruct (notify_all_due s'), (unopened s'); lia. }
  cut (phase (pool s') = Abandoned ∧ abandoned_measure s' < abandoned_measure s); [intuition lia|].
  clear Hpos.
  assert (Hun : (if unopened s' then 9 * conc_min limits + 1 else 0)
                ≤ (if unopened s then 9 * conc_min limits + 1 else 0)).
  { pose proof (unopened_back s s' Hs). destruct (unopened s'), (unopened s); lia || naive_solver. }
  unfold abandoned_measure. remember (if unopened s' then _ else 0) as bonus' eqn:Hb.
  destruct Hs; simpl in *;
    try match goal with Hi : workers _ !! _ = Some _ |- _ =>
      rewrite ?weights_left_app, (weights_left_insert _ _ _ _ Hi) end;
    simpl; try (split; [done|lia]).
  - subst bonus'. unfold unopened. simpl. rewrite H0, H1. split; [done|]. simpl. lia.
  - unfold publish. rewrite Hph. simpl. split; [done|lia].
  - unfold spawn_failed in H1. simpl in H1. rewrite Hph in H1. injection H1 as <- <-. simpl.
    split; [done|lia].
  - destruct (abandoned_next_job _ _ _ _ _ _ _ Hph H0 H2) as [Hp [(j & -> & Hq)|(-> & Hq & Hq')]].
    + split; [done|]. rewrite Hq. simpl. destruct w, j as [?|[]]; simpl; lia || done.
    + split; [done|]. rewrite Hq, Hq'. destruct w; simpl; lia || done.
  - unfold queue_job in *. by rewrite decide_False in * by (by rewrite Hph).
  - pose proof (weights_left_wake_one _ _ H1). split; [done|lia].
  - unfold begin_close in *. rewrite bool_decide_true in * by (by rewrite Hph). done.
  - by rewrite Hph in *.
  - pose proof (weights_left_wake_all (workers s)). rewrite H0. split; [done|lia].
Qed.

Lemma abandoned_terminates s :
  wpool_inv limits s → phase (pool s) = Abandoned → Acc (λ s1 s2, step s2 s1) s.
Proof using Hwf.
  remember (Z.to_nat (abandoned_measure s)) as n eqn:Hn. revert s Hn.
  induction n as [n IH] using lt_wf_ind. intros s -> H Hph. constructor. intros s' Hs.
  destruct (abandoned_step_decreases s s' H Hph Hs) as [Hph' Hm].
  eapply IH; [|done|by eapply wpool_inv_step|done]. lia.
Qed.

Lemma abandoned_stays s s' :
  wpool_inv limits s → phase (pool s) = Abandoned → rtc step s s' →
  wpool_inv limits s' ∧ phase (pool s') = Abandoned.
Proof using Hwf.
  intros H Hph Hr. induction Hr as [|s s1 s' Hs Hr IH]; [done|].
  apply IH; [by eapply wpool_inv_step|by eapply abandoned_step_decreases].
Qed.

(** ** Where nothing more can happen *)

Definition let_go (s : wsystem) : Prop :=
  handles_outside (pool s) (workers s) (lingering s) = 0 ∧ taken s = accepted s
  ∧ Forall (λ w, w = WGone) (workers s).

Lemma all_gone_let_go s :
  wpool_inv limits s → phase (pool s) = Abandoned → lingering s = 0 →
  Forall (λ w, w = WGone) (workers s) → let_go s.
Proof using.
  intros H Hph Hl Hgone.
  assert (∀ g, g WGone = false → count g (workers s) = 0) as Hz.
  { intros g Hg. apply count_zero. rewrite Forall_forall in Hgone. intros w Hin.
    by rewrite (Hgone w Hin). }
  split_and!; [| |done].
  - unfold handles_outside. rewrite (wi_client _ _ H) by (by rewrite Hph).
    rewrite Hz by done. lia.
  - rewrite (wi_ledger _ _ H). destruct (runs (queue (pool s))) eqn:E; [by rewrite app_nil_r|].
    pose proof (wi_active _ _ H) as Hac. rewrite E in Hac. specialize (Hac ltac:(by right)).
    rewrite active_count, Hz in Hac by done. lia.
Qed.

(** Nobody is on the way out of a close that never began. *)
Lemma nobody_leaves s w (i : nat) :
  wpool_inv limits s → phase (pool s) = Abandoned → w = WStopping ∨ w = WDeposited →
  workers s !! i = Some w → False.
Proof using.
  intros H Hph Hw Hi. pose proof (wi_rendezvous _ _ H) as Hrv. unfold rendezvous_ok in Hrv.
  rewrite Hph in Hrv. destruct Hrv as (_ & _ & Hl). unfold leaving in Hl.
  pose proof (count_nonneg w_stopping (workers s)). pose proof (count_nonneg w_deposited (workers s)).
  destruct Hw as [->| ->].
  - apply (count_lookup w_stopping) in Hi; [lia|done].
  - apply (count_lookup w_deposited) in Hi; [lia|done].
Qed.

(** An abandoned pool that somebody still holds can take a step. *)
Lemma abandoned_progress s :
  wpool_inv limits s → phase (pool s) = Abandoned → let_go s ∨ ∃ s', step s s'.
Proof using Hwf.
  intros H Hph. pose proof (wi_counts _ _ H) as [Hno Hli].
  destruct (decide (0 < lingering s)) as [Hl|Hl]; [right; eexists; by apply WSStartReturns|].
  destruct (notify_all_due s) eqn:Hna; [right; eexists; by apply WSNotifyAll|].
  destruct (decide (Forall (λ w, w = WGone) (workers s))) as [Ha|Ha].
  { left. apply all_gone_let_go; [done..|lia|done]. }
  right. apply not_Forall_Exists, Exists_exists in Ha as (w & Hw & Hnot); [|apply _].
  pose proof (wi_wake_all _ _ H) as Hpark. rewrite Hph in Hpark. specialize (Hpark ltac:(done) Hna).
  rewrite count_zero in Hpark. specialize (Hpark w Hw).
  apply list_elem_of_lookup in Hw as [i Hi]. destruct w as [n| | | | | | | | |]; try done.
  - destruct (opener_free s) eqn:Hfree.
    + destruct n; eexists; [by eapply WSPublish|by eapply WSFloor].
    + unfold opener_free in Hfree. replace (lingering s =? 0) with true in Hfree by lia.
      destruct (forallb_false_witness _ _ Hfree) as (w & Hw & Hr).
      apply list_elem_of_lookup in Hw as [j Hj]. destruct w; try done. eexists. by eapply WSSpawn.
  - eexists. by eapply WSSpawn.
  - eexists. by eapply WSArrives.
  - destruct (next_job_turn limits None (wclock s) (Some tt) (waiting (pool s)))
      as [[turn held'] p'] eqn:E.
    eexists. by eapply (WSNextJob _ _ s i WReady (wclock s)).
  - destruct (next_job_turn limits since (wclock s) (Some tt) (pool s))
      as [[turn held'] p'] eqn:E.
    eexists. by eapply (WSNextJob _ _ s i (WWoken since) (wclock s)).
  - eexists. by eapply WSJobDone.
  - exfalso. eapply (nobody_leaves s WStopping); eauto.
  - exfalso. eapply (nobody_leaves s WDeposited); eauto.
  - by destruct Hnot.
Qed.

(** C34. Once the last handle on an async engine is dropped, or the future of an open under way,
    every schedule is finite and ends with the queued jobs taken, every worker gone and no
    handle on the engine left. *)
Theorem an_abandoned_engine_is_let_go s :
  reach s → phase (pool s) = Abandoned →
  Acc (λ s1 s2, step s2 s1) s ∧
  ∀ s', rtc step s s' → let_go s' ∨ ∃ s'', step s' s''.
Proof using Hwf.
  intros Hr%reachable_wpool_inv Hph; [|done]. split; [by apply abandoned_terminates|].
  intros s' Hs. destruct (abandoned_stays s s' Hr Hph Hs) as [H' Hph']. by apply abandoned_progress.
Qed.
End abandoned.

(** The future of an open is dropped while the first thread has one more worker to start; and
    what is left runs to its end. *)
Definition dropped_open : list waction := [XFirst; XAbandon].

Lemma abandoned_witness :
  Acc (λ s1 s2, wstep two_workers (Ok tt) s2 s1) (run_two dropped_open)
  ∧ let_go (run_two (dropped_open ++ [XNotifyAll; XPublish 0; XArrives 0; XNextJob 0 0])).
Proof.
  split.
  - apply (an_abandoned_engine_is_let_go two_workers (Ok tt) two_workers_wf);
      [reach_by dropped_open|vm_compute; reflexivity].
  - split_and!; [vm_compute; reflexivity..|]. by apply Forall_singleton.
Defined.
