(* ===== verification/Futures.v ===== *)
(** * A future that can be dropped, and the command behind it

    [Engine::run_cancellable] and [CancelOnDrop] of [src/nonblocking/engine.rs]: the task that
    awaits an answer, the worker that runs the command ([src/client.rs], [src/pool/sessions.rs])
    and the slot and the reply channel between them, as a transition system of one call. The
    task may drop the future before or after its first poll, at any moment; the worker may find
    no session, be refused the start, or see the command panic.

    That the session an armed slot interrupts is on this very command, among all the callers of
    a pool, is [SessionPoolInv]; here is when an interrupt is sent at all, and what the future
    answers. *)
From S2P Require Import Prelude Slot.

Section call.
Context {A : Type}.
(** [Error::Closed], the answer to a job the pool refuses and to a channel whose sender is gone. *)
Context (closed : A).

Inductive future :=
| FNew                    (* not polled yet *)
| FWaiting                (* dispatched; awaiting the reply, [CancelOnDrop] in scope *)
| FResolved (answer : A)
| FDropped.

(** The closure a worker runs. *)
Inductive job :=
| JNone                        (* not dispatched *)
| JQueued
| JBegun                       (* taken by a worker; no session yet *)
| JHold (session : nat)        (* checked out; the slot not started *)
| JRun (session : nat)         (* armed; the engine has the command *)
| JRan (reply : option A)      (* the engine answered, or unwound: nothing to send *)
| JReturned (reply : option A) (* disarmed; the reply to send *)
| JOver.

(** The oneshot channel, from its receiver's side. *)
Inductive channel := Empty | Sent (answer : A) | SenderGone.

Record call := mkCall {
  fut : future;
  work : job;
  cslot : Slot nat;
  chan : channel;
  interrupts : list nat;   (* ghost: the sessions a cancel interrupted *)
  asked : bool;            (* ghost: the engine has been given the command *)
}.

Definition new_call : call := mkCall FNew JNone CommandSlot_new Empty [] false.

(** [CancelOnDrop::drop] *)
Definition cancel_on_drop (f : future) (s : call) : call :=
  let '(fired, slot') := cancel (cslot s) in
  mkCall f (work s) slot' (chan s) (interrupts s ++ option_list fired) (asked s).

Definition set_work (w : job) (s : call) : call :=
  mkCall (fut s) w (cslot s) (chan s) (interrupts s) (asked s).

Definition send (c : channel) (s : call) : call :=
  mkCall (fut s) JOver (cslot s) c (interrupts s) (asked s).

Inductive call_step : call → call → Prop :=
(* the task *)
| CDispatch s :
    fut s = FNew →
    call_step s (mkCall FWaiting JQueued (cslot s) (chan s) (interrupts s) (asked s))
| CRefused s :                     (* the pool is closed *)
    fut s = FNew →
    call_step s (mkCall (FResolved closed) JNone (cslot s) (chan s) (interrupts s) (asked s))
| CDropUnpolled s :
    fut s = FNew →
    call_step s (mkCall FDropped JNone (cslot s) (chan s) (interrupts s) (asked s))
| CDrop s : fut s = FWaiting → call_step s (cancel_on_drop FDropped s)
| CAnswered s a : fut s = FWaiting → chan s = Sent a → call_step s (cancel_on_drop (FResolved a) s)
| CGone s :
    fut s = FWaiting → chan s = SenderGone → call_step s (cancel_on_drop (FResolved closed) s)
(* the worker *)
| CTake s : work s = JQueued → call_step s (set_work JBegun s)
| CNeverTaken s : work s = JQueued → call_step s (send SenderGone s)   (* the queue is dropped *)
| CFails s a :                     (* the command cannot be encoded, or no session opened *)
    work s = JBegun → call_step s (set_work (JReturned (Some a)) s)
| CCheckout s session : work s = JBegun → call_step s (set_work (JHold session) s)
| CStart s session slot' :
    work s = JHold session → start session (cslot s) = (true, slot') →
    call_step s (mkCall (fut s) (JRun session) slot' (chan s) (interrupts s) true)
| CRefusedStart s session slot' :
    work s = JHold session → start session (cslot s) = (false, slot') →
    call_step s (mkCall (fut s) (JReturned None) slot' (chan s) (interrupts s) (asked s))
| CRan s session a : work s = JRun session → call_step s (set_work (JRan (Some a)) s)
| CPanicked s session : work s = JRun session → call_step s (set_work (JRan None) s)
| CDisarm s r :
    work s = JRan r →
    call_step s (mkCall (fut s) (JReturned r) (Disarm_drop (cslot s)) (chan s) (interrupts s) (asked s))
| CReply s a : work s = JReturned (Some a) → call_step s (send (Sent a) s)
| CNoReply s : work s = JReturned None → call_step s (send SenderGone s).

Local Abbreviation reach := (reachable call_step (λ s, s = new_call)).

(** ** The invariant *)

(** While the answer is awaited, the slot and the job move together. *)
Definition in_step (w : job) (slot : Slot nat) (c : channel) (a : bool) : Prop :=
  match w with
  | JNone => False
  | JQueued | JBegun | JHold _ => slot = Waiting ∧ c = Empty ∧ a = false
  | JRun session => slot = Running session ∧ c = Empty ∧ a = true
  | JRan _ => (∃ session, slot = Running session) ∧ c = Empty ∧ a = true
  | JReturned _ => (slot = Waiting ∨ slot = Finished) ∧ c = Empty
  | JOver => (slot = Waiting ∨ slot = Finished) ∧ c ≠ Empty
  end.

(** Once the future is dropped, a job that had not started never does, and one that had has been
    interrupted. *)
Definition left_alone (w : job) (i : list nat) (a : bool) : Prop :=
  match w with
  | JNone | JQueued | JBegun | JHold _ => i = [] ∧ a = false
  | JRun session => i = [session] ∧ a = true
  | JRan _ => (∃ session, i = [session]) ∧ a = true
  | JReturned _ | JOver => i = [] ∨ (∃ session, i = [session]) ∧ a = true
  end.

Definition call_inv (s : call) : Prop :=
  match fut s with
  | FNew => s = new_call
  | FWaiting => interrupts s = [] ∧ in_step (work s) (cslot s) (chan s) (asked s)
  | FResolved a =>
      interrupts s = []
      ∧ (work s = JNone ∧ a = closed
         ∨ work s = JOver ∧ (chan s = Sent a ∨ chan s = SenderGone ∧ a = closed))
  | FDropped =>
      (work s = JNone ∨ cslot s = Cancelled) ∧ left_alone (work s) (interrupts s) (asked s)
  end.

Local Ltac settle :=
  repeat match goal with
  | H : _ ∧ _ |- _ => destruct H
  | H : _ ∨ _ |- _ => destruct H
  | H : ∃ _, _ |- _ => destruct H
  end; simplify_eq/=; eauto 10.

Lemma in_step_sent w slot c a : in_step w slot c a → c ≠ Empty → w = JOver ∧ (slot = Waiting ∨ slot = Finished).
Proof. destruct w; simpl; intros; settle; done. Qed.

Lemma left_alone_cases w i a : left_alone w i a → i = [] ∨ a = true ∧ ∃ session, i = [session].
Proof.
  destruct w; simpl; try (intros [? ?]; by left).
  - intros [-> ->]. eauto.
  - intros [? ?]. auto.
  - intros [?|[? ?]]; auto.
  - intros [?|[? ?]]; auto.
Qed.

Lemma cancel_on_drop_eq f s :
  cancel_on_drop f s = mkCall f (work s) Cancelled (chan s)
    (interrupts s ++ match cslot s with Running session => [session] | _ => [] end) (asked s).
Proof. unfold cancel_on_drop. by destruct (cslot s). Qed.

(** The steps of the task. *)
Lemma call_inv_drop s : call_inv s → fut s = FWaiting → call_inv (cancel_on_drop FDropped s).
Proof.
  intros H Hf. rewrite cancel_on_drop_eq. unfold call_inv in *. rewrite Hf in H. simpl.
  destruct H as [-> H]. split; [by right|]. destruct (work s); simpl in *; settle.
  all: repeat match goal with H : cslot _ = _ |- _ => rewrite H end; eauto; done.
Qed.

Lemma call_inv_resolve s a :
  call_inv s → fut s = FWaiting → chan s = Sent a ∨ chan s = SenderGone ∧ a = closed →
  call_inv (cancel_on_drop (FResolved a) s).
Proof.
  intros H Hf Hc. rewrite cancel_on_drop_eq. unfold call_inv in *. rewrite Hf in H. simpl.
  destruct H as [-> H].
  assert (chan s ≠ Empty) as Hne by (destruct Hc as [->|[-> _]]; done).
  destruct (in_step_sent _ _ _ _ H Hne) as [Hw Hs]. destruct Hs as [->| ->]; auto.
Qed.

(** The steps of the worker. *)
Lemma call_inv_work s w slot' c' a' :
  call_inv s → work s ≠ JNone → work s ≠ JOver → w ≠ JNone →
  (in_step (work s) (cslot s) (chan s) (asked s) → in_step w slot' c' a') →
  (left_alone (work s) (interrupts s) (asked s) → cslot s = Cancelled →
     left_alone w (interrupts s) a' ∧ slot' = Cancelled) →
  call_inv (mkCall (fut s) w slot' c' (interrupts s) a').
Proof.
  unfold call_inv. intros H Hn Ho Hw Hin Hleft. simpl. destruct (fut s) as [| |a|] eqn:Hf.
  - by subst s.
  - destruct H as [-> H]. split; [done|]. by apply Hin.
  - destruct H as [_ [[? _]|[? _]]]; congruence.
  - destruct H as [[?|Hc] H]; [done|]. destruct (Hleft H Hc). auto.
Qed.

Lemma call_inv_step s s' : call_inv s → call_step s s' → call_inv s'.
Proof.
  intros H Hs. destruct Hs as [s Hf|s Hf|s Hf|s Hf|s a Hf Hc|s Hf Hc|s Hw|s Hw|s a Hw|s session Hw
    |s session slot' Hw Hs|s session slot' Hw Hs|s session a Hw|s session Hw|s r Hw|s a Hw|s Hw].
  1-3: unfold call_inv in *; rewrite Hf in H; subst s; simpl; auto.
  1: by apply call_inv_drop.
  1-2: by apply call_inv_resolve; auto.
  all: apply call_inv_work; rewrite ?Hw; try done; simpl; intros Hin; try intros Hc.
  all: destruct (cslot s); simplify_eq/=; settle; try done.
Qed.

Lemma call_reachable_inv s : reach s → call_inv s.
Proof.
  apply invariant_reachable. split; [by intros ? ->|]. intros. by eapply call_inv_step.
Qed.

(** The engine is never given the command of a future dropped before the start. *)
Lemma dropped_never_asked s s' :
  call_inv s → fut s = FDropped → asked s = false → rtc call_step s s' →
  fut s' = FDropped ∧ asked s' = false.
Proof.
  intros H Hd Ha Hs. induction Hs as [|s s1 s' Hstep _ IH]; [done|].
  apply IH; [by eapply call_inv_step|..];
    destruct Hstep; simpl in *; try congruence.
  unfold call_inv in H. rewrite Hd in H. destruct H as [[?|Hc] _]; [congruence|].
  rewrite Hc in *. done.
Qed.

(** C35. Whatever the interleaving of a task and the worker that runs its command, at most one
    interrupt is sent, only when the future was dropped and only after the engine had the
    command; dropping it while the command runs interrupts that session, a command not begun
    when it is dropped never is, and a future resolves to the reply or to the closed error. *)
Theorem only_a_dropped_future_interrupts_its_command s :
  reach s →
  (interrupts s = []
   ∨ fut s = FDropped ∧ asked s = true ∧ ∃ session, interrupts s = [session])
  ∧ (∀ session, fut s = FWaiting → work s = JRun session →
       interrupts (cancel_on_drop FDropped s) = [session])
  ∧ (fut s = FDropped → asked s = false → ∀ s', rtc call_step s s' → asked s' = false)
  ∧ (∀ a, fut s = FResolved a → chan s = Sent a ∨ a = closed).
Proof.
  intros Hr%call_reachable_inv. split_and!.
  - unfold call_inv in Hr. destruct (fut s) as [| |a|] eqn:Hf.
    + subst. by left.
    + left. by destruct Hr.
    + left. by destruct Hr.
    + destruct Hr as [_ Hl]. destruct (left_alone_cases _ _ _ Hl) as [?|[? ?]]; auto.
  - intros session Hf Hw. rewrite cancel_on_drop_eq. simpl. unfold call_inv in Hr.
    rewrite Hf, Hw in Hr. by destruct Hr as (-> & -> & _).
  - intros Hd Ha s' Hs. by eapply dropped_never_asked.
  - intros a Hf. unfold call_inv in Hr. rewrite Hf in Hr.
    destruct Hr as [_ [[_ ?]|[_ [?|[_ ?]]]]]; auto.
Qed.

(** ** Every call ends *)

Definition remaining (s : call) : nat :=
  match fut s with FNew => 20 | FWaiting => 1 | _ => 0 end
  + match work s with
    | JQueued => 7 | JBegun => 6 | JHold _ => 5 | JRun _ => 4 | JRan _ => 3 | JReturned _ => 2
    | JNone | JOver => 0
    end.

Lemma step_decreases s s' : call_inv s → call_step s s' → (remaining s' < remaining s)%nat.
Proof.
  intros H Hs. unfold remaining.
  destruct Hs; rewrite ?cancel_on_drop_eq; simpl;
    repeat match goal with E : fut _ = _ |- _ => rewrite E end;
    repeat match goal with E : work _ = _ |- _ => rewrite E end; try lia.
Qed.

(** The task has its answer or is gone, and no worker is on the command. *)
Definition call_over (s : call) : Prop :=
  (fut s = FDropped ∨ ∃ a, fut s = FResolved a) ∧ (work s = JNone ∨ work s = JOver).

Lemma call_progress s : call_inv s → call_over s ∨ ∃ s', call_step s s'.
Proof.
  intros H. destruct (work s) as [| | |session|session|r|[a|]|] eqn:Hw.
  - unfold call_inv in H. destruct (fut s) as [| |a|] eqn:Hf.
    + right. eexists. by apply CDispatch.
    + rewrite Hw in H. by destruct H.
    + left. unfold call_over. rewrite Hf, Hw. eauto.
    + left. unfold call_over. rewrite Hf, Hw. eauto.
  - right. eexists. by apply CTake.
  - right. eexists. by apply (CCheckout s 0).
  - right. destruct (start session (cslot s)) as [[] slot'] eqn:E; eexists.
    + by eapply CStart.
    + by eapply CRefusedStart.
  - right. eexists. by eapply (CPanicked s session).
  - right. eexists. by eapply CDisarm.
  - right. eexists. by eapply CReply.
  - right. eexists. by eapply CNoReply.
  - unfold call_inv in H. destruct (fut s) as [| |a|] eqn:Hf.
    + by subst.
    + rewrite Hw in H. destruct H as (_ & _ & Hc). right.
      destruct (chan s) as [|a|] eqn:E; [done|..]; eexists; [by eapply CAnswered|by eapply CGone].
    + left. unfold call_over. rewrite Hf, Hw. eauto.
    + left. unfold call_over. rewrite Hf, Hw. eauto.
Qed.

(** Every schedule of a call is finite, and a call that is not over can go on: a future is
    resolved or dropped in the end, and its job is over. *)
Theorem every_call_ends s :
  reach s → Acc (λ s1 s2, call_step s2 s1) s ∧ (call_over s ∨ ∃ s', call_step s s').
Proof.
  intros Hr%call_reachable_inv. split; [|by apply call_progress].
  remember (remaining s) as n eqn:Hn. revert s Hn Hr.
  induction n as [n IH] using lt_wf_ind. intros s -> Hr. constructor. intros s' Hs.
  eapply IH; [by eapply step_decreases|done|by eapply call_inv_step].
Qed.
End call.

(** A future dropped while its command runs on session 3. *)
Definition running_call : call (A:=unit) :=
  mkCall FWaiting (JRun 3) (Running 3%nat) Empty [] true.

Lemma running_call_reachable : reachable (call_step tt) (λ s, s = new_call) running_call.
Proof.
  exists new_call. split; [done|].
  eapply rtc_l; [by apply CDispatch|]. eapply rtc_l; [by apply CTake|].
  eapply rtc_l; [by apply (CCheckout tt _ 3)|]. eapply rtc_l; [by eapply (CStart tt _ 3)|]. apply rtc_refl.
Qed.

Lemma only_a_dropped_future_witness :
  interrupts (cancel_on_drop FDropped running_call) = [3%nat].
Proof.
  apply (only_a_dropped_future_interrupts_its_command tt running_call running_call_reachable);
    reflexivity.
Defined.

Lemma every_call_ends_witness :
  Acc (λ s1 s2, call_step tt s2 s1) running_call.
Proof. apply (every_call_ends tt running_call running_call_reachable). Defined.
