(* ===== verification/Search.v ===== *)
(** * Searching and splitting text

    The functions of [str] and of slices that the build script's checks are written with:
    [matches], [match_indices], [split], [windows], [split_whitespace], [trim_start],
    [trim_end], [String::from_utf8_lossy] and [parse] of an unsigned number. Text is its UTF-8
    bytes, as in [Text]. *)
From S2P Require Import Prelude Text.

#[export] Instance byte_eq_decision : EqDecision Byte.byte := Byte.byte_eq_dec.

(** The bytes of a literal. *)
Definition B (s : string) : bytes := String.list_byte_of_string s.
Definition text_of (l : bytes) : string := String.string_of_list_byte l.

(** ** Substrings *)

(** Before and after the leftmost occurrence. *)
Fixpoint split_first (p l : bytes) : option (bytes * bytes) :=
  match strip_prefix p l with
  | Some rest => Some ([], rest)
  | None =>
      match l with
      | [] => None
      | b :: l => (λ '(before, after), (b :: before, after)) <$> split_first p l
      end
  end.

(** [s.split(p)]: the pieces between the occurrences that do not overlap, from the left. A
    pattern is not empty, so every round but the last takes at least one byte. *)
Fixpoint split_rounds (fuel : nat) (p l : bytes) : list bytes :=
  match fuel with
  | O => [l]
  | S fuel =>
      match split_first p l with
      | Some (before, after) => before :: split_rounds fuel p after
      | None => [l]
      end
  end.
Definition split (p l : bytes) : list bytes := split_rounds (length l) p l.

(** [s.matches(p).count()] *)
Fixpoint match_rounds (fuel : nat) (p l : bytes) : nat :=
  match fuel with
  | O => 0
  | S fuel =>
      match split_first p l with
      | Some (_, after) => S (match_rounds fuel p after)
      | None => 0
      end
  end.
Definition match_count (p l : bytes) : nat := match_rounds (length l) p l.

(** [s.match_indices(p)], each index as the text from it on. *)
Fixpoint suffix_rounds (fuel : nat) (p l : bytes) : list bytes :=
  match fuel with
  | O => []
  | S fuel =>
      match split_first p l with
      | Some (_, after) => (p ++ after) :: suffix_rounds fuel p after
      | None => []
      end
  end.
Definition match_suffixes (p l : bytes) : list bytes := suffix_rounds (length l) p l.

(** [l.windows(n)], for [n] not zero *)
Definition windows (n : nat) (l : bytes) : list bytes :=
  (λ i, take n (drop i l)) <$> seq 0 (S (length l) - n).

(** ** Characters *)

(** How many bytes the character that starts with this byte has. *)
Definition char_len (b : Byte.byte) : nat :=
  let v := byte_val b in
  if v <? 128 then 1 else if v <? 224 then 2 else if v <? 240 then 3 else 4.

(** Which characters beyond ASCII are letters or digits: a table of the standard library. *)
Class Unicode := alphanumeric_beyond_ascii : bytes → bool.

Definition ascii_alphanumeric (b : Byte.byte) : bool :=
  let v := byte_val b in
  ((48 <=? v) && (v <=? 57)) || ((65 <=? v) && (v <=? 90)) || ((97 <=? v) && (v <=? 122)).

(** [char::is_alphanumeric] *)
Definition is_alphanumeric `{Unicode} (c : bytes) : bool :=
  match c with
  | [b] => ascii_alphanumeric b
  | _ => alphanumeric_beyond_ascii c
  end.

(** The characters before the first one the test holds of, and the text from it on; nothing
    when it holds of none, as [s.find(test)?]. *)
Fixpoint find_char (fuel : nat) (test : bytes → bool) (l : bytes) : option (bytes * bytes) :=
  match fuel, l with
  | S fuel, b :: _ =>
      let c := take (char_len b) l in
      if test c then Some ([], l)
      else (λ '(before, from), (c ++ before, from)) <$> find_char fuel test (drop (char_len b) l)
  | _, _ => None
  end.

(** ** White space *)

Definition trim_start (l : bytes) : bytes := strip_all (length l) whitespace l.
Definition trim_end (l : bytes) : bytes :=
  reverse (strip_all (length l) (reverse <$> whitespace) (reverse l)).

(** [s.split_whitespace()]; no byte inside a character starts a white space. *)
Definition flush (word : bytes) : list bytes := match word with [] => [] | _ => [word] end.
Fixpoint words_from (fuel : nat) (word l : bytes) : list bytes :=
  match fuel with
  | O => flush word
  | S fuel =>
      match strip_one whitespace l with
      | Some l => flush word ++ words_from fuel [] l
      | None =>
          match l with
          | [] => flush word
          | b :: l => words_from fuel (word ++ [b]) l
          end
      end
  end.
Definition split_whitespace (l : bytes) : list bytes := words_from (length l) [] l.

(** ** Numbers *)

Definition digit (b : Byte.byte) : option Z :=
  let v := byte_val b in if (48 <=? v) && (v <=? 57) then Some (v - 48) else None.

Fixpoint digits_from (max acc : Z) (l : bytes) : option Z :=
  match l with
  | [] => Some acc
  | b :: l =>
      d ← digit b;
      if 10 * acc + d <=? max then digits_from max (10 * acc + d) l else None
  end.

(** [s.parse()] for an unsigned type with this greatest value: a plus sign may come first, and
    there has to be a digit. *)
Definition parse_unsigned (max : Z) (l : bytes) : option Z :=
  let digits := default l (strip_prefix (B "+") l) in
  match digits with [] => None | _ => digits_from max 0 digits end.

Definition usize_max : Z := 2 ^ 64 - 1.

(** ** [String::from_utf8_lossy] *)

(** How long the character at the front is, or how long the longest beginning of one is that
    does not go on as a character: that much is replaced. *)
Definition utf8_front (l : bytes) : bool * nat :=
  let next i := default Byte.x00 (l !! i) in
  let v := byte_val (next 0%nat) in
  if v <? 128 then (true, 1%nat)
  else if (194 <=? v) && (v <=? 223) then
    if continuation (next 1%nat) then (true, 2%nat) else (false, 1%nat)
  else if second_of_three v (next 1%nat) then
    if continuation (next 2%nat) then (true, 3%nat) else (false, 2%nat)
  else if second_of_four v (next 1%nat) then
    if continuation (next 2%nat) then
      if continuation (next 3%nat) then (true, 4%nat) else (false, 3%nat)
    else (false, 2%nat)
  else (false, 1%nat).

Definition replacement : bytes := [Byte.xef; Byte.xbf; Byte.xbd].

Fixpoint lossy_rounds (fuel : nat) (l : bytes) : bytes :=
  match fuel, l with
  | S fuel, _ :: _ =>
      let '(valid, n) := utf8_front l in
      (if valid then take n l else replacement) ++ lossy_rounds fuel (drop n l)
  | _, _ => []
  end.
Definition from_utf8_lossy (l : bytes) : bytes := lossy_rounds (length l) l.

Example lossy_example :
  from_utf8_lossy (B "a" ++ [Byte.xe2; Byte.x82] ++ B "b") = B "a" ++ replacement ++ B "b".
Proof. vm_compute. reflexivity. Qed.

(** ** Lemmas *)

Lemma string_length_app s t : String.length (s +:+ t) = (String.length s + String.length t)%nat.
Proof. induction s as [|c s IH]; simpl; [done|]. by rewrite IH. Qed.

Lemma strip_prefix_Some p l rest : strip_prefix p l = Some rest ↔ l = p ++ rest.
Proof.
  revert l. induction p as [|a p IH]; intros l; [simpl; split; congruence|].
  destruct l as [|b l]; simpl; [done|]. destruct (Byte.eqb a b) eqn:E.
  - apply Byte.byte_dec_bl in E as ->. rewrite IH. split; congruence.
  - split; [done|]. intros [= -> ->]. by rewrite (Byte.byte_dec_lb eq_refl) in E.
Qed.

Lemma split_first_Some p l before after :
  split_first p l = Some (before, after) → l = before ++ p ++ after.
Proof.
  revert before after. induction l as [|b l IH]; intros before after; simpl;
    destruct (strip_prefix p _) as [rest|] eqn:E.
  - intros [= <- <-]. by apply strip_prefix_Some in E.
  - done.
  - intros [= <- <-]. by apply strip_prefix_Some in E.
  - destruct (split_first p l) as [[x y]|]; [|done]. intros [= <- <-].
    simpl. f_equal. by apply IH.
Qed.

(** Nothing is found exactly when the pattern is nowhere. *)
Lemma split_first_None p l : split_first p l = None ↔ ∀ x y, l ≠ x ++ p ++ y.
Proof.
  split.
  - induction l as [|b l IH]; simpl; destruct (strip_prefix p _) as [rest|] eqn:E; try done.
    + intros _ x y Heq. symmetry in Heq. apply app_nil in Heq as [-> Heq].
      assert (strip_prefix p [] = Some y) by (by apply strip_prefix_Some). congruence.
    + destruct (split_first p l) as [[? ?]|] eqn:Hl; [done|]. intros _ [|c x] y Heq.
      * assert (strip_prefix p (b :: l) = Some y) by (by apply strip_prefix_Some). congruence.
      * injection Heq as -> Heq. by eapply (IH eq_refl).
  - destruct (split_first p l) as [[x y]|] eqn:E; [|done].
    intros H. apply split_first_Some in E. by destruct (H x y).
Qed.

(** The occurrence found is the leftmost. *)
Lemma split_first_leftmost p l before after x y :
  split_first p l = Some (before, after) → l = x ++ p ++ y → (length before ≤ length x)%nat.
Proof.
  revert before after x. induction l as [|b l IH]; intros before after x; simpl;
    destruct (strip_prefix p _) as [rest|] eqn:E.
  - intros [= <- <-] _. simpl. lia.
  - done.
  - intros [= <- <-] _. simpl. lia.
  - destruct (split_first p l) as [[u v]|]; [|done]. intros [= <- <-] Heq.
    destruct x as [|c x]; simpl in *.
    + assert (strip_prefix p (b :: l) = Some y) by (by apply strip_prefix_Some). congruence.
    + injection Heq as -> Heq. specialize (IH u v x eq_refl Heq). lia.
Qed.

(** Splitting in two around an earlier point: what is left after the earlier of two
    occurrences contains what is left after the later one. *)
Lemma split_first_suffix p l before after x y :
  split_first p l = Some (before, after) → l = x ++ p ++ y → ∃ z, after = z ++ y.
Proof.
  intros Hf Hl. pose proof (split_first_leftmost _ _ _ _ _ _ Hf Hl) as Hle.
  apply split_first_Some in Hf. exists (drop (length before + length p) (x ++ p)).
  assert (after = drop (length before + length p) l) as ->.
  { rewrite Hf, drop_app_ge by lia. rewrite drop_app_ge by lia.
    by replace (_ - _)%nat with 0%nat by lia. }
  rewrite Hl, app_assoc, drop_app_le; [done|]. rewrite length_app. lia.
Qed.

Section counting.
Context (p : bytes) (Hp : p ≠ []).

Lemma split_first_shorter l before after :
  split_first p l = Some (before, after) → (length after < length l)%nat.
Proof using Hp.
  intros ->%split_first_Some. rewrite !length_app. destruct p; [done|]. simpl. lia.
Qed.

(** Any fuel from the length on counts the same. *)
Lemma match_rounds_fuel l fuel :
  (length l ≤ fuel)%nat → match_rounds fuel p l = match_count p l.
Proof using Hp.
  unfold match_count. remember (length l) as n eqn:Hn. revert l fuel Hn.
  induction (lt_wf n) as [n _ IH]. intros l fuel -> Hle.
  destruct fuel as [|fuel], (length l) as [|m] eqn:Hl; try lia; simpl.
  - apply nil_length_inv in Hl as ->. destruct (split_first p []) as [[? ?]|] eqn:E; [|done].
    apply split_first_shorter in E. simpl in E. lia.
  - destruct (split_first p l) as [[x after]|] eqn:E; [|done].
    apply split_first_shorter in E. f_equal.
    rewrite (IH (length after)) by lia. symmetry. apply (IH (length after)); lia.
Qed.

Lemma match_count_unfold l :
  match_count p l = match split_first p l with
                    | Some (_, after) => S (match_count p after)
                    | None => 0%nat
                    end.
Proof using Hp.
  rewrite <- (match_rounds_fuel l (S (length l))) by lia. simpl.
  destruct (split_first p l) as [[x after]|] eqn:E; [|done].
  apply split_first_shorter in E. by rewrite match_rounds_fuel by lia.
Qed.

(** More text has no fewer occurrences. *)
Lemma match_count_app_r x l : (match_count p l ≤ match_count p (x ++ l))%nat.
Proof using Hp.
  remember (length (x ++ l)) as n eqn:Hn. revert x l Hn.
  induction (lt_wf n) as [n _ IH]. intros x l ->.
  rewrite (match_count_unfold l). destruct (split_first p l) as [[u after]|] eqn:E; [|lia].
  apply split_first_Some in E as ->.
  rewrite (match_count_unfold (x ++ _)).
  destruct (split_first p (x ++ u ++ p ++ after)) as [[v after']|] eqn:E'.
  - destruct (split_first_suffix _ _ _ _ (x ++ u) after E') as [z ->]; [by rewrite <- app_assoc|].
    apply le_n_S. eapply (IH (length (z ++ after))); [|done].
    by apply split_first_shorter in E'.
  - rewrite split_first_None in E'. exfalso. apply (E' (x ++ u) after). by rewrite <- app_assoc.
Qed.

End counting.

(** A longer pattern that ends in a shorter one occurs no more often. *)
Lemma match_count_longer q p l : p ≠ [] → (match_count (q ++ p) l ≤ match_count p l)%nat.
Proof.
  intros Hp. assert (Hqp : q ++ p ≠ []) by (by destruct q).
  remember (length l) as n eqn:Hn. revert l Hn.
  induction (lt_wf n) as [n _ IH]. intros l ->.
  rewrite (match_count_unfold _ Hqp), (match_count_unfold _ Hp).
  destruct (split_first (q ++ p) l) as [[x after]|] eqn:E; [|lia].
  pose proof (split_first_shorter _ Hqp _ _ _ E) as Hlt. apply split_first_Some in E.
  assert (Hl : l = (x ++ q) ++ p ++ after) by (rewrite E; by rewrite <- !app_assoc).
  destruct (split_first p l) as [[y after']|] eqn:E'.
  - destruct (split_first_suffix _ _ _ _ _ _ E' Hl) as [z ->]. apply le_n_S.
    etrans; [by apply (IH (length after))|]. by apply match_count_app_r.
  - rewrite split_first_None in E'. by destruct (E' _ _ Hl).
Qed.

(** [split] has one piece more than there are matches. *)
Lemma split_length p l : length (split p l) = S (match_count p l).
Proof.
  unfold split, match_count. generalize (length l). intros fuel. revert l.
  induction fuel as [|fuel IH]; intros l; simpl; [done|].
  destruct (split_first p l) as [[x after]|]; simpl; [|done]. by rewrite IH.
Qed.

(** Every suffix a match starts is one of the text, and starts with the pattern. *)
Lemma match_suffixes_spec p l s :
  s ∈ match_suffixes p l → ∃ before after, s = p ++ after ∧ l = before ++ s.
Proof.
  unfold match_suffixes. generalize (length l). intros fuel. revert l.
  induction fuel as [|fuel IH]; intros l; simpl; [by intros ?%not_elem_of_nil|].
  destruct (split_first p l) as [[x after]|] eqn:E; [|by intros ?%not_elem_of_nil].
  apply split_first_Some in E as ->. intros [->|Hs]%elem_of_cons; [by eexists _, _|].
  destruct (IH _ Hs) as (before & after' & -> & ->). exists (x ++ p ++ before), after'.
  by rewrite <- !app_assoc.
Qed.

Lemma windows_spec n l w :
  (0 < n)%nat → w ∈ windows n l ↔ length w = n ∧ ∃ x y, l = x ++ w ++ y.
Proof.
  intros Hn. unfold windows. rewrite list_elem_of_fmap. split.
  - intros (i & -> & Hi%elem_of_seq). split.
    + rewrite length_take, length_drop. lia.
    + exists (take i l), (drop n (drop i l)). by rewrite !take_drop.
  - intros (Hw & x & y & ->). exists (length x). split.
    + rewrite drop_app_length, <- Hw. by rewrite take_app_length.
    + apply elem_of_seq. rewrite !length_app. lia.
Qed.

Lemma find_char_Some fuel test l before from :
  find_char fuel test l = Some (before, from) → l = before ++ from.
Proof.
  revert l before from. induction fuel as [|fuel IH]; intros [|b l] before from; cbn [find_char];
    try done.
  destruct (test _); [by intros [= <- <-]|].
  destruct (find_char fuel test _) as [[x y]|] eqn:E; [|done]. intros [= <- <-].
  apply IH in E. rewrite <- app_assoc, <- E. by rewrite take_drop.
Qed.

Lemma strip_all_suffix fuel chars l : ∃ gone, l = gone ++ strip_all fuel chars l.
Proof.
  revert l. induction fuel as [|fuel IH]; intros l; simpl; [by exists []|].
  unfold strip_one. destruct (head _) as [l'|] eqn:E; [|by exists []].
  destruct (IH l') as [gone Hg].
  assert (∃ w, strip_prefix w l = Some l') as [w Hw].
  { assert (l' ∈ omap (λ w, strip_prefix w l) chars) as (w & _ & Hw)%list_elem_of_omap; [|eauto].
    destruct (omap _ chars); simplify_eq/=. left. }
  apply strip_prefix_Some in Hw. exists (w ++ gone). by rewrite <- app_assoc, <- Hg.
Qed.

(** A numeral in range is read back: each digit of it is one. *)
Lemma digits_from_bounded max acc l n :
  acc ≤ max → digits_from max acc l = Some n → n ≤ max.
Proof.
  revert acc. induction l as [|b l IH]; intros acc Hacc; simpl; [by intros [= <-]|].
  destruct (digit b) as [d|]; [|done]. simpl. destruct (Z.leb_spec (10 * acc + d) max); [|done].
  by apply IH.
Qed.

Lemma omap_length_le {A C} (f : A → option C) l : (length (omap f l) ≤ length l)%nat.
Proof. induction l as [|x l IH]; csimpl; [done|]. destruct (f x); simpl; lia. Qed.
