(* ===== verification/BuildHost.v ===== *)
(** * What a build script does to the machine it runs on

    [embedded-mongodb-sys/build.rs] and its modules read the environment, the file system and
    the clock, run programs and print directives for cargo. A function of theirs is a program
    tree: it is done, it refuses the build (a panic, with what the message is about), or it
    makes a call and goes on with the answer. What a call may answer and do to the files is a
    relation, [performs]: every operation may fail, and a program that is run may do whatever it
    is documented to do.

    A tree can be run to its end ([runs]), executed against an oracle ([exec]), and interleaved
    with others on one file system ([fleet_step]), which is how several builds race. [wp] is the
    proof rule for all three: what holds after every call whatever the others do meanwhile. *)
From S2P Require Import Prelude Text Search.

(** ** The environment *)

Abbreviation Env := (gmap string string).

(** [env::var_os], and [env::var], which also wants UTF-8 *)
Definition var_os (env : Env) (name : string) : option string := env !! name.
Definition var (env : Env) (name : string) : option string :=
  value ← env !! name; if utf8_valid (B value) then Some value else None.

(** ** Paths *)

Definition is_absolute (p : string) : bool := String.prefix "/" p.
Fixpoint ends_with_slash (p : string) : bool :=
  match p with
  | EmptyString => false
  | String c EmptyString => Ascii.eqb c "/"%char
  | String _ p => ends_with_slash p
  end.

(** [Path::join] on Unix *)
Definition join (p q : string) : string :=
  if is_absolute q then q
  else if bool_decide (p = EmptyString) || ends_with_slash p then p ++ q
  else p ++ "/" ++ q.

(** ** Files *)

Inductive node :=
| File (content : bytes) (mtime : Z)
| Directory
| Link (target : string).

Abbreviation Files := (gmap string node).

Inductive ErrorKind := NotFound | Interrupted | OtherKind.

Record Metadata := mkMetadata { is_file : bool; is_dir : bool; len : Z; modified : option Z }.

(** [std::process::Command] and what its [output] or [status] answers *)
Record Command := mkCommand {
  program : string;
  args : list string;
  current_dir : option string;
  envs : list (string * string);
  env_removed : list string
}.
Definition command (program : string) (args : list string) : Command :=
  mkCommand program args None [] [].

Record Output := mkOutput { success : bool; status : string; stdout : bytes }.

(** ** Calls *)

Inductive op :=
| FsMetadata (path : string)
| LinkMetadata (path : string)
| Exists (path : string)
| ReadFile (path : string)
| ReadDir (path : string)
| RemoveFile (path : string)
| CreateDirAll (path : string)
| Rename (from to : string)
| MakeLink (source destination : string)
| CopyFile (source destination : string)
| SetMode (path : string) (mode : Z)
| Canonicalize (path : string)
| Run (c : Command)
| CreateFile (path : string)
| CloneHandle (path : string)
| OpenFile (path : string)
| Spawn (c : Command) (log : string)
| TryWait (c : Command)
| ReadMore (path : string) (offset : nat)
| WriteErr (written : bytes)
| Sleep (millis : Z)
| CompileBridge (link_stdlib : bool)
| Now
| Print (line : string).

(** A file is read to its end in pieces, or, one that grows, from an offset on; a directory
    answers the names in it. A child that is waited for works on meanwhile. *)
Definition answer (o : op) : Type :=
  match o with
  | FsMetadata _ | LinkMetadata _ => result ErrorKind Metadata
  | Exists _ => bool
  | ReadFile _ => result ErrorKind (list bytes)
  | ReadDir _ => result ErrorKind (list string)
  | RemoveFile _ | CreateDirAll _ | Rename _ _ | MakeLink _ _ | CopyFile _ _ | SetMode _ _
  | CreateFile _ | CloneHandle _ | OpenFile _ | Spawn _ _ =>
      result ErrorKind unit
  | Canonicalize _ => result ErrorKind string
  | Run _ => result ErrorKind Output
  | TryWait _ => result ErrorKind (option Output)
  | ReadMore _ _ => result ErrorKind bytes
  | WriteErr _ | Sleep _ => unit
  | CompileBridge _ => unit
  | Now => Z
  | Print _ => unit
  end.

(** What a path leads to: links are followed, up to the forty the kernel follows. *)
Fixpoint follow (n : nat) (f : Files) (p : string) : option node :=
  match f !! p, n with
  | Some (Link target), S n => follow n f target
  | Some (Link _), O => None
  | found, _ => found
  end.
Definition leads_to (f : Files) (p : string) : option node := follow 40 f p.

Definition no_slash (name : string) : bool := negb (contains "/" name).

Section performs.
(** What a program that is run may leave at a path, and what the [cxx] bridge's build may. *)
Context (touches : Command → string → option node → Prop).
Context (bridge_touches : string → option node → Prop).

(** What the metadata of a node may say. *)
Definition describes (m : Metadata) (n : option node) : Prop :=
  match n with
  | Some (File c t) =>
      is_file m = true ∧ is_dir m = false ∧ len m = Z.of_nat (length c)
      ∧ (modified m = None ∨ modified m = Some t)
  | Some Directory => is_file m = false ∧ is_dir m = true
  | Some (Link _) => is_file m = false ∧ is_dir m = false
  | None => False
  end.

Definition performs (o : op) (f : Files) : answer o → Files → Prop :=
  match o with
  | FsMetadata p => λ a f', f' = f ∧
      match a with Ok m => describes m (leads_to f p) | Err _ => True end
  | LinkMetadata p => λ a f', f' = f ∧
      match a with Ok m => describes m (f !! p) | Err _ => True end
  | Exists p => λ a f', f' = f ∧ (a = true → leads_to f p ≠ None)
  | ReadFile p => λ a f', f' = f ∧
      match a, leads_to f p with
      | Err _, _ => True
      | Ok chunks, Some (File c _) => concat chunks = c ∧ [] ∉ chunks
      | Ok _, _ => False
      end
  | ReadDir p => λ a f', f' = f ∧
      match a with
      | Ok names => ∀ name, name ∈ names → no_slash name = true
      | Err _ => True
      end
  | RemoveFile p => λ a f',
      match a with
      | Ok _ => f' = delete p f ∧ f !! p ≠ None ∧ f !! p ≠ Some Directory
      | Err NotFound => f' = f ∧ f !! p = None
      | Err _ => f' = f
      end
  | CreateDirAll p => λ _ f',
      ∀ q, f' !! q = f !! q
           ∨ (String.prefix q p = true ∧ f !! q = None ∧ f' !! q = Some Directory)
  | Rename from to => λ a f',
      match a with
      | Ok _ => ∃ n, f !! from = Some n ∧ f' = <[to := n]> (delete from f)
      | Err _ => f' = f
      end
  | MakeLink source destination => λ a f',
      match a with
      | Ok _ => f !! destination = None ∧ f' = <[destination := Link source]> f
      | Err _ => f' = f
      end
  | CopyFile source destination => λ a f',
      match a with
      | Ok _ => ∃ c t, f' = <[destination := File c t]> f
                ∧ ∃ t', leads_to f source = Some (File c t')
      | Err _ => ∀ q, q ≠ destination → f' !! q = f !! q
      end
  | SetMode _ _ => λ _ f', f' = f
  | Canonicalize p => λ a f', f' = f ∧
      match a with
      | Ok q => f !! q = leads_to f p ∧ f !! q ≠ None
      | Err _ => True
      end
  | Run c => λ _ f', ∀ q, f' !! q = f !! q ∨ touches c q (f' !! q)
  | Spawn c _ => λ _ f', ∀ q, f' !! q = f !! q ∨ touches c q (f' !! q)
  | TryWait c => λ _ f', ∀ q, f' !! q = f !! q ∨ touches c q (f' !! q)
  | CreateFile p => λ a f',
      match a with
      | Ok _ => ∃ t, f' = <[p := File [] t]> f
      | Err _ => f' = f
      end
  | ReadMore p offset => λ a f', f' = f ∧
      match a, leads_to f p with
      | Ok more, Some (File c _) =>
          (∃ rest, drop offset c = more ++ rest) ∧ (more = [] → (length c ≤ offset)%nat)
      | _, _ => True
      end
  | CloneHandle _ | OpenFile _ | WriteErr _ | Sleep _ => λ _ f', f' = f
  | CompileBridge _ => λ _ f', ∀ q, f' !! q = f !! q ∨ bridge_touches q (f' !! q)
  | Now => λ _ f', f' = f
  | Print _ => λ _ f', f' = f
  end.
End performs.

(** ** Programs *)

(** Why a download did not happen. *)
Inductive FetchError :=
| NeitherInstalled
| NotInstalled (name : string)
| ExitedWith (name status : string)
| FailedToRun (name : string) (error : ErrorKind).

(** How a checkout differs from the one the published library was built from. *)
Inductive StaleReason :=
| PinMoved (local_pin published_pin : bytes)
| InputsCommitted (count : bytes)
| Uncommitted (dirty : bytes).

(** What a panic of the build script is about. *)
Inductive Refusal :=
| NotSetByCargo (name : string)
| NotInAWorkspace
| NoPrebuiltFor (target : string) (published : list string)
| NotInCache (destination url : string)
| CannotCreate (path : string)
| DownloadFailed (error : FetchError) (url : string)
| VanishedAfterDownload (path : string)
| TruncatedDownload (actual : Z)
| ChecksumMismatch (actual : string)
| CannotInstall (path : string)
| ShallowClone
| StaleCheckout (reasons : list StaleReason)
| GlibcTooOld (need have : Z * Z)
| HeaderUnreadable (path : string)
| HeaderNotUnderstood (declared : Z) (read : list bytes)
| LibraryUnreadable (path : string)
| EntryPointsMissing (names : list bytes)
| LibraryNotFound (path : string)
| CannotResolve (path : string)
| CannotReplace (path : string)
| CannotLink (path : string)
| CannotCopy (path : string)
| CannotCrossCompile (host : string)
| NonUtf8OutDir
| ProgramNotRun (program : string)
| ProgramFailed (program : string)
| SubmoduleMissing
| BadJobs (jobs : string)
| NoAndroidBuild (arch : string)
| NdkNotSet
| BadAndroidApi (api : string)
| NdkWithoutClang (bin : string)
| BazelFailed
| LogFailed (path : string)
| CannotWait.

Inductive prog (A : Type) : Type :=
| Done (a : A)
| Panic (why : Refusal)
| Call (o : op) (k : answer o → prog A).
Arguments Done {A} a.
Arguments Panic {A} why.
Arguments Call {A} o k.

Fixpoint pbind {A B} (p : prog A) (k : A → prog B) : prog B :=
  match p with
  | Done a => k a
  | Panic why => Panic why
  | Call o c => Call o (λ a, pbind (c a) k)
  end.

Notation "'let*' x := o 'in' k" := (Call o (fun x => k))
  (at level 10, x binder, o at level 100, k at level 200) : emongo_scope.
Notation "'let@' x := p 'in' k" := (pbind p (fun x => k))
  (at level 10, x binder, p at level 100, k at level 200) : emongo_scope.

(** [assert!] and [expect] *)
Definition assert_or (b : bool) (why : Refusal) : prog unit := if b then Done tt else Panic why.
Definition expect {A} (o : option A) (why : Refusal) : prog A :=
  match o with Some a => Done a | None => Panic why end.

Inductive outcome (A : Type) : Type :=
| Finished (a : A)
| Panicked (why : Refusal).
Arguments Finished {A} a.
Arguments Panicked {A} why.

(** Against an oracle that answers every call: what was called, what came out, the files. *)
Fixpoint exec {A} (w : ∀ o, Files → answer o * Files) (p : prog A) (f : Files)
    : list op * outcome A * Files :=
  match p with
  | Done a => ([], Finished a, f)
  | Panic why => ([], Panicked why, f)
  | Call o k =>
      let '(a, f1) := w o f in
      let '(trace, out, f2) := exec w (k a) f1 in
      (o :: trace, out, f2)
  end.

Lemma exec_bind {A B} w (p : prog A) (k : A → prog B) f :
  exec w (pbind p k) f =
  match exec w p f with
  | (tr, Finished a, f1) => let '(tr', out, f2) := exec w (k a) f1 in (tr ++ tr', out, f2)
  | (tr, Panicked why, f1) => (tr, Panicked why, f1)
  end.
Proof.
  revert f. induction p as [a|why|o c IH]; intros f; simpl; [by destruct (exec w (k a) f) as [[] ?]|done|].
  destruct (w o f) as [x f1]. rewrite IH. destruct (exec w (c x) f1) as [[tr [a|why]] f2]; [|done].
  by destruct (exec w (k a) f2) as [[] ?].
Qed.

Section running.
Context (touches : Command → string → option node → Prop).
Context (bridge_touches : string → option node → Prop).
Local Abbreviation performs := (performs touches bridge_touches).

(** Alone, to the end. *)
Fixpoint runs {A} (p : prog A) (f : Files) (trace : list op) (out : outcome A) (f' : Files)
    : Prop :=
  match p with
  | Done a => trace = [] ∧ out = Finished a ∧ f' = f
  | Panic why => trace = [] ∧ out = Panicked why ∧ f' = f
  | Call o k =>
      ∃ a f1 rest, trace = o :: rest ∧ performs o f a f1 ∧ runs (k a) f1 rest out f'
  end.

Lemma exec_runs {A} w (p : prog A) f trace out f' :
  (∀ o f, performs o f (w o f).1 (w o f).2) →
  exec w p f = (trace, out, f') → runs p f trace out f'.
Proof.
  intros Hw. revert f trace. induction p as [a|why|o k IH]; intros f trace; simpl.
  - by intros [= <- <- <-].
  - by intros [= <- <- <-].
  - specialize (Hw o f). destruct (w o f) as [a f1] eqn:Ew.
    destruct (exec w (k a) f1) as [[tr o'] f2] eqn:E. intros [= <- <- <-].
    exists a, f1, tr. split_and!; [done..|]. by apply IH.
Qed.

Lemma runs_bind {A B} (p : prog A) (k : A → prog B) f trace out f' :
  runs (pbind p k) f trace out f' →
  (∃ why, out = Panicked why ∧ runs p f trace (Panicked why) f') ∨
  (∃ a f1 tr1 tr2, trace = tr1 ++ tr2 ∧ runs p f tr1 (Finished a) f1 ∧ runs (k a) f1 tr2 out f').
Proof.
  revert f trace. induction p as [a|why|o c IH]; intros f trace; simpl.
  - intros H. right. exists a, f, [], trace. done.
  - intros (-> & -> & ->). left. eauto.
  - intros (a & f1 & rest & -> & Hop & Hr).
    destruct (IH _ _ _ Hr) as [(why & -> & Hr')|(b & f2 & tr1 & tr2 & -> & Hr1 & Hr2)].
    + left. exists why. split; [done|]. by exists a, f1, rest.
    + right. exists b, f2, (o :: tr1), tr2. split_and!; [done| |done]. by exists a, f1, tr1.
Qed.

(** A program none of whose calls changes a file. *)
Fixpoint silent {A} (p : prog A) : Prop :=
  match p with
  | Done _ | Panic _ => True
  | Call o k => (∀ f a f', performs o f a f' → f' = f) ∧ ∀ a, silent (k a)
  end.

Lemma silent_bind {A B} (p : prog A) (k : A → prog B) :
  silent p → (∀ a, silent (k a)) → silent (pbind p k).
Proof. intros Hp Hk. induction p as [a|why|o c IH]; simpl in *; [done..|]. destruct Hp. auto. Qed.

Lemma silent_runs {A} (p : prog A) f trace out f' : silent p → runs p f trace out f' → f' = f.
Proof.
  revert f trace. induction p as [a|why|o c IH]; intros f trace; simpl; [by intros _ (_ & _ & ->)..|].
  intros [Ho Hc] (a & f1 & rest & _ & Hop & Hr). apply Ho in Hop as ->. by eapply IH.
Qed.

(** ** Among others

    Before each call of its own a build finds what the others left ([R]), and each call of its
    own is one the others are told about ([G]). *)
Fixpoint wp {A} (R G : Files → Files → Prop) (p : prog A) (Q : outcome A → Files → Prop)
    (f : Files) : Prop :=
  match p with
  | Done a => Q (Finished a) f
  | Panic why => Q (Panicked why) f
  | Call o k => ∀ f1 a f2, R f f1 → performs o f1 a f2 → G f1 f2 ∧ wp R G (k a) Q f2
  end.

Definition stable {A} (R : Files → Files → Prop) (Q : outcome A → Files → Prop) : Prop :=
  ∀ out f f', Q out f → R f f' → Q out f'.

Lemma wp_bind {A B} R G (p : prog A) (k : A → prog B) Q f :
  wp R G p (λ out f, match out with
                     | Finished a => wp R G (k a) Q f
                     | Panicked why => Q (Panicked why) f
                     end) f →
  wp R G (pbind p k) Q f.
Proof.
  revert f. induction p as [a|why|o c IH]; intros f; simpl; [done..|].
  intros H f1 a f2 HR Hop. destruct (H _ _ _ HR Hop). auto.
Qed.

Lemma wp_mono {A} R G (p : prog A) (Q Q' : outcome A → Files → Prop) f :
  (∀ out f, Q out f → Q' out f) → wp R G p Q f → wp R G p Q' f.
Proof.
  intros HQ. revert f. induction p as [a|why|o c IH]; intros f; simpl; [apply HQ..|].
  intros H f1 a f2 HR Hop. destruct (H _ _ _ HR Hop). auto.
Qed.

(** What the others do first does not matter. *)
Lemma wp_stable {A} (R G : Files → Files → Prop) `{!Transitive R} (p : prog A) Q f f' :
  stable R Q → wp R G p Q f → R f f' → wp R G p Q f'.
Proof.
  intros HQ H HR. destruct p as [a|why|o c]; simpl in *; [by eapply HQ..|].
  intros f1 a f2 HR' Hop. eapply H; [by etrans|done].
Qed.

(** Alone is the case in which the others do nothing. *)
Lemma wp_runs {A} (R G : Files → Files → Prop) `{!Reflexive R} (p : prog A) Q f trace out f' :
  wp R G p Q f → runs p f trace out f' → Q out f'.
Proof.
  revert f trace. induction p as [a|why|o c IH]; intros f trace; simpl.
  - by intros ? (_ & -> & ->).
  - by intros ? (_ & -> & ->).
  - intros H (a & f1 & rest & _ & Hop & Hr). destruct (H f a f1) as [_ Hk]; [done..|]. eauto.
Qed.

(** ** A fleet of builds on one file system *)

Inductive fleet_step {A} : Files * list (prog A) → Files * list (prog A) → Prop :=
| fleet_call f ps i o k a f' :
    ps !! i = Some (Call o k) → performs o f a f' →
    fleet_step (f, ps) (f', <[i := k a]> ps).

(** Every build has its own view of the others ([R i]), which the calls of each of the others
    ([G j]) respect: then each gets what it would get, wherever the fleet is, and every change
    to the files is one a build answers for. *)
Section fleet.
Context {A : Type} (R G : nat → Files → Files → Prop) (Q : nat → outcome A → Files → Prop).
Context (Rrefl : ∀ i, Reflexive (R i)) (Rtrans : ∀ i, Transitive (R i)).
Context (Qstable : ∀ i, stable (R i) (Q i)).

Definition fleet_inv (s : Files * list (prog A)) : Prop :=
  ∀ i p, s.2 !! i = Some p → wp (R i) (G i) p (Q i) s.1.

Context (n : nat) (compatible : ∀ i j f f', (i < n)%nat → (j < n)%nat → i ≠ j → G j f f' → R i f f').

Lemma fleet_inv_step s s' :
  length s.2 = n → fleet_inv s → fleet_step s s' →
  length s'.2 = n ∧ fleet_inv s' ∧ ∃ i, (i < n)%nat ∧ G i s.1 s'.1.
Proof using compatible Qstable Rrefl Rtrans.
  intros Hn Hinv Hstep. destruct Hstep as [f ps i o k a f' Hi Hop]; simpl in *.
  destruct (Hinv i _ Hi f a f' (Rrefl i f) Hop) as [HG Hk].
  assert (Hlt : (i < n)%nat) by (rewrite <- Hn; by eapply lookup_lt_Some).
  split_and!; [by rewrite length_insert| |by exists i].
  intros j p. simpl. destruct (decide (i = j)) as [<-|Hij].
  - rewrite list_lookup_insert_eq by lia. by intros [= <-].
  - rewrite list_lookup_insert_ne by done. intros Hj. eapply wp_stable; [by apply Rtrans|done|..].
    + by apply Hinv.
    + eapply compatible; [|done|done|done]. rewrite <- Hn. by eapply lookup_lt_Some.
Qed.

Lemma fleet_inv_steps s s' :
  length s.2 = n → fleet_inv s → rtc fleet_step s s' →
  length s'.2 = n ∧ fleet_inv s' ∧ rtc (λ f f', ∃ i, (i < n)%nat ∧ G i f f') s.1 s'.1.
Proof using compatible Qstable Rrefl Rtrans.
  intros Hn Hinv Hsteps. induction Hsteps as [s|s1 s2 s3 Hstep _ IH]; [by split_and!|].
  destruct (fleet_inv_step _ _ Hn Hinv Hstep) as (Hn2 & Hinv2 & i & Hi & HG).
  destruct (IH Hn2 Hinv2) as (? & ? & ?). split_and!; [done..|].
  eapply rtc_l; [|done]. eauto.
Qed.
End fleet.
End running.

(** ** A machine on which nothing fails

    An oracle for [exec]: every file operation works, programs answer what they are given to. *)
Section calm.
Context (programs : Command → Files → result ErrorKind Output * Files) (now : Z).

Definition metadata_of (n : option node) : result ErrorKind Metadata :=
  match n with
  | Some (File c t) => Ok (mkMetadata true false (Z.of_nat (length c)) (Some t))
  | Some Directory => Ok (mkMetadata false true 0 None)
  | Some (Link _) => Ok (mkMetadata false false 0 None)
  | None => Err NotFound
  end.

Definition calm (o : op) (f : Files) : answer o * Files :=
  match o return answer o * Files with
  | FsMetadata p => (metadata_of (leads_to f p), f)
  | LinkMetadata p => (metadata_of (f !! p), f)
  | Exists p => (bool_decide (leads_to f p ≠ None), f)
  | ReadFile p =>
      match leads_to f p with
      | Some (File [] _) => (Ok [], f)
      | Some (File c _) => (Ok [c], f)
      | _ => (Err NotFound, f)
      end
  | ReadDir p => (Ok [], f)
  | RemoveFile p =>
      match f !! p with
      | Some (File _ _ | Link _) => (Ok tt, delete p f)
      | Some Directory => (Err OtherKind, f)
      | None => (Err NotFound, f)
      end
  | CreateDirAll p => (Ok tt, match f !! p with None => <[p := Directory]> f | _ => f end)
  | Rename from to =>
      match f !! from with
      | Some n => (Ok tt, <[to := n]> (delete from f))
      | None => (Err NotFound, f)
      end
  | MakeLink source destination =>
      match f !! destination with
      | None => (Ok tt, <[destination := Link source]> f)
      | Some _ => (Err OtherKind, f)
      end
  | CopyFile source destination =>
      match leads_to f source with
      | Some (File c t) => (Ok tt, <[destination := File c t]> f)
      | _ => (Err NotFound, f)
      end
  | SetMode _ _ => (Ok tt, f)
  | Canonicalize p =>
      match f !! p with Some (File _ _ | Directory) => (Ok p, f) | _ => (Err NotFound, f) end
  | Run c => programs c f
  | CreateFile p => (Ok tt, <[p := File [] now]> f)
  | Spawn c _ => (Ok tt, f)
  | TryWait c => let '(status, f') := programs c f in (map_ok Some status, f')
  | ReadMore p offset =>
      match leads_to f p with
      | Some (File c _) => (Ok (drop offset c), f)
      | _ => (Err NotFound, f)
      end
  | CloneHandle _ | OpenFile _ => (Ok tt, f)
  | WriteErr _ | Sleep _ => (tt, f)
  | CompileBridge _ => (tt, f)
  | Now => (now, f)
  | Print _ => (tt, f)
  end.

Lemma follow_not_link n (f : Files) p target : follow n f p ≠ Some (Link target).
Proof.
  revert p. induction n as [|n IH]; intros p; simpl; destruct (f !! p) as [[]|]; done || apply IH.
Qed.

Lemma prefix_refl p : String.prefix p p = true.
Proof. induction p as [|c p IH]; [done|]. simpl. by destruct (Ascii.ascii_dec c c). Qed.

Lemma calm_performs touches bridge_touches o f :
  (∀ c f q, (programs c f).2 !! q = f !! q ∨ touches c q ((programs c f).2 !! q)) →
  performs touches bridge_touches o f (calm o f).1 (calm o f).2.
Proof.
  intros Hp. destruct o; simpl; try done; try (by left).
  - split; [done|]. unfold metadata_of. pose proof (follow_not_link 40 f path) as Hl.
    unfold leads_to. destruct (follow 40 f path) as [[]|]; simpl; auto 10.
  - split; [done|]. unfold metadata_of. destruct (f !! path) as [[]|]; simpl; auto 10.
  - split; [done|]. by intros ?%bool_decide_eq_true.
  - destruct (leads_to f path) as [[[|b c]| |]|]; split; try done.
    + split; [done|]. by intros ?%not_elem_of_nil.
    + split; [simpl; by rewrite app_nil_r|]. by intros ?%list_elem_of_singleton.
  - split; [done|]. by intros ? ?%not_elem_of_nil.
  - destruct (f !! path) as [[]|]; simpl; auto.
  - intros q. destruct (f !! path) eqn:E; [by left|]. destruct (decide (q = path)) as [->|].
    + right. by rewrite prefix_refl, lookup_insert_eq.
    + left. by apply lookup_insert_ne.
  - destruct (f !! from) as [n|]; simpl; [eauto|done].
  - destruct (f !! destination) eqn:E; simpl; auto.
  - destruct (leads_to f source) as [[c t| |]|] eqn:E; simpl; try done.
    exists c, t. split; [done|]. by exists t.
  - destruct (f !! path) as [[]|] eqn:E; split; try done; simpl; unfold leads_to, follow; by rewrite E.
  - by exists now.
  - intros q. specialize (Hp c f q). by destruct (programs c f).
  - destruct (leads_to f path) as [[c t| |]|]; split; try done. split.
    + exists []. by rewrite app_nil_r.
    + intros Hd. apply (f_equal length) in Hd. rewrite length_drop in Hd. simpl in Hd. lia.
Qed.
End calm.

(** One build after another is stepped, by the schedule; one that is done stays. *)
Fixpoint fleet_exec {A} (w : ∀ o, Files → answer o * Files) (schedule : list nat)
    (s : Files * list (prog A)) : Files * list (prog A) :=
  match schedule with
  | [] => s
  | i :: schedule =>
      match s.2 !! i with
      | Some (Call o k) => fleet_exec w schedule ((w o s.1).2, <[i := k (w o s.1).1]> s.2)
      | _ => fleet_exec w schedule s
      end
  end.

Lemma fleet_exec_steps {A} touches bridge_touches w schedule (s : Files * list (prog A)) :
  (∀ o f, performs touches bridge_touches o f (w o f).1 (w o f).2) →
  rtc (fleet_step touches bridge_touches) s (fleet_exec w schedule s).
Proof.
  intros Hw. revert s. induction schedule as [|i schedule IH]; intros [f ps]; [done|]. simpl.
  destruct (ps !! i) as [[| |o k]|] eqn:E; try apply IH.
  eapply rtc_l; [by apply (fleet_call _ _ f ps i o k _ _ E (Hw o f))|apply IH].
Qed.

(** Two relative names in one directory are two paths. *)
Lemma join_inj p q q' :
  is_absolute q = false → is_absolute q' = false → join p q = join p q' → q = q'.
Proof.
  unfold join. intros -> ->. destruct (_ || _); intros H%(inj (String.append p)); [done|].
  by apply (inj (String.append "/")) in H.
Qed.
