(* ===== verification/Prebuilt.v ===== *)
(** * The published library: the manifest, the cache and the download

    [embedded-mongodb-sys/prebuilt.rs] (generated, and part of the repository),
    [build_cache.rs], [build_download.rs] and [build_glibc.rs], and [flag] of [build.rs]. *)
From stdpp Require Import pretty.
From S2P Require Import Prelude Text Search BuildHost.

(** ** The manifest *)

Record Prebuilt := mkPrebuilt {
  target : string;
  asset : string;
  sha256 : string;
  size : Z;
  glibc_min : option (Z * Z)
}.

Definition RELEASE_TAG : string := "native-40c54ef85138".
Definition SOURCE_COMMIT : string := "e2890298c28551337652603c1f8767607bf22fc1".
Definition BASE_URL : string :=
  "https://github.com/jeroenvervaeke/embedded-mongo/releases/download".

Definition PREBUILT : list Prebuilt :=
  [ mkPrebuilt "aarch64-apple-darwin"
      "libembedded_mongodb_native-aarch64-apple-darwin.so"
      "5a189876ce6b383e964ebca31889ebd684acfa6895fb85305ee9a8bce517aad0" 72766096 None;
    mkPrebuilt "aarch64-linux-android"
      "libembedded_mongodb_native-aarch64-linux-android.so"
      "c90d5c3ab744073d3db3295c22b3f44efc6acc7891a988b0bc1c8eb014f50047" 48599160 None;
    mkPrebuilt "aarch64-unknown-linux-gnu"
      "libembedded_mongodb_native-aarch64-unknown-linux-gnu.so"
      "7921cf975be80227cb9bef30706ed8b22a797b47587afe0c0b01f82a6dea30de" 37453336 (Some (2, 38));
    mkPrebuilt "x86_64-linux-android"
      "libembedded_mongodb_native-x86_64-linux-android.so"
      "2e26ac6d687a3b1b34bc9c0fa8e8f28032d84848c93c0cb06f8fa1e00a489a02" 48058024 None;
    mkPrebuilt "x86_64-unknown-linux-gnu"
      "libembedded_mongodb_native-x86_64-unknown-linux-gnu.so"
      "eee6ecfaad6a1cdcf4f27086486f9f517cb9473e164fb677969686072cbbd76c" 34575480 (Some (2, 38)) ].

(** [build.rs]'s [flag] *)
Definition flag (env : Env) (name : string) : bool :=
  match var env name with
  | None => false
  | Some value =>
      let value := trim value in
      negb (bool_decide (value = EmptyString)) && negb (bool_decide (value = "0"%string))
      && negb (eq_ignore_ascii_case value "false")
  end.

(** ** The digest of a file *)

(** The hasher of the [sha2] package: what it is given in pieces it hashes as one. *)
Class Sha2 := {
  hasher : Type;
  Sha256_new : hasher;
  Sha256_update : hasher → bytes → hasher;
  Sha256_finalize : hasher → bytes
}.
Class Sha2Laws `{Sha2} := {
  update_nil h : Sha256_update h [] = h;
  update_app h a b : Sha256_update (Sha256_update h a) b = Sha256_update h (a ++ b)
}.

Definition hex_digit (z : Z) : ascii :=
  ascii_of_nat (Z.to_nat (if z <? 10 then 48 + z else 87 + z)).
(** [format!("{byte:02x}")], one byte after another *)
Fixpoint hex (l : bytes) : string :=
  match l with
  | [] => EmptyString
  | b :: l => String (hex_digit (byte_val b / 16)) (String (hex_digit (byte_val b mod 16)) (hex l))
  end.

(** [Path::join] of the cache and a file's name, and the two names a build uses there *)
Definition destination (cache : string) (entry : Prebuilt) : string :=
  join cache (sha256 entry ++ ".so").
Definition temporary (cache : string) (pid nanos : N) : string :=
  join cache (".tmp-" ++ pretty pid ++ "-" ++ pretty nanos).

Inductive Problem :=
| Missing
| Size (actual : Z)
| Digest (actual : string).

Section prebuilt.
Context `{Sha2}.

(** What the digest of these bytes is, read at once. *)
Definition digest (content : bytes) : string :=
  hex (Sha256_finalize (Sha256_update Sha256_new content)).

(** [sha256]: the loop over what each [read] answered *)
Definition sha256_of (path : string) : prog (result ErrorKind string) :=
  let* read := ReadFile path in
  match read with
  | Err error => Done (Err error)
  | Ok chunks => Done (Ok (hex (Sha256_finalize (foldl Sha256_update Sha256_new chunks))))
  end.

Definition verify (path : string) (entry : Prebuilt) : prog (option Problem) :=
  let* metadata := FsMetadata path in
  match metadata with
  | Err _ => Done (Some Missing)
  | Ok metadata =>
      if negb (is_file metadata) then Done (Some Missing)
      else if negb (len metadata =? size entry) then Done (Some (Size (len metadata)))
      else
        let@ digest := sha256_of path in
        match digest with
        | Ok digest =>
            if bool_decide (digest = sha256 entry) then Done None else Done (Some (Digest digest))
        | Err _ => Done (Some Missing)
        end
  end.

(** ** The cache *)

Definition cache_dir (macos : bool) (env : Env) : prog string :=
  match var_os env "EMBEDDED_MONGODB_CACHE_DIR" with
  | Some dir => Done dir
  | None =>
      match var_os env "XDG_CACHE_HOME" with
      | Some dir => Done (join dir "embedded-mongodb")
      | None =>
          match var_os env "HOME" with
          | Some home =>
              Done (join home (if macos then "Library/Caches/embedded-mongodb"
                               else ".cache/embedded-mongodb"))
          | None =>
              let@ out := expect (var_os env "OUT_DIR") (NotSetByCargo "OUT_DIR") in
              Done (join out "cache")
          end
      end
  end.

Definition nanos_per_second : Z := 1000000000.
Definition one_day : Z := 24 * 60 * 60 * nanos_per_second.

(** The loop of [sweep_stale_temporaries], over the names the directory listed *)
Fixpoint sweep_each (cache : string) (names : list string) : prog unit :=
  match names with
  | [] => Done tt
  | name :: names =>
      let path := join cache name in
      if negb (utf8_valid (B name) && String.prefix ".tmp-" name) then sweep_each cache names
      else
        let* metadata := LinkMetadata path in
        match (metadata ← result_ok metadata; modified metadata) with
        | None => sweep_each cache names
        | Some modified =>
            let* now := Now in
            if (modified <=? now) && (one_day <? now - modified) then
              let* _ := RemoveFile path in sweep_each cache names
            else sweep_each cache names
        end
  end.

Definition sweep_stale_temporaries (cache : string) : prog unit :=
  let* entries := ReadDir cache in
  match entries with
  | Err _ => Done tt
  | Ok names => sweep_each cache names
  end.

(** ** The download *)

Definition curl_args : list string :=
  ["--silent"; "--show-error"; "--location"; "--fail"; "--proto"; "=https"; "--tlsv1.2";
   "--retry"; "3"; "--retry-connrefused"; "--connect-timeout"; "30"; "--max-time"; "1800";
   "--output"]%string.
Definition wget_args : list string :=
  ["--quiet"; "--timeout=60"; "--tries=3"; "--output-document"]%string.

Definition fetch_command (name url destination : string) : Command :=
  command name ((if bool_decide (name = "wget"%string) then wget_args else curl_args)
                ++ [destination; url]).

Fixpoint fetch_with (names : list string) (last : FetchError) (url destination : string)
    : prog (result FetchError unit) :=
  match names with
  | [] => Done (Err last)
  | name :: names =>
      let* status := Run (fetch_command name url destination) in
      match status with
      | Ok status => if success status then Done (Ok tt)
                     else Done (Err (ExitedWith name (BuildHost.status status)))
      | Err NotFound => fetch_with names (NotInstalled name) url destination
      | Err error => Done (Err (FailedToRun name error))
      end
  end.

Definition fetch (url destination : string) : prog (result FetchError unit) :=
  fetch_with ["curl"; "wget"]%string NeitherInstalled url destination.

Definition asset_url (entry : Prebuilt) : string :=
  BASE_URL ++ "/" ++ RELEASE_TAG ++ "/" ++ asset entry.

(** [elapsed.subsec_nanos()], nothing for a clock before 1970 *)
Definition subsec_nanos (now : Z) : N :=
  if 0 <=? now then Z.to_N (now mod nanos_per_second) else 0%N.

(** After a download: only the bytes of the manifest go on. *)
Definition check_download (temporary : string) (entry : Prebuilt) : prog unit :=
  let@ problem := verify temporary entry in
  match problem with
  | None => Done tt
  | Some Missing => Panic (VanishedAfterDownload temporary)
  | Some (Size actual) =>
      let* _ := RemoveFile temporary in Panic (TruncatedDownload actual)
  | Some (Digest actual) =>
      let* _ := RemoveFile temporary in Panic (ChecksumMismatch actual)
  end.

Definition install_download (temporary destination : string) (entry : Prebuilt) : prog string :=
  let* renamed := Rename temporary destination in
  match renamed with
  | Ok _ => Done destination
  | Err _ =>
      let@ problem := verify destination entry in
      let* _ := RemoveFile temporary in
      let@ _ := assert_or (bool_decide (problem = None)) (CannotInstall destination) in
      Done destination
  end.

Definition download (env : Env) (pid : N) (cache : string) (entry : Prebuilt) : prog string :=
  let destination := destination cache entry in
  let url := asset_url entry in
  if flag env "CARGO_NET_OFFLINE" then Panic (NotInCache destination url)
  else
    let* created := CreateDirAll cache in
    match created with
    | Err _ => Panic (CannotCreate cache)
    | Ok _ =>
        let@ _ := sweep_stale_temporaries cache in
        let* _ := Print ("cargo:warning=embedded-mongodb: downloading the prebuilt engine from "
                         ++ url) in
        let* now := Now in
        let temporary := temporary cache pid (subsec_nanos now) in
        let@ fetched := fetch url temporary in
        match fetched with
        | Err error =>
            let* _ := RemoveFile temporary in Panic (DownloadFailed error url)
        | Ok _ =>
            let@ _ := check_download temporary entry in
            install_download temporary destination entry
        end
    end.

Definition fetch_prebuilt (macos : bool) (env : Env) (pid : N) (entry : Prebuilt) : prog string :=
  let@ cache := cache_dir macos env in
  let destination := destination cache entry in
  let* _ := Print ("cargo:rerun-if-changed=" ++ destination) in
  let@ problem := verify destination entry in
  match problem with
  | None => Done destination
  | Some Missing => download env pid cache entry
  | Some _ => let* _ := RemoveFile destination in download env pid cache entry
  end.
End prebuilt.

(** ** The host's glibc *)

(** The [parse] closure of [host_glibc] *)
Definition parse_glibc (text : bytes) : option (Z * Z) :=
  version ← last (split_whitespace text);
  major ← head (split (B ".") version);
  minor ← split (B ".") version !! 1%nat;
  major ← parse_unsigned u32_max major;
  minor ← parse_unsigned u32_max minor;
  Some (major, minor).

(** The first line of [ldd]'s output *)
Definition first_line_of (text : bytes) : option bytes := B <$> first_line (text_of text).

Definition ldd_glibc : prog (option (Z * Z)) :=
  let* output := Run (command "ldd" ["--version"%string]) in
  match output with
  | Err _ => Done None
  | Ok output => Done (line ← first_line_of (from_utf8_lossy (stdout output)); parse_glibc line)
  end.

Definition host_glibc : prog (option (Z * Z)) :=
  let* output := Run (command "getconf" ["GNU_LIBC_VERSION"%string]) in
  match output with
  | Ok output =>
      if success output then
        match parse_glibc (trim_end (trim_start (from_utf8_lossy (stdout output)))) with
        | Some version => Done (Some version)
        | None => ldd_glibc
        end
      else ldd_glibc
  | Err _ => ldd_glibc
  end.

(** Tuples compare by their first difference. *)
Definition tuple_ge (a b : Z * Z) : bool :=
  (b.1 <? a.1) || ((a.1 =? b.1) && (b.2 <=? a.2)).

Definition check_glibc_floor (entry : Prebuilt) : prog unit :=
  match glibc_min entry with
  | None => Done tt
  | Some need =>
      let@ have := host_glibc in
      match have with
      | None =>
          let* _ := Print ("cargo:warning=embedded-mongodb: could not read this host's glibc version; the "
                           ++ "prebuilt library needs " ++ pretty need.1 ++ "." ++ pretty need.2
                           ++ " or newer") in
          Done tt
      | Some have =>
          if tuple_ge have need then Done tt else Panic (GlibcTooOld need have)
      end
  end.

Example parse_glibc_getconf : parse_glibc (B "glibc 2.44") = Some (2, 44).
Proof. vm_compute. reflexivity. Qed.
Example parse_glibc_ldd : parse_glibc (B "ldd (GNU libc) 2.38") = Some (2, 38).
Proof. vm_compute. reflexivity. Qed.
