(* ===== verification/Glibc.v ===== *)
(** * The check of the host's glibc

    What [build_glibc.rs] makes of a version that is printed the way [getconf] prints it, and
    when it refuses the host. The definitions are in [Prebuilt]. *)
From stdpp Require Import pretty.
From S2P Require Import Prelude Text Search BuildHost Prebuilt.

(** ** Numbers as they are printed *)

Definition digits (l : bytes) : Prop := Forall (λ b, is_Some (digit b)) l.

Lemma B_app s t : B (s +:+ t) = B s ++ B t.
Proof.
  induction s as [|c s IH]; [done|]. change (Ascii.byte_of_ascii c :: B (s +:+ t)
    = Ascii.byte_of_ascii c :: B s ++ B t). by rewrite IH.
Qed.

Lemma B_char c s : B (String c s) = Ascii.byte_of_ascii c :: B s.
Proof. done. Qed.

Lemma pretty_char_digit (x : N) :
  (x < 10)%N → digit (Ascii.byte_of_ascii (pretty_N_char x)) = Some (Z.of_N x).
Proof.
  intros Hx. assert (x = 0 ∨ x = 1 ∨ x = 2 ∨ x = 3 ∨ x = 4 ∨ x = 5 ∨ x = 6 ∨ x = 7 ∨ x = 8 ∨ x = 9)%N
    as Hc by lia.
  repeat destruct Hc as [->|Hc]; subst; reflexivity.
Qed.

Lemma pretty_go_digits (x : N) s : digits (B s) → digits (B (pretty_N_go x s)).
Proof.
  revert s. induction (N.lt_wf_0 x) as [x _ IH]; intros s Hs.
  assert (x = 0 ∨ 0 < x)%N as [->|?] by lia; [by rewrite pretty_N_go_0|].
  rewrite pretty_N_go_step by done. apply IH; [by apply N.div_lt|].
  rewrite B_char. constructor; [|done]. rewrite pretty_char_digit; [eauto|by apply N.mod_lt].
Qed.

(** What was read before the last digits is carried on. *)
Lemma pretty_go_value max (x : N) s :
  Z.of_N x ≤ max → digits_from max 0 (B (pretty_N_go x s)) = digits_from max (Z.of_N x) (B s).
Proof.
  revert s. induction (N.lt_wf_0 x) as [x _ IH]; intros s Hx.
  assert (x = 0 ∨ 0 < x)%N as [->|?] by lia; [by rewrite pretty_N_go_0|].
  rewrite pretty_N_go_step by done.
  assert (10 * Z.of_N (x `div` 10) + Z.of_N (x `mod` 10) = Z.of_N x) as Hdm.
  { pose proof (N.div_mod' x 10). lia. }
  assert (x `div` 10 < x)%N as Hlt by (by apply N.div_lt).
  rewrite (IH _ Hlt) by lia. rewrite B_char. cbn [digits_from].
  rewrite pretty_char_digit by (by apply N.mod_lt). cbn [mbind option_bind]. rewrite Hdm.
  by destruct (Z.leb_spec (Z.of_N x) max); [|lia].
Qed.

Lemma pretty_digits (x : N) : digits (B (pretty x)).
Proof.
  unfold pretty, pretty_N. case_decide; [by repeat constructor|]. by apply pretty_go_digits; constructor.
Qed.

Lemma pretty_go_nonempty (x : N) s : s ≠ EmptyString → pretty_N_go x s ≠ EmptyString.
Proof.
  revert s. induction (N.lt_wf_0 x) as [x _ IH]; intros s Hs.
  assert (x = 0 ∨ 0 < x)%N as [->|?] by lia; [by rewrite pretty_N_go_0|].
  rewrite pretty_N_go_step by done. apply IH; [by apply N.div_lt|done].
Qed.

Lemma pretty_nonempty (x : N) : B (pretty x) ≠ [].
Proof.
  unfold pretty, pretty_N. case_decide; [done|]. rewrite pretty_N_go_step by lia.
  pose proof (pretty_go_nonempty (x `div` 10) (String (pretty_N_char (x `mod` 10)) "")) as Hn.
  intros Hb. by destruct (pretty_N_go _ _); [apply Hn|].
Qed.

(** [parse] reads a number as it was printed, if the type holds it. *)
Lemma parse_pretty max (x : N) : Z.of_N x ≤ max → parse_unsigned max (B (pretty x)) = Some (Z.of_N x).
Proof.
  intros Hx. unfold parse_unsigned.
  pose proof (pretty_digits x) as Hd. pose proof (pretty_nonempty x) as Hne.
  assert (strip_prefix (B "+") (B (pretty x)) = None) as ->.
  { destruct (B (pretty x)) as [|b l]; [done|]. apply Forall_cons in Hd as [Hb _]. simpl.
    destruct b; try done; by destruct Hb. }
  cbn [default]. destruct (B (pretty x)) as [|b l] eqn:Hb; [done|]. rewrite <- Hb.
  unfold pretty, pretty_N. case_decide as H0.
  - subst. cbn. by rewrite (proj2 (Z.leb_le _ _)) by lia.
  - by rewrite pretty_go_value.
Qed.

(** ** Words and parts *)

(** A byte none of these characters begins with. *)
Definition begins_none (chars : list bytes) (b : Byte.byte) : bool :=
  forallb (λ w, match w with a :: _ => negb (Byte.eqb a b) | [] => false end) chars.

Lemma strip_one_none chars b l : begins_none chars b = true → strip_one chars (b :: l) = None.
Proof.
  unfold strip_one, begins_none. induction chars as [|w chars IH]; simpl; [done|].
  intros [Hw Hc]%andb_true_iff. destruct w as [|a w]; [done|]. simpl.
  apply negb_true_iff in Hw. rewrite Hw. by apply IH.
Qed.

(** ASCII, and no white space begins or, read backwards, ends with it. *)
Definition inky (b : Byte.byte) : bool :=
  (byte_val b <? 128) && begins_none whitespace b && begins_none (reverse <$> whitespace) b.

Lemma digit_inky b : is_Some (digit b) → inky b = true ∧ b ≠ Byte.x2e.
Proof. intros [d Hd]. destruct b; try discriminate Hd; split; (reflexivity || discriminate). Qed.

Lemma inky_parts b :
  inky b = true → byte_val b < 128 ∧ begins_none whitespace b = true
                  ∧ begins_none (reverse <$> whitespace) b = true.
Proof. intros [[H1%Z.ltb_lt H2]%andb_true_iff H3]%andb_true_iff. done. Qed.

Lemma words_from_inky fuel word w l :
  Forall (λ b, inky b = true) w →
  words_from (length w + fuel) word (w ++ l) = words_from fuel (word ++ w) l.
Proof.
  revert word. induction w as [|b w IH]; intros word Hw; [by rewrite app_nil_r|].
  apply Forall_cons in Hw as [Hb Hw]. apply inky_parts in Hb as (_ & Hb & _).
  cbn [length Nat.add words_from app]. rewrite (strip_one_none _ _ _ Hb), IH by done.
  by rewrite <- app_assoc.
Qed.

(** The last word of [name], a space and [version] is [version]. *)
Lemma split_whitespace_two name version :
  Forall (λ b, inky b = true) name → Forall (λ b, inky b = true) version →
  name ≠ [] → version ≠ [] →
  split_whitespace (name ++ [Byte.x20] ++ version) = [name; version].
Proof.
  intros Hn Hv Hn0 Hv0. unfold split_whitespace.
  rewrite !length_app. rewrite words_from_inky by done. cbn [length Nat.add words_from app].
  change (strip_one whitespace (Byte.x20 :: version)) with (Some version). cbn iota.
  pose proof (words_from_inky 0 [] version [] Hv) as Hw. rewrite Nat.add_0_r, app_nil_r in Hw.
  rewrite Hw. cbn [words_from app]. destruct name, version; done.
Qed.

Lemma split_first_dot a b : (Byte.x2e ∉ a) → split_first (B ".") (a ++ Byte.x2e :: b) = Some (a, b).
Proof.
  induction a as [|c a IH]; intros Ha; [done|]. apply not_elem_of_cons in Ha as [Hc Ha].
  cbn [app split_first]. change (strip_prefix (B ".") (c :: a ++ Byte.x2e :: b))
    with (if Byte.eqb Byte.x2e c then Some (a ++ Byte.x2e :: b) else None).
  destruct (Byte.eqb Byte.x2e c) eqn:E; [by apply Byte.byte_dec_bl in E|]. by rewrite IH.
Qed.

Lemma split_no_dot fuel b : (Byte.x2e ∉ b) → split_rounds fuel (B ".") b = [b].
Proof.
  intros Hb. destruct fuel as [|fuel]; [done|]. cbn [split_rounds].
  assert (split_first (B ".") b = None) as ->; [|done].
  apply split_first_None. intros x y ->. apply Hb. set_solver.
Qed.

Lemma split_dot a b :
  (Byte.x2e ∉ a) → (Byte.x2e ∉ b) → split (B ".") (a ++ [Byte.x2e] ++ b) = [a; b].
Proof.
  intros Ha Hb. unfold split. rewrite length_app. cbn [app length]. rewrite Nat.add_succ_r.
  cbn [split_rounds]. rewrite split_first_dot by done. by rewrite split_no_dot.
Qed.

(** ** What [getconf] prints is read back *)

Definition version_text (major minor : N) : bytes := B (pretty major) ++ [Byte.x2e] ++ B (pretty minor).

Lemma digits_inky l : digits l → Forall (λ b, inky b = true) l ∧ (Byte.x2e ∉ l).
Proof.
  intros Hl. split.
  - eapply Forall_impl; [exact Hl|]. intros b Hb. by apply digit_inky.
  - intros Hin. unfold digits in Hl. rewrite Forall_forall in Hl. by destruct (digit_inky _ (Hl _ Hin)) as [_ []].
Qed.

Lemma version_inky major minor :
  Forall (λ b, inky b = true) (version_text major minor) ∧ version_text major minor ≠ [].
Proof.
  split.
  - apply Forall_app. split; [apply digits_inky, pretty_digits|].
    constructor; [reflexivity|apply digits_inky, pretty_digits].
  - unfold version_text. by destruct (B (pretty major)).
Qed.

Lemma parse_glibc_version name (major minor : N) :
  Forall (λ b, inky b = true) name → name ≠ [] → Z.of_N major ≤ u32_max → Z.of_N minor ≤ u32_max →
  parse_glibc (name ++ [Byte.x20] ++ version_text major minor) = Some (Z.of_N major, Z.of_N minor).
Proof.
  intros Hn Hn0 Hma Hmi. destruct (version_inky major minor) as [Hv Hv0]. unfold parse_glibc.
  rewrite split_whitespace_two by done. cbn [last mbind option_bind].
  unfold version_text. rewrite split_dot by (apply digits_inky, pretty_digits).
  cbn. by rewrite !parse_pretty.
Qed.

Lemma lossy_ascii l : Forall (λ b, byte_val b < 128) l → from_utf8_lossy l = l.
Proof.
  unfold from_utf8_lossy. induction l as [|b l IH]; intros Hl; [done|].
  apply Forall_cons in Hl as [Hb Hl]. cbn [length lossy_rounds].
  assert (utf8_front (b :: l) = (true, 1%nat)) as ->.
  { unfold utf8_front. simpl. by rewrite (proj2 (Z.ltb_lt _ _) Hb). }
  change (b :: lossy_rounds (length l) l = b :: l). by rewrite IH.
Qed.

Lemma trim_start_inky b l : inky b = true → trim_start (b :: l) = b :: l.
Proof.
  intros (_ & Hb & _)%inky_parts. unfold trim_start. cbn [length strip_all].
  by rewrite (strip_one_none _ _ _ Hb).
Qed.

(** One line, its end taken off. *)
Lemma trim_end_line l b : inky b = true → trim_end (l ++ [b] ++ [Byte.x0a]) = l ++ [b].
Proof.
  intros (_ & _ & Hb)%inky_parts. unfold trim_end. rewrite !length_app. cbn [length].
  rewrite !reverse_app. change ((reverse [Byte.x0a] ++ reverse [b]) ++ reverse l)
    with (Byte.x0a :: b :: reverse l).
  rewrite Nat.add_succ_r. cbn [Nat.add strip_all].
  change (strip_one (reverse <$> whitespace) (Byte.x0a :: b :: reverse l))
    with (Some (b :: reverse l)). cbn iota. rewrite Nat.add_succ_r. cbn [strip_all].
  rewrite (strip_one_none _ _ _ Hb). by rewrite reverse_cons, reverse_involutive.
Qed.

(** What [getconf GNU_LIBC_VERSION] prints. *)
Definition getconf_line (major minor : N) : bytes :=
  B "glibc" ++ [Byte.x20] ++ version_text major minor ++ [Byte.x0a].

Lemma getconf_line_trimmed major minor :
  trim_end (trim_start (from_utf8_lossy (getconf_line major minor)))
  = B "glibc" ++ [Byte.x20] ++ version_text major minor.
Proof.
  destruct (version_inky major minor) as [Hv Hv0]. unfold getconf_line.
  rewrite lossy_ascii.
  2: { apply Forall_app; split; [by repeat constructor|]. constructor; [done|].
       apply Forall_app; split; [|by repeat constructor].
       eapply Forall_impl; [exact Hv|]. by intros b [? _]%inky_parts. }
  assert (∀ rest, trim_start (B "glibc" ++ rest) = B "glibc" ++ rest) as ->
    by (intros rest; exact (trim_start_inky Byte.x67 (B "libc" ++ rest) eq_refl)).
  destruct (exists_last Hv0) as (l & b & Hlb). rewrite Hlb in *.
  apply Forall_app in Hv as [_ Hb]. apply Forall_cons in Hb as [Hb _].
  pose proof (trim_end_line (B "glibc" ++ [Byte.x20] ++ l) b Hb) as Ht.
  rewrite <- !app_assoc in Ht. by rewrite <- !app_assoc.
Qed.

(** The host prints this version when it is asked for it. *)
Definition host_prints (w : ∀ o, Files → answer o * Files) (f : Files) (major minor : N) : Prop :=
  ∃ status, w (Run (command "getconf" ["GNU_LIBC_VERSION"%string])) f
            = (Ok (mkOutput true status (getconf_line major minor)), f).

(** On a host that prints its version the way [getconf] does, the version is read back digit for
    digit, and the host is refused exactly when it is older than what the library was built
    against, the major number deciding first. *)
Theorem an_older_host_is_refused w f entry (major minor : N) :
  Z.of_N major ≤ u32_max → Z.of_N minor ≤ u32_max → host_prints w f major minor →
  snd (fst (exec w (check_glibc_floor entry) f)) =
    match glibc_min entry with
    | Some need =>
        if decide (need.1 < Z.of_N major ∨ need.1 = Z.of_N major ∧ need.2 ≤ Z.of_N minor)
        then Finished tt else Panicked (GlibcTooOld need (Z.of_N major, Z.of_N minor))
    | None => Finished tt
    end.
Proof.
  intros Hma Hmi [status Hw]. unfold check_glibc_floor.
  destruct (glibc_min entry) as [need|]; [|done]. rewrite exec_bind. unfold host_glibc.
  cbn [exec]. rewrite Hw. cbn [success stdout]. rewrite getconf_line_trimmed.
  rewrite parse_glibc_version by (done || by repeat constructor). cbn [exec].
  unfold tuple_ge. simpl.
  destruct (_ || _) eqn:Hge; case_decide as Hd; try done; exfalso; [apply Hd|]; lia.
Qed.

(** Ubuntu 20.04 and the library published for it. *)
Definition focal (c : Command) (f : Files) : result ErrorKind Output * Files :=
  (Ok (mkOutput true "exit status: 0" (getconf_line 2 31)), f).

Definition x86_64_linux : Prebuilt :=
  mkPrebuilt "x86_64-unknown-linux-gnu" "a.so" "00" 1 (Some (2, 38)).

Lemma an_older_host_is_refused_witness :
  snd (fst (exec (calm focal 0) (check_glibc_floor x86_64_linux) ∅))
  = Panicked (GlibcTooOld (2, 38) (2, 31)).
Proof.
  rewrite (an_older_host_is_refused (calm focal 0) ∅ x86_64_linux 2 31).
  - reflexivity.
  - discriminate.
  - discriminate.
  - exists "exit status: 0"%string. reflexivity.
Defined.
