(* ===== verification/PrebuiltRace.v ===== *)
(** * Builds that race for one cache

    Any number of builds run [fetch_prebuilt] on one cache at once, call by call, and any of
    them may stop for good between two calls. What one build may do to the files is [ours], what
    it finds the others did is [theirs], and the first of one build implies the second of
    another: that is what makes the cache safe without a lock. *)
From stdpp Require Import pretty.
From S2P Require Import Prelude Text Search BuildHost Prebuilt.

Section content.
Context `{Sha2}.

(** The bytes the manifest describes. *)
Definition good (entry : Prebuilt) (n : option node) : Prop :=
  ∃ c t, n = Some (File c t) ∧ Z.of_nat (length c) = size entry ∧ digest c = sha256 entry.

(** Those, or nothing. *)
Definition clean (entry : Prebuilt) (n : option node) : Prop := n = None ∨ good entry n.

(** A file of other bytes. *)
Definition bad (entry : Prebuilt) (n : option node) : Prop :=
  ∃ c t, n = Some (File c t) ∧ (Z.of_nat (length c) ≠ size entry ∨ digest c ≠ sha256 entry).

Lemma clean_not_bad entry n : clean entry n → ¬ bad entry n.
Proof. intros [->|(c & t & -> & ? & ?)] (c' & t' & [=] & [?|?]); simplify_eq; congruence. Qed.

(** Reading in pieces or at once, the digest is the same. *)
Lemma digest_chunks `{!Sha2Laws} chunks :
  hex (Sha256_finalize (foldl Sha256_update Sha256_new chunks)) = digest (concat chunks).
Proof.
  unfold digest. do 2 f_equal. generalize Sha256_new.
  induction chunks as [|c chunks IH]; intros h; simpl; [by rewrite update_nil|].
  by rewrite IH, update_app.
Qed.
End content.

Definition unlinked (n : option node) : Prop := ∀ target, n ≠ Some (Link target).

Lemma unlinked_leads_to (f : Files) p : unlinked (f !! p) → leads_to f p = f !! p.
Proof.
  intros Hu. unfold leads_to, follow. destruct (f !! p) as [[| |target]|] eqn:E; try done.
  by destruct (Hu target).
Qed.

(** A digest in hexadecimal, so neither a hidden file nor a path of its own. *)
Definition hex_char (c : ascii) : bool :=
  let n := nat_of_ascii c in
  ((48 <=? n)%nat && (n <=? 57)%nat) || ((97 <=? n)%nat && (n <=? 102)%nat).
Definition well_named (entry : Prebuilt) : bool :=
  match sha256 entry with EmptyString => false | String c _ => hex_char c end.

Lemma prebuilt_well_named : forallb well_named PREBUILT = true.
Proof. vm_compute. reflexivity. Qed.

(** ** Names in the cache *)

Section names.
Context (cache : string).

Definition owned (pid : N) (q : string) : Prop := ∃ nanos, q = temporary cache pid nanos.
Definition swept (q : string) : Prop :=
  ∃ name, String.prefix ".tmp-" name = true ∧ no_slash name = true ∧ q = join cache name.

Definition temporary_name (pid nanos : N) : string := ".tmp-" ++ pretty pid ++ "-" ++ pretty nanos.

(** Everything up to the first dash. *)
Fixpoint before_dash (s : string) : string :=
  match s with
  | EmptyString => EmptyString
  | String c s => if Ascii.eqb c "-" then EmptyString else String c (before_dash s)
  end.
Fixpoint no_dash (s : string) : bool :=
  match s with EmptyString => true | String c s => negb (Ascii.eqb c "-") && no_dash s end.

Lemma before_dash_app s t : no_dash s = true → before_dash (s ++ String "-" t) = s.
Proof.
  induction s as [|c s IH]; [done|]. intros [Hc Hs]%andb_true_iff.
  change (before_dash (String c (s ++ String "-" t)) = String c s). cbn [before_dash].
  rewrite negb_true_iff in Hc. rewrite Hc. by rewrite IH.
Qed.

Lemma pretty_N_go_no_dash x s : no_dash s = true → no_dash (pretty_N_go x s) = true.
Proof.
  revert s. induction (N.lt_wf_0 x) as [x _ IH]; intros s Hs.
  assert (x = 0 ∨ 0 < x)%N as [->|?] by lia; [by rewrite pretty_N_go_0|].
  rewrite pretty_N_go_step by done. apply IH; [by apply N.div_lt|].
  cbn [no_dash]. rewrite Hs, andb_true_r. unfold pretty_N_char. by repeat case_match.
Qed.

Lemma pretty_no_dash (n : N) : no_dash (pretty n) = true.
Proof.
  unfold pretty, pretty_N. case_decide; [done|]. by apply pretty_N_go_no_dash.
Qed.

Lemma temporary_inj_pid pid pid' nanos nanos' :
  temporary cache pid nanos = temporary cache pid' nanos' → pid = pid'.
Proof.
  intros Ht%join_inj; [|done..]. apply (inj (String.append ".tmp-")) in Ht.
  apply (f_equal before_dash) in Ht.
  change (before_dash (pretty pid ++ String "-" (pretty nanos)) =
          before_dash (pretty pid' ++ String "-" (pretty nanos'))) in Ht.
  rewrite !before_dash_app in Ht by apply pretty_no_dash. by apply (inj pretty) in Ht.
Qed.

(** A name of the manifest, a name of a temporary file, and the cache itself are apart. *)
Lemma destination_not_temporary entry name :
  well_named entry = true → String.prefix ".tmp-" name = true →
  destination cache entry ≠ join cache name.
Proof.
  unfold well_named, destination. destruct (sha256 entry) as [|c s]; [done|].
  intros Hc Hname Heq. destruct name as [|d name]; [done|].
  cbn [String.prefix] in Hname. destruct (Ascii.ascii_dec "." d) as [<-|]; [|done].
  change (join cache (String c (s ++ ".so")) = join cache (String "." name)) in Heq.
  apply join_inj in Heq; [|unfold is_absolute; cbn [String.prefix]|done].
  - injection Heq as -> _. done.
  - destruct (Ascii.ascii_dec "/" c) as [<-|]; done.
Qed.

Lemma prefix_app p s : String.prefix p (p ++ s) = true.
Proof.
  induction p as [|c p IH]; [by destruct s|]. change (String.prefix (String c p) (String c (p ++ s)) = true).
  simpl. by destruct (Ascii.ascii_dec c c).
Qed.

Lemma temporary_prefix pid nanos : String.prefix ".tmp-" (temporary_name pid nanos) = true.
Proof. apply prefix_app. Qed.

Lemma prefix_length p q : String.prefix p q = true → (String.length p ≤ String.length q)%nat.
Proof.
  revert q. induction p as [|c p IH]; intros [|d q]; simpl; [lia|lia|done|].
  destruct (Ascii.ascii_dec c d); [|done]. intros Hp. apply le_n_S. by apply IH.
Qed.

(** A file of a directory is not on the way to the directory. *)
Lemma join_not_above c q : is_absolute (String c q) = false → String.prefix (join cache (String c q)) cache = false.
Proof.
  intros Hrel. destruct (String.prefix _ cache) eqn:Hp; [|done].
  apply prefix_length in Hp. unfold join in Hp. rewrite Hrel in Hp.
  destruct (_ || _); rewrite ?string_length_app in Hp; simpl in Hp; lia.
Qed.

Lemma temporary_not_above pid nanos : String.prefix (temporary cache pid nanos) cache = false.
Proof. exact (join_not_above "." ("tmp-" ++ pretty pid ++ "-" ++ pretty nanos) eq_refl). Qed.

Lemma destination_not_above entry :
  well_named entry = true → String.prefix (destination cache entry) cache = false.
Proof.
  unfold well_named, destination. destruct (sha256 entry) as [|c s]; [done|]. intros Hc.
  apply join_not_above. unfold is_absolute. cbn [String.prefix].
  destruct (Ascii.ascii_dec "/" c) as [<-|]; done.
Qed.
End names.

(** ** What a build does, and what it finds done *)

Section race.
Context `{Sha2} {laws : Sha2Laws}.
Context (touches : Command → string → option node → Prop).
Context (bridge_touches : string → option node → Prop).
Local Abbreviation performs := (performs touches bridge_touches).
Local Abbreviation wp := (wp touches bridge_touches).

(** [curl --output d] and [wget --output-document d] write the file [d] and no other. *)
Context (downloads_touch : ∀ name url d q n,
  touches (fetch_command name url d) q n → q = d ∧ (n = None ∨ ∃ c t, n = Some (File c t))).

Context (cache : string).

(** [cold]: nobody finds a bad entry, so nobody has a reason to take one away; a build of such a
    kind keeps the entries of the others. *)
Definition ours (cold : Prop) (pid : N) (entry : Prebuilt) (f f' : Files) : Prop :=
  (∀ q, f' !! q = f !! q
        ∨ (String.prefix q cache = true ∧ f' !! q = Some Directory)
        ∨ (swept cache q ∧ f' !! q = None)
        ∨ (owned cache pid q ∧ unlinked (f' !! q))
        ∨ (q = destination cache entry ∧ clean entry (f' !! q)))
  ∧ (cold → good entry (f !! destination cache entry) → good entry (f' !! destination cache entry)).

Definition theirs (keeps : Prop) (pid : N) (entry : Prebuilt) (f f' : Files) : Prop :=
  (∀ q, owned cache pid q → f' !! q = f !! q ∨ f' !! q = None)
  ∧ (f' !! destination cache entry = f !! destination cache entry
     ∨ clean entry (f' !! destination cache entry))
  ∧ (keeps → good entry (f !! destination cache entry) → good entry (f' !! destination cache entry)).

#[local] Instance theirs_refl keeps pid entry : Reflexive (theirs keeps pid entry).
Proof. intros f. split_and!; auto. Qed.

#[local] Instance theirs_trans keeps pid entry : Transitive (theirs keeps pid entry).
Proof.
  intros f1 f2 f3 (Ho & Hd & Hc) (Ho' & Hd' & Hc'). split_and!; [| |auto].
  - intros q Hq. destruct (Ho' q Hq) as [->|?]; auto.
  - destruct Hd' as [->|?]; auto.
Qed.

Lemma temporary_not_destination pid nanos entry :
  well_named entry = true → temporary cache pid nanos ≠ destination cache entry.
Proof.
  intros Hw Heq. symmetry in Heq. revert Heq.
  apply (destination_not_temporary _ _ (temporary_name pid nanos)); [done|apply temporary_prefix].
Qed.

Lemma swept_not_destination q entry :
  well_named entry = true → swept cache q → q ≠ destination cache entry.
Proof.
  intros Hw (name & Hp & _ & ->) Heq. symmetry in Heq. by apply destination_not_temporary in Heq.
Qed.

(** An entry a build changes is the manifest's, or gone. *)
Lemma ours_entry cold pid' entry entry' f f' :
  well_named entry = true → well_named entry' = true →
  (destination cache entry = destination cache entry' → entry = entry') →
  ours cold pid' entry' f f' →
  f' !! destination cache entry = f !! destination cache entry
  ∨ clean entry (f' !! destination cache entry).
Proof.
  intros Hw Hw' Hsame [Hq _].
  destruct (Hq (destination cache entry))
    as [?|[[Hp _]|[[Hs _]|[[[nanos Heq] _]|[Heq Hcl]]]]]; [by left|..].
  - by rewrite destination_not_above in Hp.
  - by destruct (swept_not_destination _ entry Hw Hs).
  - symmetry in Heq. by apply temporary_not_destination in Heq.
  - right. by rewrite (Hsame Heq) in *.
Qed.

(** What one build does is what another can live with. *)
Lemma ours_theirs cold pid pid' entry entry' f f' :
  pid ≠ pid' → well_named entry = true → well_named entry' = true →
  (destination cache entry = destination cache entry' → entry = entry') →
  ours cold pid' entry' f f' → theirs cold pid entry f f'.
Proof.
  intros Hpid Hw Hw' Hsame Hours. pose proof Hours as [Hq Hc]. split_and!.
  - intros q (nanos & ->). destruct (Hq (temporary cache pid nanos))
      as [?|[[Hp _]|[[_ ?]|[[[nanos' Heq] _]|[Heq _]]]]]; [by left| |by right|..].
    + by rewrite temporary_not_above in Hp.
    + by apply temporary_inj_pid in Heq.
    + by apply temporary_not_destination in Heq.
  - by eapply ours_entry.
  - intros Hcold Hg. destruct (decide (destination cache entry = destination cache entry')) as [He|Hne].
    + rewrite (Hsame He) in *. auto.
    + destruct (Hq (destination cache entry))
        as [->|[[Hp _]|[[Hs _]|[[[nanos Heq] _]|[Heq _]]]]]; [done|..|done].
      * by rewrite destination_not_above in Hp.
      * by destruct (swept_not_destination _ entry Hw Hs).
      * symmetry in Heq. by apply temporary_not_destination in Heq.
Qed.

(** ** One build *)

Section one.
Context (keeps cold : Prop) (pid : N) (entry : Prebuilt) (Hw : well_named entry = true).
Local Abbreviation R := (theirs keeps pid entry).
Local Abbreviation G := (ours cold pid entry).
Local Abbreviation dest := (destination cache entry).

(** What a build may count on all the way. *)
Definition standing (f : Files) : Prop :=
  unlinked (f !! dest) ∧ (cold → clean entry (f !! dest))
  ∧ ∀ q, owned cache pid q → unlinked (f !! q).

Lemma clean_unlinked n : clean entry n → unlinked n.
Proof. intros [->|(c & t & -> & _)] ?; congruence. Qed.

Lemma standing_theirs f f' : standing f → R f f' → standing f'.
Proof using.
  intros (Hd & Hc & Ho) (Ho' & Hd' & Hc'). split_and!.
  - destruct Hd' as [->|?]; [done|by apply clean_unlinked].
  - intros Hcold. destruct Hd' as [->|?]; auto.
  - intros q Hq. destruct (Ho' q Hq) as [->| ->]; [by apply Ho|done].
Qed.

Lemma ours_refl f : G f f.
Proof. split; auto. Qed.

(** A path the others only empty, or fill with the manifest's bytes. *)
Definition watched (q : string) : Prop := owned cache pid q ∨ q = dest.

Lemma watched_theirs q f f' : watched q → R f f' → f' !! q = f !! q ∨ clean entry (f' !! q).
Proof using.
  intros [Ho| ->] (HR & Hd & _); [|done]. destruct (HR q Ho) as [?|?]; [by left|].
  right. by left.
Qed.

Lemma watched_unlinked q f : watched q → standing f → unlinked (f !! q).
Proof using. intros [Hq| ->] (? & _ & Ho); [by apply Ho|done]. Qed.

(** What a verdict on a path is worth: nothing was changed, no problem means the bytes are
    there, and a file is only called bad when there was one. *)
Definition verdict (q : string) (f : Files) (v : option Problem) (f' : Files) : Prop :=
  R f f' ∧ match v with
           | None => good entry (f' !! q)
           | Some Missing => True
           | Some _ => ∃ f1, R f f1 ∧ bad entry (f1 !! q)
           end.

Lemma wp_verify q f (Q : outcome (option Problem) → Files → Prop) :
  watched q → standing f →
  (∀ v f', verdict q f v f' → standing f' → Q (Finished v) f') →
  wp R G (verify q entry) Q f.
Proof using laws.
  intros Hq Hs HQ. simpl. intros f1 m f2 HR1 [-> Hm].
  assert (Hs1 : standing f1) by (by eapply standing_theirs).
  split; [apply ours_refl|]. rewrite unlinked_leads_to in Hm by (by apply watched_unlinked).
  destruct m as [m|e]; [|simpl; by apply HQ].
  destruct (is_file m) eqn:Hfile; simpl; [|by apply HQ].
  destruct (f1 !! q) as [[c t| |]|] eqn:Hf1; unfold describes in Hm;
    [|destruct Hm; congruence..|done].
  destruct Hm as (_ & _ & Hlen & _). rewrite Hlen.
  destruct (Z.eqb_spec (Z.of_nat (length c)) (size entry)) as [Hsize|Hsize]; simpl.
  2:{ apply HQ; [|done]. split; [done|]. exists f1. split; [done|]. exists c, t. auto. }
  intros f2 r f3 HR2 [-> Hr].
  assert (Hs2 : standing f2) by (by eapply standing_theirs).
  split; [apply ours_refl|]. assert (HR : R f f2) by (by etrans).
  rewrite unlinked_leads_to in Hr by (by apply watched_unlinked).
  destruct r as [chunks|e]; [|simpl; by apply HQ].
  destruct (f2 !! q) as [[c2 t2| |]|] eqn:Hf2; [|done..]. destruct Hr as [<- _].
  simpl. rewrite digest_chunks. case_bool_decide as Hd; simpl; apply HQ; [|done| |done]; split; try done.
  - destruct (watched_theirs q _ _ Hq HR2) as [Heq|Hcl]; rewrite Hf2 in *.
    + rewrite Hf1 in Heq. simplify_eq. by exists (concat chunks), t.
    + by destruct Hcl.
  - exists f2. split; [done|]. exists (concat chunks), t2. auto.
Qed.

Lemma remove_effect q f a f' : performs (RemoveFile q) f a f' → f' = f ∨ f' = delete q f.
Proof using.
  destruct a as [|[]]; simpl; [intros [-> _]; by right|intros [-> _]; by left|intros ->; by left..].
Qed.

(** Taking away a temporary file, one's own or a stale one. *)
Lemma ours_remove q f a f' :
  swept cache q ∨ owned cache pid q → performs (RemoveFile q) f a f' → G f f'.
Proof using Hw.
  intros Hq Hop. assert (f' = f ∨ f' = delete q f) as [->| ->].
  { by eapply remove_effect. }
  { apply ours_refl. }
  assert (q ≠ dest).
  { destruct Hq as [?|[nanos ->]]; [by apply swept_not_destination|by apply temporary_not_destination]. }
  split.
  - intros p. destruct (decide (p = q)) as [->|].
    + rewrite lookup_delete_eq. destruct Hq; auto 10.
      right. right. right. left. split; [done|]. by intros ?.
    + rewrite lookup_delete_ne by done. by left.
  - intros _. by rewrite lookup_delete_ne.
Qed.

Lemma standing_ours f f' : standing f → (∀ q, watched q → f' !! q = f !! q ∨ f' !! q = None) → standing f'.
Proof using.
  intros (Hd & Hc & Ho) Hsame. split_and!.
  - destruct (Hsame dest) as [->| ->]; [by right|done|done].
  - intros Hcold. destruct (Hsame dest) as [->| ->]; [by right|auto|by left].
  - intros q Hq. destruct (Hsame q) as [->| ->]; [by left|by apply Ho|done].
Qed.

Lemma removed q p f a f' : performs (RemoveFile q) f a f' → f' !! p = f !! p ∨ f' !! p = None.
Proof using.
  intros Hop. assert (f' = f ∨ f' = delete q f) as [->| ->] by (by eapply remove_effect).
  - by left.
  - destruct (decide (p = q)) as [->|]; [right; apply lookup_delete_eq|left; by apply lookup_delete_ne].
Qed.

(** The rule for a call that leaves the files alone. *)
Lemma wp_silent {A} o (k : answer o → prog A) Q f :
  (∀ f a f', performs o f a f' → f' = f) → standing f →
  (∀ a f', standing f' → wp R G (k a) Q f') → wp R G (Call o k) Q f.
Proof using.
  intros Ho Hs Hk f1 a f2 HR Hop. apply Ho in Hop as ->. split; [apply ours_refl|].
  apply Hk. by eapply standing_theirs.
Qed.

(** The rule for taking away a temporary file. *)
Lemma wp_remove {A} q (k : answer (RemoveFile q) → prog A) Q f :
  swept cache q ∨ owned cache pid q → standing f →
  (∀ a f', standing f' → wp R G (k a) Q f') → wp R G (Call (RemoveFile q) k) Q f.
Proof using Hw.
  intros Hq Hs Hk f1 a f2 HR Hop. split; [by eapply ours_remove|].
  apply Hk. eapply standing_ours; [by eapply standing_theirs|]. intros. by eapply removed.
Qed.

Lemma watched_not_above q : watched q → String.prefix q cache = false.
Proof using Hw.
  intros [[nanos ->]| ->]; [apply temporary_not_above|by apply destination_not_above].
Qed.

Lemma wp_create {A} (k : answer (CreateDirAll cache) → prog A) Q f :
  standing f → (∀ a f', standing f' → wp R G (k a) Q f') → wp R G (Call (CreateDirAll cache) k) Q f.
Proof using Hw.
  intros Hs Hk f1 a f2 HR Hop. simpl in Hop.
  assert (Hsame : ∀ q, watched q → f2 !! q = f1 !! q).
  { intros q Hq. destruct (Hop q) as [?|[Hp _]]; [done|]. by rewrite watched_not_above in Hp. }
  split; [split|apply Hk; eapply standing_ours; [by eapply standing_theirs|auto]].
  - intros q. destruct (Hop q) as [?|(? & _ & ?)]; auto.
  - intros _. rewrite Hsame; [done|by right].
Qed.

Lemma wp_sweep names Q f :
  (∀ name, name ∈ names → no_slash name = true) → standing f →
  (∀ f', standing f' → Q (Finished tt) f') → wp R G (sweep_each cache names) Q f.
Proof using Hw.
  intros Hnames Hs HQ. revert f Hs. induction names as [|name names IH]; intros f Hs; [by apply HQ|].
  assert (IH' : ∀ f, standing f → wp R G (sweep_each cache names) Q f).
  { apply IH. intros. apply Hnames. by right. }
  cbn [sweep_each]. destruct (utf8_valid (B name) && _) eqn:Ht; cbn [negb]; [|by apply IH'].
  apply wp_silent; [by intros ??? [-> _]|done|]. intros m f1 Hs1.
  destruct (_ ≫= _) as [modified|]; [|by apply IH'].
  apply wp_silent; [by intros ??? ->|done|]. intros now f2 Hs2.
  destruct (_ && (one_day <? _)); [|by apply IH']. apply wp_remove; [|done|by intros; apply IH'].
  left. exists name. split_and!; [by apply andb_true_iff in Ht as [_ ?]| |done].
  apply Hnames. by left.
Qed.

Lemma wp_sweep_stale Q f :
  standing f → (∀ f', standing f' → Q (Finished tt) f') →
  wp R G (sweep_stale_temporaries cache) Q f.
Proof using Hw.
  intros Hs HQ f1 a f2 HR [-> Hnames]. assert (standing f1) by (by eapply standing_theirs).
  split; [apply ours_refl|]. destruct a as [names|]; [|by apply HQ]. by apply wp_sweep.
Qed.

Lemma wp_fetch names last url temp Q f :
  owned cache pid temp → standing f → (∀ r f', standing f' → Q (Finished r) f') →
  wp R G (fetch_with names last url temp) Q f.
Proof using Hw downloads_touch.
  intros Ht Hs HQ. revert last f Hs. induction names as [|name names IH]; intros last f Hs; [by apply HQ|].
  cbn [fetch_with]. intros f1 a f2 HR Hop. simpl in Hop.
  assert (Hs1 : standing f1) by (by eapply standing_theirs).
  assert (temp ≠ dest) by (destruct Ht as [? ->]; by apply temporary_not_destination).
  assert (Hq : ∀ q, f2 !! q = f1 !! q ∨ (q = temp ∧ unlinked (f2 !! q))).
  { intros q. destruct (Hop q) as [?|[-> [->|(c & t & ->)]]%downloads_touch]; auto.
    - right. split; [done|]. by intros ?.
    - right. split; [done|]. by intros ?. }
  assert (Hd : f2 !! dest = f1 !! dest) by (destruct (Hq dest) as [?|[? _]]; congruence).
  split; [split|].
  - intros q. destruct (Hq q) as [?|[-> ?]]; auto 10.
  - intros _. by rewrite Hd.
  - assert (standing f2).
    { destruct Hs1 as (? & ? & Ho). split_and!; [by rewrite Hd|by rewrite Hd|].
      intros q Hqo. destruct (Hq q) as [->|[_ ?]]; auto. }
    destruct a as [out|[]]; try by apply HQ.
    + destruct (success out); by apply HQ.
    + by apply IH.
Qed.

(** What a build that returns hands on. *)
Definition delivered (out : outcome string) (f : Files) : Prop :=
  match out with
  | Finished p => p = dest ∧ clean entry (f !! dest) ∧ (keeps → good entry (f !! dest))
  | Panicked _ => True
  end.

Lemma delivered_stable : stable R delivered.
Proof using.
  intros [p|] f f'; [|done]. intros (-> & Hc & Hg) (_ & Hd & Hcold). split_and!; [done| |auto].
  destruct Hd as [->|?]; done.
Qed.

Lemma delivered_good f : good entry (f !! dest) → delivered (Finished dest) f.
Proof using. intros ?. split_and!; [done|by right|done]. Qed.

Lemma wp_install temp f :
  owned cache pid temp → standing f → good entry (f !! temp) →
  wp R G (install_download temp dest entry) delivered f.
Proof using Hw laws.
  intros Ht Hs Hg f1 a f2 HR Hop. assert (Hs1 : standing f1) by (by eapply standing_theirs).
  assert (Hne : temp ≠ dest) by (destruct Ht as [? ->]; by apply temporary_not_destination).
  destruct a as [u|e]; simpl in Hop.
  - destruct Hop as (n & Hn & ->).
    assert (good entry (Some n)).
    { destruct HR as [Ho _]. destruct (Ho temp Ht) as [Heq|Heq]; rewrite Hn in Heq; [|done].
      by rewrite Heq. }
    split; [split|].
    + intros q. destruct (decide (q = dest)) as [->|]; [rewrite lookup_insert_eq|rewrite lookup_insert_ne by done].
      * right. right. right. right. split; [done|by right].
      * destruct (decide (q = temp)) as [->|]; [rewrite lookup_delete_eq|rewrite lookup_delete_ne by done; by left].
        right. right. right. left. split; [done|]. by intros ?.
    + intros _ _. by rewrite lookup_insert_eq.
    + apply delivered_good. by rewrite lookup_insert_eq.
  - subst f2. split; [apply ours_refl|]. apply wp_bind. apply wp_verify; [by right|done|].
    intros v f2 [HR2 Hv] Hs2. cbn [pbind]. intros f3 a f4 HR3 Hop.
    split; [by eapply ours_remove; [right|]|].
    unfold assert_or. case_bool_decide as Hnone; cbn [pbind wp]; [|done]. subst v.
    assert (f4 !! dest = f3 !! dest) as Hd.
    { destruct (remove_effect _ _ _ _ Hop) as [->| ->]; [done|by apply lookup_delete_ne]. }
    unfold delivered. rewrite Hd.
    by apply (delivered_stable (Finished dest) f2 f3); [apply delivered_good|].
Qed.

Lemma wp_check_download temp Q f :
  owned cache pid temp → standing f →
  (∀ f', standing f' → good entry (f' !! temp) → Q (Finished tt) f') →
  (∀ why f', Q (Panicked why) f') →
  wp R G (check_download temp entry) Q f.
Proof using Hw laws.
  intros Ht Hs HQ HP. apply wp_bind. apply wp_verify; [by left|done|].
  intros [[| |]|] f' [_ Hv] Hs'; [by apply HP| | |by apply HQ].
  all: apply wp_remove; [by right|done|]; intros; apply HP.
Qed.

Lemma wp_download env f :
  standing f → wp R G (download env pid cache entry) delivered f.
Proof using Hw laws downloads_touch.
  intros Hs. unfold download. destruct (flag env _); [done|].
  apply wp_create; [done|]. intros [u|e] f1 Hs1; [|done].
  apply wp_bind, wp_sweep_stale; [done|]. intros f2 Hs2.
  apply wp_silent; [by intros ??? ->|done|]. intros _ f3 Hs3.
  apply wp_silent; [by intros ??? ->|done|]. intros now f4 Hs4.
  assert (Ht : owned cache pid (temporary cache pid (subsec_nanos now))) by (by eexists).
  apply wp_bind, wp_fetch; [done..|]. intros [v|e] f5 Hs5.
  - apply wp_bind, wp_check_download; [done..| |done]. intros f6 Hs6 Hg. by apply wp_install.
  - by apply wp_remove; [right| |].
Qed.

(** The rule for taking a bad entry away. *)
Lemma wp_drop_entry {A} (k : answer (RemoveFile dest) → prog A) Q f :
  ¬ cold → standing f →
  (∀ a f', standing f' → wp R G (k a) Q f') → wp R G (Call (RemoveFile dest) k) Q f.
Proof using.
  intros Hcold Hs Hk f1 a f2 HR Hop.
  assert (Hq : ∀ q, f2 !! q = f1 !! q ∨ (q = dest ∧ f2 !! q = None)).
  { intros q. destruct (remove_effect _ _ _ _ Hop) as [->| ->]; [by left|].
    destruct (decide (q = dest)) as [->|]; [right; split; [done|apply lookup_delete_eq]|].
    left. by apply lookup_delete_ne. }
  split; [split|apply Hk].
  - intros q. destruct (Hq q) as [?|[-> ->]]; [by left|].
    right. right. right. right. split; [done|by left].
  - done.
  - eapply standing_ours; [by eapply standing_theirs|].
    intros q _. destruct (Hq q) as [?|[_ ?]]; auto.
Qed.

Lemma wp_fetch_prebuilt macos env f :
  cache_dir macos env = Done cache → standing f →
  wp R G (fetch_prebuilt macos env pid entry) delivered f.
Proof using Hw laws downloads_touch.
  intros Hcache Hs. unfold fetch_prebuilt. rewrite Hcache. cbn [pbind].
  apply wp_silent; [by intros ??? ->|done|]. intros _ f1 Hs1.
  apply wp_bind, wp_verify; [by right|done|]. intros v f2 [HR Hv] Hs2.
  assert (Hbad : (∃ f3, R f1 f3 ∧ bad entry (f3 !! dest)) → ¬ cold).
  { intros (f3 & HR3 & Hb) Hc. destruct (standing_theirs _ _ Hs1 HR3) as (_ & Hcl & _).
    by apply (clean_not_bad entry (f3 !! dest)); [apply Hcl|]. }
  destruct v as [[| |]|]; [by apply wp_download| | |by apply delivered_good].
  all: apply wp_drop_entry; [by apply Hbad|done|]; intros; by apply wp_download.
Qed.
End one.

(** ** A fleet of builds *)

Record Build := mkBuild { on_macos : bool; build_env : Env; build_pid : N; build_entry : Prebuilt }.

Definition build_prog (b : Build) : prog string :=
  fetch_prebuilt (on_macos b) (build_env b) (build_pid b) (build_entry b).

Definition entry_path (b : Build) : string := destination cache (build_entry b).

(** One cache, entries of one manifest, processes of one machine; nobody made links of the
    names they use. *)
Record launch (builds : list Build) (f : Files) : Prop := {
  one_cache b : b ∈ builds → cache_dir (on_macos b) (build_env b) = Done cache;
  named b : b ∈ builds → well_named (build_entry b) = true;
  one_manifest b b' : b ∈ builds → b' ∈ builds → entry_path b = entry_path b' →
    build_entry b = build_entry b';
  own_processes : NoDup (build_pid <$> builds);
  entry_unlinked b : b ∈ builds → unlinked (f !! entry_path b);
  own_unlinked b q : b ∈ builds → owned cache (build_pid b) q → unlinked (f !! q)
}.

Section fleet.
Context (builds : list Build) (f0 : Files) (Hlaunch : launch builds f0).

Definition all_cold : Prop := ∀ b, b ∈ builds → clean (build_entry b) (f0 !! entry_path b).

Local Abbreviation of_build i g := (match builds !! i with Some b => g b | None => λ _ _, True end).

Definition theirs_of (i : nat) : Files → Files → Prop :=
  of_build i (λ b, theirs all_cold (build_pid b) (build_entry b)).
Definition ours_of (i : nat) : Files → Files → Prop :=
  of_build i (λ b, ours all_cold (build_pid b) (build_entry b)).
Definition delivered_of (i : nat) : outcome string → Files → Prop :=
  of_build i (λ b, delivered all_cold (build_entry b)).

#[local] Instance theirs_of_refl i : Reflexive (theirs_of i).
Proof. unfold theirs_of. case_match; [apply theirs_refl|done]. Qed.
#[local] Instance theirs_of_trans i : Transitive (theirs_of i).
Proof. unfold theirs_of. case_match; [apply theirs_trans|done]. Qed.
Lemma delivered_of_stable i : stable (theirs_of i) (delivered_of i).
Proof. unfold theirs_of, delivered_of. case_match; [apply delivered_stable|done]. Qed.

Lemma fleet_compatible i j f f' :
  (i < length builds)%nat → (j < length builds)%nat → i ≠ j → ours_of j f f' → theirs_of i f f'.
Proof using Hlaunch.
  unfold ours_of, theirs_of. intros [b Hb]%lookup_lt_is_Some [b' Hb']%lookup_lt_is_Some Hij.
  rewrite Hb, Hb'. pose proof (list_elem_of_lookup_2 _ _ _ Hb).
  pose proof (list_elem_of_lookup_2 _ _ _ Hb'). destruct Hlaunch as [_ Hn Hm Hp _ _].
  apply ours_theirs; [|by apply Hn|by apply Hn|by apply Hm].
  intros Heq. apply Hij. apply (NoDup_lookup (build_pid <$> builds) i j (build_pid b)); [done|..].
  - by rewrite list_lookup_fmap, Hb.
  - rewrite list_lookup_fmap, Hb'. simpl. by rewrite Heq.
Qed.

Lemma fleet_starts : fleet_inv touches bridge_touches theirs_of ours_of delivered_of (f0, build_prog <$> builds).
Proof using Hlaunch downloads_touch laws.
  intros i p. simpl. rewrite list_lookup_fmap. unfold theirs_of, ours_of, delivered_of.
  destruct (builds !! i) as [b|] eqn:Hb; [|done]. intros [= <-].
  apply list_elem_of_lookup_2 in Hb. pose proof Hlaunch as [Hc Hn _ _ Hu Ho].
  apply wp_fetch_prebuilt; [by apply Hn|by apply Hc|]. split_and!.
  - by apply Hu.
  - intros Hcold. by apply Hcold.
  - intros q. by apply Ho.
Qed.

Lemma fleet_races f ps :
  rtc (fleet_step touches bridge_touches) (f0, build_prog <$> builds) (f, ps) →
  fleet_inv touches bridge_touches theirs_of ours_of delivered_of (f, ps)
  ∧ rtc (λ f f', ∃ i, (i < length builds)%nat ∧ ours_of i f f') f0 f.
Proof using Hlaunch downloads_touch laws.
  intros Hsteps.
  destruct (fleet_inv_steps touches bridge_touches theirs_of ours_of delivered_of _ _ delivered_of_stable
              (length builds) fleet_compatible (f0, build_prog <$> builds) (f, ps)) as (_ & ? & ?);
    [apply length_fmap|apply fleet_starts|done|done].
Qed.

(** Whatever was installed is the manifest's; the rest is as it was, or gone. *)
Lemma fleet_entries b f :
  b ∈ builds → rtc (λ f f', ∃ i, (i < length builds)%nat ∧ ours_of i f f') f0 f →
  f !! entry_path b = f0 !! entry_path b ∨ clean (build_entry b) (f !! entry_path b).
Proof using Hlaunch.
  intros Hb Hr. pose proof Hlaunch as [_ Hn Hm _ _ _].
  revert f Hr. apply (rtc_ind_r (λ f, f !! entry_path b = f0 !! entry_path b
    ∨ clean (build_entry b) (f !! entry_path b))); [by left|].
  intros f1 f2 _ (i & [b' Hb']%lookup_lt_is_Some & Ho) IH.
  unfold ours_of in Ho. rewrite Hb' in Ho. apply list_elem_of_lookup_2 in Hb'.
  destruct (ours_entry all_cold (build_pid b') (build_entry b) (build_entry b') f1 f2)
    as [Heq|?]; [by apply Hn|by apply Hn|by apply Hm|done| |by right].
  unfold entry_path. by rewrite Heq.
Qed.
End fleet.

(** Alone, a build that returns has the manifest's bytes. *)
Lemma fetch_prebuilt_alone macos env pid entry f trace p f' :
  well_named entry = true → cache_dir macos env = Done cache →
  unlinked (f !! destination cache entry) → (∀ q, owned cache pid q → unlinked (f !! q)) →
  runs touches bridge_touches (fetch_prebuilt macos env pid entry) f trace (Finished p) f' →
  p = destination cache entry ∧ good entry (f' !! p).
Proof using downloads_touch laws.
  intros Hw Hc Hu Ho Hr.
  destruct (wp_runs touches bridge_touches (theirs True pid entry) (ours False pid entry)
    (fetch_prebuilt macos env pid entry) (delivered True entry) f trace (Finished p) f')
    as (-> & _ & Hg); [by apply wp_fetch_prebuilt|done|auto].
Qed.

(** C32. However many builds of distinct processes share one cache in which no entry's and no
    temporary's name is a symbolic link, in every interleaving of their file operations and
    wherever each is stopped, an entry of the cache is as it was at the start, gone, or the
    bytes its manifest names; a build that returned a path returned its entry's, which holds
    those bytes or, if it was taken away, nothing, and certainly holds them if no entry was
    damaged to begin with. *)
Theorem racing_builds_only_install_verified_bytes builds f0 f ps :
  launch builds f0 →
  rtc (fleet_step touches bridge_touches) (f0, build_prog <$> builds) (f, ps) →
  (∀ b, b ∈ builds →
     f !! entry_path b = f0 !! entry_path b ∨ clean (build_entry b) (f !! entry_path b))
  ∧ (∀ i b p, builds !! i = Some b → ps !! i = Some (Done p) →
       p = entry_path b ∧ clean (build_entry b) (f !! p)
       ∧ (all_cold builds f0 → good (build_entry b) (f !! p))).
Proof using downloads_touch laws.
  intros Hlaunch Hsteps. destruct (fleet_races _ _ Hlaunch _ _ Hsteps) as [Hinv Hr]. split.
  - intros b Hb. by eapply fleet_entries.
  - intros i b p Hb Hp. specialize (Hinv i _ Hp). simpl in Hinv. unfold delivered_of in Hinv.
    rewrite Hb in Hinv. by destruct Hinv as (-> & ? & ?).
Qed.
End race.

(** ** On a small machine *)

Module Toy.
(** A digest that is the bytes themselves, a library of three bytes, a cache in [/c], and
    downloaders that bring the library. *)
#[export] Instance toy_sha2 : Sha2 := {|
  hasher := bytes; Sha256_new := []; Sha256_update := app; Sha256_finalize := λ b, b |}.
#[export] Instance toy_laws : Sha2Laws.
Proof. split; [apply app_nil_r|]. intros. symmetry. apply app_assoc. Qed.

Definition library : bytes := B "lib".
Definition entry : Prebuilt := mkPrebuilt "x86_64-unknown-linux-gnu" "lib.so" "6c6962" 3 (Some (2, 38)).
Definition env : Env := {["EMBEDDED_MONGODB_CACHE_DIR"%string := "/c"%string]}.
Definition build (pid : N) : Build := mkBuild false env pid entry.
Definition truncated : Files := {["/c/6c6962.so"%string := File (B "li") 0]}.

Definition touches (c : Command) (q : string) (n : option node) : Prop :=
  (∃ before url, args c = before ++ [q; url]) ∧ (n = None ∨ ∃ content t, n = Some (File content t)).
Definition bridge_touches (q : string) (n : option node) : Prop := False.

Definition programs (c : Command) (f : Files) : result ErrorKind Output * Files :=
  match reverse (args c) with
  | url :: d :: _ => (Ok (mkOutput true "exit status: 0" []), <[d := File library 0]> f)
  | _ => (Err NotFound, f)
  end.

Lemma touches_downloads name url d q n :
  touches (fetch_command name url d) q n → q = d ∧ (n = None ∨ ∃ c t, n = Some (File c t)).
Proof.
  intros [(before & url' & Heq) Hn]. split; [|done].
  unfold fetch_command, command, args in Heq. apply app_inj_2 in Heq as [_ Heq]; [congruence|done].
Qed.

Lemma programs_touch c f q :
  (programs c f).2 !! q = f !! q ∨ touches c q ((programs c f).2 !! q).
Proof.
  unfold programs, touches. destruct (reverse (args c)) as [|url [|d before]] eqn:E; [by left..|].
  simpl. destruct (decide (q = d)) as [->|]; [right|left; by apply lookup_insert_ne].
  rewrite lookup_insert_eq. split; [|eauto]. exists (reverse before), url.
  rewrite <- (reverse_involutive (args c)), E. by rewrite !reverse_cons, <- app_assoc.
Qed.

Lemma machine_performs o f :
  performs touches bridge_touches o f (calm programs 0 o f).1 (calm programs 0 o f).2.
Proof. apply calm_performs. apply programs_touch. Qed.

Lemma two_builds b : b ∈ [build 1; build 2] → b = build 1 ∨ b = build 2.
Proof. by intros [->|?%list_elem_of_singleton]%elem_of_cons; [left|right]. Qed.

Lemma launched f :
  unlinked (f !! "/c/6c6962.so"%string) → (∀ q pid, owned "/c" pid q → unlinked (f !! q)) →
  launch "/c" [build 1; build 2] f.
Proof.
  intros Hu Ho. split.
  - by intros b [->| ->]%two_builds.
  - by intros b [->| ->]%two_builds.
  - by intros b b' [->| ->]%two_builds [->| ->]%two_builds.
  - apply NoDup_cons_2; [by intros ?%list_elem_of_singleton|apply NoDup_singleton].
  - by intros b [->| ->]%two_builds.
  - intros b q Hb. apply Ho.
Qed.

(** Names of temporary files are none of the entry's. *)
Lemma truncated_unlinked q pid : owned "/c" pid q → unlinked (truncated !! q).
Proof.
  intros [nanos ->]. unfold truncated. rewrite lookup_singleton_ne; [done|].
  intros Heq. by apply (temporary_not_destination "/c" pid nanos entry).
Qed.
End Toy.
#[local] Existing Instances Toy.toy_sha2 Toy.toy_laws.

(** Two builds find the same damaged cache entry: the second can repair it and return its
    path before the first gets to the removal it decided on, which then takes the good entry
    away, so the path a build was answered holds no file. *)
Theorem a_racing_build_can_take_a_good_entry_away :
  ∃ f ps,
    launch "/c" [Toy.build 1; Toy.build 2] Toy.truncated
    ∧ rtc (fleet_step Toy.touches Toy.bridge_touches)
        (Toy.truncated, build_prog <$> [Toy.build 1; Toy.build 2]) (f, ps)
    ∧ ps !! 1%nat = Some (Done (entry_path "/c" (Toy.build 2)))
    ∧ f !! entry_path "/c" (Toy.build 2) = None.
Proof.
  pose (s := fleet_exec (calm Toy.programs 0) ([0; 0] ++ replicate 11 1 ++ [0])%nat
               (Toy.truncated, build_prog <$> [Toy.build 1; Toy.build 2])).
  exists s.1, s.2. split_and!.
  - apply Toy.launched; [by intros ?|]. intros q pid. apply Toy.truncated_unlinked.
  - rewrite <- surjective_pairing. apply fleet_exec_steps, Toy.machine_performs.
  - vm_compute. reflexivity.
  - vm_compute. reflexivity.
Qed.

(** Two builds on an empty machine, one stepped twice as often as the other. *)
Lemma racing_builds_only_install_verified_bytes_witness :
  let s := fleet_exec (calm Toy.programs 0) (mjoin (replicate 12 [0; 1; 1]))%nat
             (∅, build_prog <$> [Toy.build 1; Toy.build 2]) in
  good Toy.entry (s.1 !! "/c/6c6962.so"%string).
Proof.
  intros s.
  assert (Hl : launch "/c" [Toy.build 1; Toy.build 2] ∅).
  { apply Toy.launched; intros; by intros ?. }
  assert (Hs : rtc (fleet_step Toy.touches Toy.bridge_touches)
                 (∅, build_prog <$> [Toy.build 1; Toy.build 2]) (s.1, s.2)).
  { rewrite <- surjective_pairing. apply fleet_exec_steps, Toy.machine_performs. }
  destruct (racing_builds_only_install_verified_bytes Toy.touches Toy.bridge_touches
    Toy.touches_downloads "/c" _ _ _ _ Hl Hs) as [_ Hdone].
  destruct (Hdone 1%nat (Toy.build 2) (entry_path "/c" (Toy.build 2)) eq_refl) as (_ & _ & Hg).
  - vm_compute. reflexivity.
  - apply Hg. intros b _. by left.
Defined.
