(* ===== verification/Exports.v ===== *)
(** * Whether a library has the entry points the bridge calls

    [embedded-mongodb-sys/build_exports.rs]. The header's marked declarations are read as text,
    and a library has an entry point when its name followed by a NUL is somewhere in it. *)
From S2P Require Import Prelude Text Search BuildHost.

Definition NATIVE_HEADER : string := "native/embedded_mongodb_native.h".
Definition MARKER : string := "EMBEDDED_MONGODB_API".
Definition DEFINITION : string := "#define EMBEDDED_MONGODB_API".

Section header.
Context `{Unicode}.

(** The test [entry_point_name] stops a name at *)
Definition ends_name (c : bytes) : bool := negb (is_alphanumeric c) && negb (bool_decide (c = B "_")).

(** The closure of its [find_map], on the declaration from a match on *)
Definition name_at (from : bytes) : option bytes :=
  '(name, rest) ← find_char (length from) ends_name from;
  if bool_decide (is_Some (strip_prefix (B "(") (trim_start rest))) then Some name else None.

Definition entry_point_name (declaration : bytes) : option bytes :=
  head (omap name_at (match_suffixes (B "embedded_mongodb_") declaration)).

Definition declared_entry_points (header : bytes) : list bytes :=
  omap entry_point_name (drop 1 (split (B MARKER) header)).

(** [usize] subtraction, in a build with overflow checks off *)
Definition usize_sub (a b : Z) : Z := (a - b) mod 2 ^ 64.

Definition declared_count (header : bytes) : Z :=
  usize_sub (Z.of_nat (match_count (B MARKER) header)) (Z.of_nat (match_count (B DEFINITION) header)).

Definition exports (library name : bytes) : bool :=
  let needle := name ++ [Byte.x00] in
  existsb (λ window, bool_decide (window = needle)) (windows (length needle) library).

Definition check_exports (library crate_root : string) : prog unit :=
  let header_path := join crate_root NATIVE_HEADER in
  let* header := ReadFile header_path in
  match header with
  | Err _ => Panic (HeaderUnreadable header_path)
  | Ok chunks =>
      let header := concat chunks in
      if negb (utf8_valid header) then Panic (HeaderUnreadable header_path)
      else
        let expected := declared_entry_points header in
        let declared := declared_count header in
        let@ _ := assert_or (Z.of_nat (length expected) =? declared)
                            (HeaderNotUnderstood declared expected) in
        let* bytes := ReadFile library in
        match bytes with
        | Err _ => Panic (LibraryUnreadable library)
        | Ok chunks =>
            let bytes := concat chunks in
            let present := filter (λ name, exports bytes name = true) expected in
            let missing := filter (λ name, exports bytes name ≠ true) expected in
            match present, missing with
            | [], _ =>
                let* _ := Print ("cargo:warning=embedded-mongodb: could not read symbol names from "
                                 ++ library ++ ", so its entry points were not checked against "
                                 ++ NATIVE_HEADER) in
                Done tt
            | _, [] => Done tt
            | _, _ => Panic (EntryPointsMissing missing)
            end
        end
  end.
End header.

(** ** The search is exact *)

Lemma exports_spec library name :
  exports library name = true ↔ ∃ before after, library = before ++ name ++ [Byte.x00] ++ after.
Proof.
  unfold exports. rewrite existsb_exists. split.
  - intros (w & Hw & ->%bool_decide_eq_true). apply list_elem_of_In, windows_spec in Hw as (_ & x & y & ->).
    + exists x, y. by rewrite <- !app_assoc.
    + rewrite length_app. simpl. lia.
  - intros (x & y & ->). exists (name ++ [Byte.x00]). rewrite bool_decide_eq_true. split; [|done].
    apply list_elem_of_In, windows_spec; [rewrite length_app; simpl; lia|].
    split; [done|]. exists x, y. by rewrite <- !app_assoc.
Qed.

(** ** The names read are in the header, as a declaration has them *)

Section reading.
Context `{Unicode}.

(** [name] opens a declaration in [text]: it has the crate's prefix, and after it, white space
    aside, the parameter list opens. *)
Definition declares (text name : bytes) : Prop :=
  ∃ before tail gap after,
    text = before ++ name ++ gap ++ B "(" ++ after
    ∧ name = B "embedded_mongodb_" ++ tail
    ∧ trim_start (gap ++ B "(" ++ after) = B "(" ++ after.

(** A name has at least the bytes of the prefix. *)
Lemma find_char_past fuel test p l name rest :
  (∀ b, b ∈ p → byte_val b < 128 ∧ test [b] = false) →
  find_char fuel test (p ++ l) = Some (name, rest) → ∃ tail, name = p ++ tail.
Proof.
  revert p name. induction fuel as [|fuel IH]; intros p name Hp; [done|].
  destruct p as [|b p]; [by exists name|].
  cbn [find_char app]. destruct (Hp b) as [Hb Ht]; [left|].
  assert (char_len b = 1%nat) as -> by (unfold char_len; destruct (Z.ltb_spec (byte_val b) 128); lia).
  cbn [take drop]. rewrite take_0, drop_0, Ht. destruct (find_char fuel test (p ++ l)) as [[x y]|] eqn:E; [|done].
  intros [= <- <-]. destruct (IH p x) as [tail ->]; [|done|by exists tail].
  intros c Hc. apply Hp. by right.
Qed.

Lemma prefix_chars b :
  b ∈ B "embedded_mongodb_" → byte_val b < 128 ∧ ends_name [b] = false.
Proof.
  assert (Hall : forallb (λ b, (byte_val b <? 128) && negb (ends_name [b])) (B "embedded_mongodb_") = true)
    by (vm_compute; reflexivity).
  rewrite forallb_forall in Hall. intros Hb%list_elem_of_In%Hall.
  apply andb_true_iff in Hb as [?%Z.ltb_lt ?%negb_true_iff]. done.
Qed.

Lemma name_at_spec from name :
  (∃ after, from = B "embedded_mongodb_" ++ after) → name_at from = Some name → declares from name.
Proof.
  intros [after ->] Hn. unfold name_at in Hn.
  destruct (find_char _ _ _) as [[x rest]|] eqn:E; [|done]. cbn [mbind option_bind] in Hn.
  case_bool_decide as Hp; [|done]. injection Hn as ->.
  destruct (find_char_past _ _ (B "embedded_mongodb_") after name rest prefix_chars E) as [tail Hname].
  apply find_char_Some in E. destruct Hp as [args Ha%strip_prefix_Some].
  destruct (strip_all_suffix (length rest) whitespace rest) as [gap Hgap].
  unfold trim_start in Ha. rewrite Ha in Hgap.
  exists [], tail, gap, args. split_and!; [by rewrite E, Hgap|done|].
  rewrite <- Hgap. exact Ha.
Qed.

Lemma declares_app before text name : declares text name → declares (before ++ text) name.
Proof.
  intros (x & tail & gap & after & -> & Hn & Ht). exists (before ++ x), tail, gap, after.
  by rewrite <- !app_assoc.
Qed.

Lemma entry_point_name_spec declaration name :
  entry_point_name declaration = Some name → declares declaration name.
Proof.
  unfold entry_point_name. intros Hh.
  assert (name ∈ omap name_at (match_suffixes (B "embedded_mongodb_") declaration))
    as (from & Hf & Hn)%list_elem_of_omap by (destruct (omap _ _); simplify_eq/=; left).
  apply match_suffixes_spec in Hf as (before & after & -> & ->).
  apply declares_app, name_at_spec; eauto.
Qed.

(** Every piece but the first follows a marker. *)
Lemma split_rounds_piece fuel p l piece :
  piece ∈ split_rounds fuel p l → (∃ y, l = piece ++ y) ∨ ∃ x y, l = x ++ p ++ piece ++ y.
Proof.
  revert l. induction fuel as [|fuel IH]; intros l; simpl.
  { intros ->%list_elem_of_singleton. left. exists []. by rewrite app_nil_r. }
  destruct (split_first p l) as [[before after]|] eqn:E.
  - apply split_first_Some in E as ->. intros [->|Hin]%elem_of_cons; [left; by eexists|].
    right. destruct (IH _ Hin) as [[y ->]|(x & y & ->)].
    + by exists before, y.
    + exists (before ++ p ++ x), y. by rewrite <- !app_assoc.
  - intros ->%list_elem_of_singleton. left. exists []. by rewrite app_nil_r.
Qed.

Lemma split_tail_piece p l piece : piece ∈ drop 1 (split p l) → ∃ x y, l = x ++ p ++ piece ++ y.
Proof.
  unfold split. destruct (length l) as [|fuel]; simpl; [by intros ?%not_elem_of_nil|].
  destruct (split_first p l) as [[before after]|] eqn:E; simpl; [|by intros ?%not_elem_of_nil].
  apply split_first_Some in E as ->. rewrite drop_0.
  intros [[y ->]|(x & y & ->)]%split_rounds_piece.
  - by exists before, y.
  - exists (before ++ p ++ x), y. by rewrite <- !app_assoc.
Qed.

(** ** The count never goes below zero *)

Lemma definitions_are_markers header :
  (match_count (B DEFINITION) header ≤ match_count (B MARKER) header)%nat.
Proof.
  change (B DEFINITION) with (B "#define " ++ B MARKER). by apply match_count_longer.
Qed.

(** There are no more names than markers, and the count is the markers that are not a
    definition's, unless the header is longer than memory. *)
Lemma declared_entry_points_bound header :
  (length (declared_entry_points header) ≤ match_count (B MARKER) header)%nat.
Proof.
  unfold declared_entry_points. etrans; [apply omap_length_le|].
  rewrite length_drop, split_length. lia.
Qed.

Lemma match_rounds_le fuel p l : (match_rounds fuel p l ≤ fuel)%nat.
Proof.
  revert l. induction fuel as [|fuel IH]; intros l; simpl; [done|].
  destruct (split_first p l) as [[? after]|]; [|lia]. specialize (IH after). lia.
Qed.

Lemma declared_count_exact header :
  Z.of_nat (length header) < 2 ^ 64 →
  declared_count header =
  Z.of_nat (match_count (B MARKER) header) - Z.of_nat (match_count (B DEFINITION) header).
Proof.
  intros Hlen. unfold declared_count, usize_sub. apply Z.mod_small.
  pose proof (definitions_are_markers header).
  pose proof (match_rounds_le (length header) (B MARKER) header) as Hm.
  unfold match_count in *. lia.
Qed.

(** What is read as an entry point is declared after a marker. *)
Lemma declared_are_declared header name :
  name ∈ declared_entry_points header →
  ∃ x piece y, header = x ++ B MARKER ++ piece ++ y ∧ declares piece name.
Proof.
  unfold declared_entry_points. intros (piece & Hp & Hn)%list_elem_of_omap.
  apply split_tail_piece in Hp as (x & y & ->). exists x, piece, y.
  split; [done|]. by apply entry_point_name_spec.
Qed.
End reading.

(** ** The check *)

Section check.
Context `{Unicode}.
Context (touches : Command → string → option node → Prop).
Context (bridge_touches : string → option node → Prop).
Local Abbreviation runs := (runs touches bridge_touches).

(** The name is in the library's bytes as a symbol table stores it. *)
Definition has_symbol (library name : bytes) : Prop :=
  ∃ before after, library = before ++ name ++ [Byte.x00] ++ after.

(** What the check saw when it went past the reading. *)
Definition compared (f : Files) (library crate_root : string) (header bytes : bytes) : Prop :=
  (∃ t, leads_to f (join crate_root NATIVE_HEADER) = Some (File header t))
  ∧ (∃ t, leads_to f library = Some (File bytes t))
  ∧ (Z.of_nat (length header) < 2 ^ 64 →
     Z.of_nat (length (declared_entry_points header)) =
     Z.of_nat (match_count (B MARKER) header) - Z.of_nat (match_count (B DEFINITION) header)).

(** What each end of the check says of the library. *)
Definition check_says (f : Files) (library crate_root : string) (trace : list op) (out : outcome unit) : Prop :=
  match out with
  | Finished _ =>
      ∃ header bytes, compared f library crate_root header bytes
      ∧ ((∀ name, name ∈ declared_entry_points header → has_symbol bytes name)
         ∨ ((∀ name, name ∈ declared_entry_points header → ¬ has_symbol bytes name)
            ∧ ∃ line, Print line ∈ trace))
  | Panicked (EntryPointsMissing names) =>
      ∃ header bytes, compared f library crate_root header bytes
      ∧ names ≠ []
      ∧ (∀ name, name ∈ names ↔ name ∈ declared_entry_points header ∧ ¬ has_symbol bytes name)
      ∧ ∃ name, name ∈ declared_entry_points header ∧ has_symbol bytes name
  | Panicked _ => True
  end.

Lemma check_exports_runs library crate_root f trace out f' :
  runs (check_exports library crate_root) f trace out f' →
  f' = f ∧ check_says f library crate_root trace out.
Proof.
  unfold check_says. intros (h & f1 & rest & -> & [-> Hh] & Hr).
  destruct h as [chunks|e]; [|by destruct Hr as (_ & -> & ->)].
  destruct (leads_to f (join crate_root NATIVE_HEADER)) as [[header t| |]|] eqn:Hheader; [|done..].
  destruct Hh as [Hh _]. rewrite Hh in Hr. clear Hh chunks.
  revert Hr. cbv zeta. destruct (utf8_valid header); cbn [negb]; [|by intros (_ & -> & ->)].
  unfold assert_or. destruct (Z.eqb_spec (Z.of_nat (length (declared_entry_points header)))
    (declared_count header)) as [Hcount|]; cbn [pbind]; [|by intros (_ & -> & ->)].
  intros (l & f1 & rest' & -> & [-> Hl] & Hr).
  destruct l as [chunks|e]; [|by destruct Hr as (_ & -> & ->)].
  destruct (leads_to f library) as [[bytes t'| |]|] eqn:Hlib; [|done..].
  destruct Hl as [Hl _]. rewrite Hl in Hr. clear Hl chunks.
  assert (Hcmp : compared f library crate_root header bytes).
  { split_and!; [eauto..|]. intros. by rewrite Hcount, declared_count_exact. }
  assert (Hsym : ∀ name, exports bytes name = true ↔ has_symbol bytes name) by (intros; apply exports_spec).
  revert Hr. destruct (filter (λ name, exports bytes name = true) _) as [|n present] eqn:Hpresent.
  - intros (? & f1 & r & -> & -> & _ & -> & ->). split; [done|].
    exists header, bytes. split; [done|]. right. split.
    + intros name Hin Hs%Hsym. exact (filter_nil_not_elem_of _ _ _ Hpresent Hs Hin).
    + eexists. right. right. left.
  - destruct (filter (λ name, exports bytes name ≠ true) _) as [|m missing] eqn:Hmissing.
    + intros (_ & -> & ->). split; [done|]. exists header, bytes. split; [done|]. left.
      intros name Hin. apply Hsym. destruct (exports bytes name) eqn:E; [done|].
      exfalso. eapply filter_nil_not_elem_of; [exact Hmissing| |exact Hin]. cbn beta. congruence.
    + intros (_ & -> & ->). split; [done|]. exists header, bytes.
      split_and!; [done|done| |].
      * intros name. rewrite <- Hmissing, list_elem_of_filter, <- Hsym. tauto.
      * exists n.
        assert (n ∈ filter (λ name, exports bytes name = true) (declared_entry_points header))
          as [? ?]%list_elem_of_filter by (rewrite Hpresent; left).
        split; [done|]. by apply Hsym.
Qed.

(** The check of a library passes without a word only when every entry point read from the
    header is in it, followed by a zero byte, passes with a warning only when none is, and
    refuses a header whose entry points it cannot count or read; what it reads from a header are
    names declared there. *)
Theorem a_checked_library_has_the_entry_points library crate_root f trace out f' :
  runs (check_exports library crate_root) f trace out f' →
  f' = f ∧ check_says f library crate_root trace out
  ∧ ∀ header name, name ∈ declared_entry_points header →
      ∃ x piece y, header = x ++ B MARKER ++ piece ++ y ∧ declares piece name.
Proof.
  intros Hr. apply check_exports_runs in Hr as [-> Hs]. split_and!; [done..|].
  intros header name. apply declared_are_declared.
Qed.
End check.

(** The header's macro and two of its declarations, one of them wrapped, and a library that has
    both names. *)
Module Sample.
#[export] Instance sample_unicode : Unicode := λ _, true.
Definition header : bytes :=
  B "#define EMBEDDED_MONGODB_API __attribute__((visibility(" ++ [Byte.x22] ++ B "default" ++
  [Byte.x22] ++ B ")))
#define EMBEDDED_MONGODB_API
EMBEDDED_MONGODB_API int embedded_mongodb_session_kill(embedded_mongodb_session* session,
                                                        char** error) noexcept;
EMBEDDED_MONGODB_API void
    embedded_mongodb_free (void* memory) noexcept;
".
Definition library : bytes :=
  B "ELF" ++ [Byte.x00] ++ B "embedded_mongodb_free" ++ [Byte.x00] ++
  B "_embedded_mongodb_session_kill" ++ [Byte.x00].
Definition files : Files :=
  {["/r/native/embedded_mongodb_native.h"%string := File header 0; "/l.so"%string := File library 0]}.

Example names :
  declared_entry_points header = [B "embedded_mongodb_session_kill"; B "embedded_mongodb_free"].
Proof. vm_compute. reflexivity. Qed.
End Sample.
#[local] Existing Instance Sample.sample_unicode.

Lemma a_checked_library_has_the_entry_points_witness :
  ∃ header bytes, compared Sample.files "/l.so" "/r" header bytes
  ∧ ((∀ name, name ∈ declared_entry_points header → has_symbol bytes name)
     ∨ ((∀ name, name ∈ declared_entry_points header → ¬ has_symbol bytes name)
        ∧ ∃ line, Print line ∈ [ReadFile "/r/native/embedded_mongodb_native.h"; ReadFile "/l.so"])).
Proof.
  pose (w := calm (λ _ f, (Err NotFound, f)) 0).
  assert (Hr : runs (λ _ _ _, False) (λ _ _, False) (check_exports "/l.so" "/r") Sample.files
    [ReadFile "/r/native/embedded_mongodb_native.h"; ReadFile "/l.so"] (Finished tt) Sample.files).
  { apply (exec_runs _ _ w); [intros; apply calm_performs; by left|]. vm_compute. reflexivity. }
  apply (a_checked_library_has_the_entry_points _ _ _ _ _ _ _ _ Hr).
Defined.
