(* ===== verification/Freshness.v ===== *)
(** * Whether the published library was built from this checkout

    [embedded-mongodb-sys/build_freshness.rs], and [ARTIFACT_PATHS] of [build.rs]. Git is a
    program that answers questions, or does not. *)
From S2P Require Import Prelude Text Search BuildHost Prebuilt.

Definition ARTIFACT_PATHS : list string :=
  ["patches"; "embedded-mongodb-sys/native"; "embedded-mongodb-sys/build_native.rs";
   "embedded-mongodb-sys/build_android.rs"]%string.

(** The [git] closure: what it runs, and what it makes of the answer *)
Definition git_command (workspace_root : string) (args : list string) : Command :=
  mkCommand "git" args (Some workspace_root) []
    ["GIT_DIR"; "GIT_WORK_TREE"; "GIT_INDEX_FILE"]%string.

Definition git_reading (output : result ErrorKind Output) : option bytes :=
  match output with
  | Err _ => None
  | Ok output =>
      if success output then Some (trim_end (from_utf8_lossy (stdout output))) else None
  end.

Definition git (workspace_root : string) (args : list string) : prog (option bytes) :=
  let* output := Run (git_command workspace_root args) in Done (git_reading output).

(** The questions *)
Definition ask_toplevel : list string := ["rev-parse"; "--show-toplevel"]%string.
Definition ask_commit : list string := ["cat-file"; "-e"; SOURCE_COMMIT ++ "^{commit}"]%string.
Definition ask_shallow : list string := ["rev-parse"; "--is-shallow-repository"]%string.
Definition ask_local_pin (submodule : bool) : list string :=
  (if submodule then ["-C"; "mongo"; "rev-parse"; "HEAD"] else ["rev-parse"; "HEAD:mongo"])%string.
Definition ask_published_pin : list string :=
  ["rev-parse"; SOURCE_COMMIT ++ "^{commit}:mongo"]%string.
Definition ask_commits : list string :=
  ["rev-list"; "--count"; SOURCE_COMMIT ++ "..HEAD"; "--"]%string ++ ARTIFACT_PATHS ++ ["mongo"%string].
Definition ask_dirty : list string :=
  ["status"; "--porcelain"; "--"]%string ++ ARTIFACT_PATHS.

Definition pin_reason (local_pin published_pin : option bytes) : list StaleReason :=
  match local_pin, published_pin with
  | Some local_pin, Some published_pin =>
      if bool_decide (local_pin ≠ published_pin) then [PinMoved local_pin published_pin] else []
  | _, _ => []
  end.
Definition commits_reason (count : option bytes) : list StaleReason :=
  match count with
  | Some count => if bool_decide (count ≠ B "0") then [InputsCommitted count] else []
  | None => []
  end.
Definition dirty_reason (dirty : option bytes) : list StaleReason :=
  match dirty with
  | Some dirty => if bool_decide (dirty ≠ []) then [Uncommitted dirty] else []
  | None => []
  end.

(** From the pins on: the part that compares *)
Definition compare (workspace_root : string) : prog unit :=
  let* submodule := Exists (join workspace_root "mongo/.git") in
  let@ local_pin := git workspace_root (ask_local_pin submodule) in
  let@ published_pin := git workspace_root ask_published_pin in
  let@ count := git workspace_root ask_commits in
  let@ dirty := git workspace_root ask_dirty in
  match pin_reason local_pin published_pin ++ commits_reason count ++ dirty_reason dirty with
  | [] => Done tt
  | reasons => Panic (StaleCheckout reasons)
  end.

Definition warning (text : string) : op := Print ("cargo:warning=embedded-mongodb: " ++ text).

(** From the commit on: whether this history is the one to compare with *)
Definition check_history (workspace_root : string) : prog unit :=
  let@ commit := git workspace_root ask_commit in
  match commit with
  | Some _ => compare workspace_root
  | None =>
      let@ shallow := git workspace_root ask_shallow in
      if bool_decide (shallow ≠ Some (B "true")) then
        let* _ := warning ("this repository does not contain " ++ SOURCE_COMMIT ++ ", which "
                           ++ RELEASE_TAG ++ " was built from, so it is not a clone of this "
                           ++ "project's history and was not compared against it") in
        Done tt
      else Panic ShallowClone
  end.

(** [toplevel == workspace_root], when both could be resolved *)
Definition same_path (a b : result ErrorKind string) : bool :=
  match a, b with Ok a, Ok b => bool_decide (a = b) | _, _ => false end.

Definition check_not_stale (workspace_root : string) : prog unit :=
  let* checkout := Exists (join workspace_root ".git") in
  if negb checkout then Done tt
  else
    let@ toplevel := git workspace_root ask_toplevel in
    match toplevel with
    | None =>
        let* _ := warning (workspace_root ++ " has a .git but git could not read it, so this "
                           ++ "checkout was not compared against " ++ RELEASE_TAG) in
        Done tt
    | Some toplevel =>
        let* a := Canonicalize (text_of toplevel) in
        let* b := Canonicalize workspace_root in
        if negb (same_path a b) then
          let* _ := warning ("git reports " ++ text_of toplevel ++ " as the root of this checkout "
                             ++ "rather than " ++ workspace_root
                             ++ ", so it was not compared against " ++ RELEASE_TAG) in
          Done tt
        else check_history workspace_root
    end.

(** ** What is refused *)

Section verdict.
Context (w : ∀ o, Files → answer o * Files) (root : string) (f : Files).

(** Git on this workspace and on no other repository, a look at a path, a line for cargo. *)
Definition question (o : op) : Prop :=
  match o with
  | Run c => ∃ args, c = git_command root args
  | Exists _ | Canonicalize _ | Print _ => True
  | _ => False
  end.

(** None of them changes a file. *)
Context (quiet : ∀ o, question o → (w o f).2 = f).

(** What git says to a question, and whether a path is there. *)
Definition says (args : list string) : option bytes :=
  git_reading (w (Run (git_command root args)) f).1.
Definition there (p : string) : bool := (w (Exists p) f).1.

Lemma exec_git args :
  exec w (git root args) f = ([Run (git_command root args)], Finished (says args), f).
Proof using quiet.
  unfold git, says. cbn [exec]. specialize (quiet (Run (git_command root args)) (ex_intro _ args eq_refl)).
  destruct (w (Run _) f) as [a f1]. simpl in quiet. by subst.
Qed.

(** This is a checkout, and git answers for it and not for one around it. *)
Definition ours_to_compare : Prop :=
  there (join root ".git") = true ∧
  ∃ toplevel a, says ask_toplevel = Some toplevel
    ∧ (w (Canonicalize (text_of toplevel)) f).1 = Ok a ∧ (w (Canonicalize root) f).1 = Ok a.

(** A question was answered, and the answer is that something changed. *)
Definition changed : Prop :=
  (∃ l p, says (ask_local_pin (there (join root "mongo/.git"))) = Some l
     ∧ says ask_published_pin = Some p ∧ l ≠ p)
  ∨ (∃ count, says ask_commits = Some count ∧ count ≠ B "0")
  ∨ (∃ dirty, says ask_dirty = Some dirty ∧ dirty ≠ []).

Definition refused (out : outcome unit) : Prop := ∃ why, out = Panicked why.

Local Ltac asks := repeat (apply Forall_cons; split; [first [done|by eexists]|]); auto.

Lemma exec_call o k (a : answer o) :
  (w o f).2 = f → (w o f).1 = a →
  exec (A:=unit) w (Call o k) f = let '(tr, out, f') := exec w (k a) f in (o :: tr, out, f').
Proof. intros Hf <-. cbn [exec]. destruct (w o f). simpl in *. by subst. Qed.

Lemma reasons_changed :
  pin_reason (says (ask_local_pin (there (join root "mongo/.git")))) (says ask_published_pin)
    ++ commits_reason (says ask_commits) ++ dirty_reason (says ask_dirty) ≠ [] ↔ changed.
Proof.
  unfold changed, pin_reason, commits_reason, dirty_reason. split.
  - intros Hne. repeat case_match; try case_bool_decide; simplify_eq/=; eauto 10;
      repeat case_bool_decide; simplify_eq/=; eauto 10.
  - intros [(l & p & -> & -> & Hne)|[(count & -> & Hne)|(dirty & -> & Hne)]] Hnil.
    + by rewrite bool_decide_eq_true_2 in Hnil.
    + apply app_nil in Hnil as [_ Hnil]. by rewrite bool_decide_eq_true_2 in Hnil.
    + apply app_nil in Hnil as [_ [_ Hnil]%app_nil]. by rewrite bool_decide_eq_true_2 in Hnil.
Qed.

Lemma exec_compare :
  ∃ tr out, exec w (compare root) f = (tr, out, f) ∧ Forall question tr ∧ (refused out ↔ changed).
Proof using quiet.
  unfold compare. erewrite exec_call; [|by apply quiet|reflexivity]. fold (there (join root "mongo/.git")).
  rewrite exec_bind, exec_git. cbn [app]. rewrite exec_bind, exec_git. rewrite exec_bind, exec_git.
  rewrite exec_bind, exec_git. pose proof reasons_changed as Hc.
  destruct (pin_reason _ _ ++ _) as [|r reasons]; cbn [exec app]; eexists _, _; (split; [reflexivity|]).
  all: split; [by asks|].
  - split; [by intros [why [=]]|]. intros H%Hc. done.
  - split; [|by eexists]. intros _. by apply Hc.
Qed.

Definition history_refused : Prop :=
  (says ask_commit = None ∧ says ask_shallow = Some (B "true"))
  ∨ (says ask_commit ≠ None ∧ changed).

Lemma not_refused (P : Prop) : ¬ P → refused (Finished tt) ↔ P.
Proof. intros HP. split; [by intros [why [=]]|done]. Qed.

Lemma exec_history :
  ∃ tr out, exec w (check_history root) f = (tr, out, f) ∧ Forall question tr
            ∧ (refused out ↔ history_refused).
Proof using quiet.
  unfold check_history, history_refused. rewrite exec_bind, exec_git.
  destruct (says ask_commit) as [commit|].
  - destruct exec_compare as (tr & out & -> & Htr & Hout). eexists _, _. split; [reflexivity|].
    split; [by asks|]. rewrite Hout. split; [by right|]. by intros [[? _]|[_ ?]].
  - rewrite exec_bind, exec_git. case_bool_decide as Hs.
    + erewrite exec_call; [|by apply quiet|reflexivity]. eexists _, _. split; [reflexivity|].
      split; [by asks|]. apply not_refused. by intros [[_ ?]|[? _]].
    + eexists _, _. split; [reflexivity|]. split; [by asks|].
      split; [|by eexists]. intros _. left. split; [done|].
      by destruct (decide (says ask_shallow = Some (B "true"))).
Qed.

Lemma same_path_spec a b : same_path a b = true ↔ ∃ p, a = Ok p ∧ b = Ok p.
Proof.
  unfold same_path. destruct a as [a|], b as [b|]; rewrite ?bool_decide_eq_true;
    (split; [try (intros ->; eauto); done|intros (? & ? & ?); congruence]).
Qed.

(** The check of a checkout changes no file and refuses it exactly when it is a readable
    checkout of its own and either it is shallow and lacks the commit the library was built
    from, or git answers that the engine's pin, a commit or an uncommitted change differs from
    it. *)
Theorem a_stale_checkout_is_refused :
  ∃ trace out, exec w (check_not_stale root) f = (trace, out, f) ∧ Forall question trace ∧
  (refused out ↔
   ours_to_compare ∧
   ((says ask_commit = None ∧ says ask_shallow = Some (B "true"))
    ∨ (says ask_commit ≠ None ∧ changed))).
Proof using quiet.
  unfold check_not_stale. erewrite exec_call; [|by apply quiet|reflexivity].
  unfold ours_to_compare. fold (there (join root ".git")) history_refused.
  destruct (there (join root ".git")); cbn [negb].
  2:{ eexists _, _. split; [reflexivity|]. split; [by asks|]. apply not_refused. by intros [[? _] _]. }
  rewrite exec_bind, exec_git. destruct (says ask_toplevel) as [toplevel|].
  2:{ erewrite exec_call; [|by apply quiet|reflexivity]. eexists _, _. split; [reflexivity|].
      split; [by asks|]. apply not_refused. by intros [[_ (? & ? & ? & _)] _]. }
  erewrite exec_call; [|by apply quiet|reflexivity]. erewrite exec_call; [|by apply quiet|reflexivity].
  pose proof (same_path_spec (w (Canonicalize (text_of toplevel)) f).1 (w (Canonicalize root) f).1) as Hp.
  destruct (same_path _ _); cbn [negb].
  - destruct exec_history as (tr & out & -> & Htr & Hout). eexists _, _. split; [reflexivity|].
    split; [by asks|]. rewrite Hout. destruct Hp as [(a & ? & ?) _]; [done|].
    split; [by split; [split; [|exists toplevel, a]|]|by intros [_ ?]].
  - erewrite exec_call; [|by apply quiet|reflexivity]. eexists _, _. split; [reflexivity|].
    split; [by asks|]. apply not_refused.
    intros [[_ (t & a & [= <-] & Ha & Hb)] _]. assert (false = true) by (apply Hp; eauto). done.
Qed.
End verdict.

(** ** Two checkouts *)

Module Checkout.
Definition files : Files := {["/w/.git"%string := Directory; "/w"%string := Directory]}.
Definition answers (text : string) : result ErrorKind Output := Ok (mkOutput true "exit status: 0" (B text)).

(** The root, and the commit the library was built from, are answered; of the comparisons, the
    listed ones. *)
Definition git_says (known : list (list string * string)) (c : Command) : result ErrorKind Output :=
  if bool_decide (args c = ask_toplevel) then answers "/w"
  else if bool_decide (args c = ask_commit) then answers EmptyString
  else match list_find (λ q, args c = q.1) known with
       | Some (_, (_, text)) => answers text
       | None => Ok (mkOutput false "exit status: 128" [])
       end.

Definition machine (known : list (list string * string)) : ∀ o, Files → answer o * Files :=
  calm (λ c f, (git_says known c, f)) 0.

Lemma machine_quiet known o f : question "/w" o → (machine known o f).2 = f.
Proof.
  destruct o; simpl; try done. intros _. by destruct (f !! path) as [[]|].
Qed.
End Checkout.

Lemma a_stale_checkout_is_refused_witness :
  ∃ trace why,
    exec (Checkout.machine [(ask_commits, "3"%string)]) (check_not_stale "/w") Checkout.files
      = (trace, Panicked why, Checkout.files)
    ∧ Forall (question "/w") trace.
Proof.
  destruct (a_stale_checkout_is_refused (Checkout.machine [(ask_commits, "3"%string)]) "/w" Checkout.files)
    as (trace & out & E & Hq & Hr); [intros; by apply Checkout.machine_quiet|].
  destruct (proj2 Hr) as [why ->].
  - split; [split; [vm_compute; reflexivity|]|right; split; [vm_compute; discriminate|]].
    + exists (B "/w"), "/w"%string. vm_compute. auto.
    + right. left. exists (B "3"). split; [vm_compute; reflexivity|done].
  - exists trace, why. done.
Defined.

(** A checkout that is ours to compare, in which git answers none of the questions that compare
    it: the check passes and prints no line. *)
Theorem a_comparison_git_does_not_answer_passes_in_silence :
  let w := Checkout.machine [] in
  ours_to_compare w "/w" Checkout.files
  ∧ says w "/w" Checkout.files ask_commits = None ∧ says w "/w" Checkout.files ask_dirty = None
  ∧ says w "/w" Checkout.files ask_published_pin = None
  ∧ ∃ trace, exec w (check_not_stale "/w") Checkout.files = (trace, Finished tt, Checkout.files)
             ∧ ∀ line, Print line ∉ trace.
Proof.
  intros w. split_and!; try (vm_compute; reflexivity).
  - split; [vm_compute; reflexivity|]. exists (B "/w"), "/w"%string. vm_compute. auto.
  - exists (fst (fst (exec w (check_not_stale "/w") Checkout.files))).
    split; [vm_compute; reflexivity|]. intros line Hin. vm_compute in Hin.
    repeat (apply elem_of_cons in Hin as [Hin|Hin]; [discriminate Hin|]).
    by apply not_elem_of_nil in Hin.
Qed.
