(* ===== verification/BuildNative.v ===== *)
(** * Building the engine from source

    [embedded-mongodb-sys/build_android.rs], [build_native.rs] and [build_logging.rs]: the NDK
    that is picked, the command line Bazel is given, and the run whose output goes to a log. *)
From S2P Require Import Prelude Text Search BuildHost.

Definition NATIVE_LIBRARY : string := "libembedded_mongodb_native.so".

(** [Path::is_file] *)
Definition path_is_file (path : string) : prog bool :=
  let* metadata := FsMetadata path in
  Done (match metadata with Ok metadata => is_file metadata | Err _ => false end).

(** [env::var(name).unwrap_or_default()] *)
Definition var_or_default (env : Env) (name : string) : string := default EmptyString (var env name).

(** ** The Android NDK *)

Definition ANDROID_API_LEVEL : string := "24".
Definition ANDROID_NDK_VARIABLES : list string :=
  ["ANDROID_NDK_HOME"; "ANDROID_NDK_ROOT"; "ANDROID_NDK"]%string.

Record AndroidNdk := mkAndroidNdk { ndk_cc : string; ndk_cxx : string; ndk_bin : string; ndk_cpu : string }.

Definition android_target (target_arch : string) : option (string * string) :=
  if bool_decide (target_arch = "aarch64"%string) then Some ("aarch64-linux-android", "aarch64")%string
  else if bool_decide (target_arch = "x86_64"%string) then Some ("x86_64-linux-android", "x86_64")%string
  else None.

(** [AndroidNdk::detect], on a macOS host or another *)
Definition detect (macos : bool) (env : Env) (target_arch : string) : prog AndroidNdk :=
  let@ target := expect (android_target target_arch) (NoAndroidBuild target_arch) in
  let '(triple, cpu) := target in
  let@ root := expect (head (omap (var_os env) ANDROID_NDK_VARIABLES)) NdkNotSet in
  let host_tag := if macos then "darwin-x86_64"%string else "linux-x86_64"%string in
  let bin := join (join (join root "toolchains/llvm/prebuilt") host_tag) "bin" in
  let api := default ANDROID_API_LEVEL (var env "EMBEDDED_MONGODB_ANDROID_API") in
  let@ _ := assert_or (match parse_unsigned u32_max (B api) with Some api => 21 <=? api | None => false end)
                      (BadAndroidApi api) in
  let cc := join bin (triple ++ api ++ "-clang") in
  let cxx := join bin (triple ++ api ++ "-clang++") in
  let@ cc_there := path_is_file cc in
  let@ both_there := (if cc_there then path_is_file cxx else Done false) in
  let@ _ := assert_or both_there (NdkWithoutClang bin) in
  Done (mkAndroidNdk cc cxx bin cpu).

Definition add_env (variable value : string) (c : Command) : Command :=
  mkCommand (program c) (args c) (current_dir c) (envs c ++ [(variable, value)]) (env_removed c).
Definition add_args (more : list string) (c : Command) : Command :=
  mkCommand (program c) (args c ++ more) (current_dir c) (envs c) (env_removed c).

Definition ndk_tools : list (string * string) :=
  [("AR", "llvm-ar"); ("NM", "llvm-nm"); ("LD", "ld.lld"); ("DWP", "llvm-dwp");
   ("OBJCOPY", "llvm-objcopy"); ("OBJDUMP", "llvm-objdump"); ("STRIP", "llvm-strip")]%string.

(** [AndroidNdk::apply] *)
Definition apply_ndk (ndk : AndroidNdk) (c : Command) : Command :=
  let c := add_env "CC" (ndk_cc ndk) c in
  let c := add_env "CXX" (ndk_cxx ndk) c in
  let c := add_env "AS" (ndk_cc ndk) c in
  let c := add_env "MONGO_NATIVE_TARGET_CPU" (ndk_cpu ndk) c in
  let c := foldl (λ c '(variable, tool), add_env variable (join (ndk_bin ndk) tool) c) c ndk_tools in
  let c := add_args ["--platforms=@mongot_localdev//:linux_" ++ ndk_cpu ndk ++ "_native"]%string c in
  add_args ["--cxxopt=-D__GCC_DESTRUCTIVE_SIZE=64"; "--cxxopt=-D__GCC_CONSTRUCTIVE_SIZE=64";
            "--features=-global_libs"; "--linkopt=-lm"; "--linkopt=-latomic"]%string c.

(** ** The Bazel command *)

(** What picks the engine, in every profile *)
Definition engine_args : list string :=
  ["--//bazel/config:ssl=False"; "--//bazel/config:build_otel=False";
   "--//bazel/config:build_enterprise=False"; "--//bazel/config:dev_stacktrace=False"]%string.

Definition release_args : list string :=
  ["--config=opt"; "--//bazel/config:opt=size"; "--fission=no"; "--debug_symbols=False";
   "--copt=-fvisibility=hidden"; "--copt=-ffunction-sections"; "--copt=-fdata-sections"]%string.

Definition release_os_args (target_os : string) : list string :=
  if bool_decide (target_os = "linux"%string) then
    ["--copt=-flto"; "--linkopt=-flto=4"; "--linkopt=-Os"; "--linkopt=-fuse-ld=bfd";
     "--features=-linker_lld"; "--features=-default_linker_lld";
     "--features=-supports_start_end_lib"; "--linkopt=-Wl,-z,defs,--strip-all";
     "--linkopt=-Wl,--gc-sections"; "--linkopt=-Wl,-z,pack-relative-relocs";
     "--linkopt=-static-libstdc++"; "--linkopt=-static-libgcc"]%string
  else if bool_decide (target_os = "macos"%string) then
    ["--linkopt=-Wl,-x"; "--linkopt=-Wl,-dead_strip";
     "--linkopt=-Wl,-install_name,@rpath/libembedded_mongodb_native.so";
     "--linkopt=-Wl,-headerpad_max_install_names"; "-c"; "opt"]%string
  else if bool_decide (target_os = "android"%string) then
    ["--linkopt=-Wl,--gc-sections"; "--linkopt=-Wl,--icf=all";
     "--linkopt=-Wl,-z,defs,--strip-all"; "--linkopt=-static-libstdc++"]%string
  else [].

Definition common_args (compiler_type jobs : string) : list string :=
  ["--config=native_toolchain"; "--compiler_type=" ++ compiler_type; "--local_resources=cpu=" ++ jobs;
   "--//bazel/config:allocator=system"; "--disable_warnings_as_errors=True";
   "--noexperimental_collect_system_network_usage"; "--conlyopt=-include"; "--conlyopt=sys/syscall.h";
   "--cxxopt=-include"; "--cxxopt=sys/syscall.h"; "--copt=-fPIC"]%string.

Definition compiler_type (env : Env) (target_os : string) (android : option AndroidNdk) : string :=
  match android with
  | Some _ => "clang"
  | None =>
      match (match var env "CXX" with Some cxx => Some cxx | None => var env "CC" end) with
      | Some compiler => if contains "clang" compiler then "clang" else "gcc"
      | None => if bool_decide (target_os = "macos"%string) then "clang" else "gcc"
      end
  end.

Definition bazel_command (env : Env) (bazel mongo_root crate_root target_os jobs : string)
    (android : option AndroidNdk) (release : bool) : Command :=
  let c := mkCommand bazel [] (Some mongo_root) [] [] in
  let c := add_args ["build"; "@mongot_localdev//:libembedded_mongodb_native.so";
                     "--override_repository=mongot_localdev=" ++ join crate_root "native"]%string c in
  let c := add_args engine_args c in
  let c := if release then add_args (release_os_args target_os) (add_args release_args c) else c in
  let c := add_args (common_args (compiler_type env target_os android) jobs) c in
  let c := match android with Some ndk => apply_ndk ndk c | None => c end in
  if bool_decide (target_os = "macos"%string) then add_args ["--linker=auto"]%string c else c.

(** ** A run whose output goes to a log *)

(** [echo]: what is in the log from [offset] on goes to standard error; how far that got. A read
    that is interrupted is made again, and one that fails is the end of it. *)
Fixpoint echo (fuel : nat) (log : string) (offset : nat) : prog (option nat) :=
  match fuel with
  | O => Done None
  | S fuel =>
      let* read := ReadMore log offset in
      match read with
      | Ok [] => Done (Some offset)
      | Ok more => let* _ := WriteErr more in echo fuel log (offset + length more)
      | Err Interrupted => echo fuel log offset
      | Err _ => Done (Some offset)
      end
  end.

(** The loop that echoes and waits *)
Fixpoint wait_echoing (fuel : nat) (c : Command) (log : string) (offset : nat) : prog (option Output) :=
  match fuel with
  | O => Done None
  | S fuel' =>
      let@ offset := echo fuel log offset in
      match offset with
      | None => Done None
      | Some offset =>
          let* waited := TryWait c in
          match waited with
          | Err _ => Panic CannotWait
          | Ok (Some status) =>
              let@ echoed := echo fuel log offset in
              Done (match echoed with Some _ => Some status | None => None end)
          | Ok None => let* _ := Sleep 200 in wait_echoing fuel' c log offset
          end
      end
  end.

(** [run_logged]; no answer at all is a run that took longer than the fuel *)
Definition run_logged (fuel : nat) (c : Command) (log : string)
    : prog (option (result ErrorKind Output)) :=
  let* removed := RemoveFile log in
  match removed with
  | Ok _ | Err NotFound =>
      let* created := CreateFile log in
      match created with
      | Err _ => Panic (LogFailed log)
      | Ok _ =>
          let* cloned := CloneHandle log in
          let@ _ := assert_or (is_ok cloned) (LogFailed log) in
          let* spawned := Spawn c log in
          match spawned with
          | Err error => Done (Some (Err error))
          | Ok _ =>
              let* opened := OpenFile log in
              let@ _ := assert_or (is_ok opened) (LogFailed log) in
              let@ status := wait_echoing fuel c log 0 in
              Done (Ok <$> status)
          end
      end
  | Err _ => Panic (CannotReplace log)
  end.

Definition build_native (fuel : nat) (macos : bool) (env : Env) (workspace_root crate_root : string)
    : prog (option string) :=
  let mongo_root := join workspace_root "mongo" in
  let@ submodule := path_is_file (join mongo_root ".bazelversion") in
  let@ _ := assert_or submodule SubmoduleMissing in
  let bazel := default "bazel"%string (var_os env "BAZEL") in
  let jobs := default "8"%string (var env "EMBEDDED_MONGODB_BAZEL_JOBS") in
  let@ _ := assert_or (match parse_unsigned usize_max (B jobs) with Some jobs => 0 <? jobs | None => false end)
                      (BadJobs jobs) in
  let target_os := var_or_default env "CARGO_CFG_TARGET_OS" in
  let@ android :=
    (if bool_decide (target_os = "android"%string) then
       let@ ndk := detect macos env (var_or_default env "CARGO_CFG_TARGET_ARCH") in Done (Some ndk)
     else Done None) in
  let release := bool_decide (var env "PROFILE" = Some "release"%string) in
  let@ out_dir := expect (var_os env "OUT_DIR") (NotSetByCargo "OUT_DIR") in
  let log_path := join out_dir "bazel-build.log" in
  let* _ := WriteErr (B ("building embedded MongoDB with Bazel; full output in " ++ log_path
                         ++ String newline EmptyString)) in
  let c := bazel_command env bazel mongo_root crate_root target_os jobs android release in
  let@ status := run_logged fuel c log_path in
  match status with
  | None => Done None
  | Some (Err _) => Panic (ProgramNotRun bazel)
  | Some (Ok status) =>
      let@ _ := assert_or (success status) BazelFailed in
      Done (Some (join (join mongo_root "bazel-bin/external/mongot_localdev") NATIVE_LIBRARY))
  end.

(** ** Every profile builds one engine *)

Definition ndk_args (ndk : AndroidNdk) : list string := args (apply_ndk ndk (mkCommand EmptyString [] None [] [])).
Definition ndk_envs (ndk : AndroidNdk) : list (string * string) :=
  envs (apply_ndk ndk (mkCommand EmptyString [] None [] [])).

Lemma args_add more c : args (add_args more c) = args c ++ more.
Proof. done. Qed.
Lemma envs_add more c : envs (add_args more c) = envs c.
Proof. done. Qed.

Lemma args_tools bin tools c :
  args (foldl (λ c '(variable, tool), add_env variable (join bin tool) c) c tools) = args c.
Proof. revert c. induction tools as [|[v t] tools IH]; intros c; [done|]. cbn [foldl]. by rewrite IH. Qed.

Lemma envs_tools bin tools c :
  envs (foldl (λ c '(variable, tool), add_env variable (join bin tool) c) c tools)
  = envs c ++ ((λ '(variable, tool), (variable, join bin tool)) <$> tools).
Proof.
  revert c. induction tools as [|[v t] tools IH]; intros c; [by rewrite app_nil_r|].
  cbn [foldl fmap list_fmap]. rewrite IH. cbn [add_env envs]. by rewrite <- app_assoc.
Qed.

Lemma args_apply_ndk ndk c : args (apply_ndk ndk c) = args c ++ ndk_args ndk.
Proof.
  unfold ndk_args, apply_ndk, add_args. cbn [args]. rewrite !args_tools. cbn [add_env args].
  by rewrite <- app_assoc.
Qed.

Lemma envs_apply_ndk ndk c : envs (apply_ndk ndk c) = envs c ++ ndk_envs ndk.
Proof.
  unfold ndk_envs, apply_ndk, add_args. cbn [envs]. rewrite !envs_tools. cbn [add_env envs].
  by rewrite <- !app_assoc.
Qed.

(** What is passed after the flags of the profile. *)
Definition trailing_args (env : Env) (target_os jobs : string) (android : option AndroidNdk) : list string :=
  common_args (compiler_type env target_os android) jobs
  ++ match android with Some ndk => ndk_args ndk | None => [] end
  ++ if bool_decide (target_os = "macos"%string) then ["--linker=auto"%string] else [].

Lemma args_bazel env bazel mongo_root crate_root target_os jobs android release :
  args (bazel_command env bazel mongo_root crate_root target_os jobs android release)
  = ["build"; "@mongot_localdev//:libembedded_mongodb_native.so";
     "--override_repository=mongot_localdev=" ++ join crate_root "native"]%string
    ++ engine_args ++ (if release then release_args ++ release_os_args target_os else [])
    ++ trailing_args env target_os jobs android.
Proof.
  unfold bazel_command, trailing_args.
  destruct release, android, (bool_decide (target_os = "macos"%string));
    by rewrite ?args_add, ?args_apply_ndk, ?args_add, ?app_nil_r, <- ?app_assoc.
Qed.

(** The two profiles build one engine: the debug command is the release command without the
    arguments that optimise and strip, and the environment is the same. *)
Theorem profiles_differ_only_in_optimization env bazel mongo_root crate_root target_os jobs android :
  let command_of := bazel_command env bazel mongo_root crate_root target_os jobs android in
  ∃ before after,
    args (command_of false) = before ++ engine_args ++ after
    ∧ args (command_of true) = before ++ engine_args ++ release_args ++ release_os_args target_os ++ after
    ∧ envs (command_of true) = envs (command_of false).
Proof.
  intros command_of. eexists _, (trailing_args env target_os jobs android).
  unfold command_of. rewrite !args_bazel. split_and!; [done|by rewrite <- !app_assoc|].
  unfold bazel_command.
  destruct android, (bool_decide (target_os = "macos"%string));
    by rewrite ?envs_add, ?envs_apply_ndk, ?envs_add.
Qed.

(** ** The echo copies the log, in order and nothing twice *)

Definition echoed (trace : list op) : bytes :=
  concat (omap (λ o, match o with WriteErr written => Some written | _ => None end) trace).

Lemma echo_copies touches bridge_touches fuel log offset f trace n f' c t :
  leads_to f log = Some (File c t) → (offset ≤ length c)%nat →
  runs touches bridge_touches (echo fuel log offset) f trace (Finished (Some n)) f' →
  f' = f ∧ (offset ≤ n ≤ length c)%nat ∧ echoed trace = take (n - offset) (drop offset c).
Proof.
  intros Hlog. revert offset trace. induction fuel as [|fuel IH]; intros offset trace Hle; simpl.
  { by intros (_ & [=] & _). }
  assert (Hstop : ∀ rest, rest = [] ∧ Finished (Some n) = Finished (Some offset) ∧ f' = f →
    f' = f ∧ (offset ≤ n ≤ length c)%nat ∧ echoed (ReadMore log offset :: rest) = take (n - offset) (drop offset c)).
  { intros rest (-> & [= ->] & ->). split_and!; [done|lia|lia|]. by rewrite Nat.sub_diag. }
  intros (read & f1 & rest & -> & [-> Hread] & Hr). rewrite Hlog in Hread.
  destruct read as [[|b more]|[| |]]; try by apply Hstop.
  - destruct Hr as (u & f1 & rest' & -> & -> & Hr). destruct Hread as [[tail Htail] _].
    assert (Hlen := f_equal length Htail). rewrite length_drop, length_app in Hlen. simpl in Hlen.
    apply IH in Hr as (-> & Hn & He); [|simpl; lia]. split_and!; [done|simpl in *; lia..|].
    change (echoed (ReadMore log offset :: WriteErr (b :: more) :: rest')) with ((b :: more) ++ echoed rest').
    rewrite He, <- drop_drop, Htail, drop_app_length.
    replace (n - offset)%nat with (length (b :: more) + (n - (offset + length (b :: more))))%nat by (simpl in *; lia).
    by rewrite take_app_add.
  - apply IH in Hr as (-> & Hn & He); [|done]. split_and!; [done|lia..|]. exact He.
Qed.
