(* ===== verification/BuildScript.v ===== *)
(** * The build script

    [embedded-mongodb-sys/build.rs] and [build_link.rs]: which library is used, what is checked
    of it, and where it is put for the linker. *)
From S2P Require Import Prelude Text Search BuildHost Prebuilt PrebuiltRace Exports Freshness BuildNative.

(** ** Paths and programs *)

(** [Path::parent]: without the last component and the slashes before it; nothing for a path
    without a component. On the reversed characters. *)
Fixpoint drop_slashes (l : list ascii) : list ascii :=
  match l with
  | c :: l' => if Ascii.eqb c "/" then drop_slashes l' else l
  | [] => []
  end.
Fixpoint drop_component (l : list ascii) : list ascii :=
  match l with
  | c :: l' => if Ascii.eqb c "/" then l else drop_component l'
  | [] => []
  end.
Definition parent (path : string) : option string :=
  match drop_slashes (reverse (String.list_ascii_of_string path)) with
  | [] => None
  | components =>
      let rest := drop_component components in
      Some (match drop_slashes rest, rest with
            | [], [] => EmptyString
            | [], _ => "/"%string
            | kept, _ => String.string_of_list_ascii (reverse kept)
            end)
  end.

Example parent_examples :
  parent "/a/b.so" = Some "/a"%string ∧ parent "/a" = Some "/"%string
  ∧ parent "a" = Some EmptyString ∧ parent "/" = None.
Proof. vm_compute. auto. Qed.

(** [build_link]'s [run] *)
Definition run_program (name : string) (args : list string) : prog unit :=
  let* status := Run (command name args) in
  match status with
  | Err _ => Panic (ProgramNotRun name)
  | Ok status => assert_or (success status) (ProgramFailed name)
  end.

(** ** Where the linker finds it *)

Definition install (unix : bool) (source destination target_os host : string) : prog unit :=
  let* removed := RemoveFile destination in
  match removed with
  | Ok _ | Err NotFound =>
      if bool_decide (target_os ≠ "macos"%string) then
        if unix then
          let* linked := MakeLink source destination in
          match linked with Ok _ => Done tt | Err _ => Panic (CannotLink destination) end
        else
          let* copied := CopyFile source destination in
          match copied with Ok _ => Done tt | Err _ => Panic (CannotCopy destination) end
      else
        let@ _ := assert_or (contains "apple-darwin" host) (CannotCrossCompile host) in
        let* copied := CopyFile source destination in
        match copied with
        | Err _ => Panic (CannotCopy destination)
        | Ok _ =>
            let@ _ := (if unix then let* _ := SetMode destination 493 in Done tt else Done tt) in
            let@ id := expect (if utf8_valid (B destination) then Some destination else None) NonUtf8OutDir in
            let@ _ := run_program "install_name_tool" ["-id"%string; id; id] in
            run_program "codesign" ["--force"; "--sign"; "-"; id]%string
        end
  | Err _ => Panic (CannotReplace destination)
  end.

Definition probe_command (compiler : string) : Command :=
  command compiler ["-print-file-name=libstdc++.a"%string].

Definition static_libstdcxx_dir (env : Env) : prog (option string) :=
  let compiler := default "c++"%string (var env "CXX") in
  let* output := Run (probe_command compiler) in
  match output with
  | Err _ => Done None
  | Ok output =>
      let path := text_of (trim_end (trim_start (from_utf8_lossy (stdout output)))) in
      let@ found := (if success output then path_is_file path else Done false) in
      if negb found then
        let* _ := warning ("no static libstdc++ found; linking it dynamically, which ties this "
                           ++ "build to the host's GLIBCXX version") in
        Done None
      else Done (parent path)
  end.

(** ** Which library *)

(** [PREBUILT] is written by a release workflow; nothing here depends on what it lists. *)
Section script.
Context `{Sha2} `{Unicode} (manifest : list Prebuilt).

Definition resolve (fuel : nat) (macos : bool) (pid : N) (env : Env)
    (workspace_root crate_root target_name : string) : prog (option string) :=
  match var_os env "EMBEDDED_MONGODB_NATIVE_LIB_DIR" with
  | Some native_dir =>
      let* _ := Print ("cargo:rerun-if-changed=" ++ native_dir) in
      let* _ := warning ("using the native library in EMBEDDED_MONGODB_NATIVE_LIB_DIR=" ++ native_dir
                         ++ ", not the published one") in
      Done (Some (join native_dir NATIVE_LIBRARY))
  | None =>
      if flag env "EMBEDDED_MONGODB_BUILD_FROM_SOURCE" then
        let* _ := Print ("cargo:rerun-if-changed=" ++ join workspace_root "mongo/.bazelversion") in
        let* _ := Print ("cargo:rerun-if-changed=" ++ join workspace_root "mongo/.bazelrc") in
        build_native fuel macos env workspace_root crate_root
      else
        match list_find (λ entry, target entry = target_name) manifest with
        | None => Panic (NoPrebuiltFor target_name (target <$> manifest))
        | Some (_, entry) =>
            let@ _ := check_not_stale workspace_root in
            let@ _ := check_glibc_floor entry in
            let@ path := fetch_prebuilt macos env pid entry in
            Done (Some path)
        end
  end.

Definition watched_variables : list string :=
  ["EMBEDDED_MONGODB_NATIVE_LIB_DIR"; "EMBEDDED_MONGODB_BUILD_FROM_SOURCE";
   "EMBEDDED_MONGODB_CACHE_DIR"; "EMBEDDED_MONGODB_BAZEL_JOBS"; "EMBEDDED_MONGODB_ANDROID_API";
   "CARGO_NET_OFFLINE"; "BAZEL"; "CC"; "CXX"; "ANDROID_NDK_HOME"; "ANDROID_NDK_ROOT";
   "ANDROID_NDK"]%string.
Definition watched_files : list string :=
  ["native"; "include"; "src/ffi.rs"; "cpp/bridge.cc"; "prebuilt.rs"; "build_native.rs";
   "build_android.rs"]%string.

Fixpoint print_each (prefix : string) (names : list string) : prog unit :=
  match names with
  | [] => Done tt
  | name :: names => let* _ := Print (prefix ++ name) in print_each prefix names
  end.

(** Cargo is told what to watch. *)
Definition announce (workspace_root : string) : prog unit :=
  let@ _ := print_each "cargo:rerun-if-env-changed=" watched_variables in
  let@ _ := print_each "cargo:rerun-if-changed=" watched_files in
  let patches := join workspace_root "patches" in
  let* metadata := FsMetadata patches in
  if match metadata with Ok metadata => is_dir metadata | Err _ => false end then
    let* _ := Print ("cargo:rerun-if-changed=" ++ patches) in Done tt
  else Done tt.

(** The bridge, and what the linker is told. *)
Definition link_bridge (env : Env) (target_os out_dir : string) : prog unit :=
  let@ static_libstdcxx :=
    (if bool_decide (target_os = "linux"%string)
        && bool_decide (var env "CARGO_CFG_TARGET_ENV" = Some "gnu"%string)
     then static_libstdcxx_dir env else Done None) in
  let* _ := CompileBridge (match static_libstdcxx with Some _ => false | None => true end) in
  let@ _ := (match static_libstdcxx with
             | Some directory =>
                 let* _ := Print ("cargo:rustc-link-search=native=" ++ directory) in
                 let* _ := Print "cargo:rustc-link-lib=static=stdc++" in Done tt
             | None => Done tt
             end) in
  let* _ := Print ("cargo:rustc-link-search=native=" ++ out_dir) in
  let* _ := Print "cargo:rustc-link-lib=dylib=embedded_mongodb_native" in
  Done tt.

(** From the library's path on: it is there, it has the entry points, it is put in place. *)
Definition use_library (unix : bool) (env : Env) (crate_root target_os host native_library : string)
    : prog unit :=
  let@ found := path_is_file native_library in
  let@ _ := assert_or found (LibraryNotFound native_library) in
  let* canonical := Canonicalize native_library in
  match canonical with
  | Err _ => Panic (CannotResolve native_library)
  | Ok native_library =>
      let@ _ := check_exports native_library crate_root in
      let@ out_dir := expect (var_os env "OUT_DIR") (NotSetByCargo "OUT_DIR") in
      let@ _ := install unix native_library (join out_dir NATIVE_LIBRARY) target_os host in
      link_bridge env target_os out_dir
  end.

(** [main]; no answer is a build from source that took longer than the fuel *)
Definition main (fuel : nat) (macos unix : bool) (pid : N) (env : Env) : prog (option unit) :=
  let@ crate_root := expect (var_os env "CARGO_MANIFEST_DIR") (NotSetByCargo "CARGO_MANIFEST_DIR") in
  let@ workspace_root := expect (parent crate_root) NotInAWorkspace in
  let@ target := expect (var env "TARGET") (NotSetByCargo "TARGET") in
  let target_os := var_or_default env "CARGO_CFG_TARGET_OS" in
  let host := var_or_default env "HOST" in
  let@ _ := announce workspace_root in
  let@ native_library := resolve fuel macos pid env workspace_root crate_root target in
  match native_library with
  | None => Done None
  | Some native_library =>
      let@ _ := use_library unix env crate_root target_os host native_library in
      Done (Some tt)
  end.
End script.

(** ** What is linked *)

Section linked.
Context `{Sha2} {laws : Sha2Laws} `{Unicode}.
Context (touches : Command → string → option node → Prop).
Context (bridge_touches : string → option node → Prop).
Local Abbreviation runs := (runs touches bridge_touches).
Local Abbreviation silent := (silent touches bridge_touches).

(** Programs that only answer. *)
Definition reader (c : Command) : Prop :=
  (∃ root args, c = git_command root args) ∨ c = command "getconf" ["GNU_LIBC_VERSION"%string]
  ∨ c = command "ldd" ["--version"%string] ∨ ∃ compiler, c = probe_command compiler.

Context (downloads_touch : ∀ name url d q n,
  touches (fetch_command name url d) q n → q = d ∧ (n = None ∨ ∃ c t, n = Some (File c t))).
Context (readers_touch_nothing : ∀ c q n, reader c → ¬ touches c q n).

Lemma silent_reader {A} c (k : answer (Run c) → prog A) :
  reader c → (∀ a, silent (k a)) → silent (Call (Run c) k).
Proof using readers_touch_nothing.
  intros Hc Hk. split; [|done]. intros f a f' Hop. apply map_eq. intros q.
  destruct (Hop q) as [?|Ht]; [done|]. by apply readers_touch_nothing in Ht.
Qed.

Lemma silent_git root args : silent (git root args).
Proof using readers_touch_nothing. apply silent_reader; [left; by eexists _, _|done]. Qed.

Local Ltac quiet :=
  repeat first
    [ apply silent_bind; [|intros ?]
    | apply silent_git
    | apply silent_reader; [unfold reader; by eauto 6|intros ?]
    | case_match
    | done
    | split; [by intros ? ? ? [-> _]|intros ?]
    | split; [by intros ? ? ? ->|intros ?] ].

Lemma silent_check_not_stale root : silent (check_not_stale root).
Proof using readers_touch_nothing. unfold check_not_stale, check_history, compare, warning. quiet. Qed.

Lemma silent_check_glibc_floor entry : silent (check_glibc_floor entry).
Proof using readers_touch_nothing. unfold check_glibc_floor, host_glibc, ldd_glibc. quiet. Qed.

Lemma silent_static_libstdcxx_dir env : silent (static_libstdcxx_dir env).
Proof using readers_touch_nothing. unfold static_libstdcxx_dir, path_is_file, warning. quiet. Qed.

Lemma silent_print_each prefix names : silent (print_each prefix names).
Proof. induction names as [|name names IH]; [done|]. split; [by intros ? ? ? ->|done]. Qed.

Lemma silent_announce root : silent (announce root).
Proof. unfold announce. quiet; apply silent_print_each. Qed.

(** A program that ran to its end ran each of its parts to its end. *)
Lemma runs_bind_finished {A B} (p : prog A) (k : A → prog B) f trace b f' :
  runs (pbind p k) f trace (Finished b) f' →
  ∃ a f1 tr1 tr2, trace = tr1 ++ tr2 ∧ runs p f tr1 (Finished a) f1 ∧ runs (k a) f1 tr2 (Finished b) f'.
Proof. intros [(why & [=] & _)|?]%runs_bind. done. Qed.

Lemma expect_runs {A} (o : option A) why f trace a f' :
  runs (expect o why) f trace (Finished a) f' → o = Some a ∧ f' = f.
Proof. destruct o; [by intros (_ & [= ->] & ->)|by intros (_ & [=] & _)]. Qed.

Lemma install_links source destination target_os host f trace f' :
  target_os ≠ "macos"%string →
  runs (install true source destination target_os host) f trace (Finished tt) f' →
  f' !! destination = Some (Link source) ∧ ∀ q, q ≠ destination → f' !! q = f !! q.
Proof.
  intros Hos (removed & f1 & rest & -> & Hrm & Hr).
  assert (Hf1 : ∀ q, q ≠ destination → f1 !! q = f !! q).
  { intros q Hq. destruct (remove_effect touches bridge_touches _ _ _ _ Hrm) as [->| ->]; [done|].
    by apply lookup_delete_ne. }
  rewrite bool_decide_eq_true_2 in Hr by done.
  destruct removed as [|[]]; try by destruct Hr as (_ & [=] & _).
  all: destruct Hr as (linked & f2 & rest' & -> & Hln & Hr).
  all: destruct linked; [|by destruct Hr as (_ & [=] & _)].
  all: destruct Hr as (_ & _ & ->); destruct Hln as [_ ->].
  all: split; [apply lookup_insert_eq|]; intros q Hq; rewrite lookup_insert_ne by done; auto.
Qed.

Lemma link_bridge_keeps env target_os out_dir f trace f' q :
  runs (link_bridge env target_os out_dir) f trace (Finished tt) f' →
  f' !! q = f !! q ∨ bridge_touches q (f' !! q).
Proof using readers_touch_nothing.
  intros (dir & f1 & tr1 & tr2 & _ & H1 & Hr)%runs_bind_finished.
  assert (f1 = f) as ->.
  { eapply silent_runs; [|exact H1]. destruct (_ && _); [apply silent_static_libstdcxx_dir|done]. }
  destruct Hr as (u & f2 & tr3 & _ & Hbridge & Hr).
  assert (f' = f2) as ->; [|done].
  eapply silent_runs; [|exact Hr]. quiet.
Qed.

(** What the build leaves for the linker of the library at [q], whose bytes it checked: at the
    output directory a link to [q], and at [q] those bytes still, where that is another place.
    Only the bridge's own build, which comes after, may have written over either. *)
Definition linked (f' : Files) (out_dir q : string) (content : bytes) : Prop :=
  let link := join out_dir NATIVE_LIBRARY in
  (f' !! link = Some (Link q) ∨ bridge_touches link (f' !! link))
  ∧ (q ≠ link → (∃ t, f' !! q = Some (File content t)) ∨ bridge_touches q (f' !! q)).

(** The file a path resolves to: what [canonicalize] answered for it, a file of its own right. *)
Definition resolves_to (f : Files) (path q : string) (c : bytes) : Prop :=
  performs touches bridge_touches (Canonicalize path) f (Ok q) f
  ∧ ∃ t, leads_to f path = Some (File c t) ∧ f !! q = Some (File c t).

(** Each of the header's entry points is in the library, or none could be read. *)
Definition entry_points_checked (f : Files) (crate_root : string) (library : bytes) : Prop :=
  ∃ header t, leads_to f (join crate_root NATIVE_HEADER) = Some (File header t)
  ∧ ((∀ name, name ∈ declared_entry_points header → has_symbol library name)
     ∨ (∀ name, name ∈ declared_entry_points header → ¬ has_symbol library name)).

Lemma path_is_file_runs path f trace f' :
  runs (path_is_file path) f trace (Finished true) f' → f' = f ∧ ∃ c t, leads_to f path = Some (File c t).
Proof.
  intros (m & f1 & rest & _ & [-> Hm] & _ & Ht & ->). split; [done|].
  destruct m as [m|]; [|done]. injection Ht as Ht.
  destruct (leads_to f path) as [[c t| |]|]; [eauto|..|done]; destruct Hm; congruence.
Qed.

Lemma leads_to_file (f : Files) q c t : f !! q = Some (File c t) → leads_to f q = Some (File c t).
Proof. intros E. unfold leads_to, follow. by rewrite E. Qed.

Lemma use_library_runs env crate_root target_os host path f trace f' :
  target_os ≠ "macos"%string →
  runs (use_library true env crate_root target_os host path) f trace (Finished tt) f' →
  ∃ out_dir q c, var_os env "OUT_DIR" = Some out_dir
    ∧ resolves_to f path q c ∧ entry_points_checked f crate_root c ∧ linked f' out_dir q c.
Proof using readers_touch_nothing.
  intros Hos (found & f1 & tr1 & tr2 & _ & Hfile & Hr)%runs_bind_finished.
  destruct found; [|by destruct Hr as (_ & [=] & _)].
  apply path_is_file_runs in Hfile as (-> & c & t & Hc).
  destruct Hr as (canonical & f1 & tr3 & _ & [-> Hcanon] & Hr).
  destruct canonical as [q|]; [|by destruct Hr as (_ & [=] & _)]. destruct Hcanon as [Hq Hne].
  assert (resolves_to f path q c) as Hto.
  { split; [by repeat split|]. exists t. split; [done|]. by rewrite Hq. }
  rewrite Hc in Hq. apply runs_bind_finished in Hr as (u & f1 & tr4 & tr5 & _ & Hexp & Hr).
  apply check_exports_runs in Hexp as [-> (header & c' & ([h Hh] & [t' Hc'] & _) & Hsym)].
  rewrite (leads_to_file _ _ _ _ Hq) in Hc'. injection Hc' as <- <-.
  apply runs_bind_finished in Hr as (out_dir & f1 & tr6 & tr7 & _ & Hout & Hr).
  apply expect_runs in Hout as [Hout ->].
  apply runs_bind_finished in Hr as ([] & f2 & tr8 & tr9 & _ & Hins & Hlink).
  apply install_links in Hins as [Hl Hrest]; [|done].
  exists out_dir, q, c. split_and!; [done..| |].
  - exists header, h. split; [done|]. destruct Hsym as [?|[? _]]; [by left|by right].
  - split.
    + destruct (link_bridge_keeps _ _ _ _ _ _ (join out_dir NATIVE_LIBRARY) Hlink) as [->|?]; auto.
    + intros Hother. destruct (link_bridge_keeps _ _ _ _ _ _ q Hlink) as [->|?]; [|by right].
      left. exists t. by rewrite Hrest.
Qed.

(** What is needed of the machine for the published library to be the one. *)
Record published (macos : bool) (env : Env) (pid : N) (manifest : list Prebuilt) (cache : string)
    (f : Files) : Prop := {
  no_override : var_os env "EMBEDDED_MONGODB_NATIVE_LIB_DIR" = None;
  not_from_source : flag env "EMBEDDED_MONGODB_BUILD_FROM_SOURCE" = false;
  in_cache : cache_dir macos env = Done cache;
  hex_names entry : entry ∈ manifest → well_named entry = true;
  entries_unlinked entry : entry ∈ manifest → unlinked (f !! destination cache entry);
  temporaries_unlinked q : owned cache pid q → unlinked (f !! q)
}.

Lemma resolve_runs fuel macos pid env manifest cache root crate_root target_name f trace path f' :
  published macos env pid manifest cache f →
  runs (resolve manifest fuel macos pid env root crate_root target_name) f trace (Finished (Some path)) f' →
  ∃ entry, entry ∈ manifest ∧ target entry = target_name ∧ good entry (f' !! path).
Proof using readers_touch_nothing downloads_touch laws.
  intros [Hno Hsrc Hcache Hnames Hu Ho]. unfold resolve. rewrite Hno, Hsrc.
  destruct (list_find _ manifest) as [[i entry]|] eqn:Hfind; [|by intros (_ & [=] & _)].
  apply list_find_Some in Hfind as (Hi & Ht & _). apply list_elem_of_lookup_2 in Hi.
  intros (u & f1 & tr1 & tr2 & _ & H1 & Hr)%runs_bind_finished.
  apply silent_runs in H1 as ->; [|apply silent_check_not_stale].
  apply runs_bind_finished in Hr as (u' & f1 & tr3 & tr4 & _ & H1 & Hr).
  apply silent_runs in H1 as ->; [|apply silent_check_glibc_floor].
  apply runs_bind_finished in Hr as (p & f1 & tr5 & tr6 & _ & H1 & _ & [= ->] & ->).
  exists entry. split_and!; [done..|].
  eapply (fetch_prebuilt_alone touches bridge_touches downloads_touch cache) in H1 as [-> ?]; eauto.
Qed.

(** C33. A build that finishes, on a Unix host and for a target other than macOS, has put in its
    output directory a link to the very file the library it resolved canonicalizes to; that
    file's bytes are the ones it checked, every entry point the header declares is in them or
    none is, and they are still there, unless the file was itself the entry that the link
    replaced, or the compiler of the bridge, which runs last, wrote over one of the two; and
    where the library is a published one, they have the size and the digest the manifest lists
    for the target. *)
Theorem a_build_links_only_what_it_checked
    fuel macos pid env manifest crate_root root target_name f trace f' :
  var_os env "CARGO_MANIFEST_DIR" = Some crate_root → parent crate_root = Some root →
  var env "TARGET" = Some target_name → var_or_default env "CARGO_CFG_TARGET_OS" ≠ "macos"%string →
  runs (main manifest fuel macos true pid env) f trace (Finished (Some tt)) f' →
  ∃ out_dir path q c f1 tr1,
    var_os env "OUT_DIR" = Some out_dir
    ∧ runs (resolve manifest fuel macos pid env root crate_root target_name) f tr1 (Finished (Some path)) f1
    ∧ resolves_to f1 path q c
    ∧ entry_points_checked f1 crate_root c
    ∧ linked f' out_dir q c
    ∧ (∀ cache, published macos env pid manifest cache f →
         ∃ entry, entry ∈ manifest ∧ target entry = target_name
                  ∧ Z.of_nat (length c) = size entry ∧ digest c = sha256 entry).
Proof using readers_touch_nothing downloads_touch laws.
  intros Hcrate Hroot Htarget Hos. unfold main. rewrite Hcrate. cbn [expect pbind].
  rewrite Hroot. cbn [expect pbind]. rewrite Htarget. cbn [expect pbind].
  intros (u & f1 & tr1 & tr2 & _ & H1 & Hr)%runs_bind_finished.
  apply silent_runs in H1 as ->; [|apply silent_announce].
  apply runs_bind_finished in Hr as (lib & f1 & tr3 & tr4 & _ & Hres & Hr).
  destruct lib as [path|]; [|by destruct Hr as (_ & [=] & _)].
  apply runs_bind_finished in Hr as ([] & f2 & tr5 & tr6 & _ & Huse & _ & _ & ->).
  apply use_library_runs in Huse as (out_dir & q & c & ? & Hto & ? & ?); [|done].
  exists out_dir, path, q, c, f1, tr3. split_and!; [done..|].
  intros cache Hpub. destruct (resolve_runs _ _ _ _ _ _ _ _ _ _ _ _ _ Hpub Hres)
    as (entry & ? & ? & c' & t' & Hgood & ? & ?).
  destruct Hto as (_ & t & Hlib & _). apply leads_to_file in Hgood. rewrite Hlib in Hgood. injection Hgood as <- <-. eauto.
Qed.
End linked.

(** ** A whole build, on a small machine *)

Module Machine.
Import Toy.

(** The digest is the bytes, the library the one of [Exports], the target Linux; the cache is
    empty and [curl] brings the library. There is no glibc to ask and no git checkout. *)
Definition entry : Prebuilt :=
  mkPrebuilt "x86_64-unknown-linux-gnu" "lib.so" (hex Sample.library)
    (Z.of_nat (length Sample.library)) (Some (2, 38)).
Definition env : Env :=
  list_to_map [("CARGO_MANIFEST_DIR", "/w/s"); ("TARGET", "x86_64-unknown-linux-gnu");
               ("CARGO_CFG_TARGET_OS", "linux"); ("OUT_DIR", "/o");
               ("EMBEDDED_MONGODB_CACHE_DIR", "/c")]%string.
Definition files : Files := {["/w/s/native/embedded_mongodb_native.h"%string := File Sample.header 0]}.

Definition touches (c : Command) (q : string) (n : option node) : Prop :=
  program c = "curl"%string ∧ Toy.touches c q n.
Definition programs (c : Command) (f : Files) : result ErrorKind Output * Files :=
  if bool_decide (program c = "curl"%string) then
    match reverse (args c) with
    | _ :: d :: _ => (Ok (mkOutput true "exit status: 0" []), <[d := File Sample.library 0]> f)
    | _ => (Err NotFound, f)
    end
  else (Err NotFound, f).

Lemma downloads name url d q n :
  touches (fetch_command name url d) q n → q = d ∧ (n = None ∨ ∃ c t, n = Some (File c t)).
Proof. intros [_ ?]. by eapply touches_downloads. Qed.

Lemma readers c q n : reader c → ¬ touches c q n.
Proof.
  intros Hc [Hp [(before & url & Ha) _]].
  destruct Hc as [(root & args & ->)|[->|[->|(compiler & ->)]]]; try done.
  apply (f_equal length) in Ha. rewrite length_app in Ha. simpl in Ha. lia.
Qed.

Lemma machine_programs_touch c f q :
  (programs c f).2 !! q = f !! q ∨ touches c q ((programs c f).2 !! q).
Proof.
  unfold programs, touches. case_bool_decide as Hp; [|by left].
  destruct (reverse (args c)) as [|url [|d before]] eqn:E; [by left..|].
  simpl. destruct (decide (q = d)) as [->|]; [right|left; by apply lookup_insert_ne].
  rewrite lookup_insert_eq. split; [done|]. split; [|eauto]. exists (reverse before), url.
  rewrite <- (reverse_involutive (args c)), E. by rewrite !reverse_cons, <- app_assoc.
Qed.

Lemma published_here : published false env 7 [entry] "/c" files.
Proof.
  split; try (vm_compute; reflexivity).
  - by intros e ->%list_elem_of_singleton.
  - intros e ->%list_elem_of_singleton. vm_compute. discriminate.
  - intros q [nanos ->] t. unfold files. rewrite lookup_singleton_ne; [done|].
    intros Heq. apply (f_equal (String.get 1)) in Heq. vm_compute in Heq. discriminate.
Qed.
End Machine.
#[local] Existing Instances Toy.toy_sha2 Toy.toy_laws Sample.sample_unicode.

Lemma a_build_links_only_what_it_checked_witness :
  let f' := (exec (calm Machine.programs 0) (main [Machine.entry] 0 false true 7 Machine.env) Machine.files).2 in
  f' !! join "/o" NATIVE_LIBRARY = Some (Link (destination "/c" Machine.entry)) ∧
  ∃ c, linked Toy.bridge_touches f' "/o" (destination "/c" Machine.entry) c
       ∧ Z.of_nat (length c) = size Machine.entry ∧ digest c = sha256 Machine.entry.
Proof.
  intros f'.
  assert (Hlink : f' !! join "/o" NATIVE_LIBRARY = Some (Link (destination "/c" Machine.entry)))
    by (vm_compute; reflexivity).
  split; [exact Hlink|].
  assert (Hdone : (exec (calm Machine.programs 0) (main [Machine.entry] 0 false true 7 Machine.env)
                     Machine.files).1.2 = Finished (Some tt)) by (vm_compute; reflexivity).
  subst f'.
  destruct (exec (calm Machine.programs 0) (main [Machine.entry] 0 false true 7 Machine.env) Machine.files)
    as [[trace out] f1] eqn:E.
  simpl in Hdone, Hlink. subst out.
  apply (exec_runs Machine.touches Toy.bridge_touches) in E; [|intros; apply calm_performs; apply Machine.machine_programs_touch].
  destruct (a_build_links_only_what_it_checked Machine.touches Toy.bridge_touches Machine.downloads Machine.readers
    0 false 7 Machine.env [Machine.entry] "/w/s" "/w" "x86_64-unknown-linux-gnu" Machine.files trace f1)
    as (out_dir & path & q & c & f2 & tr & Hout & _ & _ & _ & Hl & Hpub);
    [vm_compute; reflexivity..|vm_compute; discriminate|exact E|].
  assert (out_dir = "/o"%string) as -> by (vm_compute in Hout; congruence).
  destruct (Hpub "/c"%string Machine.published_here) as (entry & ->%list_elem_of_singleton & _ & ? & ?).
  exists c. split; [|done]. simpl.
  assert (q = destination "/c" Machine.entry) as <-; [|done].
  destruct Hl as [[Hl|[]] _]. rewrite Hlink in Hl. by injection Hl as <-.
Defined.
