(* ===== verification/Facade.v ===== *)
(** * Databases and collections

    The façades users hold: [src/database.rs], [src/collection.rs], their counterparts in
    [src/nonblocking], and the methods of [src/find.rs], [src/aggregate.rs] and [src/insert.rs]
    that a [Collection] offers. A façade borrows its client; the client is the state the calls
    are made on, so a façade is the names it was made with. [uses] are the things a program can
    do with one collection, its cursors read as far as it likes and then dropped. *)
From S2P Require Import Prelude EngineOptions Options Slot Reaper SessionPool Errors Bson.
From S2P Require Import WorkerState Response Effects Client Find Insert Async.

Record Database := mkDatabase { db_name : string }.

Record Collection := mkCollection { coll_database : string; coll_name : string }.

Definition Database_new (name : string) : Database := mkDatabase name.

(** [Client::database] *)
Definition Client_database (name : string) : Database := Database_new name.

Definition Database_name (db : Database) : string := db_name db.

Definition Collection_new (database name : string) : Collection := mkCollection database name.

Definition Database_collection (db : Database) (name : string) : Collection :=
  Collection_new (db_name db) name.

Definition Collection_name (c : Collection) : string := coll_name c.

Definition Collection_database_name (c : Collection) : string := coll_database c.

Section facade.
Context `{BsonLib Document ObjectId Other Bytes BE} {IOE X : Type}.
Context `{!Commands K Document (Error BE IOE X Document)}.
Context {T G : Type} (deserialize : Document → result BE T).
Context (serialize : T → result BE Document) (new_id : G → G * ObjectId).
Local Abbreviation error := (Error BE IOE X Document).
Local Abbreviation bson := (Bson Document ObjectId Other).

Definition Database_run_command (db : Database) (cmd : Document) : io K (result error Document) :=
  command (db_name db) cmd.

Definition Collection_find_one (fuel : nat) (c : Collection) (filter : Document)
    : io K (result error (option T)) :=
  find_one deserialize fuel (Collection_database_name c) (Collection_name c) filter.

Definition Collection_find (c : Collection) (filter : Document)
    : io K (result error (Cursor Document)) :=
  find (Collection_database_name c) (Collection_name c) filter.

Definition Collection_aggregate (c : Collection) (pipeline : list Document)
    : io K (result error (Cursor Document)) :=
  aggregate (Collection_database_name c) (Collection_name c) pipeline.

Definition Collection_insert_one (c : Collection) (t : T) (g : G)
    : io K (result error bson) * G :=
  insert_one serialize new_id (Collection_database_name c) (Collection_name c) t g.

Definition Collection_insert_many (c : Collection) (ts : list T) (g : G)
    : io K (result error (gmap nat bson)) * G :=
  insert_many serialize new_id (Collection_database_name c) (Collection_name c) ts g.

(** What a program does with a collection; a cursor is read [reads] times and dropped, or
    collected. *)
Inductive use : Type :=
| UseFindOne (filter : Document)
| UseFind (filter : Document) (reads : nat)
| UseFindAll (filter : Document)
| UseAggregate (pipeline : list Document) (reads : nat)
| UseInsertOne (t : T)
| UseInsertMany (ts : list T).

Fixpoint read_cursor (fuel reads : nat) (cur : Cursor Document) : io K unit :=
  match reads with
  | O => Cursor_drop (IOE:=IOE) (X:=X) cur
  | S reads => let! answer := next deserialize fuel cur in read_cursor fuel reads (snd answer)
  end.

Definition perform_use (fuel : nat) (c : Collection) (u : use) (g : G)
    : io K (result error unit) * G :=
  match u with
  | UseFindOne filter =>
      ((let!? _ := Collection_find_one fuel c filter in ret (Ok tt)), g)
  | UseFind filter reads =>
      ((let!? cur := Collection_find c filter in
        let! _ := read_cursor fuel reads cur in ret (Ok tt)), g)
  | UseFindAll filter =>
      ((let!? cur := Collection_find c filter in
        let!? _ := try_collect deserialize fuel cur in ret (Ok tt)), g)
  | UseAggregate pipeline reads =>
      ((let!? cur := Collection_aggregate c pipeline in
        let! _ := read_cursor fuel reads cur in ret (Ok tt)), g)
  | UseInsertOne t =>
      let '(m, g) := Collection_insert_one c t g in ((let!? _ := m in ret (Ok tt)), g)
  | UseInsertMany ts =>
      let '(m, g) := Collection_insert_many c ts g in ((let!? _ := m in ret (Ok tt)), g)
  end.

(** One use after another; one that fails does not keep the next from being made. *)
Fixpoint perform_uses (fuel : nat) (c : Collection) (us : list use) (g : G) : io K unit :=
  match us with
  | [] => ret tt
  | u :: us =>
      let '(m, g) := perform_use fuel c u g in
      let! _ := m in perform_uses fuel c us g
  end.
End facade.
Arguments use : clear implicits.

(** ** The async façades *)

Record async_Database := mkAsyncDatabase { async_db_name : string }.

Record async_Collection :=
  mkAsyncCollection { async_coll_database : string; async_coll_name : string }.

Definition async_Database_new (name : string) : async_Database := mkAsyncDatabase name.

Definition async_Client_database (name : string) : async_Database := async_Database_new name.

Definition async_Database_name (db : async_Database) : string := async_db_name db.

Definition async_Collection_new (database name : string) : async_Collection :=
  mkAsyncCollection database name.

Definition async_Database_collection (db : async_Database) (name : string) : async_Collection :=
  async_Collection_new (async_db_name db) name.

Definition async_Collection_name (c : async_Collection) : string := async_coll_name c.

Definition async_Collection_database_name (c : async_Collection) : string :=
  async_coll_database c.

Section async_facade.
Context `{NativeLib W Session Bytes X, BsonLib Document ObjectId Other Bytes BE} {IOE : Type}.
Context {T G : Type} (deserialize : Document → result BE T).
Context (serialize : T → result BE Document) (new_id : G → G * ObjectId).
Local Abbreviation error := (Error BE IOE X Document).
Local Abbreviation async := (AsyncClient W Session).
Local Abbreviation bson := (Bson Document ObjectId Other).

Definition async_Database_run_command (db : async_Database) (cmd : Document)
    : io async (result error Document) :=
  async_run_command (async_db_name db) cmd.

Definition async_Collection_find_one (fuel : nat) (c : async_Collection) (filter : Document)
    : io async (result error (option T)) :=
  async_find_one deserialize fuel (async_Collection_database_name c) (async_Collection_name c)
    filter.

Definition async_Collection_find (c : async_Collection) (filter : Document)
    : io async (result error (Cursor Document)) :=
  async_find (async_Collection_database_name c) (async_Collection_name c) filter.

Definition async_Collection_aggregate (c : async_Collection) (pipeline : list Document)
    : io async (result error (Cursor Document)) :=
  async_aggregate (async_Collection_database_name c) (async_Collection_name c) pipeline.

Definition async_Collection_insert_one (c : async_Collection) (t : T) (g : G)
    : io async (result error bson) * G :=
  async_insert_one serialize new_id (async_Collection_database_name c) (async_Collection_name c)
    t g.

Definition async_Collection_insert_many (c : async_Collection) (ts : list T) (g : G)
    : io async (result error (gmap nat bson)) * G :=
  async_insert_many serialize new_id (async_Collection_database_name c) (async_Collection_name c)
    ts g.

Fixpoint async_read_cursor (fuel reads : nat) (cur : Cursor Document) : io async unit :=
  match reads with
  | O => async_Cursor_drop (IOE:=IOE) cur
  | S reads =>
      let! answer := async_next (IOE:=IOE) deserialize fuel cur in
      async_read_cursor fuel reads (snd answer)
  end.

Definition async_perform_use (fuel : nat) (c : async_Collection) (u : use Document T) (g : G)
    : io async (result error unit) * G :=
  match u with
  | UseFindOne filter =>
      ((let!? _ := async_Collection_find_one fuel c filter in ret (Ok tt)), g)
  | UseFind filter reads =>
      ((let!? cur := async_Collection_find c filter in
        let! _ := async_read_cursor fuel reads cur in ret (Ok tt)), g)
  | UseFindAll filter =>
      ((let!? cur := async_Collection_find c filter in
        let!? _ := async_collect deserialize fuel cur [] in ret (Ok tt)), g)
  | UseAggregate pipeline reads =>
      ((let!? cur := async_Collection_aggregate c pipeline in
        let! _ := async_read_cursor fuel reads cur in ret (Ok tt)), g)
  | UseInsertOne t =>
      let '(m, g) := async_Collection_insert_one c t g in ((let!? _ := m in ret (Ok tt)), g)
  | UseInsertMany ts =>
      let '(m, g) := async_Collection_insert_many c ts g in ((let!? _ := m in ret (Ok tt)), g)
  end.

Fixpoint async_perform_uses (fuel : nat) (c : async_Collection) (us : list (use Document T))
    (g : G) : io async unit :=
  match us with
  | [] => ret tt
  | u :: us =>
      let '(m, g) := async_perform_use fuel c u g in
      let! _ := m in async_perform_uses fuel c us g
  end.
End async_facade.

(** ** A collection reaches only itself *)

(** The fields a command names its collection in. *)
Definition collection_fields : list string :=
  ["find"; "aggregate"; "insert"; "killCursors"; "collection"]%string.

Definition names_collection `{BsonLib Document ObjectId Other Bytes BE} (collection : string)
    (cmd : Document) : Prop :=
  ∃ field, field ∈ collection_fields ∧ doc_get field cmd = Some (BString collection).

Definition keeps {K A : Type} (I : K → Prop) (m : io K A) : Prop :=
  ∀ k, I k → I (snd (m k)).

Section keeps.
Context {K : Type} (I : K → Prop).

Lemma keeps_ret {A} (a : A) : keeps I (ret a).
Proof. by intros k. Qed.

Lemma keeps_no_fuel {A} : keeps (A:=A) I (λ k, (NoFuel, k)).
Proof. by intros k. Qed.

(** [P] is what is known of the value the first call answers. *)
Lemma keeps_bind_with {A B} (P : A → Prop) (m : io K A) (f : A → io K B) :
  keeps I m → (∀ k a k', m k = (Returns a, k') → P a) → (∀ a, P a → keeps I (f a)) →
  keeps I (bind m f).
Proof.
  intros Hm HP Hf k Hk. specialize (Hm k Hk). specialize (HP k). unfold bind.
  destruct (m k) as [[a| | |] k'] eqn:E; try done. apply (Hf a); [by eapply HP|done].
Qed.

Lemma keeps_bind {A B} (m : io K A) (f : A → io K B) :
  keeps I m → (∀ a, keeps I (f a)) → keeps I (bind m f).
Proof. intros Hm Hf. by apply (keeps_bind_with (λ _, True)). Qed.

Lemma keeps_try {E A B} (m : io K (result E A)) (f : A → io K (result E B)) :
  keeps I m → (∀ a, keeps I (f a)) → keeps I (try_bind m f).
Proof. intros Hm Hf. apply keeps_bind; [done|]. intros [a|e]; [apply Hf|apply keeps_ret]. Qed.

Lemma keeps_try_with {E A B} (P : A → Prop) (m : io K (result E A)) (f : A → io K (result E B)) :
  keeps I m → (∀ k a k', m k = (Returns (Ok a), k') → P a) → (∀ a, P a → keeps I (f a)) →
  keeps I (try_bind m f).
Proof.
  intros Hm HP Hf.
  apply (keeps_bind_with (λ r, match r with Ok a => P a | Err _ => True end)); [done| |].
  - intros k [a|e] k' E'; [by eapply HP|done].
  - intros [a|e] Ha; [by apply Hf|apply keeps_ret].
Qed.
End keeps.

#[local] Hint Resolve keeps_ret keeps_no_fuel keeps_bind keeps_try : core.

Ltac named_in field :=
  exists field; split; [unfold collection_fields; set_solver|];
  unfold find_command, find_one_command, aggregate_command, insert_command, get_more_command,
    kill_cursors_command, doc; simpl;
  repeat (rewrite doc_get_insert || rewrite doc_get_insert_ne by done); done.

Section naming.
Context `{BsonLaws Document ObjectId Other Bytes BE}.

Lemma kill_names_collection name id : names_collection name (kill_cursors_command name id).
Proof. named_in "killCursors"%string. Qed.

Lemma find_one_names_collection name filter :
  names_collection name (find_one_command name filter).
Proof. named_in "find"%string. Qed.
End naming.

Section reach.
Context `{BsonLaws Document ObjectId Other Bytes BE} {IOE X : Type}.
Context `{!Commands K Document (Error BE IOE X Document)}.
Context {T G : Type} (deserialize : Document → result BE T).
Context (serialize : T → result BE Document) (new_id : G → G * ObjectId).
Context (I : K → Prop) (c : Collection).
Context (Hcommands : ∀ cmd, names_collection (coll_name c) cmd →
  keeps I (command (coll_database c) cmd)).
Implicit Types (cur : Cursor Document).

Definition belongs cur : Prop :=
  cur_database cur = coll_database c ∧ cur_collection cur = coll_name c.

Lemma fetch_keeps cur : belongs cur → keeps I (fetch_next_batch cur).
Proof.
  intros [Hdb Hc]. unfold fetch_next_batch. rewrite Hdb, Hc.
  apply keeps_try; [|unfold lift; auto]. apply Hcommands.
  named_in "collection"%string.
Qed.

Lemma fetch_belongs cur k cur' k' :
  belongs cur → fetch_next_batch cur k = (Returns (Ok cur'), k') → belongs cur'.
Proof.
  intros Hcur Hf. unfold fetch_next_batch in Hf.
  apply try_ok_inv in Hf as (response & k1 & _ & Hf).
  apply try_ok_inv in Hf as (batch & k2 & _ & Hf). unfold ret in Hf. by simplify_eq.
Qed.

Lemma next_keeps fuel cur : belongs cur → keeps I (next deserialize fuel cur).
Proof.
  revert cur. induction fuel as [|fuel IH]; intros cur Hcur; simpl; [auto|].
  destruct (documents cur); [|auto].
  destruct (finished cur || (cur_id cur =? 0)); [auto|].
  apply (keeps_bind_with I (λ r, match r with Ok cur' => belongs cur' | Err _ => True end)).
  - by apply fetch_keeps.
  - intros k [cur'|e] k' E; [by eapply fetch_belongs|done].
  - intros [cur'|e] Hr; auto.
Qed.

Lemma next_belongs fuel cur k answer cur' k' :
  belongs cur → next deserialize fuel cur k = (Returns (answer, cur'), k') → belongs cur'.
Proof.
  revert cur k. induction fuel as [|fuel IH]; intros cur k Hcur; simpl; [done|].
  destruct (documents cur); [|unfold ret; intros; by simplify_eq].
  destruct (finished cur || (cur_id cur =? 0)); [unfold ret; intros; by simplify_eq|].
  unfold bind. destruct (fetch_next_batch cur k) as [[[cur1|e]| | |] k1] eqn:E; try done.
  - apply IH. by eapply fetch_belongs.
  - unfold ret. intros. by simplify_eq.
Qed.

Lemma drop_keeps cur : belongs cur → keeps I (Cursor_drop (IOE:=IOE) (X:=X) cur).
Proof.
  intros [Hdb Hc]. unfold Cursor_drop, kill. apply keeps_bind; [|auto].
  destruct (cur_id cur =? 0); [auto|]. simpl. rewrite Hdb, Hc.
  apply keeps_bind; [|auto]. apply Hcommands, kill_names_collection.
Qed.

Lemma read_keeps fuel reads cur :
  belongs cur → keeps I (read_cursor (IOE:=IOE) (X:=X) deserialize fuel reads cur).
Proof.
  revert cur. induction reads as [|reads IH]; intros cur Hcur; simpl; [by apply drop_keeps|].
  apply (keeps_bind_with I (λ a, belongs (snd a))); [by apply next_keeps| |].
  - intros k [answer cur'] k'. by apply next_belongs.
  - intros a Ha. by apply IH.
Qed.

Lemma collect_keeps fuel cur collected :
  belongs cur → keeps I (collect (IOE:=IOE) (X:=X) deserialize fuel cur collected).
Proof.
  revert cur collected. induction fuel as [|fuel IH]; intros cur collected Hcur;
    cbn [collect]; [auto|].
  apply (keeps_bind_with I (λ a, belongs (snd a))); [by apply next_keeps| |].
  - intros k [answer cur'] k'. by apply next_belongs.
  - intros [[[item|e]|] cur'] Ha; simpl in Ha; auto using drop_keeps.
Qed.

Lemma from_response_belongs response batch_name (k : K) cur k' :
  lift (K:=K) (Cursor_from_response (IOE:=IOE) (X:=X) (coll_database c) (coll_name c) response
                 batch_name) k = (Returns (Ok cur), k') → belongs cur.
Proof.
  unfold lift, ret, Cursor_from_response. destruct (take_cursor_batch _ _); simpl; [|done].
  intros. by simplify_eq.
Qed.

Lemma find_keeps filter : keeps I (Collection_find c filter).
Proof. apply keeps_try; [|unfold lift; auto]. apply Hcommands. named_in "find"%string. Qed.

Lemma aggregate_keeps pipeline : keeps I (Collection_aggregate c pipeline).
Proof. apply keeps_try; [|unfold lift; auto]. apply Hcommands. named_in "aggregate"%string. Qed.

Lemma find_belongs filter k cur k' :
  Collection_find c filter k = (Returns (Ok cur), k') → belongs cur.
Proof.
  intros Hf. apply try_ok_inv in Hf as (response & k1 & _ & Hf).
  by eapply from_response_belongs.
Qed.

Lemma aggregate_belongs pipeline k cur k' :
  Collection_aggregate c pipeline k = (Returns (Ok cur), k') → belongs cur.
Proof.
  intros Hf. apply try_ok_inv in Hf as (response & k1 & _ & Hf).
  by eapply from_response_belongs.
Qed.

Lemma find_one_keeps fuel filter : keeps I (Collection_find_one deserialize fuel c filter).
Proof.
  apply keeps_try; [apply Hcommands, find_one_names_collection|]. intros response.
  apply (keeps_try_with I belongs); [unfold lift; auto| |].
  - intros k cur k'. apply from_response_belongs.
  - intros cur Hcur.
    apply (keeps_bind_with I (λ a, belongs (snd a))); [by apply next_keeps| |].
    + intros k [answer cur'] k'. by apply next_belongs.
    + intros a Ha. auto using drop_keeps.
Qed.

Lemma insert_one_keeps t g : keeps I (fst (Collection_insert_one serialize new_id c t g)).
Proof.
  unfold Collection_insert_one, insert_one. destruct (serialize t); [|unfold lift; simpl; auto].
  destruct (ensure_id new_id _ g) as [[id d] g']. simpl.
  apply keeps_try; [apply Hcommands; named_in "insert"%string|unfold lift; auto].
Qed.

Lemma insert_many_keeps ts g : keeps I (fst (Collection_insert_many serialize new_id c ts g)).
Proof.
  unfold Collection_insert_many, insert_many.
  destruct (serialize_many serialize new_id ts g) as [[[s ids]|e] g']; [|unfold lift; simpl; auto].
  apply keeps_try; [apply Hcommands; named_in "insert"%string|unfold lift; auto].
Qed.

Lemma perform_use_keeps fuel u g :
  keeps I (fst (perform_use deserialize serialize new_id fuel c u g)).
Proof.
  destruct u as [filter|filter reads|filter|pipeline reads|t|ts]; simpl.
  - apply keeps_try; [apply find_one_keeps|auto].
  - apply (keeps_try_with I belongs); [apply find_keeps|apply find_belongs|].
    intros cur Hcur. auto using read_keeps.
  - apply (keeps_try_with I belongs); [apply find_keeps|apply find_belongs|].
    intros cur Hcur. apply keeps_try; [by apply collect_keeps|auto].
  - apply (keeps_try_with I belongs); [apply aggregate_keeps|apply aggregate_belongs|].
    intros cur Hcur. auto using read_keeps.
  - pose proof (insert_one_keeps t g). destruct (Collection_insert_one _ _ _ _ _). simpl in *.
    auto.
  - pose proof (insert_many_keeps ts g). destruct (Collection_insert_many _ _ _ _ _). simpl in *.
    auto.
Qed.

Lemma perform_uses_keeps fuel us g :
  keeps I (perform_uses (IOE:=IOE) (X:=X) deserialize serialize new_id fuel c us g).
Proof.
  revert g. induction us as [|u us IH]; intros g; simpl; [auto|].
  pose proof (perform_use_keeps fuel u g). destruct (perform_use _ _ _ _ _ _ _). simpl in *.
  auto.
Qed.
End reach.

Section both_clients.
Context `{NativeLib W Session Bytes X, BsonLaws Document ObjectId Other Bytes BE} {IOE : Type}.
Context {T G : Type} (deserialize : Document → result BE T).
Context (serialize : T → result BE Document) (new_id : G → G * ObjectId).
Local Abbreviation error := (Error BE IOE X Document).
Local Abbreviation client := (Client W Session).
Local Abbreviation async := (AsyncClient W Session).

(** Running a job keeps [I], from a client that is in order to one that is. *)
Definition job_keeps (I : client → Prop) (job : client → client) : Prop :=
  ∀ c, client_wf c → I c → client_wf (job c) ∧ I (job c).

(** An async client for which [I] holds and will hold whatever of its queue is run. *)
Definition async_keeping (I : client → Prop) (s : async) : Prop :=
  client_wf (blocking s) ∧ I (blocking s) ∧ Forall (job_keeps I) (detached s).

Lemma run_picked_keeps I picks jobs c rest c' :
  Forall (job_keeps I) jobs → client_wf c → I c → run_picked picks jobs c = (rest, c') →
  Forall (job_keeps I) rest ∧ client_wf c' ∧ I c'.
Proof.
  revert jobs c. induction picks as [|i picks IH]; intros jobs c Hjobs Hwf HI; simpl.
  - by intros [= <- <-].
  - destruct (jobs !! i) as [job|] eqn:Hi; [|by apply IH].
    destruct (proj1 (Forall_lookup _ _) Hjobs i job Hi c Hwf HI).
    apply IH; [|done..]. by apply Forall_delete.
Qed.

Lemma run_all_keeps I jobs c :
  Forall (job_keeps I) jobs → client_wf c → I c → I (run_all jobs c).
Proof.
  intros Hjobs. revert c. induction Hjobs as [|job jobs Hjob _ IH]; intros c Hwf HI; [done|].
  destruct (Hjob c Hwf HI). by apply IH.
Qed.

Section async_reach.
Context (I : client → Prop) (co : Collection).
Context (Hrun : ∀ cmd, names_collection (coll_name co) cmd →
  keeps I (run_command (IOE:=IOE) (coll_database co) cmd)).
Implicit Types (cur : Cursor Document).

(** The async client runs commands too. *)
#[local] Instance async_Commands : Commands async Document error := {
  command := async_run_command;
}.

Lemma async_command_keeps cmd :
  names_collection (coll_name co) cmd → keeps (async_keeping I) (command (coll_database co) cmd).
Proof.
  intros Hcmd s (Hwf & HI & Hjobs). simpl.
  unfold async_run_command, Engine_run_cancellable, try_bind, bind, Engine_dispatch.
  destruct (queue_job _ _ _) as [[spawn|e] ws]; [|done].
  destruct (run_picked _ (detached s) (blocking s)) as [rest c] eqn:Hr.
  destruct (run_picked_keeps I _ _ _ _ _ Hjobs Hwf HI Hr) as (Hrest & Hwf1 & HI1).
  destruct (the_cancellable_route_answers (IOE:=IOE) (coll_database co) cmd c Hwf1)
    as (r & slot' & c' & Hd & -> & Hwf').
  split_and!; [done| |done]. specialize (Hrun cmd Hcmd c HI1). by rewrite Hd in Hrun.
Qed.

Lemma async_drop_keeps cur :
  belongs co cur → keeps (async_keeping I) (async_Cursor_drop (IOE:=IOE) cur).
Proof.
  intros [Hdb Hc]. unfold async_Cursor_drop. destruct (cur_id cur =? 0); [auto|].
  intros s (Hwf & HI & Hjobs). unfold Engine_run_detached.
  destruct (queue_job _ _ _) as [[spawn|e] ws]; [|done].
  split_and!; [done..|]. apply Forall_app. split; [done|]. constructor; [|done].
  intros c Hwfc HIc. rewrite Hdb, Hc.
  set (kill := kill_cursors_command (coll_name co) (cur_id cur)).
  destruct (a_command_returns (IOE:=IOE) (coll_database co) kill c Hwfc) as (r & c' & Hr & Hwf').
  assert (names_collection (coll_name co) kill) as Hkill by apply kill_names_collection.
  specialize (Hrun kill Hkill c HIc). by rewrite Hr in *.
Qed.

(** What the async client does is what any client of commands does, but for the drop. *)
Lemma async_next_keeps fuel cur :
  belongs co cur → keeps (async_keeping I) (async_next (IOE:=IOE) deserialize fuel cur).
Proof. apply (next_keeps deserialize (async_keeping I) co async_command_keeps). Qed.

Lemma async_next_belongs fuel cur k answer cur' k' :
  belongs co cur → async_next (IOE:=IOE) deserialize fuel cur k = (Returns (answer, cur'), k') →
  belongs co cur'.
Proof. exact (next_belongs (K:=async) (IOE:=IOE) (X:=X) deserialize co fuel cur k answer cur' k'). Qed.

Lemma async_read_keeps fuel reads cur :
  belongs co cur → keeps (async_keeping I) (async_read_cursor (IOE:=IOE) deserialize fuel reads cur).
Proof.
  revert cur. induction reads as [|reads IH]; intros cur Hcur; simpl; [by apply async_drop_keeps|].
  apply (keeps_bind_with _ (λ a, belongs co (snd a))); [by apply async_next_keeps| |].
  - intros k [answer cur'] k'. by apply async_next_belongs.
  - intros a Ha. by apply IH.
Qed.

Lemma async_collect_keeps fuel cur collected :
  belongs co cur →
  keeps (async_keeping I) (async_collect (IOE:=IOE) deserialize fuel cur collected).
Proof.
  revert cur collected. induction fuel as [|fuel IH]; intros cur collected Hcur;
    cbn [async_collect]; [auto|].
  apply (keeps_bind_with _ (λ a, belongs co (snd a))); [by apply async_next_keeps| |].
  - intros k [answer cur'] k'. by apply async_next_belongs.
  - intros [[[item|e]|] cur'] Ha; simpl in Ha; auto using async_drop_keeps.
Qed.

Lemma async_find_one_keeps fuel filter :
  keeps (async_keeping I)
    (async_find_one (IOE:=IOE) deserialize fuel (coll_database co) (coll_name co) filter).
Proof.
  apply keeps_try; [apply async_command_keeps, find_one_names_collection|]. intros response.
  apply (keeps_try_with _ (belongs co)); [unfold lift; auto| |].
  - intros k cur k'. apply (from_response_belongs (K:=async) (IOE:=IOE) (X:=X)).
  - intros cur Hcur.
    apply (keeps_bind_with _ (λ a, belongs co (snd a))); [by apply async_next_keeps| |].
    + intros k [answer cur'] k'. by apply async_next_belongs.
    + intros a Ha. auto using async_drop_keeps.
Qed.

Lemma async_use_keeps fuel u g :
  keeps (async_keeping I) (fst (async_perform_use (IOE:=IOE) deserialize serialize new_id fuel
    (async_Collection_new (coll_database co) (coll_name co)) u g)).
Proof.
  pose proof async_command_keeps as Hcmd.
  pose proof (find_keeps (K:=async) (IOE:=IOE) (X:=X) deserialize (async_keeping I) co Hcmd) as Hfind.
  pose proof (aggregate_keeps (K:=async) (IOE:=IOE) (X:=X) (async_keeping I) co Hcmd) as Hagg.
  destruct u as [filter|filter reads|filter|pipeline reads|t|ts]; simpl.
  - apply keeps_try; [apply async_find_one_keeps|auto].
  - apply (keeps_try_with _ (belongs co)); [apply Hfind|exact (find_belongs (K:=async) (IOE:=IOE) (X:=X) co filter)|].
    intros cur Hcur. auto using async_read_keeps.
  - apply (keeps_try_with _ (belongs co)); [apply Hfind|exact (find_belongs (K:=async) (IOE:=IOE) (X:=X) co filter)|].
    intros cur Hcur. apply keeps_try; [by apply async_collect_keeps|auto].
  - apply (keeps_try_with _ (belongs co)); [apply Hagg|exact (aggregate_belongs (K:=async) (IOE:=IOE) (X:=X) co pipeline)|].
    intros cur Hcur. auto using async_read_keeps.
  - pose proof (insert_one_keeps (K:=async) deserialize serialize new_id (async_keeping I) co Hcmd t g) as Hins.
    change (Collection_insert_one serialize new_id co t g)
      with (async_Collection_insert_one (IOE:=IOE) serialize new_id
              (async_Collection_new (coll_database co) (coll_name co)) t g) in Hins.
    destruct (async_Collection_insert_one _ _ _ _ _). simpl in *. auto.
  - pose proof (insert_many_keeps (K:=async) serialize new_id (async_keeping I) co Hcmd ts g) as Hins.
    change (Collection_insert_many serialize new_id co ts g)
      with (async_Collection_insert_many (IOE:=IOE) serialize new_id
              (async_Collection_new (coll_database co) (coll_name co)) ts g) in Hins.
    destruct (async_Collection_insert_many _ _ _ _ _). simpl in *. auto.
Qed.

Lemma async_uses_keeps fuel us g :
  keeps (async_keeping I) (async_perform_uses (IOE:=IOE) deserialize serialize new_id fuel
    (async_Collection_new (coll_database co) (coll_name co)) us g).
Proof.
  revert g. induction us as [|u us IH]; intros g; simpl; [auto|].
  pose proof (async_use_keeps fuel u g). destruct (async_perform_use _ _ _ _ _ _ _). simpl in *.
  auto.
Qed.
End async_reach.

(** C36. Whatever a program does with a collection, blocking or async, its cursors read as far
    as it likes and dropped, every command it causes goes to the collection's database and names
    that collection: what such commands leave alone is left alone, also by whatever part of the
    kills the async cursors queued is run. *)
Theorem a_collection_reaches_only_itself (I : client → Prop) database name fuel us g c s :
  (∀ cmd, names_collection name cmd → keeps I (run_command (IOE:=IOE) database cmd)) →
  I c → async_open s → I (blocking s) →
  I (snd (perform_uses (K:=client) (IOE:=IOE) (X:=X) deserialize serialize new_id fuel
            (Database_collection (Client_database database) name) us g c)) ∧
  let s' := snd (async_perform_uses (IOE:=IOE) deserialize serialize new_id fuel
                   (async_Database_collection (async_Client_database database) name) us g s) in
  I (blocking s') ∧
  ∀ picks, I (snd (run_picked picks (detached s') (blocking s'))) ∧ I (settled s').
Proof.
  intros Hcmd Hc (_ & _ & Hdet & Hwf) Hb. split.
  { by apply (perform_uses_keeps deserialize serialize new_id I (Collection_new database name)). }
  intros s'. assert (async_keeping I s') as (Hwf' & HI' & Hjobs).
  { apply (async_uses_keeps I (Collection_new database name)); [done|].
    split_and!; [done..|]. by rewrite Hdet. }
  split; [done|]. intros picks. split; [|unfold settled; by apply (run_all_keeps I)].
  destruct (run_picked picks _ _) as [rest c'] eqn:Hr.
  by destruct (run_picked_keeps I _ _ _ _ _ Hjobs Hwf' HI' Hr) as (_ & _ & ?).
Qed.
End both_clients.

(** ** On the engine that logs *)

Definition only_to (database name : string) (c : Client LoggingEngine nat) : Prop :=
  Forall (λ entry, snd (fst entry) = database ∧ names_collection name (snd entry))
    (log (runtime c)).

(** The engine logs a command's database and its bytes, and opening a session logs nothing. *)
Lemma logged_commands_keep_only_to database name (cmd : Doc) :
  names_collection name cmd → keeps (only_to database name) (run_command (IOE:=unit) database cmd).
Proof.
  intros Hcmd c Hc. unfold run_command, lift, try_bind, bind, ret. simpl.
  unfold send, bind, SessionPool_run, SessionPool_checkout.
  destruct (checkout _ _) as [[session| |] st] eqn:E; simpl; try done;
    (apply Forall_app; split; [done|]; by constructor).
Qed.

Definition some_uses : list (use Doc Doc) :=
  [UseFindOne ping; UseFind ping 2; UseFindAll ping; UseAggregate [ping] 1; UseInsertOne ping;
   UseInsertMany [ping; ping]].

Definition used_async : AsyncClient LoggingEngine nat :=
  snd (async_perform_uses (IOE:=unit) as_is as_is counting 5
         (async_Database_collection (async_Client_database "db") "c") some_uses 0%nat open_async).

Lemma a_collection_reaches_only_itself_witness :
  only_to "db" "c"
    (snd (perform_uses (K:=Client LoggingEngine nat) (IOE:=unit) (X:=Empty_set) as_is as_is
       counting 5 (Database_collection (Client_database "db") "c") some_uses 0%nat pool_of_two)) ∧
  only_to "db" "c" (blocking used_async) ∧
  ∀ picks, only_to "db" "c" (snd (run_picked picks (detached used_async) (blocking used_async))) ∧
    only_to "db" "c" (settled used_async).
Proof.
  apply (a_collection_reaches_only_itself as_is as_is counting (only_to "db" "c") "db" "c").
  - intros cmd. apply logged_commands_keep_only_to.
  - constructor.
  - exact open_async_open.
  - constructor.
Defined.

(** ** The engine's log

    [embedded-mongodb-sys/src/ffi.rs]: every line the engine logs becomes a [tracing] event. *)

Inductive Level := ERROR | WARN | INFO | DEBUG | TRACE.

#[export] Instance Level_eq_dec : EqDecision Level.
Proof. solve_decision. Defined.

Definition mongodb_log_level (severity : Z) : Level :=
  if severity <=? -3 then ERROR
  else if severity =? -2 then WARN
  else if (severity =? -1) || (severity =? 0) then INFO
  else if severity =? 1 then DEBUG
  else TRACE.

Record LogEvent := mkLogEvent {
  target : string;
  level : Level;
  mongodb_id : Z;
  mongodb_component : string;
  mongodb_context : string;
  mongodb_severity : Z;
  mongodb_record : string;
  event_message : string;
}.

(** The macro's events, one call site for each level; [events] is what the subscriber sees. *)
Definition emit_mongodb_log (severity id : Z) (component context message record : string)
    (events : list LogEvent) : list LogEvent :=
  let emit level :=
    events ++ [mkLogEvent "embedded_mongodb::mongo" level id component context severity record
                 message] in
  match mongodb_log_level severity with
  | ERROR => emit ERROR
  | WARN => emit WARN
  | INFO => emit INFO
  | DEBUG => emit DEBUG
  | TRACE => emit TRACE
  end.

(** How verbose a level is. *)
Definition verbosity (level : Level) : Z :=
  match level with ERROR => 1 | WARN => 2 | INFO => 3 | DEBUG => 4 | TRACE => 5 end.

(** A subscriber that shows a line shows every more severe one: the levels keep the order of the
    engine's severities. *)
Lemma log_levels_keep_the_severities_order severity severity' :
  severity ≤ severity' →
  verbosity (mongodb_log_level severity) ≤ verbosity (mongodb_log_level severity').
Proof.
  intros Hle. unfold mongodb_log_level.
  repeat case_match; simpl; try lia;
    repeat match goal with
    | H : (_ || _) = true |- _ => apply orb_true_iff in H
    | H : (_ || _) = false |- _ => apply orb_false_iff in H
    end; lia.
Qed.

Example mongodb_log_levels :
  mongodb_log_level <$> [-4; -3; -2; -1; 0; 1; 5]
  = [ERROR; ERROR; WARN; INFO; INFO; DEBUG; TRACE].
Proof. reflexivity. Qed.
