(* ===== verification/JavaApi.v ===== *)
(** * What a Java program sees

    The four native methods of [embedded-mongodb-android/src/bridge.rs], from the argument to
    the exception: [Bridge] says what each comes to, here its answer is turned into Java's and
    any sequence of calls is compared with a table from handles to clients. A call gets a lock
    it asks for, as it does when one Java thread makes all the calls; what several threads may
    do to each other is [Registry]'s. *)
From stdpp Require Import pretty.
From S2P Require Import Prelude EngineOptions Options Errors Handle Registry Bridge.

Section api.
Context {BE IOE X D : Type} (bson_text : BE → string) (io_text : IOE → string) (what : X → string).
(** What the process drew for its tag. *)
Context (drawn : Z).
Local Abbreviation error := (Error BE IOE X D).

(** What the crate below and the JVM answer during one call; another call may be answered
    otherwise. *)
Record Answers := mkAnswers {
  ans_open : string → option OpenOptions → result error unit;
  ans_run : nat → string → list Z → result error (list Z);
  ans_close : nat → result error unit;
  ans_array : list Z → option JniFailure;
  ans_jvm : Jvm;
}.

Inductive jcall :=
| JOpen (path : option (result JniFailure string))
| JOpenWithOptions (path : option (result JniFailure string))
                   (options : option (result JniFailure (list Z)))
| JCommand (handle : Z) (database : option (result JniFailure string))
           (command : option (result JniFailure (list Z)))
| JClose (handle : Z).

(** What the method returns to Java: a [long], a [byte[]] that may be null, or nothing. *)
Inductive jvalue := JLong (handle : Z) | JBytes (bytes : option (list Z)) | JVoid.

(** [with_env(..).resolve::<ThrowEmbeddedMongoException>()] of a body that did not unwind. Java
    enters a native method with nothing pending; what a failed JNI call of the body left is part
    of its answer. *)
Definition java {T} (dflt : T) (wrap : T → jvalue) (w : Answers) (answer : result Failed T)
    : jvalue * option Throwable :=
  let '(value, pending) := resolve dflt (ans_jvm w) (Returned answer) None in (wrap value, pending).

Definition Java_open (w : Answers) (path : option (result JniFailure string)) (r : Registry)
    : jvalue * option Throwable * Registry :=
  let '(answer, r) :=
    native_open bson_text io_text what (ans_open w) (ans_close w) drawn path r in
  (java 0 JLong w answer, r).

Definition Java_openWithOptions (w : Answers) (path : option (result JniFailure string))
    (options : option (result JniFailure (list Z))) (r : Registry)
    : jvalue * option Throwable * Registry :=
  let '(answer, r) :=
    native_open_with_options bson_text io_text what (ans_open w) (ans_close w) drawn path options r in
  (java 0 JLong w answer, r).

(** [None] is a wait for a lock. *)
Definition Java_command (w : Answers) (handle : Z) (database : option (result JniFailure string))
    (command : option (result JniFailure (list Z))) (r : Registry)
    : option (jvalue * option Throwable * Registry) :=
  '(answer, r) ← native_command bson_text io_text what (ans_run w) handle database command
                   (ans_array w) r;
  Some (java None JBytes w (map_ok Some answer), r).

Definition Java_close (w : Answers) (handle : Z) (r : Registry)
    : option (jvalue * option Throwable * Registry) :=
  '(answer, r) ← native_close bson_text io_text what (ans_close w) handle r;
  Some (java tt (λ _, JVoid) w answer, r).

Definition java_call (w : Answers) (c : jcall) (r : Registry)
    : option (jvalue * option Throwable * Registry) :=
  match c with
  | JOpen path => Some (Java_open w path r)
  | JOpenWithOptions path options => Some (Java_openWithOptions w path options r)
  | JCommand handle database command => Java_command w handle database command r
  | JClose handle => Java_close w handle r
  end.

Fixpoint java_calls (cs : list (Answers * jcall)) (r : Registry)
    : option (list (jvalue * option Throwable) * Registry) :=
  match cs with
  | [] => Some ([], r)
  | (w, c) :: cs =>
      '(answer, r) ← java_call w c r;
      '(answers, r) ← java_calls cs r;
      Some (answer :: answers, r)
  end.

(** ** The contract: a table of open handles *)

(** How many clients have ever been issued a handle, and which handles are open on which. *)
Record Table := mkTable { issued : nat; live : gmap Z nat }.

(** The handle of the [n]-th client, from zero. *)
Definition handle_of (n : nat) : Z := process_tag drawn * 2 ^ 32 + Z.of_nat n + 1.

(** The arguments and the open below: the first thing that goes wrong is what Java is told. *)
Definition table_opens (w : Answers) (c : jcall) : result Failed unit :=
  let from r := map_err plainly (map_err (BridgeError_from bson_text io_text what) r) in
  match c with
  | JOpen path => let? path := read_string path "path" in from (ans_open w path None)
  | JOpenWithOptions path options =>
      let? path := read_string path "path" in
      let? slots := read_slots options in
      let? options := map_err plainly (open_options (slot slots 0) (slot slots 1) (slot slots 2)) in
      from (ans_open w path (Some options))
  | _ => Ok tt
  end.

(** The error of a handle that is not open. *)
Definition not_open (handle : Z) : BridgeError :=
  if decide (0 < handle) then closed (mkHandleId handle)
  else closed_handle ("embedded MongoDB handle " +:+ pretty handle
                        +:+ " is not a handle this process issued").

(** What Java finds pending after a failure: the exception the JVM itself left behind, or else
    what the JVM makes of the error's own. *)
Definition thrown (w : Answers) (f : Failed) : option Throwable :=
  match failed_pending f with
  | Some t => Some t
  | None => throw (ans_jvm w) (failed_with f) None
  end.

Definition table_issue (w : Answers) (opens : result Failed unit) (t : Table)
    : jvalue * option Throwable * Table :=
  match opens with
  | Err f => (JLong 0, thrown w f, t)
  | Ok _ =>
      if decide (Z.of_nat (issued t) < u32_max) then
        (JLong (handle_of (issued t)), None,
         mkTable (S (issued t)) (<[handle_of (issued t) := issued t]> (live t)))
      else
        (JLong 0,
         thrown w (plainly (spent (map_err (BridgeError_from bson_text io_text what)
                                     (ans_close w (issued t))))), t)
  end.

Definition table_command (w : Answers) (handle : Z) (database : option (result JniFailure string))
    (command : option (result JniFailure (list Z))) (t : Table) : result Failed (list Z) :=
  let? _ := (if decide (0 < handle) then Ok tt else Err (plainly (not_open handle))) in
  let? database := read_string database "database" in
  let? command := ok_or (plainly (invalid_argument "command must not be null")) command in
  let? request := map_err from_jni command in
  let? client := ok_or (plainly (not_open handle)) (live t !! handle) in
  let? response := map_err (plainly ∘ BridgeError_from bson_text io_text what)
                     (ans_run w client database request) in
  match ans_array w response with
  | None => Ok response
  | Some failure => Err (from_jni failure)
  end.

Definition table_close (w : Answers) (handle : Z) (t : Table) : result BridgeError unit * Table :=
  match live t !! handle with
  | None => (Err (not_open handle), t)
  | Some client =>
      (map_err (BridgeError_from bson_text io_text what) (ans_close w client),
       mkTable (issued t) (delete handle (live t)))
  end.

Definition table_call (w : Answers) (c : jcall) (t : Table) : jvalue * option Throwable * Table :=
  match c with
  | JOpen _ | JOpenWithOptions _ _ => table_issue w (table_opens w c) t
  | JCommand handle database command =>
      (match table_command w handle database command t with
       | Ok bytes => (JBytes (Some bytes), None)
       | Err f => (JBytes None, thrown w f)
       end, t)
  | JClose handle =>
      let '(answer, t) := table_close w handle t in
      (JVoid, match answer with Ok _ => None | Err e => thrown w (plainly e) end, t)
  end.

Fixpoint table_calls (cs : list (Answers * jcall)) (t : Table)
    : list (jvalue * option Throwable) * Table :=
  match cs with
  | [] => ([], t)
  | (w, c) :: cs =>
      let '(answer, t) := table_call w c t in
      let '(answers, t) := table_calls cs t in
      (answer :: answers, t)
  end.

(** ** The registry keeps the table *)

(** Every client the registry has is on its own entry, with nobody inside. *)
Record keeps_table (r : Registry) (t : Table) : Prop := {
  kt_counter : counter_wf drawn (counter r);
  kt_next : next_sequence (counter r) = Z.of_nat (issued t) + 1;
  kt_heap : length (heap r) = issued t;
  kt_entries id : entries r !! id = live t !! HandleId_get id;
  kt_live h n : live t !! h = Some n →
    h = handle_of n ∧ (n < issued t)%nat ∧ heap r !! n = Some (mkEntry 0 false true);
}.

Lemma handle_of_pos n : 0 < handle_of n.
Proof. pose proof (process_tag_range drawn). unfold handle_of. lia. Qed.

Lemma keeps_table_new : keeps_table Registry_new (mkTable 0 ∅).
Proof. split; simpl; try done. Qed.

Lemma keeps_table_insert r t :
  keeps_table r t →
  if decide (Z.of_nat (issued t) < u32_max) then
    ∃ r', Registry_insert drawn r = (Some (mkHandleId (handle_of (issued t))), r') ∧
      keeps_table r' (mkTable (S (issued t)) (<[handle_of (issued t) := issued t]> (live t)))
  else ∃ r', Registry_insert drawn r = (None, r') ∧ heap r' = heap r ∧ keeps_table r' t.
Proof.
  intros [Hc Hn Hh He Hl]. destruct (take_next_value drawn (counter r) Hc) as (Hc' & Hlow & Hhigh).
  unfold Registry_insert. destruct (take_next drawn (counter r)) as [id c'] eqn:E.
  simpl in *. case_decide as Hi.
  - destruct Hlow as [-> Hn']; [lia|].
    assert (handle_of (issued t) = process_tag drawn * 2 ^ 32 + next_sequence (counter r)) as Hid
      by (unfold handle_of; lia).
    rewrite <- Hid. eexists. split; [done|]. split; simpl; try done.
    + lia.
    + rewrite length_app. simpl. lia.
    + intros [h]. simpl. rewrite Hh. destruct (decide (h = handle_of (issued t))) as [->|Hne].
      * by rewrite !lookup_insert_eq.
      * rewrite !lookup_insert_ne by congruence. apply He.
    + intros h n. rewrite lookup_insert_Some. intros [[<- <-]|[Hne Hlive]].
      * split_and!; [done|lia|]. rewrite lookup_app_r by lia. by rewrite Hh, Nat.sub_diag.
      * destruct (Hl h n Hlive) as (-> & Hlt & Hheap). split_and!; [done|lia|].
        by apply lookup_app_l_Some.
  - assert (Hs : (id, c') = (None, Spent)) by (apply Hhigh; lia). simplify_eq. eexists. split; [done|]. split; [done|].
    split; simpl; try done.
    destruct (counter r); simpl in *; unfold u32_max, u32_modulus in *; lia.
Qed.

Lemma handle_id_spec handle :
  handle_id handle = if decide (0 < handle) then Ok (mkHandleId handle) else Err (not_open handle).
Proof.
  unfold handle_id, HandleId_new, NonZeroI64_new, not_open.
  destruct (decide (handle = 0)) as [->|Hne]; [done|]. simpl. by destruct (decide (0 < handle)).
Qed.

Lemma java_result {T} (dflt : T) wrap w (answer : result Failed T) :
  java dflt wrap w answer =
    match answer with Ok v => (wrap v, None) | Err f => (wrap dflt, thrown w f) end.
Proof. destruct answer as [v|[e [t|]]]; done. Qed.

Lemma keeps_table_run w r t h n database request :
  keeps_table r t → live t !! h = Some n →
  registry_run_command bson_text io_text what (ans_run w) (mkHandleId h) database request r =
    Some (map_err (BridgeError_from bson_text io_text what) (ans_run w n database request), r).
Proof.
  intros Hk Hlive. destruct (kt_live _ _ Hk h n Hlive) as (_ & _ & Hheap).
  unfold registry_run_command, Registry_lookup. rewrite (kt_entries _ _ Hk). simpl.
  rewrite Hlive, Hheap. simpl. do 2 f_equal. unfold update_entry.
  rewrite list_insert_id by done. by destruct r.
Qed.

Lemma keeps_table_close w r t h :
  keeps_table r t → 0 < h →
  ∃ r', registry_close bson_text io_text what (ans_close w) (mkHandleId h) r
          = Some (fst (table_close w h t), r') ∧
    keeps_table r' (snd (table_close w h t)).
Proof.
  intros Hk Hpos. unfold registry_close, Registry_remove, table_close.
  rewrite (kt_entries _ _ Hk). simpl. destruct (live t !! h) as [n|] eqn:Hlive.
  - destruct (kt_live _ _ Hk h n Hlive) as (Hh & Hlt & Hheap). simpl. rewrite Hheap. simpl.
    eexists. split; [done|]. destruct Hk as [Hc Hn Hheap' He Hl]. split; simpl; try done.
    + by rewrite length_insert.
    + intros [h']. simpl. destruct (decide (h' = h)) as [->|Hne].
      * by rewrite !lookup_delete_eq.
      * rewrite !lookup_delete_ne by congruence. apply He.
    + intros h' n' [Hne Hlive']%lookup_delete_Some.
      destruct (Hl h' n' Hlive') as (-> & Hlt' & Hheap2). split_and!; try done.
      rewrite list_lookup_insert_ne; [done|]. intros ->. congruence.
  - eexists. split; [|done]. simpl. unfold not_open. by rewrite decide_True.
Qed.

Lemma keeps_table_issue w r t :
  keeps_table r t →
  ∃ r', issue bson_text io_text what (ans_close w) drawn r =
      ((if decide (Z.of_nat (issued t) < u32_max) then Ok (handle_of (issued t))
        else Err (spent (map_err (BridgeError_from bson_text io_text what)
                           (ans_close w (issued t))))), r') ∧
    keeps_table r'
      (if decide (Z.of_nat (issued t) < u32_max)
       then mkTable (S (issued t)) (<[handle_of (issued t) := issued t]> (live t)) else t).
Proof.
  intros Hk. pose proof (keeps_table_insert r t Hk) as Hi. unfold issue, registry_insert.
  case_decide.
  - destruct Hi as (r' & -> & Hk'). by exists r'.
  - destruct Hi as (r' & -> & Hheap & Hk'). exists r'. by rewrite Hheap, (kt_heap _ _ Hk).
Qed.

Lemma java_open_table w r t opens :
  keeps_table r t →
  ∃ r', (let '(answer, r) := match opens : result Failed unit with
                             | Err f => (Err f, r)
                             | Ok _ =>
                                 let '(answer, r) := issue bson_text io_text what (ans_close w) drawn r in
                                 (map_err plainly answer, r)
                             end in (java 0 JLong w answer, r))
      = (fst (table_issue w opens t), r') ∧ keeps_table r' (snd (table_issue w opens t)).
Proof.
  intros Hk. destruct opens as [[]|f]; simpl.
  - destruct (keeps_table_issue w r t Hk) as (r' & -> & Hk'). exists r'. rewrite java_result.
    by case_decide.
  - exists r. by rewrite java_result.
Qed.

Lemma java_command_table w handle database command r t :
  keeps_table r t →
  Java_command w handle database command r =
    Some (match table_command w handle database command t with
          | Ok bytes => (JBytes (Some bytes), None)
          | Err f => (JBytes None, thrown w f)
          end, r).
Proof.
  intros Hk. unfold Java_command, native_command, table_command. rewrite handle_id_spec.
  destruct (decide (0 < handle)) as [Hpos|Hneg]; simpl; [|by rewrite java_result].
  destruct (read_string database "database") as [db|f]; simpl; [|by rewrite java_result].
  destruct command as [command|]; simpl; [|by rewrite java_result].
  destruct command as [request|f]; simpl; [|by rewrite java_result].
  destruct (live t !! handle) as [n|] eqn:Hlive; simpl.
  - rewrite (keeps_table_run w r t handle n) by done. simpl. rewrite java_result.
    destruct (ans_run w n db request) as [response|e]; simpl; [|done].
    by destruct (ans_array w response).
  - unfold registry_run_command, Registry_lookup. rewrite (kt_entries _ _ Hk). simpl.
    rewrite Hlive. simpl. rewrite java_result. unfold not_open. by rewrite decide_True.
Qed.

Lemma java_close_table w handle r t :
  keeps_table r t →
  ∃ r', Java_close w handle r = Some (fst (table_call w (JClose handle) t), r') ∧
    keeps_table r' (snd (table_call w (JClose handle) t)).
Proof.
  intros Hk. unfold Java_close, native_close. rewrite handle_id_spec. simpl.
  destruct (decide (0 < handle)) as [Hpos|Hneg].
  - destruct (keeps_table_close w r t handle Hk Hpos) as (r' & -> & Hk'). exists r'. simpl.
    rewrite java_result. destruct (table_close w handle t) as [[[]|e] t']; by simpl in *.
  - exists r. simpl. rewrite java_result. unfold table_close.
    destruct (live t !! handle) as [n|] eqn:Hlive; [|done].
    destruct (kt_live _ _ Hk _ _ Hlive) as (-> & _). pose proof (handle_of_pos n). lia.
Qed.

Lemma java_call_table w c r t :
  keeps_table r t →
  ∃ r', java_call w c r = Some (fst (table_call w c t), r') ∧ keeps_table r' (snd (table_call w c t)).
Proof.
  intros Hk. destruct c as [path|path options|handle database command|handle].
  - destruct (java_open_table w r t (table_opens w (JOpen path)) Hk) as (r' & Ho & Hk').
    exists r'. split; [|done]. cbn [java_call table_call]. f_equal. exact Ho.
  - destruct (java_open_table w r t (table_opens w (JOpenWithOptions path options)) Hk)
      as (r' & Ho & Hk').
    exists r'. split; [|done]. cbn [java_call table_call]. f_equal. exact Ho.
  - exists r. simpl. split; [|done]. by apply java_command_table.
  - by apply java_close_table.
Qed.

Lemma java_calls_table cs r t :
  keeps_table r t →
  ∃ r', java_calls cs r = Some (fst (table_calls cs t), r') ∧ keeps_table r' (snd (table_calls cs t)).
Proof.
  revert r t. induction cs as [|[w c] cs IH]; intros r t Hk; [by exists r|].
  cbn [java_calls table_calls]. destruct (java_call_table w c r t Hk) as (r1 & -> & Hk1).
  destruct (table_call w c t) as [answer t1]. simpl in *.
  destruct (IH r1 t1 Hk1) as (r2 & -> & Hk2). destruct (table_calls cs t1) as [answers t2].
  by exists r2.
Qed.

(** Handles are told apart by the client they were issued for. *)
Lemma handle_of_inj n n' : handle_of n = handle_of n' → n = n'.
Proof. unfold handle_of. lia. Qed.

Lemma table_call_retired w c t n :
  (n < issued t)%nat → live t !! handle_of n = None →
  (n < issued (snd (table_call w c t)))%nat ∧ live (snd (table_call w c t)) !! handle_of n = None.
Proof.
  intros Hlt Hn.
  assert (∀ opens, (n < issued (snd (table_issue w opens t)))%nat ∧
    live (snd (table_issue w opens t)) !! handle_of n = None) as Hopen.
  { intros [[]|e]; simpl; [|done]. case_decide; simpl; [|done]. split; [lia|].
    rewrite lookup_insert_ne; [done|]. intros Heq%handle_of_inj. lia. }
  destruct c as [path|path options|handle database command|handle]; simpl; auto.
  unfold table_close. destruct (live t !! handle) eqn:Hl; [|done]. simpl. split; [done|].
  rewrite lookup_delete_None. by right.
Qed.

Lemma table_calls_retired cs t n :
  (n < issued t)%nat → live t !! handle_of n = None →
  live (snd (table_calls cs t)) !! handle_of n = None.
Proof.
  revert t. induction cs as [|[w c] cs IH]; intros t Hlt Hn; [done|].
  cbn [table_calls]. destruct (table_call_retired w c t n Hlt Hn) as [Hlt' Hn'].
  destruct (table_call w c t) as [answer t']. simpl in *.
  specialize (IH t' Hlt' Hn'). by destruct (table_calls cs t').
Qed.

Lemma table_calls_app cs1 cs2 t :
  snd (table_calls (cs1 ++ cs2) t) = snd (table_calls cs2 (snd (table_calls cs1 t))).
Proof.
  revert t. induction cs1 as [|[w c] cs1 IH]; intros t; [done|].
  cbn [app table_calls]. destruct (table_call w c t) as [answer t']. specialize (IH t').
  destruct (table_calls (cs1 ++ cs2) t') as [a1 t1], (table_calls cs1 t') as [a2 t2]. done.
Qed.

(** C31. Any sequence of the four native methods whose bodies do not panic, whatever the engine
    and the JVM answer, is answered as by a table from open handles to clients: an open adds the
    handle of a new client, a command runs on the handle's own client, a close removes it, every
    other handle is refused as closed, and a handle that was closed never comes back. What is
    pending after a failure is the exception a failed JNI call left, or else the error's own as
    far as the JVM takes it. *)
Theorem java_sees_a_table_of_open_handles cs :
  let t := snd (table_calls cs (mkTable 0 ∅)) in
  ∃ r, java_calls cs Registry_new = Some (fst (table_calls cs (mkTable 0 ∅)), r) ∧
    (∀ h, is_Some (live t !! h) ↔ ∃ id, HandleId_new h = Some id ∧ is_Some (entries r !! id)) ∧
    (∀ n later, (n < issued t)%nat → live t !! handle_of n = None →
       live (snd (table_calls (cs ++ later) (mkTable 0 ∅))) !! handle_of n = None).
Proof.
  destruct (java_calls_table cs Registry_new _ keeps_table_new) as (r & -> & Hk).
  exists r. split_and!; [done| |].
  - intros h. split.
    + intros [n Hn]. destruct (kt_live _ _ Hk h n Hn) as (Hh & _). pose proof (handle_of_pos n).
      exists (mkHandleId h). unfold HandleId_new, NonZeroI64_new.
      rewrite decide_False by lia. simpl. rewrite decide_True by lia. split; [done|].
      rewrite (kt_entries _ _ Hk). simpl. by exists n.
    + intros (id & Hid & Hin). rewrite (kt_entries _ _ Hk) in Hin.
      unfold HandleId_new, NonZeroI64_new in Hid. case_decide; [done|]. simpl in Hid.
      case_decide; [|done]. by simplify_eq.
  - intros n later Hlt Hn. rewrite table_calls_app. by apply table_calls_retired.
Qed.
End api.

(** ** A session *)

Module Session.
Definition works : Jvm := mkJvm None None None None ThrowOk None true.
Definition text {A : Type} (_ : A) : string := EmptyString.
Definition answers : Answers (BE:=Empty_set) (IOE:=Empty_set) (X:=Empty_set) (D:=Empty_set) :=
  mkAnswers (λ _ _, Ok tt) (λ client _ request, Ok (Z.of_nat client :: request)) (λ _, Ok tt)
    (λ _, None) works.
Definition opens : jcall := JOpen (Some (Ok "/data"%string)).
Definition command_on (h : Z) : jcall := JCommand h (Some (Ok "db"%string)) (Some (Ok [7])).

(** Two clients, one closed; the commands that follow, and the second close of a handle. *)
Example two_clients :
  let h1 := 2 ^ 32 + 1 in let h2 := 2 ^ 32 + 2 in
  let closed_error := Some (EmbeddedMongoException
    "embedded MongoDB handle 4294967297 is unknown or already closed" (-1)) in
  fst <$> java_calls text text text 1
    ((λ c, (answers, c)) <$> [opens; opens; command_on h1; command_on h2; JClose h1; command_on h1; command_on h2;
                           JClose h1])
    Registry_new
  = Some [(JLong h1, None); (JLong h2, None); (JBytes (Some [0; 7]), None);
          (JBytes (Some [1; 7]), None); (JVoid, None); (JBytes None, closed_error);
          (JBytes (Some [1; 7]), None); (JVoid, closed_error)].
Proof. vm_compute. reflexivity. Qed.

(** The JVM has no room for the reply: Java gets the JVM's own OutOfMemoryError, not an
    EmbeddedMongoException, though the command was run. *)
Example no_room_for_the_reply :
  let full := mkAnswers (ans_open answers) (ans_run answers) (ans_close answers)
    (λ _, Some (mkJniFailure "Java exception was thrown" (Some OtherThrowable))) works in
  fst <$> java_calls text text text 1 [(answers, opens); (full, command_on (2 ^ 32 + 1))] Registry_new
  = Some [(JLong (2 ^ 32 + 1), None); (JBytes None, Some OtherThrowable)].
Proof. vm_compute. reflexivity. Qed.
End Session.
