(* ===== verification/Rendezvous.v ===== *)
(** * Where one mover waits for another

    [src/limits/rendezvous.rs]: the pause of the engine the floors are tested on. The first
    mover into the index-build knob is held until a second arrives or its patience runs out, so
    that a test of the floors' lock cannot pass because nothing raced. The movers are threads
    that come to the knob, with the lock of [FloorMoves] around their move or without it. *)
From S2P Require Import Prelude.

Definition MOVERS : nat := 2.

(** The count behind its mutex; the condition variable is the waiting threads themselves. *)
Record Rendezvous := mkRendezvous { arrived : nat }.

Definition Rendezvous_new : Rendezvous := mkRendezvous 0.

(** [wait_for_another] up to where it returns or waits: [true] returns. *)
Definition wait_for_another (r : Rendezvous) : bool * Rendezvous :=
  let r := mkRendezvous (S (arrived r)) in (bool_decide (MOVERS ≤ arrived r)%nat, r).

(** The wait goes on while this holds. *)
Definition waits_on (r : Rendezvous) : bool := bool_decide (arrived r < MOVERS)%nat.

Inductive mover :=
| Away                (* not begun *)
| Moving              (* inside its move, before the knob *)
| AtKnob              (* in [wait_timeout_while] *)
| PastKnob            (* [wait_for_another] returned *)
| Over.

#[export] Instance mover_eq_dec : EqDecision mover.
Proof. solve_decision. Defined.

Record msystem := mkMsystem {
  rendezvous : Rendezvous;
  holder : option nat;    (* who has the lock of the moves, where there is one *)
  movers : list mover;
  impatient : Z;          (* ghost: the waits that ended because time ran out *)
}.

(** [serialised]: the moves are made under the lock. *)
Inductive mstep (serialised : bool) : msystem → msystem → Prop :=
| m_begin r h ms n i :
    ms !! i = Some Away → (serialised = true → h = None) →
    mstep serialised (mkMsystem r h ms n)
      (mkMsystem r (if serialised then Some i else None) (<[i := Moving]> ms) n)
| m_arrive r r' h ms n i (returns : bool) :
    ms !! i = Some Moving → wait_for_another r = (returns, r') →
    mstep serialised (mkMsystem r h ms n)
      (mkMsystem r' h (<[i := if returns then PastKnob else AtKnob]> ms) n)
| m_woken r h ms n i :
    ms !! i = Some AtKnob → waits_on r = false →
    mstep serialised (mkMsystem r h ms n) (mkMsystem r h (<[i := PastKnob]> ms) n)
| m_impatient r h ms n i :
    ms !! i = Some AtKnob →
    mstep serialised (mkMsystem r h ms n) (mkMsystem r h (<[i := PastKnob]> ms) (n + 1))
| m_end r h ms n i :
    ms !! i = Some PastKnob →
    mstep serialised (mkMsystem r h ms n) (mkMsystem r None (<[i := Over]> ms) n).

Definition mstart (movers : nat) : msystem :=
  mkMsystem Rendezvous_new None (replicate movers Away) 0.

Definition has_arrived (m : mover) : bool :=
  match m with AtKnob | PastKnob | Over => true | _ => false end.
Definition let_past (m : mover) : bool := match m with PastKnob | Over => true | _ => false end.
Definition inside (m : mover) : bool :=
  match m with Moving | AtKnob | PastKnob => true | _ => false end.

(** Every arrival is counted; nobody is past the knob before there were two, unless time ran
    out; under the lock one mover is inside, the one that has it. *)
Record minv (serialised : bool) (s : msystem) : Prop := {
  mi_arrived : Z.of_nat (arrived (rendezvous s)) = count has_arrived (movers s);
  mi_patient : 0 ≤ impatient s;
  mi_past : impatient s = 0 → 0 < count let_past (movers s) → (MOVERS ≤ arrived (rendezvous s))%nat;
  mi_alone : serialised = true →
    ∀ i m, movers s !! i = Some m → inside m = true → holder s = Some i;
}.

Ltac moved H :=
  rewrite ?(count_insert _ _ _ _ _ H) in *; simpl in *.

(** Under the lock a step of mover [i] leaves nobody but [i] inside. *)
Lemma alone_insert (h : option nat) (ms : list mover) (i : nat) m m' :
  (∀ j m, ms !! j = Some m → inside m = true → h = Some j) → ms !! i = Some m → inside m = true →
  ∀ j x, <[i := m']> ms !! j = Some x → inside x = true → h = Some j.
Proof.
  intros Ha Hi Hm j x Hj Hx. destruct (decide (j = i)) as [->|Hne]; [by eapply Ha|].
  rewrite list_lookup_insert_ne in Hj by done. by eapply Ha.
Qed.

Lemma minv_step serialised s s' : mstep serialised s s' → minv serialised s → minv serialised s'.
Proof.
  intros Hstep [Ha Hp Hpast Hal].
  destruct Hstep as [r h ms n i Hi Hh|r r' h ms n i returns Hi Hw|r h ms n i Hi Hw|r h ms n i Hi
                    |r h ms n i Hi]; simpl in *.
  - constructor; simpl; moved Hi; try lia.
    intros ->. specialize (Hh eq_refl) as ->. intros j m Hj Hm.
    destruct (decide (j = i)) as [->|Hne]; [done|].
    rewrite list_lookup_insert_ne in Hj by done. by specialize (Hal eq_refl j m Hj Hm).
  - unfold wait_for_another in Hw. injection Hw as Hret <-. constructor; simpl.
    + rewrite (count_insert _ _ _ _ _ Hi). destruct returns; simpl; lia.
    + done.
    + rewrite (count_insert _ _ _ _ _ Hi). intros Hn Hc. destruct returns; simpl in *.
      * by apply bool_decide_eq_true in Hret.
      * assert (MOVERS ≤ arrived r)%nat by (apply Hpast; [done|lia]). lia.
    + intros Hs. eapply alone_insert; eauto.
  - constructor; simpl; moved Hi; try lia.
    + intros _ _. unfold waits_on in Hw. apply bool_decide_eq_false in Hw. lia.
    + intros Hs. eapply alone_insert; eauto.
  - constructor; simpl; moved Hi; try lia. intros Hs. eapply alone_insert; eauto.
  - constructor; simpl; moved Hi; try lia.
    intros -> j m Hj Hm. destruct (decide (j = i)) as [->|Hne].
    + rewrite list_lookup_insert_eq in Hj by (by eapply lookup_lt_Some). by simplify_eq.
    + rewrite list_lookup_insert_ne in Hj by done.
      pose proof (Hal eq_refl j m Hj Hm). pose proof (Hal eq_refl i PastKnob Hi eq_refl).
      by simplify_eq.
Qed.

Lemma minv_start serialised n : minv serialised (mstart n).
Proof.
  constructor; simpl; rewrite ?count_replicate; simpl; try lia.
  intros _ i m [-> _]%lookup_replicate_1. done.
Qed.

Lemma minv_reachable serialised n s : rtc (mstep serialised) (mstart n) s → minv serialised s.
Proof.
  intros Hr. apply (invariant_reachable (mstep serialised) (λ s, s = mstart n)); [|by exists (mstart n)].
  split; [intros ? ->; apply minv_start|]. intros s1 s2 Hs1 Hstep. by eapply minv_step.
Qed.

(** What makes the test of the lock worth running. Without the lock, and while nobody's patience
    runs out, a mover is past the index-build knob only once another has reached it too: the two
    moves overlap in every run. With the lock no second mover can be there, so the first is let
    go by its patience alone. Nobody waits for ever either way. *)
Theorem the_rendezvous_makes_unlocked_movers_overlap serialised n s :
  rtc (mstep serialised) (mstart n) s →
  (impatient s = 0 → ∀ i m, movers s !! i = Some m → let_past m = true →
     2 ≤ count has_arrived (movers s)) ∧
  (serialised = true → ∀ i j m m', movers s !! i = Some m → movers s !! j = Some m' →
     inside m = true → inside m' = true → i = j) ∧
  (∀ i, movers s !! i = Some AtKnob → ∃ s', mstep serialised s s' ∧ movers s' !! i = Some PastKnob).
Proof.
  intros Hr. destruct (minv_reachable _ _ _ Hr) as [Ha Hp Hpast Hal]. split_and!.
  - intros Hn i m Hi Hm. assert (MOVERS ≤ arrived (rendezvous s))%nat as Hle.
    { apply Hpast; [done|]. apply count_pos. exists m. split; [|done].
      by eapply list_elem_of_lookup_2. }
    unfold MOVERS in Hle. lia.
  - intros Hs i j m m' Hi Hj Hm Hm'.
    pose proof (Hal Hs i m Hi Hm). pose proof (Hal Hs j m' Hj Hm'). congruence.
  - intros i Hi. destruct s as [r h ms k]. simpl in *. eexists. split; [by eapply m_impatient|].
    simpl. apply list_lookup_insert_eq. by eapply lookup_lt_Some.
Qed.
