(* ===== verification/BenchDir.v ===== *)
(** * The data directory of the places benchmark

    [examples/places-benchmark/datadir.rs]. The benchmark deletes the directory it is pointed at
    before every run, so what matters is what it refuses to delete. What lies at a path is a
    tree; a symbolic link is a leaf of it that carries what it leads to, all links followed.
    Every operation that writes to the disk may fail, and a removal that fails may have removed
    any part of what it was asked to. The benchmark is run in release mode, where the additions
    and subtractions of a [u64] wrap. *)
From S2P Require Import Prelude.

Definition u64_modulus : Z := 2 ^ 64.
Definition u64_add (a b : Z) : Z := (a + b) mod u64_modulus.
Definition u64_sub (a b : Z) : Z := (a - b) mod u64_modulus.

(** ** What lies at a path *)

Inductive node :=
| NFile (len : Z)
| NDir (readable : bool) (entries : list (string * node))
| NLink (len : Z) (target : option node).

(** A path as the calls that follow links see it; nothing where the link dangles. *)
Definition follow (n : node) : option node :=
  match n with NLink _ target => target | _ => Some n end.

Fixpoint named (name : string) (entries : list (string * node)) : option node :=
  match entries with
  | [] => None
  | (other, n) :: entries => if decide (name = other) then Some n else named name entries
  end.

(** [path.join(name)], for a path that leads to [place]. *)
Definition join_at (place : option node) (name : string) : option node :=
  match place ≫= follow with
  | Some (NDir true entries) => named name entries
  | _ => None
  end.

(** [Path::exists] and [Path::is_dir] *)
Definition exists_at (place : option node) : bool :=
  match place ≫= follow with Some _ => true | None => false end.
Definition is_dir_at (place : option node) : bool :=
  match place ≫= follow with Some (NDir _ _) => true | _ => false end.

Inductive DirError := NotReadable | NotOurs | CouldNotClear | IoFailed.

(** [std::fs::read_dir] *)
Definition read_dir (place : option node) : result DirError (list (string * node)) :=
  match place ≫= follow with
  | Some (NDir true entries) => Ok entries
  | _ => Err IoFailed
  end.

(** How the disk fails: what a removal that fails leaves, whether a directory cannot be made,
    and what of a file that cannot be written is there. *)
Record Faults := mkFaults {
  removal_fails : option (option node);
  creation_fails : bool;
  write_fails : option (option Z);
}.

Definition no_faults : Faults := mkFaults None false None.

(** [std::fs::remove_dir_all]: a link goes itself, a file is refused. *)
Definition remove_dir_all (f : Faults) (place : option node)
    : result DirError unit * option node :=
  match place with
  | None | Some (NFile _) => (Err IoFailed, place)
  | Some _ =>
      match removal_fails f with
      | Some rest => (Err IoFailed, rest)
      | None => (Ok tt, None)
      end
  end.

(** [std::fs::create_dir_all]: what leads to a directory will do. *)
Definition create_dir_all (f : Faults) (place : option node)
    : result DirError unit * option node :=
  match place with
  | None => if creation_fails f then (Err IoFailed, None) else (Ok tt, Some (NDir true []))
  | Some _ => (if is_dir_at place then Ok tt else Err IoFailed, place)
  end.

Fixpoint set_named (name : string) (n : node) (entries : list (string * node))
    : list (string * node) :=
  match entries with
  | [] => [(name, n)]
  | (other, m) :: entries =>
      if decide (name = other) then (name, n) :: entries else (other, m) :: set_named name n entries
  end.

(** [std::fs::write] of a file in the directory at [place]. *)
Definition write_in (f : Faults) (place : option node) (name : string) (len : Z)
    : result DirError unit * option node :=
  let put len :=
    match place with
    | Some (NDir true entries) => Some (NDir true (set_named name (NFile len) entries))
    | Some (NLink l (Some (NDir true entries))) =>
        Some (NLink l (Some (NDir true (set_named name (NFile len) entries))))
    | _ => place
    end in
  match place ≫= follow with
  | Some (NDir true _) =>
      match write_fails f with
      | Some None => (Err IoFailed, place)
      | Some (Some written) => (Err IoFailed, put written)
      | None => (Ok tt, put len)
      end
  | _ => (Err IoFailed, place)
  end.

(** ** [datadir.rs] *)

Inductive Unrecognised := Refuse | Delete.

Definition MARKER : string := ".places-benchmark".
Definition MARKER_CONTENTS : string :=
"Created by `cargo run --release --example places-benchmark`.
This directory is deleted and rebuilt from the seed on every run.
".

Definition check_removable (place : option node) (unrecognised : Unrecognised)
    : result DirError unit :=
  if (match unrecognised with Delete => true | Refuse => false end) || exists_at (join_at place MARKER)
  then Ok tt
  else
    let? entries := map_err (λ _, NotReadable) (read_dir place) in
    match entries with
    | [] => Ok tt
    | _ => Err NotOurs
    end.

Definition prepare (f : Faults) (place : option node) (unrecognised : Unrecognised)
    : result DirError unit * option node :=
  let cleared :=
    if exists_at place then
      match check_removable place unrecognised with
      | Err e => (Err e, place)
      | Ok _ =>
          let '(removed, place) := remove_dir_all f place in
          (map_err (λ _, CouldNotClear) removed, place)
      end
    else (Ok tt, place) in
  match cleared with
  | (Err e, place) => (Err e, place)
  | (Ok _, place) =>
      match create_dir_all f place with
      | (Err e, place) => (Err e, place)
      | (Ok _, place) => write_in f place MARKER (Z.of_nat (String.length MARKER_CONTENTS))
      end
  end.

Record Footprint := mkFootprint { total : Z; journal : Z }.

(** An entry as its own metadata has it: [directory_bytes] goes into directories and takes the
    length of everything else, links included. *)
Fixpoint entry_bytes (n : node) : result DirError Z :=
  match n with
  | NFile len | NLink len _ => Ok len
  | NDir true entries =>
      (fix sum (total : Z) (entries : list (string * node)) : result DirError Z :=
         match entries with
         | [] => Ok total
         | (_, entry) :: entries =>
             let? bytes := entry_bytes entry in sum (u64_add total bytes) entries
         end) 0 entries
  | NDir false _ => Err IoFailed
  end.

Definition directory_bytes (place : option node) : result DirError Z :=
  match place ≫= follow with
  | Some (NDir readable entries) => entry_bytes (NDir readable entries)
  | _ => Err IoFailed
  end.

Section footprint.
(** What the file system says the length of a directory is. *)
Context (directory_len : list (string * node) → Z).

(** [Path::metadata], its length *)
Definition metadata_len (place : option node) : option Z :=
  match place ≫= follow with
  | Some (NFile len) | Some (NLink len _) => Some len
  | Some (NDir _ entries) => Some (directory_len entries)
  | None => None
  end.

Definition footprint (place : option node) : result DirError Footprint :=
  let marker_bytes := match metadata_len (join_at place MARKER) with Some len => len | None => 0 end in
  let journal_path := join_at place "journal" in
  let? journal := if is_dir_at journal_path then directory_bytes journal_path else Ok 0 in
  let? bytes := directory_bytes place in
  Ok (mkFootprint (u64_sub bytes marker_bytes) journal).
End footprint.

(** The report's "of which tables and catalog". *)
Definition tables_and_catalog (on_disk : Footprint) : Z := u64_sub (total on_disk) (journal on_disk).

(** ** What is deleted *)

(** What the benchmark takes for its own, or is told to delete. *)
Definition may_be_cleared (place : option node) (unrecognised : Unrecognised) : Prop :=
  unrecognised = Delete ∨ exists_at (join_at place MARKER) = true ∨ read_dir place = Ok [].

#[export] Instance DirError_eq_dec : EqDecision DirError.
Proof. solve_decision. Defined.

Lemma check_removable_ok place unrecognised :
  check_removable place unrecognised = Ok tt ↔ may_be_cleared place unrecognised.
Proof.
  unfold check_removable, may_be_cleared.
  destruct unrecognised, (exists_at (join_at place MARKER)); simpl; try naive_solver.
  destruct (read_dir place) as [[|]|]; simpl; naive_solver.
Qed.

Lemma check_removable_err place unrecognised e :
  check_removable place unrecognised = Err e → e = NotOurs ∨ e = NotReadable.
Proof.
  unfold check_removable. destruct (_ || _); [done|].
  destruct (read_dir place) as [[|]|]; simpl; naive_solver.
Qed.

Definition fresh_directory : node :=
  NDir true [(MARKER, NFile (Z.of_nat (String.length MARKER_CONTENTS)))].

(** Where nothing is, what is built is the marked directory. *)
Lemma built_ok f p p' :
  exists_at p = false →
  match create_dir_all f p with
  | (Err e, p) => (Err e, p)
  | (Ok _, p) => write_in f p MARKER (Z.of_nat (String.length MARKER_CONTENTS))
  end = (Ok tt, p') → p' = Some fresh_directory.
Proof.
  unfold create_dir_all. destruct p as [n|].
  - unfold exists_at, is_dir_at. destruct (Some n ≫= follow); done.
  - intros _. destruct (creation_fails f); [done|]. unfold write_in. cbn [mbind option_bind follow].
    destruct (write_fails f) as [[]|]; [done..|]. by intros [= <-].
Qed.

Lemma removed_ok f p p' : remove_dir_all f p = (Ok tt, p') → p' = None.
Proof. unfold remove_dir_all. destruct p as [[]|]; try done; destruct (removal_fails f); naive_solver. Qed.

Lemma prepare_refuses f place unrecognised r place' :
  prepare f place unrecognised = (r, place') → exists_at place = true →
  ¬ may_be_cleared place unrecognised → place' = place ∧ (r = Err NotOurs ∨ r = Err NotReadable).
Proof.
  unfold prepare. intros Hp Hex Hours. rewrite Hex in Hp.
  destruct (check_removable place unrecognised) as [[]|e] eqn:Hc.
  { by apply check_removable_ok in Hc. }
  simplify_eq. split; [done|]. apply check_removable_err in Hc. naive_solver.
Qed.

Lemma prepare_ok f place unrecognised place' :
  prepare f place unrecognised = (Ok tt, place') → place' = Some fresh_directory.
Proof.
  unfold prepare. intros Hp.
  destruct (exists_at place) eqn:Hex; [|by apply (built_ok f place)].
  destruct (check_removable place unrecognised) as [[]|]; [|done].
  destruct (remove_dir_all f place) as [[[]|] p] eqn:Hrm; [|done]. cbn [map_err] in Hp.
  apply removed_ok in Hrm as ->. by apply (built_ok f None).
Qed.

Lemma prepare_works place unrecognised r place' :
  prepare no_faults place unrecognised = (r, place') →
  r = Ok tt ↔ place = None ∨
    (exists_at place = true ∧ may_be_cleared place unrecognised ∧
     ∀ len, place ≠ Some (NFile len)).
Proof.
  unfold prepare. intros Hp. rewrite <- check_removable_ok.
  destruct (exists_at place) eqn:Hex.
  - destruct place as [n|]; [|done].
    destruct (check_removable _ _) as [[]|e]; simplify_eq; [|naive_solver].
    destruct n as [len|readable entries|len target]; simplify_eq/=.
    + split; [done|]. intros [?|(_ & _ & H)]; [done|]. by destruct (H len).
    + unfold write_in in Hp. simplify_eq/=. split; [|done]. intros _. right. by split_and!.
    + unfold write_in in Hp. simplify_eq/=. split; [|done]. intros _. right. by split_and!.
  - destruct place as [n|]; simplify_eq/=;
      [|unfold write_in in Hp; simplify_eq/=; naive_solver].
    assert (is_dir_at (Some n) = false) as Hd.
    { unfold exists_at in Hex. unfold is_dir_at. by destruct (Some n ≫= follow). }
    rewrite Hd in Hp. simplify_eq. naive_solver.
Qed.

(** A benchmark deletes only its own: where something lies at the path that has no marker and is
    no empty directory, and nothing was forced, it is left exactly as it was and the run stops.
    A preparation that succeeds leaves a directory with the marker alone, so the next run
    recognises it; and without a fault it succeeds exactly where nothing was there, or what was
    there may be cleared and is no file. *)
Theorem a_benchmark_deletes_only_its_own f place unrecognised r place' :
  prepare f place unrecognised = (r, place') →
  (exists_at place = true → ¬ may_be_cleared place unrecognised →
     place' = place ∧ (r = Err NotOurs ∨ r = Err NotReadable)) ∧
  (r = Ok tt → place' = Some fresh_directory) ∧
  (f = no_faults →
     r = Ok tt ↔ place = None ∨
       (exists_at place = true ∧ may_be_cleared place unrecognised ∧
        ∀ len, place ≠ Some (NFile len))).
Proof.
  intros Hp. split_and!; [by apply (prepare_refuses f)| |].
  - intros ->. by apply prepare_ok in Hp.
  - intros ->. by apply (prepare_works _ _ _ _ Hp).
Qed.

(** ** What is counted *)

Section node_ind.
Context (P : node → Prop) (Hfile : ∀ len, P (NFile len)) (Hlink : ∀ len t, P (NLink len t)).
Context (Hdir : ∀ r entries, Forall (λ e, P (snd e)) entries → P (NDir r entries)).

Fixpoint node_tree_ind (n : node) : P n :=
  match n with
  | NFile len => Hfile len
  | NLink len t => Hlink len t
  | NDir r entries =>
      Hdir r entries
        ((fix all (l : list (string * node)) : Forall (λ e, P (snd e)) l :=
            match l with
            | [] => Forall_nil_2 _
            | e :: l => Forall_cons_2 _ _ _ (node_tree_ind (snd e)) (all l)
            end) entries)
  end.
End node_ind.

(** Everything can be read, and lengths are lengths. *)
Fixpoint tidy (n : node) : bool :=
  match n with
  | NFile len | NLink len _ => 0 <=? len
  | NDir readable entries => readable && forallb (λ e, tidy (snd e)) entries
  end.

(** The bytes of a tree, unbounded. *)
Fixpoint size (n : node) : Z :=
  match n with
  | NFile len | NLink len _ => len
  | NDir _ entries => foldr (λ e total, size (snd e) + total) 0 entries
  end.

Definition sizes (entries : list (string * node)) : Z := size (NDir true entries).

Lemma sizes_cons name n entries : sizes ((name, n) :: entries) = size n + sizes entries.
Proof. done. Qed.

Lemma size_nonneg n : tidy n = true → 0 ≤ size n.
Proof.
  induction n as [len|len t|r entries IH] using node_tree_ind; simpl; [apply Z.leb_le..|].
  intros [_ Ht]%andb_prop. induction IH as [|[name n] entries Hn _ IH]; simpl in *; [lia|].
  apply andb_prop in Ht as [H1 H2]. specialize (IH H2). specialize (Hn H1). lia.
Qed.

Lemma u64_add_exact a b : 0 ≤ a + b < u64_modulus → u64_add a b = a + b.
Proof. apply Z.mod_small. Qed.

Lemma u64_sub_exact a b : 0 ≤ a - b < u64_modulus → u64_sub a b = a - b.
Proof. apply Z.mod_small. Qed.

Lemma entry_bytes_size n :
  tidy n = true → size n < u64_modulus → entry_bytes n = Ok (size n).
Proof.
  induction n as [len|len t|r entries IH] using node_tree_ind; [done..|].
  cbn [tidy]. intros [-> Ht]%andb_prop Hlt. cbn [entry_bytes].
  enough (∀ acc, 0 ≤ acc → acc + sizes entries < u64_modulus →
    (fix sum (total : Z) (entries : list (string * node)) : result DirError Z :=
       match entries with
       | [] => Ok total
       | (_, entry) :: entries =>
           let? bytes := entry_bytes entry in sum (u64_add total bytes) entries
       end) acc entries = Ok (acc + sizes entries)) as Hsum by (rewrite Hsum; [done|lia|done]).
  clear Hlt. induction IH as [|[name n] entries Hn _ IH]; intros acc Hacc Hlt.
  { unfold sizes; simpl. by rewrite Z.add_0_r. }
  simpl in Ht, Hn. apply andb_prop in Ht as [Hn1 Ht]. rewrite sizes_cons in *.
  pose proof (size_nonneg n Hn1).
  assert (0 ≤ sizes entries) by (apply size_nonneg; simpl; done).
  rewrite Hn by (done || lia). cbn [result_bind].
  rewrite u64_add_exact by lia. rewrite IH by (done || lia). f_equal. lia.
Qed.

(** What the entries other than the one of this name take. *)
Definition without (name : string) (entries : list (string * node)) : list (string * node) :=
  filter (λ e, fst e ≠ name) entries.

Definition named_size (name : string) (entries : list (string * node)) : Z :=
  match named name entries with Some n => size n | None => 0 end.

Lemma named_None name entries : name ∉ (fst <$> entries) → named name entries = None.
Proof.
  induction entries as [|[other n] entries IH]; csimpl; [done|].
  intros [Hne Hin]%not_elem_of_cons. case_decide; [done|auto].
Qed.

Lemma without_absent name entries : name ∉ (fst <$> entries) → without name entries = entries.
Proof.
  induction entries as [|[other n] entries IH]; csimpl; [done|].
  intros [Hne Hin]%not_elem_of_cons. unfold without. rewrite filter_cons_True by done.
  f_equal. by apply IH.
Qed.

Lemma sizes_without name entries :
  NoDup (fst <$> entries) → sizes entries = named_size name entries + sizes (without name entries).
Proof.
  unfold named_size. induction entries as [|[other n] entries IH]; csimpl; [done|].
  intros [Hin Hnd]%NoDup_cons. rewrite sizes_cons. case_decide as Heq.
  - subst other. unfold without. rewrite filter_cons_False by (simpl; naive_solver).
    change (sizes (filter _ entries)) with (sizes (without name entries)).
    by rewrite without_absent.
  - unfold without. rewrite filter_cons_True by done. rewrite sizes_cons.
    change (sizes (filter _ entries)) with (sizes (without name entries)). rewrite (IH Hnd). lia.
Qed.

Lemma sizes_nonneg entries : tidy (NDir true entries) = true → 0 ≤ sizes entries.
Proof. apply size_nonneg. Qed.

Lemma without_tidy name entries :
  tidy (NDir true entries) = true → tidy (NDir true (without name entries)) = true.
Proof.
  simpl. rewrite !forallb_forall. intros H e He%list_elem_of_In.
  apply H, list_elem_of_In. by apply list_elem_of_filter in He as [_ He].
Qed.

Lemma without_names name entries :
  NoDup (fst <$> entries) → NoDup (fst <$> without name entries).
Proof.
  unfold without. induction entries as [|[other n] entries IH]; csimpl; [done|].
  intros [Hin Hnd]%NoDup_cons. rewrite filter_cons. case_decide; csimpl; [|auto].
  constructor; [|auto]. intros (e & He & Hf)%list_elem_of_fmap. apply Hin.
  apply list_elem_of_filter in Hf as [_ Hf]. rewrite He. by apply list_elem_of_fmap_2.
Qed.

Lemma named_without name other entries :
  name ≠ other → named name (without other entries) = named name entries.
Proof.
  intros Hne. unfold without. induction entries as [|[k n] entries IH]; csimpl; [done|].
  rewrite filter_cons. case_decide; simpl; [by rewrite IH|]. case_decide; [|done].
  exfalso. naive_solver.
Qed.

Lemma named_tidy name entries n :
  tidy (NDir true entries) = true → named name entries = Some n → tidy n = true.
Proof.
  simpl. induction entries as [|[other m] entries IH]; simpl; [done|].
  intros [Hm Hes]%andb_prop. case_decide; [congruence|auto].
Qed.

Section counted.
Context (directory_len : list (string * node) → Z) (entries : list (string * node)).
Context (Hnames : NoDup (fst <$> entries)) (Htidy : tidy (NDir true entries) = true).
Context (Hsize : sizes entries < u64_modulus).
Local Abbreviation place := (Some (NDir true entries)).

Lemma directory_bytes_sizes : directory_bytes place = Ok (sizes entries).
Proof using Htidy Hsize. apply (entry_bytes_size (NDir true entries)); done. Qed.

Lemma marker_len :
  (∀ n, named MARKER entries = Some n → ∃ len, n = NFile len) →
  match metadata_len directory_len (join_at place MARKER) with Some len => len | None => 0 end
  = named_size MARKER entries.
Proof.
  intros Hm. unfold metadata_len, named_size. cbn [join_at mbind option_bind follow].
  destruct (named MARKER entries) as [n|]; [|done]. by destruct (Hm n eq_refl) as [len ->].
Qed.

Lemma journal_len :
  (∀ n, named "journal" entries = Some n → ∃ r es, n = NDir r es) →
  (if is_dir_at (join_at place "journal") then directory_bytes (join_at place "journal") else Ok 0)
  = Ok (named_size "journal" entries).
Proof using Hnames Htidy Hsize.
  intros Hj. unfold is_dir_at, directory_bytes, named_size. cbn [join_at mbind option_bind follow].
  destruct (named "journal" entries) as [n|] eqn:E; [|done].
  pose proof (named_tidy _ _ _ Htidy E) as Hn.
  destruct (Hj n eq_refl) as (r & es & ->). cbn [mbind option_bind follow].
  rewrite (entry_bytes_size (NDir r es)); [done|done|].
  pose proof (sizes_without "journal" entries Hnames) as Hs. unfold named_size in Hs.
  rewrite E in Hs. pose proof (sizes_nonneg _ (without_tidy "journal" _ Htidy)). lia.
Qed.

(** The footprint splits the directory: over a directory that can be read, whose marker is a
    plain file and whose journal is a directory of its own, it counts every byte but the
    marker's, the journal is no more than that, and what the report subtracts the one from the
    other is the bytes of everything else, so no [u64] wraps. *)
Theorem the_footprint_splits_the_directory :
  (∀ n, named MARKER entries = Some n → ∃ len, n = NFile len) →
  (∀ n, named "journal" entries = Some n → ∃ r es, n = NDir r es) →
  ∃ on_disk, footprint directory_len place = Ok on_disk ∧
    total on_disk = sizes (without MARKER entries) ∧
    journal on_disk = named_size "journal" entries ∧
    0 ≤ journal on_disk ≤ total on_disk ∧
    tables_and_catalog on_disk = sizes (without "journal" (without MARKER entries)).
Proof using Hnames Htidy Hsize.
  intros Hm Hj. pose proof (without_tidy MARKER _ Htidy) as Ht1.
  pose proof (sizes_without MARKER entries Hnames) as H1.
  pose proof (sizes_without "journal" _ (without_names MARKER _ Hnames)) as H2.
  pose proof (sizes_nonneg _ (without_tidy "journal" _ Ht1)).
  pose proof (sizes_nonneg _ Ht1). pose proof (sizes_nonneg _ Htidy).
  assert (∀ name, 0 ≤ named_size name entries) as Hnn.
  { intros name. unfold named_size. destruct (named name entries) eqn:E; [|lia].
    exact (size_nonneg _ (named_tidy _ _ _ Htidy E)). }
  pose proof (Hnn MARKER). pose proof (Hnn "journal"%string).
  assert (named_size "journal" (without MARKER entries) = named_size "journal" entries) as Hs
    by (unfold named_size; by rewrite named_without).
  rewrite Hs in H2. unfold footprint. rewrite marker_len, journal_len by done. cbn [result_bind].
  rewrite directory_bytes_sizes. cbn [result_bind].
  eexists. split; [done|]. unfold tables_and_catalog. cbn [total journal].
  rewrite !u64_sub_exact by lia. split_and!; lia.
Qed.
End counted.

(** ** Concrete directories *)

Definition engine_files : list (string * node) :=
  [("WiredTiger"%string, NFile 50);
   ("journal"%string, NDir true [("WiredTigerLog"%string, NFile 100)]);
   ("collection-0"%string, NFile 4096)].

(** Somebody else's directory is left alone, and one with the marker is rebuilt. *)
Lemma deletes_only_its_own_witness :
  prepare no_faults (Some (NDir true engine_files)) Refuse
  = (Err NotOurs, Some (NDir true engine_files)) ∧
  prepare no_faults (Some (NDir true ((MARKER, NFile 0) :: engine_files))) Refuse
  = (Ok tt, Some fresh_directory).
Proof.
  destruct (prepare no_faults (Some (NDir true engine_files)) Refuse) as [r place'] eqn:E1.
  destruct (prepare no_faults (Some (NDir true ((MARKER, NFile 0) :: engine_files))) Refuse)
    as [r2 place2] eqn:E2.
  destruct (a_benchmark_deletes_only_its_own _ _ _ _ _ E1) as (Hleft & _ & _).
  destruct (a_benchmark_deletes_only_its_own _ _ _ _ _ E2) as (_ & Hmade & Hworks).
  split.
  - destruct Hleft as [-> _]; [reflexivity| |].
    + intros [|[|]]; discriminate.
    + vm_compute in E1. injection E1 as <-. reflexivity.
  - assert (r2 = Ok tt) as Hok.
    { apply Hworks; [reflexivity|]. right. split; [reflexivity|].
      split; [right; left; reflexivity|]. discriminate. }
    rewrite (Hmade Hok), Hok. reflexivity.
Defined.

Lemma footprint_splits_witness :
  ∃ on_disk,
    footprint (λ _, 4096) (Some (NDir true ((MARKER, NFile 127) :: engine_files))) = Ok on_disk ∧
    total on_disk = 4246 ∧ journal on_disk = 100 ∧ tables_and_catalog on_disk = 4146.
Proof.
  destruct (the_footprint_splits_the_directory (λ _, 4096) ((MARKER, NFile 127) :: engine_files))
    as (on_disk & H & Ht & Hj & _ & Hr).
  - apply (bool_decide_unpack _). vm_compute. exact I.
  - reflexivity.
  - reflexivity.
  - intros n [= <-]. eexists. reflexivity.
  - intros n [= <-]. eexists _, _. reflexivity.
  - exists on_disk. split; [exact H|]. rewrite Ht, Hj, Hr. split; [reflexivity|].
    split; reflexivity.
Defined.

(** A journal kept elsewhere through a link is counted in full against a directory that holds
    only the link, and the difference wraps. *)
Lemma a_linked_journal_wraps :
  ∃ on_disk,
    footprint (λ _, 4096)
      (Some (NDir true [("journal"%string, NLink 20 (Some (NDir true [("log"%string, NFile 100)])))]))
    = Ok on_disk ∧ tables_and_catalog on_disk = 2 ^ 64 - 80.
Proof. eexists. split; reflexivity. Qed.
