(* ===== verification/BenchMeasure.v ===== *)
(** * What the places benchmark measures

    [examples/places-benchmark/measure.rs]: draining a cursor, timing an action and summarising
    the latency of a query. An action is a call on the state of [Effects]; the clock that
    [Instant::now] reads is part of that state, in nanoseconds, and so is everything the engine
    keeps. *)
From stdpp Require Import sorting.
From S2P Require Import Prelude EngineOptions Options Slot Reaper SessionPool Errors Bson.
From S2P Require Import Response Effects Client Find.

(** ** [measure.rs] *)

Record Latency := mkLatency { median : Z; mean : Z; worst : Z; matches : nat }.

Section drain.
Context `{BsonLib Document ObjectId Other Bytes BE} {IOE X : Type}.
Context `{!Commands K Document (Error BE IOE X Document)}.
Context {T : Type} (deserialize : Document → result BE T).
Local Abbreviation error := (Error BE IOE X Document).

(** The loop over the cursor, which is dropped when it ends. *)
Fixpoint drain_from (fuel : nat) (cur : Cursor Document) (matched : nat)
    : io K (result error nat) :=
  match fuel with
  | O => λ k, (NoFuel, k)
  | S fuel =>
      let! answer := next deserialize (S fuel) cur in
      match answer with
      | (None, cur) => let! _ := Cursor_drop cur in ret (Ok matched)
      | (Some (Err e), cur) => let! _ := Cursor_drop cur in ret (Err e)
      | (Some (Ok _), cur) => drain_from fuel cur (S matched)
      end
  end.

Definition drain (fuel : nat) (cur : Cursor Document) : io K (result error nat) :=
  drain_from fuel cur 0.

(** What a call answers, changed. *)
Definition answering {A B} (f : A → B) (c : call A * K) : call B * K :=
  match c with
  | (Returns a, k) => (Returns (f a), k)
  | (Blocks, k) => (Blocks, k)
  | (Panics, k) => (Panics, k)
  | (NoFuel, k) => (NoFuel, k)
  end.

Lemma drain_from_collects fuel cur collected k :
  drain_from fuel cur (length collected) k
  = answering (map_ok length) (collect deserialize fuel cur collected k).
Proof.
  revert cur collected k. induction fuel as [|fuel IH]; intros cur collected k; [done|].
  cbn [drain_from collect]. unfold bind.
  destruct (next deserialize (S fuel) cur k) as [[[[[x|e]|] cur']| | |] k']; try done.
  - replace (S (length collected)) with (length (collected ++ [x])); [apply IH|].
    rewrite length_app. simpl. lia.
  - by destruct (Cursor_drop cur' k') as [[] ?].
  - by destruct (Cursor_drop cur' k') as [[] ?].
Qed.

(** Draining a cursor counts what collecting it would have held, with the same conversation
    with the engine, the same error and the same cursor left behind. *)
Theorem draining_counts_what_collecting_holds fuel cur k :
  drain fuel cur k = answering (map_ok length) (try_collect deserialize fuel cur k).
Proof. apply (drain_from_collects fuel cur []). Qed.
End drain.

Section latency.
Context {K E : Type} (now : K → Z).

(** [Instant::elapsed] answers zero where the clock went back. *)
Definition time {T} (action : io K (result E T)) : io K (result E (T * Z)) := λ k,
  let started := now k in
  (let!? value := action in
   λ k, (Returns (Ok (value, saturating_sub (now k) started)), k)) k.

Fixpoint warm_up (query : io K (result E nat)) (n matches : nat) : io K (result E nat) :=
  match n with
  | O => ret (Ok matches)
  | S n => let!? matches := query in warm_up query n matches
  end.

Fixpoint take_samples (query : io K (result E nat)) (n : nat) (samples : list Z)
    : io K (result E (list Z)) :=
  match n with
  | O => ret (Ok samples)
  | S n => let!? timed := time query in take_samples query n (samples ++ [snd timed])
  end.

(** The longest [Duration], in nanoseconds. *)
Definition duration_max : Z := 2 ^ 64 * 10 ^ 9 - 1.

Definition sum (samples : list Z) : Z := foldr Z.add 0 samples.

(** [latency]: the sum of durations panics where it overflows, and so does a division by zero,
    which is what the cast makes of a multiple of [2^32] samples. *)
Definition latency (iterations : nat) (query : io K (result E nat)) : io K (result E Latency) :=
  let!? matches := warm_up query 3 0 in
  let!? samples := take_samples query iterations [] in
  let samples := merge_sort Z.le samples in
  let total := sum samples in
  if duration_max <? total then λ k, (Panics, k)
  else
    let median := default 0 (samples !! (length samples / 2)%nat) in
    let worst := default 0 (last samples) in
    let divisor := u32_wrap (Z.max (Z.of_nat (length samples)) 1) in
    if divisor =? 0 then λ k, (Panics, k)
    else ret (Ok (mkLatency median (total / divisor) worst matches)).
End latency.

(** ** The summary of a distribution *)

Lemma count_perm {A} (f : A → bool) l1 l2 : l1 ≡ₚ l2 → count f l1 = count f l2.
Proof. induction 1; simpl; lia. Qed.

Lemma count_all {A} (f : A → bool) l : (∀ x, x ∈ l → f x = true) → count f l = Z.of_nat (length l).
Proof.
  intros Hf. induction l as [|x l IH]; simpl; [done|]. rewrite (Hf x) by left.
  rewrite IH by (intros; apply Hf; by right). lia.
Qed.

Lemma sum_app l1 l2 : sum (l1 ++ l2) = sum l1 + sum l2.
Proof. induction l1; simpl; lia. Qed.

Lemma sum_perm l1 l2 : l1 ≡ₚ l2 → sum l1 = sum l2.
Proof. induction 1; simpl; lia. Qed.

Lemma sum_bounds (lo hi : Z) l :
  Forall (λ x, lo ≤ x ≤ hi) l → lo * Z.of_nat (length l) ≤ sum l ≤ hi * Z.of_nat (length l).
Proof. induction 1; simpl; lia. Qed.

(** What the three numbers say of the samples: none is above the worst, and it is one of them;
    the median is one of them, with more than half of them at or below it and at least half at
    or above; the mean is theirs, rounded down. *)
Definition summarises (l : Latency) (samples : list Z) : Prop :=
  let n := Z.of_nat (length samples) in
  worst l ∈ samples ∧ (∀ x, x ∈ samples → x ≤ worst l) ∧
  median l ∈ samples ∧ n < 2 * count (λ x, x <=? median l) samples ∧
  n ≤ 2 * count (λ x, median l <=? x) samples ∧
  mean l * n ≤ sum samples < (mean l + 1) * n ∧ 0 ≤ mean l ≤ worst l.

Section sorted.
Context (samples : list Z) (Hsorted : StronglySorted Z.le samples).

Lemma sorted_around (i : nat) m :
  samples !! i = Some m →
  (∀ x, x ∈ take i samples → x ≤ m) ∧ (∀ x, x ∈ drop (S i) samples → m ≤ x).
Proof using Hsorted.
  intros Hi. rewrite <- (take_drop_middle _ _ _ Hi) in Hsorted.
  apply StronglySorted_app in Hsorted as (Hbefore & _ & Hafter).
  apply StronglySorted_cons in Hafter as [Hafter _]. rewrite Forall_forall in Hafter.
  split; [|done]. intros x Hx. apply Hbefore; [done|left].
Qed.

Lemma sorted_below i m :
  samples !! i = Some m → Z.of_nat i + 1 ≤ count (λ x, x <=? m) samples.
Proof using Hsorted.
  intros Hi. destruct (sorted_around i m Hi) as [Hb _].
  pose proof (lookup_lt_Some _ _ _ Hi). rewrite <- (take_drop_middle _ _ _ Hi), count_app. simpl.
  rewrite (count_all _ (take i samples)); [|intros x Hx; apply Z.leb_le; auto].
  rewrite (proj2 (Z.leb_le m m)) by lia. rewrite length_take.
  pose proof (count_nonneg (λ x, x <=? m) (drop (S i) samples)). lia.
Qed.

Lemma sorted_above i m :
  samples !! i = Some m → Z.of_nat (length samples - i) ≤ count (λ x, m <=? x) samples.
Proof using Hsorted.
  intros Hi. destruct (sorted_around i m Hi) as [_ Ha].
  pose proof (lookup_lt_Some _ _ _ Hi) as Hlt.
  assert (count (λ x, m <=? x) samples =
    count (λ x, m <=? x) (take i samples) + 1 + Z.of_nat (length samples - S i)) as ->.
  { rewrite <- (take_drop_middle _ _ _ Hi) at 1. rewrite count_app. simpl.
    rewrite (proj2 (Z.leb_le m m)) by lia.
    rewrite (count_all _ (drop (S i) samples)); [|intros x Hx; apply Z.leb_le; auto].
    rewrite length_drop. lia. }
  pose proof (count_nonneg (λ x, m <=? x) (take i samples)). lia.
Qed.
End sorted.

(** The numbers [latency] takes from its sorted samples summarise the samples. *)
Lemma sorted_summary samples matches :
  samples ≠ [] → Forall (λ x, 0 ≤ x) samples → Z.of_nat (length samples) < u32_modulus →
  let sorted := merge_sort Z.le samples in
  let divisor := u32_wrap (Z.max (Z.of_nat (length sorted)) 1) in
  divisor ≠ 0 ∧
  summarises
    (mkLatency (default 0 (sorted !! (length sorted / 2)%nat)) (sum sorted / divisor)
       (default 0 (last sorted)) matches) samples.
Proof.
  intros Hne Hpos Hlen sorted divisor.
  assert (sorted ≡ₚ samples) as Hperm by apply merge_sort_Permutation.
  assert (StronglySorted Z.le sorted) as Hsorted by (apply StronglySorted_merge_sort; apply _).
  assert (length sorted = length samples) as Hl by (by apply Permutation_length).
  assert (0 < length samples)%nat as H0 by (destruct samples; simpl; done || lia).
  set (n := length samples) in *.
  assert (divisor = Z.of_nat n) as Hd.
  { unfold divisor. rewrite Hl, u32_wrap_id; [lia|]. unfold is_u32, u32_max. lia. }
  rewrite Hl, Hd, (sum_perm _ _ Hperm).
  assert (n / 2 < n)%nat as Hhalf by (apply Nat.div_lt; lia).
  destruct (sorted !! (n / 2)%nat) as [m|] eqn:Hm.
  2: { apply lookup_ge_None in Hm. lia. }
  rewrite last_lookup, Hl. destruct (sorted !! pred n) as [w|] eqn:Hw.
  2: { apply lookup_ge_None in Hw. lia. }
  assert (∀ x, x ∈ samples → x ≤ w) as Hworst.
  { intros x Hx. rewrite <- Hperm in Hx. apply list_elem_of_lookup in Hx as [j Hj].
    pose proof (lookup_lt_Some _ _ _ Hj). destruct (decide (j = pred n)) as [->|]; [naive_solver lia|].
    destruct (sorted_around _ Hsorted _ _ Hw) as [Hb _]. apply Hb.
    apply list_elem_of_lookup. exists j. rewrite lookup_take_lt by lia. done. }
  assert (Hsum := sum_bounds 0 w samples). fold n in Hsum.
  destruct Hsum as [Hlo Hhi].
  { rewrite Forall_forall in Hpos |- *. eauto. }
  pose proof (sorted_below _ Hsorted _ _ Hm). pose proof (sorted_above _ Hsorted _ _ Hm) as Habove.
  rewrite !(count_perm _ _ _ Hperm) in *. rewrite Hl in Habove. fold n in Habove.
  pose proof (Nat.div_mod n 2 ltac:(done)). pose proof (Nat.mod_upper_bound n 2 ltac:(done)).
  split; [lia|]. unfold summarises; simpl. fold n.
  pose proof (Z.mul_div_le (sum samples) (Z.of_nat n) ltac:(lia)).
  pose proof (Z.mul_succ_div_gt (sum samples) (Z.of_nat n) ltac:(lia)).
  split_and!; try lia.
  - rewrite <- Hperm. by eapply list_elem_of_lookup_2.
  - done.
  - rewrite <- Hperm. by eapply list_elem_of_lookup_2.
  - apply Z.div_pos; lia.
  - apply Z.div_le_upper_bound; lia.
Qed.

(** ** [latency] as a whole *)

Section measured.
Context {K E : Type} (now : K → Z) (query : io K (result E nat)).
Local Abbreviation take_samples := (take_samples now query).
Local Abbreviation warm_up := (warm_up query).

(** The query comes back, and the clock does not go back meanwhile. *)
Context (Hreturns : ∀ k, ∃ r k', query k = (Returns r, k') ∧ now k ≤ now k').

Lemma warm_up_returns n matches k :
  ∃ r k', warm_up n matches k = (Returns r, k') ∧ now k ≤ now k'.
Proof using Hreturns.
  revert matches k. induction n as [|n IH]; intros matches k; simpl; [eexists _, _; split; [done|lia]|].
  destruct (Hreturns k) as ([m|e] & k1 & Hq & Hle).
  - rewrite (try_ok _ _ _ _ _ Hq). destruct (IH m k1) as (r & k' & -> & ?).
    eexists _, _. split; [done|lia].
  - rewrite (try_err _ _ _ _ _ Hq). eauto.
Qed.

(** Together the samples take no longer than the clock went on. *)
Lemma take_samples_returns n samples k :
  ∃ r k', take_samples n samples k = (Returns r, k') ∧ now k ≤ now k' ∧
    ∀ all, r = Ok all → ∃ taken, all = samples ++ taken ∧ length taken = n ∧
      Forall (λ x, 0 ≤ x) taken ∧ sum taken ≤ now k' - now k.
Proof using Hreturns.
  revert samples k. induction n as [|n IH]; intros samples k; simpl.
  { eexists _, _. split; [done|]. split; [lia|]. intros all [= <-].
    exists []. rewrite app_nil_r. split_and!; [done|done|constructor|simpl; lia]. }
  destruct (Hreturns k) as ([m|e] & k1 & Hq & Hle).
  - assert (time now query k = (Returns (Ok (m, now k1 - now k)), k1)) as Ht.
    { unfold time. rewrite (try_ok _ _ _ _ _ Hq). unfold saturating_sub. by rewrite Z.max_r by lia. }
    rewrite (try_ok _ _ _ _ _ Ht). cbn [snd].
    destruct (IH (samples ++ [now k1 - now k]) k1) as (r & k' & -> & Hle' & Hall).
    eexists _, _. split; [done|]. split; [lia|]. intros all Hr.
    destruct (Hall all Hr) as (taken & -> & Hlen & Hpos & Hsum).
    exists (now k1 - now k :: taken). rewrite <- app_assoc. simpl.
    split_and!; [done|lia|constructor; [lia|done]|lia].
  - assert (time now query k = (Returns (Err e), k1)) as Ht
      by (unfold time; by rewrite (try_err _ _ _ _ _ Hq)).
    rewrite (try_err _ _ _ _ _ Ht). eexists _, _. split; [done|]. by split.
Qed.

(** Measuring a query that comes back comes back, with the query's own error or a summary: the
    clock being within a [Duration] and the samples fewer than [2^32], no sum overflows and
    nothing is divided by zero. The matches are the last warm-up's, the samples were taken after
    it, one per iteration, and the three numbers summarise them. *)
Theorem latency_summarises_its_samples iterations k :
  Z.of_nat iterations < u32_modulus → (∀ k, 0 ≤ now k ≤ duration_max) →
  ∃ r k', latency now iterations query k = (Returns r, k') ∧
    ∀ l, r = Ok l → ∃ k1 samples,
      warm_up 3 0 k = (Returns (Ok (matches l)), k1) ∧
      take_samples iterations [] k1 = (Returns (Ok samples), k') ∧
      length samples = iterations ∧
      (if (iterations =? 0)%nat then l = mkLatency 0 0 0 (matches l) else summarises l samples).
Proof using Hreturns.
  intros Hit Hclock. unfold latency.
  destruct (warm_up_returns 3 0 k) as ([m|e] & k1 & Hw & _).
  2: { rewrite (try_err _ _ _ _ _ Hw). eexists _, _. by split. }
  rewrite (try_ok _ _ _ _ _ Hw).
  destruct (take_samples_returns iterations [] k1) as ([samples|e] & k2 & Ht & _ & Hall).
  2: { rewrite (try_err _ _ _ _ _ Ht). eexists _, _. by split. }
  rewrite (try_ok _ _ _ _ _ Ht).
  destruct (Hall samples eq_refl) as (taken & -> & Hlen & Hpos & Hsum). cbn [app] in *.
  assert (sum (merge_sort Z.le taken) ≤ duration_max) as Hd.
  { rewrite (sum_perm _ _ (merge_sort_Permutation _ _)).
    pose proof (Hclock k1). pose proof (Hclock k2). lia. }
  rewrite (proj2 (Z.ltb_ge _ _) Hd).
  destruct (decide (taken = [])) as [->|Hne].
  { simpl in Hlen. subst iterations. eexists _, _. split; [done|].
    intros l [= <-]. exists k1, []. by split_and!. }
  destruct (sorted_summary taken m Hne Hpos ltac:(lia)) as [Hdiv Hsummary].
  cbv zeta in Hdiv. rewrite (proj2 (Z.eqb_neq _ _) Hdiv).
  eexists _, _. split; [done|]. intros l [= <-]. exists k1, taken. split_and!; [done..|].
  destruct (Nat.eqb_spec iterations 0) as [->|_]; [by destruct taken|done].
Qed.
End measured.

(** ** A clock and a query *)

(** The state is the time and how often the query ran; the fourth run takes ten, later ones one
    less each. *)
Definition toy_query : io (Z * nat) (result unit nat) := λ '(t, n),
  (Returns (Ok (n + 1)%nat), (t + Z.max 0 (13 - Z.of_nat n), (n + 1)%nat)).

Lemma latency_witness :
  latency (λ k, Z.min (Z.max 0 (fst k)) duration_max) 4 toy_query (0, 0%nat)
  = (Returns (Ok (mkLatency 9 8 10 3)), (70, 7%nat)) ∧
  summarises (mkLatency 9 8 10 3) [10; 9; 8; 7].
Proof.
  assert (∀ k, ∃ r k', toy_query k = (Returns r, k') ∧
    Z.min (Z.max 0 (fst k)) duration_max ≤ Z.min (Z.max 0 (fst k')) duration_max) as Hret.
  { intros [t n]. eexists _, _. split; [reflexivity|]. simpl. lia. }
  split; [vm_compute; reflexivity|].
  destruct (latency_summarises_its_samples (λ k, Z.min (Z.max 0 (fst k)) duration_max) toy_query
    Hret 4 (0, 0%nat)) as (r & k' & Hl & Hall).
  - reflexivity.
  - intros k. unfold duration_max. lia.
  - vm_compute in Hl. injection Hl as <- <-.
    destruct (Hall _ eq_refl) as (k1 & samples & Hw & Ht & _ & Hs).
    vm_compute in Hw. injection Hw as <-. vm_compute in Ht. injection Ht as <-. exact Hs.
Defined.
