(* ===== verification/BenchRss.v ===== *)
(** * The resident set size the places benchmark reports

    [examples/places-benchmark/rss.rs]: a field of [/proc/self/status] is found and read, and a
    thread samples one of them into a shared high-water mark that the main thread takes phase by
    phase. The sampler and the main thread are one system, a step being one read of the file,
    one operation on the shared mark or a change of the memory in use. *)
From stdpp Require Import pretty.
From S2P Require Import Prelude Text Search BuildHost Prebuilt Glibc BenchDir.

(** ** Lines of a text *)

Definition line_feed : bytes := [Byte.x0a].

(** A line's end is a line feed, and a carriage return before it. *)
Definition strip_carriage_return (line : bytes) : bytes :=
  match last line with
  | Some Byte.x0d => take (length line - 1) line
  | _ => line
  end.

(** [s.lines()]: the pieces between line feeds; what follows the last one, if anything. *)
Fixpoint as_lines (pieces : list bytes) : list bytes :=
  match pieces with
  | [] => []
  | [rest] => flush rest
  | line :: pieces => strip_carriage_return line :: as_lines pieces
  end.
Definition lines (text : bytes) : list bytes := as_lines (split line_feed text).

(** ** [read_status_field] *)

Inductive RssError := CannotRead | NoLine | NoValue | BadNumber.

Definition u64_max : Z := u64_modulus - 1.

Definition field_value (field line : bytes) : option bytes :=
  rest ← strip_prefix field line; strip_prefix (B ":") rest.

(** [status] is what reading the file answered. *)
Definition read_status_field (status : option bytes) (field : bytes) : result RssError Z :=
  let? status := ok_or CannotRead status in
  let? value := ok_or NoLine (head (omap (field_value field) (lines status))) in
  let? kilobytes := ok_or NoValue (head (split_whitespace value)) in
  let? n := ok_or BadNumber (parse_unsigned u64_max kilobytes) in
  Ok ((n * 1024) mod u64_modulus).

(** [peak_rss] *)
Definition peak_rss (status : option bytes) : result RssError Z := read_status_field status (B "VmHWM").

(** ** The sampler and the thread that takes its peaks *)

Inductive sampler_pc :=
| Looping              (* about to look at [stop] *)
| HasRead (v : Z)      (* the field was read; [fetch_max] to come *)
| Stopped.

Record Sampler := mkSampler {
  resident : Z;            (* the memory in use *)
  peak : Z;
  stop : bool;
  thread : sampler_pc;
  taking : option Z;       (* [take_peak] has read its current value; [swap] to come *)
  since : list Z;          (* ghost: the current value the phase began with and what the sampler
                              has read since the swap that began it *)
  late : option Z;         (* ghost: what the sampler had read and not stored at that swap *)
}.

Inductive rss_event :=
| Changes (v : Z)
| SamplerReads (ok : bool)
| SamplerStores
| MainReads (ok : bool)
| MainSwaps
| MainDrops.

Definition Sampler_start (resident : Z) : Sampler :=
  mkSampler resident 0 false Looping None [0] None.

(** One step, with what [take_peak] answers. *)
Definition rss_step (e : rss_event) (s : Sampler) : option (Sampler * option Z) :=
  match e, thread s, taking s with
  | Changes v, _, _ =>
      if 0 <=? v then
        Some (mkSampler v (peak s) (stop s) (thread s) (taking s) (since s) (late s), None)
      else None
  | SamplerReads ok, Looping, _ =>
      if stop s then
        Some (mkSampler (resident s) (peak s) true Stopped (taking s) (since s) (late s), None)
      else if ok then
        Some (mkSampler (resident s) (peak s) false (HasRead (resident s)) (taking s)
                (since s ++ [resident s]) (late s), None)
      else Some (s, None)
  | SamplerStores, HasRead v, _ =>
      Some (mkSampler (resident s) (Z.max (peak s) v) (stop s) Looping (taking s)
              (since s) (late s), None)
  | MainReads ok, _, None =>
      if stop s then None
      else Some (mkSampler (resident s) (peak s) (stop s) (thread s)
                   (Some (if ok then resident s else 0)) (since s) (late s), None)
  | MainSwaps, _, Some current =>
      Some (mkSampler (resident s) current (stop s) (thread s) None [current]
              (match thread s with HasRead v => Some v | _ => None end), Some (peak s))
  | MainDrops, _, None =>
      Some (mkSampler (resident s) (peak s) true (thread s) None (since s) (late s), None)
  | _, _, _ => None
  end.

Fixpoint rss_run (es : list rss_event) (s : Sampler) : option (Sampler * list Z) :=
  match es with
  | [] => Some (s, [])
  | e :: es =>
      '(s, answer) ← rss_step e s;
      '(s, answers) ← rss_run es s;
      Some (s, option_list answer ++ answers)
  end.

(** ** What a peak is the peak of *)

Definition rss_inv (s : Sampler) : Prop :=
  (peak s ∈ since s ∨ late s = Some (peak s)) ∧
  (∀ x, x ∈ since s → x ≤ peak s ∨ thread s = HasRead x) ∧
  (∀ v, thread s = HasRead v → v ∈ since s ∨ late s = Some v).

Lemma rss_store_inv s v :
  rss_inv s → thread s = HasRead v →
  rss_inv (mkSampler (resident s) (Z.max (peak s) v) (stop s) Looping (taking s) (since s) (late s)).
Proof.
  intros (Hp & Hs & Ht) Hv. split_and!; simpl; [| |done].
  - destruct (Z.max_spec (peak s) v) as [[_ ->]|[_ ->]]; auto.
  - intros x Hx. left. destruct (Hs x Hx) as [|Hx']; [lia|].
    assert (x = v) by congruence. lia.
Qed.

Lemma rss_step_inv e s s' answer :
  rss_inv s → rss_step e s = Some (s', answer) → rss_inv s'.
Proof.
  intros Hinv H. destruct e.
  3: { simpl in H. destruct (thread s) eqn:Hv; try (destruct (taking s); done).
       assert (Some (mkSampler (resident s) (Z.max (peak s) v) (stop s) Looping (taking s)
                       (since s) (late s), @None Z) = Some (s', answer)) as E
         by (by destruct (taking s)).
       simplify_eq. by apply rss_store_inv. }
  all: destruct Hinv as (Hp & Hs & Ht), s as [res pk stp th tk sn lt]; simpl in *;
    destruct th, tk; simpl in H; repeat case_match; simplify_eq;
    split_and!; simpl in *; try done; set_solver.
Qed.

Lemma rss_run_inv es s s' answers :
  rss_inv s → rss_run es s = Some (s', answers) → rss_inv s'.
Proof.
  revert s answers. induction es as [|e es IH]; intros s answers Hinv; simpl; [by intros [= <- _]|].
  intros H. apply bind_Some in H as ([s1 a1] & H1 & H).
  apply bind_Some in H as ([s2 a2] & H2 & [= <- _]). eauto using rss_step_inv.
Qed.

(** The peak that is taken belongs to its phase: it is the value the phase began with, or one
    the sampler read in it, or one the sampler had read and not stored when the phase began, of
    which there is at most one; and nothing the sampler read in the phase is above it, but what
    it has read and not stored yet. *)
Theorem a_peak_is_of_its_phase resident0 es s answers s' a :
  rss_run es (Sampler_start resident0) = Some (s, answers) →
  rss_step MainSwaps s = Some (s', Some a) →
  (a ∈ since s ∨ late s = Some a) ∧ (∀ x, x ∈ since s → x ≤ a ∨ thread s = HasRead x).
Proof.
  intros Hrun Hswap.
  assert (rss_inv s) as (Hp & Hs & _).
  { apply rss_run_inv in Hrun; [done|]. split_and!; simpl; [left; set_solver| |done].
    intros x Hx%list_elem_of_singleton. left. lia. }
  assert (a = peak s) as ->.
  { unfold rss_step in Hswap. destruct (thread s), (taking s); naive_solver. }
  done.
Qed.

(** Two samples, the second of them the higher, and a peak about to be taken. *)
Definition one_phase : list rss_event :=
  [SamplerReads true; SamplerStores; Changes 300; SamplerReads true; SamplerStores;
   Changes 200; MainReads true].

Definition phase_over : Sampler := mkSampler 200 300 false Looping (Some 200) [0; 100; 300] None.

Lemma peak_witness : 300 ∈ since phase_over ∨ late phase_over = Some 300.
Proof.
  apply (a_peak_is_of_its_phase 100 one_phase phase_over []
           (mkSampler 200 200 false Looping None [200] None) 300); vm_compute; reflexivity.
Defined.

(** The sampler reads 900 and is overtaken by a whole [take_peak]; the memory is down to 100 by
    then and stays there, and the phase that follows is answered with 900 all the same. *)
Definition overtaken_sampler : list rss_event :=
  [SamplerReads true; Changes 100; MainReads true; MainSwaps; SamplerStores;
   SamplerReads true; SamplerStores; MainReads true; MainSwaps].

Lemma a_late_sample_is_credited_to_the_next_phase :
  snd <$> rss_run overtaken_sampler (Sampler_start 900) = Some [0; 900].
Proof. reflexivity. Qed.

(** ** A field as the kernel writes it *)

Lemma split_first_none_prefix a b : Byte.x0a ∉ a → split_first line_feed (a ++ Byte.x0a :: b) = Some (a, b).
Proof.
  induction a as [|c a IH]; intros Ha; [done|]. apply not_elem_of_cons in Ha as [Hc Ha].
  cbn [app split_first]. change (strip_prefix line_feed (c :: a ++ Byte.x0a :: b))
    with (if Byte.eqb Byte.x0a c then Some (a ++ Byte.x0a :: b) else None).
  destruct (Byte.eqb Byte.x0a c) eqn:E; [by apply Byte.byte_dec_bl in E|]. by rewrite IH.
Qed.

Definition terminated (ls : list bytes) : bytes := concat ((λ l, l ++ line_feed) <$> ls).

Lemma split_terminated ls fuel :
  Forall (λ l, Byte.x0a ∉ l) ls → (length (terminated ls) ≤ fuel)%nat →
  split_rounds fuel line_feed (terminated ls) = ls ++ [[]].
Proof.
  intros Hls. revert fuel. induction Hls as [|l ls Hl _ IH]; intros fuel Hf.
  - by destruct fuel.
  - unfold terminated in *. csimpl in Hf. rewrite !length_app in Hf. simpl in Hf.
    destruct fuel as [|fuel]; [lia|]. csimpl. rewrite <- app_assoc. cbn [line_feed app].
    cbn [split_rounds]. rewrite split_first_none_prefix by done. f_equal. apply IH. lia.
Qed.

(** A line that ends the way it looks. *)
Definition plain_line (l : bytes) : Prop := (Byte.x0a ∉ l) ∧ last l ≠ Some Byte.x0d.

Lemma lines_terminated ls : Forall plain_line ls → lines (terminated ls) = ls.
Proof.
  intros Hls. unfold lines, split. rewrite split_terminated; [| |done].
  2: { eapply Forall_impl; [exact Hls|]. by intros l [? _]. }
  induction Hls as [|l ls [_ Hl] _ IH]; [done|]. cbn [app].
  destruct (ls ++ [[]]) as [|p ps] eqn:E; [by destruct ls|].
  cbn [as_lines] in IH |- *. rewrite IH. f_equal. unfold strip_carriage_return.
  destruct (last l) as [[]|]; done.
Qed.

Lemma words_from_blanks fuel blanks l :
  Forall (λ b, b = Byte.x20 ∨ b = Byte.x09) blanks →
  words_from (length blanks + fuel) [] (blanks ++ l) = words_from fuel [] l.
Proof.
  induction 1 as [|b blanks Hb _ IH]; [done|]. cbn [length Nat.add words_from app].
  by destruct Hb as [-> | ->].
Qed.

Lemma first_word blanks word rest :
  Forall (λ b, b = Byte.x20 ∨ b = Byte.x09) blanks →
  Forall (λ b, inky b = true) word → word ≠ [] →
  head (split_whitespace (blanks ++ word ++ Byte.x20 :: rest)) = Some word.
Proof.
  intros Hb Hw Hne. unfold split_whitespace. rewrite !length_app. cbn [length].
  rewrite words_from_blanks by done. rewrite words_from_inky by done. cbn [app words_from].
  change (strip_one whitespace (Byte.x20 :: rest)) with (Some rest). cbn iota.
  by destruct word.
Qed.

(** A field is read back as the kernel writes it: on the first line that begins with its name
    and a colon, a number of kilobytes after blanks and before the unit, wherever the line is. *)
Theorem a_status_field_is_read_as_written (before after : list bytes) (field blanks : bytes) (n : N) :
  Forall plain_line before → Forall plain_line after → Byte.x0a ∉ field →
  Forall (λ b, b = Byte.x20 ∨ b = Byte.x09) blanks →
  Forall (λ l, field_value field l = None) before →
  Z.of_N n * 1024 < u64_modulus →
  read_status_field
    (Some (terminated (before ++ (field ++ B ":" ++ blanks ++ B (pretty n) ++ B " kB") :: after)))
    field = Ok (Z.of_N n * 1024).
Proof.
  intros Hbefore Hafter Hfield Hblanks Hnone Hn. unfold read_status_field. cbn [ok_or result_bind].
  set (line := field ++ B ":" ++ blanks ++ B (pretty n) ++ B " kB").
  pose proof (pretty_digits n) as Hd.
  assert (plain_line line) as Hline.
  { split.
    - unfold line. rewrite !not_elem_of_app. split_and!; try done; try set_solver.
      + intros Hin. rewrite Forall_forall in Hblanks. by destruct (Hblanks _ Hin).
      + intros Hin. unfold digits in Hd. rewrite Forall_forall in Hd. by destruct (Hd _ Hin).
    - unfold line. by rewrite !(assoc_L (++)), last_app. }
  rewrite lines_terminated by (apply Forall_app; split; [done|by constructor]).
  assert (head (omap (field_value field) (before ++ line :: after))
          = Some (blanks ++ B (pretty n) ++ B " kB")) as ->.
  { clear Hbefore. induction Hnone as [|l before Hl _ IH]; csimpl.
    - unfold field_value at 1. rewrite (proj2 (strip_prefix_Some field line _) eq_refl).
      cbn [mbind option_bind]. by rewrite (proj2 (strip_prefix_Some (B ":") _ _) eq_refl).
    - by rewrite Hl. }
  cbn [ok_or result_bind]. change (B " kB") with (Byte.x20 :: B "kB"). rewrite first_word; [|done|..].
  - cbn [ok_or result_bind]. rewrite parse_pretty by (unfold u64_max; lia).
    cbn [ok_or result_bind]. rewrite Z.mod_small by lia. done.
  - eapply Forall_impl; [exact Hd|]. intros b Hb. by apply digit_inky.
  - apply pretty_nonempty.
Qed.

Lemma status_field_witness :
  read_status_field
    (Some (terminated [B "Name: places"; B "VmHWM:     4096 kB"; B "VmRSS:     2048 kB"]))
    (B "VmRSS") = Ok 2097152.
Proof.
  apply (a_status_field_is_read_as_written [B "Name: places"; B "VmHWM:     4096 kB"] []
           (B "VmRSS") (B "     ") 2048).
  - repeat constructor; try discriminate; apply (bool_decide_unpack _); vm_compute; exact I.
  - constructor.
  - apply (bool_decide_unpack _). vm_compute. exact I.
  - repeat constructor.
  - repeat constructor.
  - reflexivity.
Defined.
