(* ===== verification/BenchSeed.v ===== *)
(** * What the places benchmark loads and asks

    [examples/places-benchmark/seed.rs] and [queries.rs], and the load of [main.rs]: the seed is
    a gzip of documents one after the other, a replica of a place is the place moved and given
    another id, and the load inserts every replica of every place in batches. The codec of
    [bson] and the decoder of [flate2] are parameters; a coordinate is a [spec_float], with the
    additions, multiplications and divisions of the format and the remainder of [f64] written
    out. *)
From stdpp Require Import pretty.
From S2P Require Import Prelude EngineOptions Options Slot Reaper SessionPool Errors Bson.
From S2P Require Import WorkerState Response Effects Client Find Insert Async Facade.
From S2P Require Import Text Search BuildHost Prebuilt Glibc.

(** ** [f64] *)

Definition f64_add (x y : spec_float) : spec_float := SFadd 53 1024 x y.
Definition f64_sub (x y : spec_float) : spec_float := SFsub 53 1024 x y.
Definition f64_mul (x y : spec_float) : spec_float := SFmul 53 1024 x y.
Definition f64_div (x y : spec_float) : spec_float := SFdiv 53 1024 x y.

(** A decimal literal: the quotient of two integers that are doubles is the double nearest to
    it. *)
Definition f64_literal (numerator denominator : Z) : spec_float :=
  f64_div (f64_of_int numerator) (f64_of_int denominator).

(** [x % y]: exact, with the sign of [x]. *)
Definition f64_rem (x y : spec_float) : spec_float :=
  match x, y with
  | S754_nan, _ | _, S754_nan | S754_infinity _, _ | _, S754_zero _ => S754_nan
  | S754_zero _, _ | _, S754_infinity _ => x
  | S754_finite sx mx ex, S754_finite _ my ey =>
      let e := Z.min ex ey in
      let r := Z.rem (Z.shiftl (Zpos mx) (ex - e)) (Z.shiftl (Zpos my) (ey - e)) in
      binary_normalize 53 1024 (if sx then - r else r) e sx
  end.

(** [f64::rem_euclid] *)
Definition f64_rem_euclid (x y : spec_float) : spec_float :=
  let r := f64_rem x y in
  if SFltb r (S754_zero false) then f64_add r (SFabs y) else r.

Definition f64_integer (z : Z) : spec_float := f64_of_int z.

(** ** [seed.rs] *)

Inductive SeedError (BE GE : Type) :=
| Missing                       (* no seed at the path *)
| CannotOpen
| GzipFailed (e : GE)
| NotADocument (e : BE)
| NoStringId
| NoPoint
| NotDoubles.
Arguments Missing {BE GE}.
Arguments CannotOpen {BE GE}.
Arguments GzipFailed {BE GE} e.
Arguments NotADocument {BE GE} e.
Arguments NoStringId {BE GE}.
Arguments NoPoint {BE GE}.
Arguments NotDoubles {BE GE}.

Record Seed (Document : Type) := mkSeed {
  seed_documents : list Document;
  compressed_bytes : Z;
  raw_bytes : Z;
}.
Arguments mkSeed {Document} _ _ _.
Arguments seed_documents {Document} _.
Arguments compressed_bytes {Document} _.
Arguments raw_bytes {Document} _.

Section seed.
Context `{BsonLib Document ObjectId Other Bytes BE} {GE : Type}.
(** [Document::from_reader] on a slice: the document and what is left of the slice. *)
Context (read_document : bytes → result BE (Document * bytes)).
(** [GzDecoder], read to its end. *)
Context (gunzip : bytes → result GE bytes).
Local Abbreviation bson := (Bson Document ObjectId Other).
Local Abbreviation error := (SeedError BE GE).

(** The loop over the decoded bytes; nothing where the fuel runs out. *)
Fixpoint read_all (fuel : nat) (remaining : bytes) (documents : list Document)
    : option (result error (list Document)) :=
  match remaining with
  | [] => Some (Ok documents)
  | _ =>
      match fuel with
      | O => None
      | S fuel =>
          match read_document remaining with
          | Err e => Some (Err (NotADocument e))
          | Ok (document, remaining) => read_all fuel remaining (documents ++ [document])
          end
      end
  end.

(** [load]: the file's length if it is there, and its bytes if it can be read. *)
Definition load (metadata : option Z) (file : option bytes) : option (result error (Seed Document)) :=
  match metadata with
  | None => Some (Err Missing)
  | Some compressed_bytes =>
      match file with
      | None => Some (Err CannotOpen)
      | Some compressed =>
          match gunzip compressed with
          | Err e => Some (Err (GzipFailed e))
          | Ok raw =>
              read ← read_all (length raw) raw [];
              Some (map_ok (λ documents,
                mkSeed documents compressed_bytes (Z.of_nat (length raw))) read)
          end
      end
  end.

Definition SHIFT_DEGREES : spec_float := f64_literal 73 10.

Definition replica (document : Document) (copy : nat) : result error Document :=
  match copy with
  | O => Ok document
  | _ =>
      let? identifier := ok_or NoStringId (get_str "_id" document) in
      let? point := ok_or NoPoint (get_document "loc" document ≫= get_array "coordinates") in
      match head point, point !! 1%nat with
      | Some (Double longitude), Some (Double latitude) =>
          let shift := f64_mul (f64_of_int (Z.of_nat copy)) SHIFT_DEGREES in
          let longitude :=
            f64_sub
              (f64_rem_euclid (f64_add (f64_add longitude (f64_integer 180)) shift)
                 (f64_integer 360))
              (f64_integer 180) in
          let latitude :=
            f64_sub
              (f64_rem_euclid
                 (f64_add (f64_add latitude (f64_integer 85))
                    (f64_mul shift (f64_literal 37 100)))
                 (f64_integer 170))
              (f64_integer 85) in
          let replica :=
            doc_insert "_id" (BString (identifier +:+ ":" +:+ pretty copy) : bson) document in
          Ok (doc_insert "loc"
                (BDocument (doc [("type"%string, BString "Point" : bson);
                                 ("coordinates"%string,
                                  Array [Double longitude; Double latitude])]))
                replica)
      | _, _ => Err NotDoubles
      end
  end.
End seed.

(** ** [queries.rs] *)

Definition DATABASE : string := "places".
Definition COLLECTION : string := "coffee".
Definition DUBLIN : list spec_float := [f64_literal (-62603) 10000; f64_literal 533498 10000].
Definition NEARBY_RADIUS_KM : spec_float := f64_integer 5.
Definition EARTH_RADIUS_KM : spec_float := f64_literal 63781 10.
Definition NEARBY_LIMIT : Z := 50.

Definition collection : Collection := Database_collection (Client_database DATABASE) COLLECTION.

Section queries.
Context `{BsonLib Document ObjectId Other Bytes BE}.
Local Abbreviation bson := (Bson Document ObjectId Other).

Definition geo_near (category : option string) : list Document :=
  let stage : Document :=
    doc [("near"%string, BDocument (doc [("type"%string, BString "Point" : bson);
                                         ("coordinates"%string, Array (Double <$> DUBLIN))]) : bson);
         ("distanceField"%string, BString "distance");
         ("spherical"%string, Boolean true)] in
  let stage :=
    match category with
    | Some category => doc_insert "query" (BDocument (doc [("cat"%string, BString category : bson)]) : bson) stage
    | None => stage
    end in
  [doc [("$geoNear"%string, BDocument stage : bson)]; doc [("$limit"%string, Int64 NEARBY_LIMIT : bson)]].

Definition geo_within : Document :=
  let radius_radians := f64_div NEARBY_RADIUS_KM EARTH_RADIUS_KM in
  doc [("loc"%string,
        BDocument (doc [("$geoWithin"%string,
          BDocument (doc [("$centerSphere"%string,
            Array [Array (Double <$> DUBLIN); Double radius_radians] : bson)]) : bson)]) : bson)].

Definition text_search (term : string) : Document :=
  doc [("$text"%string, BDocument (doc [("$search"%string, BString term : bson)]) : bson)].

Definition name_regex (term : string) : Document :=
  doc [("name"%string,
        BDocument (doc [("$regex"%string, BString term : bson); ("$options"%string, BString "i")])
        : bson)].

Definition index_commands : list (string * Document) :=
  [("2dsphere on loc"%string,
    doc [("createIndexes"%string, BString COLLECTION : bson);
         ("indexes"%string, Array [BDocument
           (doc [("key"%string, BDocument (doc [("loc"%string, BString "2dsphere" : bson)]) : bson);
                 ("name"%string, BString "loc_2dsphere")])])]);
   ("text on name + brand"%string,
    doc [("createIndexes"%string, BString COLLECTION : bson);
         ("indexes"%string, Array [BDocument
           (doc [("key"%string, BDocument (doc [("name"%string, BString "text" : bson);
                                                ("brand"%string, BString "text")]) : bson);
                 ("name"%string, BString "name_brand_text")])])])].
End queries.

(** ** The load of [main.rs] *)

Definition BATCH_SIZE : nat := 500.

(** [slice.chunks(n)], for [n] not zero: every round takes at least one element. *)
Fixpoint chunk_rounds {A} (fuel n : nat) (l : list A) : list (list A) :=
  match fuel, l with
  | S fuel, _ :: _ => take n l :: chunk_rounds fuel n (drop n l)
  | _, _ => []
  end.
Definition chunks {A} (n : nat) (l : list A) : list (list A) := chunk_rounds (length l) n l.

Inductive LoadError (SE CE : Type) := SeedFailed (e : SE) | ClientFailed (e : CE).
Arguments SeedFailed {SE CE} e.
Arguments ClientFailed {SE CE} e.

Section load.
Context `{BsonLib Document ObjectId Other Bytes BE} {GE IOE X G : Type}.
Context `{!Commands K Document (Error BE IOE X Document)}.
(** A document serializes to a document; [ObjectId::new] has a state of its own. *)
Context (serialize : Document → result BE Document) (new_id : G → G * ObjectId).
Local Abbreviation error := (LoadError (SeedError BE GE) (Error BE IOE X Document)).

(** [collect::<Result<Vec<_>>>()] over a batch *)
Fixpoint replicas (copy : nat) (batch : list Document) : result (SeedError BE GE) (list Document) :=
  match batch with
  | [] => Ok []
  | place :: batch =>
      let? r := replica place copy in
      let? rs := replicas copy batch in
      Ok (r :: rs)
  end.

(** The inner loop, over the chunks of the seed. *)
Fixpoint insert_chunks (copy : nat) (batches : list (list Document)) (g : G)
    : io K (result error G) :=
  match batches with
  | [] => ret (Ok g)
  | batch :: batches =>
      let!? batch := lift (map_err SeedFailed (replicas copy batch)) in
      let '(insert, g) := Collection_insert_many serialize new_id collection batch g in
      let! inserted := insert in
      match inserted with
      | Err e => ret (Err (ClientFailed e))
      | Ok _ => insert_chunks copy batches g
      end
  end.

(** The outer loop, over the copies from [copy] on. *)
Fixpoint insert_copies (documents : list Document) (n copy : nat) (g : G) : io K (result error G) :=
  match n with
  | O => ret (Ok g)
  | S n =>
      let!? g := insert_chunks copy (chunks BATCH_SIZE documents) g in
      insert_copies documents n (S copy) g
  end.

Definition insert_seed (documents : list Document) (copies : nat) (g : G) : io K (result error G) :=
  insert_copies documents copies 0 g.
End load.

(** ** Reading the seed back *)

Section reading.
Context {Document BE GE : Type}.
Context (read_document : bytes → result BE (Document * bytes)).
(** Reading a document takes bytes off the front. *)
Context (Hconsumes : ∀ raw d rest, read_document raw = Ok (d, rest) → (length rest < length raw)%nat).

Lemma read_all_ends fuel remaining documents :
  (length remaining ≤ fuel)%nat →
  ∃ r, read_all (GE := GE) read_document fuel remaining documents = Some r.
Proof using Hconsumes.
  revert remaining documents. induction fuel as [|fuel IH]; intros remaining documents Hlen.
  - destruct remaining; simpl in *; [eauto|lia].
  - destruct remaining as [|b remaining]; simpl; [eauto|].
    destruct (read_document (b :: remaining)) as [[d rest]|e] eqn:E; [|eauto].
    apply IH. apply Hconsumes in E. simpl in *. lia.
Qed.

(** What is written is read. *)
Context (write_document : Document → bytes).
Context (Hreads : ∀ d rest, read_document (write_document d ++ rest) = Ok (d, rest)).

Lemma read_all_written docs fuel documents :
  (length (concat (write_document <$> docs)) ≤ fuel)%nat →
  read_all (GE := GE) read_document fuel (concat (write_document <$> docs)) documents
  = Some (Ok (documents ++ docs)).
Proof using Hconsumes Hreads.
  revert fuel documents. induction docs as [|d docs IH]; intros fuel documents Hlen; csimpl.
  { rewrite app_nil_r. by destruct fuel. }
  csimpl in Hlen. pose proof (Hreads d (concat (write_document <$> docs))) as Hr.
  pose proof (Hconsumes _ _ _ Hr) as Hlt. rewrite length_app in *.
  destruct (write_document d ++ concat (write_document <$> docs)) as [|b raw] eqn:E.
  { apply app_nil in E as [E _]. rewrite E in Hlt. simpl in Hlt. lia. }
  destruct fuel as [|fuel]; [lia|]. cbn [read_all]. rewrite Hr.
  rewrite IH by lia. by rewrite <- app_assoc.
Qed.

(** A seed that was written as documents one after the other is read back as those documents,
    and the reading of any bytes ends, with documents or an error. *)
Theorem a_seed_is_read_back gunzip compressed len docs :
  (gunzip compressed = Ok (concat (write_document <$> docs)) →
   load (GE := GE) read_document gunzip (Some len) (Some compressed)
   = Some (Ok (mkSeed docs len (Z.of_nat (length (concat (write_document <$> docs))))))) ∧
  (∀ metadata file, ∃ r, load (GE := GE) read_document gunzip metadata file = Some r).
Proof using Hconsumes Hreads.
  split.
  - intros Hg. unfold load. rewrite Hg, read_all_written by done. done.
  - intros [?|] [file|]; simpl; eauto. destruct (gunzip file) as [raw|e]; [|eauto].
    destruct (read_all_ends (length raw) raw [] ltac:(done)) as [r ->]. simpl. eauto.
Qed.
End reading.

(** ** Chunks *)

Lemma chunk_rounds_concat {A} fuel n (l : list A) :
  (0 < n)%nat → (length l ≤ fuel)%nat → concat (chunk_rounds fuel n l) = l.
Proof.
  intros Hn. revert l. induction fuel as [|fuel IH]; intros [|x l] Hlen; try done; simpl in *; [lia|].
  rewrite IH by (rewrite length_drop; simpl; lia). apply take_drop.
Qed.

Lemma chunk_rounds_sizes {A} fuel n (l : list A) :
  (0 < n)%nat → Forall (λ b, 0 < length b ≤ n)%nat (chunk_rounds fuel n l).
Proof.
  intros Hn. revert l. induction fuel as [|fuel IH]; intros [|x l]; try done; cbn [chunk_rounds].
  constructor; [|apply IH]. rewrite length_take. simpl. lia.
Qed.

(** ** Replicas are told apart *)

Fixpoint no_colon (s : string) : bool :=
  match s with
  | EmptyString => true
  | String c s => negb (Ascii.eqb c ":"%char) && no_colon s
  end.

(** The id of a copy of the place with this id. *)
Definition replica_id (id : string) (copy : nat) : string :=
  match copy with O => id | _ => id +:+ ":" +:+ pretty copy end.

Lemma colon_splits a b x y :
  no_colon a = true → no_colon b = true → a +:+ ":" +:+ x = b +:+ ":" +:+ y → a = b ∧ x = y.
Proof.
  revert b. induction a as [|c a IH]; intros [|d b]; simpl; intros Ha Hb E.
  - injection E as E. done.
  - injection E as <- _. by simpl in Hb.
  - injection E as -> _. by simpl in Ha.
  - apply andb_prop in Ha as [_ Ha]. apply andb_prop in Hb as [_ Hb]. injection E as -> E.
    destruct (IH b Ha Hb E) as [-> ->]. done.
Qed.

Lemma colon_inside a x : no_colon (a +:+ ":" +:+ x) = false.
Proof. induction a as [|c a IH]; simpl; [done|]. rewrite IH. apply andb_false_r. Qed.

Lemma replica_id_inj id id' copy copy' :
  no_colon id = true → no_colon id' = true →
  replica_id id copy = replica_id id' copy' → id = id' ∧ copy = copy'.
Proof.
  intros H H' E. destruct copy as [|c], copy' as [|c']; simpl in E.
  - done.
  - subst id. by rewrite colon_inside in H.
  - subst id'. by rewrite colon_inside in H'.
  - apply colon_splits in E as [-> E]; [|done..]. split; [done|]. by apply (inj pretty) in E.
Qed.

Section replicas.
Context `{BsonLaws Document ObjectId Other Bytes BE} {GE : Type}.
Local Abbreviation replica := (replica (GE := GE)).

(** A replica is the place but for its id and its point. *)
Lemma replica_of document copy r id :
  replica document copy = Ok r → get_str "_id" document = Some id →
  get_str "_id" r = Some (replica_id id copy) ∧
  (∀ k, k ≠ "_id"%string → k ≠ "loc"%string → doc_get k r = doc_get k document).
Proof.
  destruct copy as [|copy]; simpl; [by intros [= ->]|]. intros Hr Hid. rewrite Hid in Hr.
  cbn [ok_or result_bind] in Hr. destruct (get_document "loc" document ≫= _) as [point|]; [|done].
  cbn [ok_or result_bind] in Hr. destruct (head point) as [[]|]; try done.
  destruct (point !! 1%nat) as [[]|]; try done. injection Hr as <-. split.
  - unfold get_str. rewrite doc_get_insert_ne by done. by rewrite doc_get_insert.
  - intros k Hk1 Hk2. by rewrite !doc_get_insert_ne.
Qed.

Lemma replicas_each copy batch rs :
  replicas (GE := GE) copy batch = Ok rs → Forall2 (λ d r, replica d copy = Ok r) batch rs.
Proof.
  revert rs. induction batch as [|d batch IH]; intros rs; simpl; [intros [= <-]; constructor|].
  destruct (replica d copy) as [r|] eqn:Hr; [|done].
  destruct (replicas copy batch) as [rs'|]; [|done]. intros [= <-]. constructor; auto.
Qed.
End replicas.

(** ** What a load that succeeds has inserted *)

Section loaded.
Context `{BsonLaws Document ObjectId Other Bytes BE} {GE IOE X G : Type}.
Context `{!Commands K Document (Error BE IOE X Document)}.
Context (serialize : Document → result BE Document) (new_id : G → G * ObjectId).
Local Abbreviation replica := (replica (GE := GE)).
Local Abbreviation insert_many := (Collection_insert_many (IOE := IOE) (X := X) serialize new_id collection).

(** The batches that were inserted between two states of the client, one after the other. *)
Inductive inserted : list (list Document) → K → K → Prop :=
| inserted_none k : inserted [] k k
| inserted_batch batch batches g ids k k1 k' :
    fst (insert_many batch g) k = (Returns (Ok ids), k1) →
    inserted batches k1 k' → inserted (batch :: batches) k k'.

Lemma inserted_app bs1 bs2 k k1 k' : inserted bs1 k k1 → inserted bs2 k1 k' → inserted (bs1 ++ bs2) k k'.
Proof. induction 1; intros; [done|]. simpl. eauto using inserted_batch. Qed.

Lemma insert_chunks_inserts copy batches g g' k k' :
  insert_chunks (GE := GE) serialize new_id copy batches g k = (Returns (Ok g'), k') →
  ∃ bs, inserted bs k k' ∧
    Forall2 (Forall2 (λ d r, replica d copy = Ok r)) batches bs.
Proof.
  revert g k. induction batches as [|batch batches IH]; intros g k; cbn [insert_chunks].
  { intros [= -> ->]. exists []. split; constructor. }
  intros Hi. apply try_ok_inv in Hi as (rs & k1 & Hrs & Hi). unfold lift, ret in Hrs.
  destruct (replicas copy batch) as [rs'|] eqn:Hreps; simpl in Hrs; simplify_eq.
  destruct (insert_many rs g) as [insert g1] eqn:Hins. unfold bind in Hi.
  destruct (insert k1) as [[[ids|e]| | |] k2] eqn:Hran; try done.
  destruct (IH _ _ Hi) as (bs & Hbs & Hall). exists (rs :: bs). split.
  - eapply (inserted_batch _ _ g); [|done]. by rewrite Hins.
  - constructor; [by apply replicas_each in Hreps|done].
Qed.

(** Every copy of every place, in the order the loops take them. *)
Fixpoint planned {A} (documents : list A) (n copy : nat) : list (nat * A) :=
  match n with
  | O => []
  | S n => ((λ d, (copy, d)) <$> documents) ++ planned documents n (S copy)
  end.

Lemma Forall2_concat {A B} (P : A → B → Prop) ls ks :
  Forall2 (Forall2 P) ls ks → Forall2 P (concat ls) (concat ks).
Proof. induction 1; simpl; [done|]. by apply Forall2_app. Qed.

Lemma insert_copies_inserts documents n copy g g' k k' :
  insert_copies (GE := GE) serialize new_id documents n copy g k = (Returns (Ok g'), k') →
  ∃ bs, inserted bs k k' ∧ Forall (λ b, 0 < length b ≤ BATCH_SIZE)%nat bs ∧
    Forall2 (λ p r, replica (snd p) (fst p) = Ok r) (planned documents n copy) (concat bs).
Proof.
  revert copy g k. induction n as [|n IH]; intros copy g k; cbn [insert_copies planned].
  { intros [= -> ->]. exists []. split_and!; constructor. }
  intros Hi. apply try_ok_inv in Hi as (g1 & k1 & Hc & Hi).
  apply insert_chunks_inserts in Hc as (bs1 & Hbs1 & Hall1).
  destruct (IH _ _ _ Hi) as (bs2 & Hbs2 & Hsize2 & Hall2).
  exists (bs1 ++ bs2). rewrite concat_app. split_and!; [by eapply inserted_app| |].
  - apply Forall_app. split; [|done].
    pose proof (chunk_rounds_sizes (length documents) BATCH_SIZE documents ltac:(unfold BATCH_SIZE; lia))
      as Hs.
    clear -Hall1 Hs. unfold chunks in Hall1. induction Hall1 as [|b r bs rs Hb _ IH]; [done|].
    apply Forall_cons in Hs as [? Hs]. constructor; [|auto].
    by rewrite <- (Forall2_length _ _ _ Hb).
  - apply Forall2_app; [|done]. apply Forall2_fmap_l. apply Forall2_concat in Hall1.
    unfold chunks in Hall1. rewrite chunk_rounds_concat in Hall1; [|unfold BATCH_SIZE; lia|done].
    done.
Qed.

Lemma planned_elem {A} (l : list A) n copy c x :
  (c, x) ∈ planned l n copy ↔ (copy ≤ c < copy + n)%nat ∧ x ∈ l.
Proof.
  revert copy. induction n as [|n IH]; intros copy; cbn [planned].
  { rewrite elem_of_nil. lia. }
  rewrite elem_of_app, IH, list_elem_of_fmap. split.
  - intros [(y & [= -> ->] & Hy)|[? ?]]; split; done || lia.
  - intros [Hc Hx]. destruct (decide (c = copy)) as [->|]; [left; eauto|right].
    split; [lia|done].
Qed.

Lemma planned_NoDup {A} (l : list A) n copy : NoDup l → NoDup (planned l n copy).
Proof.
  intros Hl. revert copy. induction n as [|n IH]; intros copy; cbn [planned]; [constructor|].
  apply NoDup_app. split_and!; [|intros [c x]|apply IH].
  - apply NoDup_fmap_2; [intros x y; congruence|done].
  - rewrite list_elem_of_fmap, planned_elem. intros (y & [= -> ->] & _). lia.
Qed.

Lemma planned_length {A} (l : list A) n copy : length (planned l n copy) = (n * length l)%nat.
Proof.
  revert copy. induction n as [|n IH]; intros copy; cbn [planned]; [done|].
  rewrite length_app, length_fmap, IH. lia.
Qed.

Lemma planned_Forall2 {A B} (P : A → B → Prop) l l' n copy :
  Forall2 P l l' → Forall2 (λ p q, fst p = fst q ∧ P (snd p) (snd q)) (planned l n copy) (planned l' n copy).
Proof.
  intros Hl. revert copy. induction n as [|n IH]; intros copy; cbn [planned]; [constructor|].
  apply Forall2_app; [|apply IH]. apply Forall2_fmap. by eapply Forall2_impl; [exact Hl|].
Qed.

(** The ids of what was inserted are those of the replicas. *)
Lemma inserted_ids places planned_ids rs :
  Forall2 (λ p r, replica (snd p) (fst p) = Ok r) places rs →
  Forall2 (λ p q, fst p = fst q ∧ get_str "_id" (snd p) = Some (snd q)) places planned_ids →
  omap (get_str "_id") rs = (λ q, replica_id (snd q) (fst q)) <$> planned_ids.
Proof.
  intros Hr. revert planned_ids. induction Hr as [|[c d] r places rs Hr _ IH]; intros ids Hids.
  - by inversion Hids.
  - inversion Hids as [|? [c' id] ? ids' [Hc Hid] Hids']; simpl in *; subst.
    destruct (replica_of d c' r id Hr Hid) as [Hg _]. csimpl. rewrite Hg. f_equal. by apply IH.
Qed.

(** C40. A load of the benchmark that succeeds has inserted every copy of every place exactly
    once: in batches of at least one document and at most five hundred, in the order of the
    loops, each a replica of its place; and where the places have distinct ids without a colon,
    so have the replicas. *)
Theorem the_load_inserts_every_replica_once documents copies g g' k k' :
  insert_seed (GE := GE) serialize new_id documents copies g k = (Returns (Ok g'), k') →
  ∃ batches, inserted batches k k' ∧
    Forall (λ b, 0 < length b ≤ BATCH_SIZE)%nat batches ∧
    length (concat batches) = (copies * length documents)%nat ∧
    Forall2 (λ p r, replica (snd p) (fst p) = Ok r) (planned documents copies 0) (concat batches) ∧
    (∀ ids, Forall2 (λ d id, get_str "_id" d = Some id) documents ids →
       NoDup ids → Forall (λ id, no_colon id = true) ids →
       omap (get_str "_id") (concat batches)
         = (λ q, replica_id (snd q) (fst q)) <$> planned ids copies 0 ∧
       NoDup (omap (get_str "_id") (concat batches))).
Proof.
  intros (bs & Hbs & Hsize & Hall)%insert_copies_inserts. exists bs.
  split_and!; [done|done| |done|].
  - by rewrite <- (Forall2_length _ _ _ Hall), planned_length.
  - intros ids Hids Hnd Hcolon.
    pose proof (inserted_ids _ _ _ Hall (planned_Forall2 _ _ _ copies 0 Hids)) as Heq.
    split; [done|]. rewrite Heq. apply NoDup_fmap_2_strong; [|by apply planned_NoDup].
    rewrite Forall_forall in Hcolon.
    intros [c x] [c' y] [_ Hx]%planned_elem [_ Hy]%planned_elem E.
    simpl in E. apply replica_id_inj in E as [-> ->]; auto.
Qed.
End loaded.

(** ** Concrete places *)

Definition place (id : string) (longitude latitude : spec_float) : Doc :=
  doc [("_id"%string, BString id : Bson Doc nat Empty_set);
       ("loc"%string, BDocument (doc [("type"%string, BString "Point" : Bson Doc nat Empty_set);
                                      ("coordinates"%string, Array [Double longitude; Double latitude])]))].

Definition a_bridge : Doc := place "bridge" (f64_literal (-62603) 10000) (f64_literal 533498 10000).
Definition a_corner : Doc := place "corner" (f64_literal (-62577) 10000) (f64_literal 533438 10000).

(** An engine that counts what it is sent. *)
Definition reply_to_two : Doc := doc [("n"%string, Int32 2 : Bson Doc nat Empty_set); ("ok"%string, Int32 1)].

Definition loading : Script := mkScript [reply_to_two; reply_to_two] [].

Definition loaded_script : Script :=
  snd (insert_seed (GE := unit) (IOE := unit) (X := unit) as_is counting [a_bridge; a_corner] 2 0%nat
         loading).

Lemma load_witness :
  ∃ batches, inserted (IOE := unit) (X := unit) as_is counting batches loading loaded_script ∧
    length (concat batches) = 4%nat ∧
    omap (get_str "_id") (concat batches) = ["bridge"; "corner"; "bridge:1"; "corner:1"]%string.
Proof.
  destruct (the_load_inserts_every_replica_once (GE := unit) (IOE := unit) (X := unit) as_is counting
    [a_bridge; a_corner] 2 0%nat 0%nat loading loaded_script) as (bs & Hbs & _ & Hlen & _ & Hids).
  - vm_compute. reflexivity.
  - exists bs. split; [exact Hbs|]. split; [exact Hlen|].
    destruct (Hids ["bridge"; "corner"]%string) as [-> _].
    + constructor; [vm_compute; reflexivity|]. constructor; [vm_compute; reflexivity|constructor].
    + apply (bool_decide_unpack _). vm_compute. exact I.
    + repeat constructor.
    + vm_compute. reflexivity.
Defined.

(** The point of a replica, as the bits of its coordinates. *)
Definition point_of (d : Doc) : option (list (Bson Doc nat Empty_set)) :=
  get_document "loc" d ≫= get_array "coordinates".

Definition bits (f : spec_float) : bool * Z * Z :=
  match f with
  | S754_zero s => (s, 0, 0)
  | S754_infinity s => (s, -1, 0)
  | S754_nan => (false, -2, 0)
  | S754_finite s m e => (s, Zpos m, e)
  end.

Definition replica_longitude (d : Doc) (copy : nat) : option (bool * Z * Z) :=
  match replica (GE := unit) d copy with
  | Ok r => match point_of r with Some (Double f :: _) => Some (bits f) | _ => None end
  | Err _ => None
  end.

(** The 254 replicas of a place in Dublin have 254 different longitudes. *)
Lemma replicas_of_a_place_are_apart :
  bool_decide (NoDup (replica_longitude a_bridge <$> seq 0 254)) = true ∧
  forallb (λ copy, match replica_longitude a_bridge copy with Some _ => true | None => false end)
    (seq 0 254) = true.
Proof. split; vm_compute; reflexivity. Qed.

(** Documents of one byte each. *)
Definition read_byte (raw : bytes) : result unit (Byte.byte * bytes) :=
  match raw with [] => Err tt | b :: rest => Ok (b, rest) end.

Lemma seed_witness :
  load (GE := unit) read_byte (λ l, Ok l) (Some 2) (Some [Byte.x01; Byte.x02])
  = Some (Ok (mkSeed [Byte.x01; Byte.x02] 2 2)).
Proof.
  refine (proj1 (a_seed_is_read_back (GE := unit) read_byte _ (λ b, [b]) _ (λ l, Ok l)
    [Byte.x01; Byte.x02] 2 [Byte.x01; Byte.x02]) _).
  - intros [|b raw] d rest [= -> ->]. simpl. lia.
  - intros d rest. reflexivity.
  - reflexivity.
Defined.
