(* ===== verification/BenchReport.v ===== *)
(** * How the places benchmark prints

    [examples/places-benchmark/report.rs] and [megabytes] of [measure.rs]: the lines of the
    report. A duration is in nanoseconds; a float is printed with a fixed number of decimals,
    which [core::fmt] rounds from the exact value, to even where it is half way. *)
From stdpp Require Import pretty.
From S2P Require Import Prelude EngineOptions Options Slot Reaper SessionPool Errors Bson.
From S2P Require Import Response Effects Client Find Text BenchDir BenchMeasure BenchSeed.

(** ** [format!] *)

Fixpoint spaces (n : nat) : string :=
  match n with O => EmptyString | S n => String " "%char (spaces n) end.

(** [{:<n}] and [{:>n}] of an ASCII text *)
Definition pad_right (n : nat) (s : string) : string := s +:+ spaces (n - String.length s).
Definition pad_left (n : nat) (s : string) : string := spaces (n - String.length s) +:+ s.

Fixpoint zeros (n : nat) : string :=
  match n with O => EmptyString | S n => String "0"%char (zeros n) end.

(** The quotient nearest to [a / b], the even one of two. *)
Definition div_half_even (a b : Z) : Z :=
  let q := a / b in
  let r := 2 * (a mod b) in
  if (b <? r) || ((r =? b) && Z.odd q) then q + 1 else q.

(** A non-negative decimal with the last [decimals] digits after the point. *)
Definition with_point (decimals : nat) (scaled : Z) : string :=
  let unit := 10 ^ Z.of_nat decimals in
  let whole := pretty (Z.to_N (scaled / unit)) in
  match decimals with
  | O => whole
  | _ =>
      let rest := pretty (Z.to_N (scaled mod unit)) in
      whole +:+ "." +:+ zeros (decimals - String.length rest) +:+ rest
  end.

(** [{:.n}] of an [f64] *)
Definition fixed (decimals : nat) (f : spec_float) : string :=
  let unit := 10 ^ Z.of_nat decimals in
  match f with
  | S754_nan => "NaN"
  | S754_infinity s => if s then "-inf" else "inf"
  | S754_zero s => (if s then "-" else "") +:+ with_point decimals 0
  | S754_finite s m e =>
      (if s then "-" else "") +:+
      with_point decimals
        (if 0 <=? e then Zpos m * 2 ^ e * unit else div_half_even (Zpos m * unit) (2 ^ (- e)))
  end.

(** ** [report.rs] *)

(** [measure::megabytes] *)
Definition megabytes (bytes : Z) : spec_float :=
  f64_div (f64_of_int bytes) (f64_mul (f64_integer 1024) (f64_integer 1024)).

(** [Duration::as_secs_f64] *)
Definition as_secs_f64 (nanos : Z) : spec_float :=
  f64_add (f64_of_int (nanos / 10 ^ 9)) (f64_div (f64_of_int (nanos mod 10 ^ 9)) (f64_of_int (10 ^ 9))).

(** A line of the report, as it is printed after its line feed or its indentation. *)
Definition heading (title : string) : list string := [""%string; "== " +:+ title].

Definition row (label value : string) : list string := ["  " +:+ pad_right 44 label +:+ value].

Definition bytes (value : Z) : string :=
  pretty (Z.to_N value) +:+ " B (" +:+ fixed 2 (megabytes value) +:+ " MiB)".

Definition millis (value : Z) : string :=
  fixed 3 (f64_mul (as_secs_f64 value) (f64_integer 1000)) +:+ " ms".

Definition latency_row (label : string) (measured : Latency) : list string :=
  row label ("p50 " +:+ pad_left 9 (millis (median measured))
             +:+ "  mean " +:+ pad_left 9 (millis (mean measured))
             +:+ "  max " +:+ pad_left 9 (millis (worst measured))
             +:+ "  " +:+ pretty (matches measured) +:+ " docs").

Definition WORLD_PLACES : spec_float := f64_integer 1315781.

Record Extrapolation := mkExtrapolation {
  factor : spec_float;
  seed_bytes : Z;
  insert : Z;
  indexes : list (string * Z);
  on_disk : Footprint;
}.

Definition bytes_estimate (value : Z) (factor : spec_float) : string :=
  "~" +:+ fixed 0 (f64_mul (megabytes value) factor) +:+ " MiB".

Definition millis_estimate (value : Z) (factor : spec_float) : string :=
  "~" +:+ fixed 1 (f64_mul (as_secs_f64 value) factor) +:+ " s".

(** The table of the extrapolation, without the paragraph printed after it. *)
Definition extrapolation (estimate : Extrapolation) : list string :=
  heading "extrapolation to the whole release (ESTIMATE, linear in document count)"
  ++ row "documents" (fixed 0 WORLD_PLACES +:+ " (" +:+ fixed 0 (factor estimate) +:+ "x)")
  ++ row "seed, gzip -9" (bytes_estimate (seed_bytes estimate) (factor estimate))
  ++ row "insert time" (millis_estimate (insert estimate) (factor estimate))
  ++ concat ((λ '(label, elapsed),
       row ("build index: " +:+ label) (millis_estimate elapsed (factor estimate)))
       <$> indexes estimate)
  ++ row "data directory"
       ("~" +:+ fixed 0 (f64_mul (megabytes (tables_and_catalog (on_disk estimate))) (factor estimate))
        +:+ " MiB tables + " +:+ bytes (journal (on_disk estimate)) +:+ " journal").

(** ** What is printed *)

Lemma div_half_even_near a b : 0 < b → 2 * Z.abs (a - b * div_half_even a b) ≤ b.
Proof.
  intros Hb. unfold div_half_even. pose proof (Z.div_mod a b ltac:(lia)).
  pose proof (Z.mod_pos_bound a b Hb).
  destruct (Z.ltb_spec b (2 * (a mod b))); simpl; [lia|].
  destruct (Z.eqb_spec (2 * (a mod b)) b); simpl; [destruct (Z.odd (a / b))|]; lia.
Qed.

Example bytes_example : bytes 104857600 = "104857600 B (100.00 MiB)"%string.
Proof. vm_compute. reflexivity. Qed.

Example millis_example : millis 1234567890 = "1234.568 ms"%string.
Proof. vm_compute. reflexivity. Qed.

Example half_example : (fixed 0 (f64_literal 25 10), fixed 1 (f64_literal 1 4)) = ("2", "0.2")%string.
Proof. vm_compute. reflexivity. Qed.

Example latency_row_example :
  latency_row "near" (mkLatency 2500000 3000000 12000000 50)
  = ["  near                                        p50  2.500 ms  mean  3.000 ms  max 12.000 ms  50 docs"%string].
Proof. vm_compute. reflexivity. Qed.
