(* ===== verification/Benchmark.v ===== *)
(** * The places benchmark: its arguments, its directory and its cold open

    [examples/places-benchmark/main.rs] and [cold.rs]. What the command line asks for is read
    first; the benchmark then clears its directory ([BenchDir]), loads the seed ([BenchSeed]) and
    measures ([BenchMeasure], [BenchRss]), and at the end runs itself again to open the directory
    in a process that never held it. Opening, closing and dropping a client are the operations of
    [Open] here; they are arguments, with the clock and the readings of the sampler. *)
From stdpp Require Import pretty.
From S2P Require Import Prelude EngineOptions Options Slot Reaper SessionPool Errors Bson.
From S2P Require Import WorkerState Response Effects Client Find Insert Async Facade.
From S2P Require Import Text Search BuildHost Prebuilt Glibc.
From S2P Require Import BenchDir BenchMeasure BenchRss BenchSeed BenchReport.

Local Abbreviation bytes := (list Byte.byte).

(** ** The command line *)

Definition QUERY_ITERATIONS : nat := 50.
Definition REPLICATED_QUERY_ITERATIONS : nat := 5.
Definition COLD_OPEN_REPEATS : Z := 5.

(** [env!("CARGO_MANIFEST_DIR")] is where the crate was built. *)
Definition default_seed (manifest_dir : string) : string :=
  BuildHost.join manifest_dir ".cache/places/ireland.bson.gz".
Definition default_data (manifest_dir : string) : string :=
  BuildHost.join manifest_dir ".cache/places-benchmark".

Inductive MainError :=
| NeedsDirectory       (* --cold-open needs a data directory *)
| BadRepeats           (* repeats must be a positive integer *)
| BadCopies.           (* copies must be a positive integer *)

(** What [main] goes on to run. *)
Inductive Invocation :=
| RunColdOpen (directory : string) (repeats : Z)
| RunBenchmark (seed_path data_directory : string) (copies : Z) (unrecognised : Unrecognised).

Definition is_force (argument : string) : bool := bool_decide (argument = "--force"%string).

(** A count that is left out is one. *)
Definition parse_count (refused : MainError) (argument : option string) : result MainError Z :=
  match argument with
  | Some text => ok_or refused (parse_unsigned usize_max (B text))
  | None => Ok 1
  end.

Definition main_arguments (manifest_dir : string) (arguments : list string)
    : result MainError Invocation :=
  let unrecognised := if existsb is_force arguments then Delete else Refuse in
  let arguments := filter (λ argument, is_force argument = false) arguments in
  let first := arguments !! 0%nat in
  if bool_decide (first = Some "--cold-open"%string) then
    let? directory := ok_or NeedsDirectory (arguments !! 1%nat) in
    let? repeats := parse_count BadRepeats (arguments !! 2%nat) in
    Ok (RunColdOpen directory repeats)
  else
    let seed_path := default (default_seed manifest_dir) first in
    let data_directory := default (default_data manifest_dir) (arguments !! 1%nat) in
    let? copies := parse_count BadCopies (arguments !! 2%nat) in
    Ok (RunBenchmark seed_path data_directory copies unrecognised).

(** How often [benchmark] measures a query. *)
Definition iterations (copies : Z) : nat :=
  if 1 <? copies then REPLICATED_QUERY_ITERATIONS else QUERY_ITERATIONS.

(** ** [cold.rs] *)

(** The arguments [spawn] gives the child. *)
Definition spawn_arguments (data_directory : string) (repeats : Z) : list string :=
  ["--cold-open"%string; data_directory; pretty (Z.to_N repeats)].

Inductive SpawnError := ExecutableGone | CannotRun | ChildFailed.

Definition deleted_suffix : bytes := B " (deleted)".

(** [str::strip_suffix] *)
Definition strip_suffix (suffix text : bytes) : option bytes :=
  reverse <$> strip_prefix (reverse suffix) (reverse text).

(** [executable]: [current] is what [current_exe] answered, and a path that is not UTF-8 is
    read as [to_string_lossy] does. *)
Definition executable (exists_file : bytes → bool) (current : option bytes)
    : result SpawnError bytes :=
  let? path := ok_or ExecutableGone current in
  if exists_file path then Ok path
  else
    let replacement :=
      match strip_suffix deleted_suffix (from_utf8_lossy path) with
      | Some replacement => if exists_file replacement then Some replacement else None
      | None => None
      end in
    ok_or ExecutableGone replacement.

(** [spawn]: the child's exit, where it could be run, is whether it succeeded. *)
Definition spawn (exists_file : bytes → bool) (current : option bytes)
    (run_child : bytes → list string → option bool) (data_directory : string) (repeats : Z)
    : result SpawnError unit :=
  let? path := executable exists_file current in
  let? success := ok_or CannotRun (run_child path (spawn_arguments data_directory repeats)) in
  if success : bool then Ok tt else Err ChildFailed.

Inductive ColdError (CE : Type) := ColdClient (e : CE) | ColdRss (e : RssError).
Arguments ColdClient {CE} e.
Arguments ColdRss {CE} e.

Section printing.
Context {K : Type}.

(** The state of a run is the client's and the lines printed so far; the errors of a call become
    those of the run. *)
Definition engine_call {E F A} (wrap : E → F) (m : io K (result E A))
    : io (K * list string) (result F A) :=
  λ s, let '(r, k) := m (fst s) in
    (match r with
     | Returns a => Returns (map_err wrap a)
     | Blocks => Blocks
     | Panics => Panics
     | NoFuel => NoFuel
     end, (k, snd s)).

Definition print {F} (lines : list string) : io (K * list string) (result F unit) :=
  λ s, (Returns (Ok tt), (fst s, snd s ++ lines)).

(** Something that is read off the state. *)
Definition read_off {E A} (f : K → result E A) : io K (result E A) := λ k, (Returns (f k), k).

Lemma engine_call_ok {E F A} (wrap : E → F) (m : io K (result E A)) s a s' :
  engine_call wrap m s = (Returns (Ok a), s') →
  m (fst s) = (Returns (Ok a), fst s') ∧ snd s' = snd s.
Proof.
  unfold engine_call. destruct (m (fst s)) as [[[b|e]| | |] k]; intros E1; simplify_eq/=; done.
Qed.

Lemma time_ok {A E} (now : K → Z) (m : io K (result E A)) k a elapsed k' :
  time now m k = (Returns (Ok (a, elapsed)), k') →
  m k = (Returns (Ok a), k') ∧ elapsed = saturating_sub (now k') (now k).
Proof. unfold time. intros (b & k1 & Hm & [= <- <- <-])%try_ok_inv. done. Qed.
End printing.

Section cold.
Context `{BsonLib Document ObjectId Other Bytes BE} {IOE X : Type}.
Context `{!Commands K Document (Error BE IOE X Document)}.
Context (deserialize : Document → result BE Document) (error_text : Error BE IOE X Document → string).
Context (Client_new : string → io K (result (Error BE IOE X Document) unit)).
Context (Client_close : io K (result (Error BE IOE X Document) unit)).
Context (now : K → Z) (sampled_peak : K → Z) (status : K → option bytes).
Local Abbreviation error := (Error BE IOE X Document).

(** The nearby search: find, and drain what comes back. *)
Definition search (fuel : nat) : io K (result error nat) :=
  let!? cursor := Collection_find collection geo_within in
  drain deserialize fuel cursor.

(** The loop [for _ in 1..repeats]. *)
Fixpoint repeat_search (fuel n : nat) : io K (result error unit) :=
  match n with
  | O => ret (Ok tt)
  | S n => let!? _ := search fuel in repeat_search fuel n
  end.

Definition get_i32 (key : string) (document : Document) : option Z :=
  match doc_get key document with Some (Int32 value) => Some value | _ => None end.

(** What [near.map_err(..).and_then(drain)] is shown as. *)
Definition near_cell (fuel : nat) : io K (result error string) :=
  let! near := (let!? cursor := Collection_aggregate collection (geo_near None) in
                drain deserialize fuel cursor) in
  ret (Ok (match near with
           | Ok found => pretty found +:+ " docs"
           | Err e => error_text e
           end)).

(** [open]; where it fails the client is dropped and the process ends, which nothing here sees. *)
Definition cold_open (fuel : nat) (data_directory : string) (repeats : Z)
    : io (K * list string) (result (ColdError error) unit) :=
  let!? timed := engine_call ColdClient (time now
    (let!? _ := Client_new data_directory in search fuel)) in
  let '(matches, elapsed) := timed in
  let!? _ := engine_call ColdClient (repeat_search fuel (Z.to_nat (repeats - 1))) in
  let!? _ := print (row "open to first $geoWithin result" (millis elapsed)) in
  let!? _ := print (row "documents returned" (pretty matches)) in
  let!? _ := print (row "$geoWithin repeats" (pretty (Z.to_N repeats))) in
  let!? resident := engine_call ColdRss
    (read_off (λ k, map_ok (λ high, (sampled_peak k, high)) (peak_rss (status k)))) in
  let!? _ := print (row "peak RSS of the cold process"
               (BenchReport.bytes (fst resident) +:+ " sampled, "
                +:+ BenchReport.bytes (snd resident) +:+ " VmHWM")) in
  let!? stats := engine_call ColdClient (Database_run_command (Client_database DATABASE)
                   (doc [("collStats"%string, BString COLLECTION : Bson Document ObjectId Other)])) in
  let!? _ := print (row "indexes visible to the planner"
               (pretty (default (-1) (get_i32 "nindexes" stats)))) in
  let!? near := engine_call ColdClient (near_cell fuel) in
  let!? _ := print (row "$geoNear on the reopened directory" near) in
  engine_call ColdClient Client_close.
End cold.

(** ** [benchmark] *)

Inductive BenchError (BE GE CE : Type) :=
| BenchDirectory (e : DirError)
| BenchSeedFailed (e : SeedError BE GE)
| BenchLoad (e : LoadError (SeedError BE GE) CE)
| BenchClient (e : CE)
| BenchRssFailed (e : RssError)
| BenchSpawn (e : SpawnError).
Arguments BenchDirectory {BE GE CE} e.
Arguments BenchSeedFailed {BE GE CE} e.
Arguments BenchLoad {BE GE CE} e.
Arguments BenchClient {BE GE CE} e.
Arguments BenchRssFailed {BE GE CE} e.
Arguments BenchSpawn {BE GE CE} e.

Section benchmark.
Context `{BsonLib Document ObjectId Other Bytes BE} {IOE X GE G : Type}.
Context `{!Commands K Document (Error BE IOE X Document)}.
Context (deserialize serialize : Document → result BE Document) (new_id : G → G * ObjectId).
Context (read_document : bytes → result BE (Document * bytes)) (gunzip : bytes → result GE bytes).
Context (Client_new : string → io K (result (Error BE IOE X Document) unit)).
Context (Client_close : io K (result (Error BE IOE X Document) unit)).
Context (now : K → Z) (sampled_peak : K → Z) (status : K → option bytes).
(** What lies at the data directory, what the file system says of a directory's own length, the
    seed file's length and bytes, and the run of the child. *)
Context (disk_at : K → option BenchDir.node) (set_disk : option BenchDir.node → K → K).
Context (directory_len : list (string * BenchDir.node) → Z).
Context (seed_metadata : string → option Z) (seed_file : string → option bytes).
Context (spawn_child : string → Z → result SpawnError unit).
Local Abbreviation client_error := (Error BE IOE X Document).
Local Abbreviation error := (BenchError BE GE client_error).
Local Abbreviation run_io := (io (K * list string)).

Definition prepare_directory (f : Faults) (unrecognised : Unrecognised) : io K (result DirError unit) :=
  λ k, let '(r, place) := prepare f (disk_at k) unrecognised in (Returns r, set_disk place k).

Definition load_seed (seed_path : string) : io K (result (SeedError BE GE) (Seed Document)) := λ k,
  match load read_document gunzip (seed_metadata seed_path) (seed_file seed_path) with
  | Some r => (Returns r, k)
  | None => (NoFuel, k)
  end.

(** The queries that are measured: what comes back is drained, or collected and counted. *)
Definition drained (fuel : nat) (cursor : io K (result client_error (Cursor Document)))
    : io K (result client_error nat) :=
  let!? cursor := cursor in drain deserialize fuel cursor.
Definition collected (fuel : nat) (cursor : io K (result client_error (Cursor Document)))
    : io K (result client_error nat) :=
  let!? cursor := cursor in
  let!? found := try_collect deserialize fuel cursor in ret (Ok (length found)).

Definition scanned_geo (fuel : nat) := drained fuel (Collection_find collection geo_within).
Definition scanned_text (fuel : nat) := collected fuel (Collection_find collection (name_regex "coffee")).
Definition indexed_geo (fuel : nat) := drained fuel (Collection_find collection geo_within).
Definition near (fuel : nat) := collected fuel (Collection_aggregate collection (geo_near None)).
Definition near_filtered (fuel : nat) :=
  drained fuel (Collection_aggregate collection (geo_near (Some "coffee_shop"%string))).
Definition text (fuel : nat) := collected fuel (Collection_find collection (text_search "coffee")).

(** The loop over [index_commands]: a label and how long its index took. *)
Fixpoint build_indexes (commands : list (string * Document)) : io K (result client_error (list (string * Z))) :=
  match commands with
  | [] => ret (Ok [])
  | (label, cmd) :: commands =>
      let!? timed := time now (Database_run_command (Client_database DATABASE) cmd) in
      let!? times := build_indexes commands in
      ret (Ok ((label, snd timed) :: times))
  end.

Definition take_peak : run_io (result error Z) := engine_call BenchClient (read_off (λ k, Ok (sampled_peak k))).

(** What is measured, in the order it is. *)
Record Measured := mkMeasured {
  m_open : Z; m_insert : Z;
  m_insert_peak : Z; m_scan_peak : Z; m_index_peak : Z;
  m_scanned_geo : Latency; m_scanned_text : Latency;
  m_index_times : list (string * Z);
}.

(** Up to the indexes: the directory is cleared, the seed read and loaded, and the two baselines
    measured before the indexes are built. *)
Definition measure_load (fuel : nat) (f : Faults) (seed_path data_directory : string) (copies : Z)
    (unrecognised : Unrecognised) (g : G) : run_io (result error (Seed Document * Measured)) :=
  let!? _ := engine_call BenchDirectory (prepare_directory f unrecognised) in
  let!? seed := engine_call BenchSeedFailed (load_seed seed_path) in
  let documents := (Z.of_nat (length (seed_documents seed)) * copies) mod u64_modulus in
  let!? _ := print (heading "dataset") in
  let!? _ := print (row "seed" seed_path) in
  let!? _ := print (row "documents"
    (if copies =? 1 then pretty (Z.to_N documents)
     else pretty (Z.to_N documents) +:+ " (" +:+ pretty (Z.to_N copies)
          +:+ " copies of the extract)")) in
  let!? _ := print (row "bson, uncompressed" (BenchReport.bytes (raw_bytes seed))) in
  let!? _ := print (row "bson, gzip -9" (BenchReport.bytes (compressed_bytes seed))) in
  let!? opened := engine_call BenchClient (time now (Client_new data_directory)) in
  let!? loaded := engine_call BenchLoad
    (time now (insert_seed serialize new_id (seed_documents seed) (Z.to_nat copies) g)) in
  let!? insert_peak := take_peak in
  let!? geo := engine_call BenchClient (latency now (iterations copies) (scanned_geo fuel)) in
  let!? name := engine_call BenchClient (latency now (iterations copies) (scanned_text fuel)) in
  let!? scan_peak := take_peak in
  let!? index_times := engine_call BenchClient (build_indexes index_commands) in
  let!? index_peak := take_peak in
  ret (Ok (seed, mkMeasured (snd opened) (snd loaded) insert_peak scan_peak index_peak geo name
                   index_times)).

(** The rest: the indexed queries, the close, the footprint and the cold open. *)
Definition measure_queries (fuel : nat) (data_directory : string) (copies : Z)
    (seed : Seed Document) (m : Measured) : run_io (result error unit) :=
  let documents := (Z.of_nat (length (seed_documents seed)) * copies) mod u64_modulus in
  let n := iterations copies in
  let!? _ := print (heading "load") in
  let!? _ := print (row "open an empty directory" (millis (m_open m))) in
  let!? _ := print (row ("insert " +:+ pretty (Z.to_N documents) +:+ " docs, batches of "
                         +:+ pretty BATCH_SIZE)
    (millis (m_insert m) +:+ " ("
     +:+ fixed 0 (f64_div (f64_of_int documents) (as_secs_f64 (m_insert m))) +:+ " docs/s)")) in
  let!? _ := print (concat ((λ '(label, elapsed),
    row ("build index: " +:+ label) (millis elapsed)) <$> m_index_times m)) in
  let!? geo := engine_call BenchClient (latency now n (indexed_geo fuel)) in
  let!? nearest := engine_call BenchClient (latency now n (near fuel)) in
  let!? filtered := engine_call BenchClient (latency now n (near_filtered fuel)) in
  let!? found := engine_call BenchClient (latency now n (text fuel)) in
  let!? query_peak := take_peak in
  let!? _ := print (heading ("queries (" +:+ pretty n +:+ " runs each)")
    ++ latency_row "$geoWithin 5 km, collection scan" (m_scanned_geo m)
    ++ latency_row "$geoWithin 5 km, 2dsphere" geo
    ++ latency_row "$geoNear Dublin, limit 50" nearest
    ++ latency_row "$geoNear + cat filter, limit 50" filtered
    ++ latency_row "name regex /coffee/i, collection scan" (m_scanned_text m)
    ++ latency_row "$text 'coffee', text index" found) in
  let!? _ := engine_call BenchClient Client_close in
  let!? close_peak := take_peak in
  let!? on_disk := engine_call BenchDirectory (read_off (λ k, footprint directory_len (disk_at k))) in
  let!? _ := print (heading "footprint"
    ++ row "data directory after clean close" (BenchReport.bytes (total on_disk))
    ++ row "  of which preallocated journal" (BenchReport.bytes (journal on_disk))
    ++ row "  of which tables and catalog" (BenchReport.bytes (tables_and_catalog on_disk))
    ++ row "peak RSS inserting" (BenchReport.bytes (m_insert_peak m))
    ++ row "peak RSS scanning without indexes" (BenchReport.bytes (m_scan_peak m))
    ++ row "peak RSS building indexes" (BenchReport.bytes (m_index_peak m))
    ++ row "peak RSS querying with indexes" (BenchReport.bytes query_peak)
    ++ row "peak RSS closing (final checkpoint)" (BenchReport.bytes close_peak)) in
  let!? high := engine_call BenchRssFailed (read_off (λ k, peak_rss (status k))) in
  let!? _ := print (row "peak RSS, whole process (VmHWM)" (BenchReport.bytes high)
                    ++ heading "cold open, fresh process") in
  let!? _ := engine_call BenchSpawn (read_off (λ _, spawn_child data_directory COLD_OPEN_REPEATS)) in
  print (if copies =? 1 then
           extrapolation (mkExtrapolation (f64_div WORLD_PLACES (f64_of_int documents))
             (compressed_bytes seed) (m_insert m) (m_index_times m) on_disk)
         else []).

Definition benchmark (fuel : nat) (f : Faults) (seed_path data_directory : string) (copies : Z)
    (unrecognised : Unrecognised) (g : G) : run_io (result error unit) :=
  let!? loaded := measure_load fuel f seed_path data_directory copies unrecognised g in
  measure_queries fuel data_directory copies (fst loaded) (snd loaded).
End benchmark.

(** ** What the command line can do *)

Lemma spared_unless_forced arguments manifest_dir run :
  main_arguments manifest_dir arguments = Ok run → "--force"%string ∉ arguments →
  match run with RunBenchmark _ _ _ unrecognised => unrecognised = Refuse | _ => True end.
Proof.
  unfold main_arguments. intros Hrun Hforce.
  assert (existsb is_force arguments = false) as Hno.
  { apply not_true_is_false. rewrite existsb_exists. intros (a & Ha%list_elem_of_In & Hf).
    apply bool_decide_eq_true in Hf as ->. done. }
  rewrite Hno in Hrun. case_bool_decide.
  - destruct (_ !! 1%nat); simpl in Hrun; [|done]. destruct (parse_count _ _); by simplify_eq/=.
  - destruct (parse_count _ _); by simplify_eq/=.
Qed.

(** The words but "--force", wherever it stands. *)
Lemma positional arguments :
  Forall (λ a, is_force a = false) arguments →
  existsb is_force arguments = false ∧ filter (λ a, is_force a = false) arguments = arguments.
Proof.
  induction 1 as [|a arguments Ha _ [IH1 IH2]]; [done|]. cbn [existsb]. rewrite Ha, IH1.
  split; [done|]. rewrite filter_cons_True by done. by rewrite IH2.
Qed.

(** The child is asked to open the directory the benchmark wrote: what it reads from the
    arguments it is given is that directory and that many repeats. *)
Lemma spawned_arguments manifest_dir directory repeats :
  directory ≠ "--force"%string → 0 ≤ repeats ≤ usize_max →
  main_arguments manifest_dir (spawn_arguments directory repeats) = Ok (RunColdOpen directory repeats).
Proof.
  intros Hd Hr. unfold main_arguments.
  assert (Forall (λ a, is_force a = false) (spawn_arguments directory repeats)) as Hall.
  { repeat constructor; apply bool_decide_eq_false; [done..|].
    intros E. pose proof (pretty_digits (Z.to_N repeats)) as Hdig. rewrite E in Hdig.
    apply Forall_cons in Hdig as [[? Hbad] _]. discriminate. }
  destruct (positional _ Hall) as [-> ->]. cbn [spawn_arguments lookup list_lookup].
  rewrite bool_decide_true by done. cbn [ok_or result_bind parse_count].
  rewrite parse_pretty by lia. cbn [ok_or result_bind]. by rewrite Z2N.id by lia.
Qed.

Lemma kept_argument (arguments : list string) (i : nat) a :
  filter (λ a, is_force a = false) arguments !! i = Some a → a ≠ "--force"%string.
Proof.
  intros Hi. apply list_elem_of_lookup_2 in Hi. apply list_elem_of_filter in Hi as [Hf _].
  by apply bool_decide_eq_false in Hf.
Qed.

Lemma benchmark_directory manifest_dir arguments seed_path data_directory copies unrecognised :
  main_arguments manifest_dir arguments
    = Ok (RunBenchmark seed_path data_directory copies unrecognised) →
  default_data manifest_dir ≠ "--force"%string → data_directory ≠ "--force"%string.
Proof.
  unfold main_arguments. intros Hrun Hdef. case_bool_decide.
  - destruct (_ !! 1%nat); simpl in Hrun; [|done]. by destruct (parse_count _ _).
  - destruct (parse_count _ _); simplify_eq/=.
    destruct (filter _ arguments !! 1%nat) as [a|] eqn:E; [|done]. by apply kept_argument in E.
Qed.

Lemma default_data_not_force manifest_dir : default_data manifest_dir ≠ "--force"%string.
Proof.
  unfold default_data, BuildHost.join.
  replace (is_absolute ".cache/places-benchmark") with false by done.
  intros E. apply (f_equal String.length) in E.
  destruct (_ || _); rewrite ?string_length_app in E; simpl in E; lia.
Qed.

Section spares.
Context `{BsonLib Document ObjectId Other Bytes BE} {IOE X GE G : Type}.
Context `{!Commands K Document (Error BE IOE X Document)}.
Context (deserialize serialize : Document → result BE Document) (new_id : G → G * ObjectId).
Context (read_document : bytes → result BE (Document * bytes)) (gunzip : bytes → result GE bytes).
Context (Client_new : string → io K (result (Error BE IOE X Document) unit)).
Context (Client_close : io K (result (Error BE IOE X Document) unit)).
Context (now : K → Z) (sampled_peak : K → Z) (status : K → option bytes).
Context (disk_at : K → option BenchDir.node) (set_disk : option BenchDir.node → K → K).
Context (directory_len : list (string * BenchDir.node) → Z).
Context (seed_metadata : string → option Z) (seed_file : string → option bytes).
Context (spawn_child : string → Z → result SpawnError unit).
(** Leaving at the data directory what lies there leaves the machine as it is. *)
Context (disk_left : ∀ k, set_disk (disk_at k) k = k).
Local Abbreviation benchmark := (benchmark deserialize serialize new_id read_document gunzip
  Client_new Client_close now sampled_peak status disk_at set_disk directory_len seed_metadata
  seed_file spawn_child).

(** A benchmark whose directory is refused ends there. *)
Lemma benchmark_refused fuel f seed_path directory copies u g k lines e :
  prepare f (disk_at k) u = (Err e, disk_at k) →
  benchmark fuel f seed_path directory copies u g (k, lines)
  = (Returns (Err (BenchDirectory e)), (k, lines)).
Proof using disk_left.
  intros Hp. unfold Benchmark.benchmark, measure_load, engine_call, prepare_directory.
  unfold try_bind, bind. cbn [fst snd]. rewrite Hp. cbn [map_err]. by rewrite disk_left.
Qed.

(** C39. Whatever the command line of the benchmark says, as long as --force is not on it: where
    something lies at the data directory that has no marker and is no empty directory, the whole
    run ends with the error that says so, and disk, engine and output are as they were; and the
    child a benchmark spawns reads its arguments as a cold open of the benchmark's own
    directory. *)
Theorem a_run_spares_what_is_not_its_own
    manifest_dir arguments fuel f seed_path directory copies u g k lines :
  main_arguments manifest_dir arguments = Ok (RunBenchmark seed_path directory copies u) →
  ("--force"%string ∉ arguments → exists_at (disk_at k) = true →
     exists_at (join_at (disk_at k) MARKER) = false → read_dir (disk_at k) ≠ Ok [] →
     ∃ e, (e = NotOurs ∨ e = NotReadable) ∧
       benchmark fuel f seed_path directory copies u g (k, lines)
       = (Returns (Err (BenchDirectory e)), (k, lines))) ∧
  (∀ repeats, 0 ≤ repeats ≤ usize_max →
     main_arguments manifest_dir (spawn_arguments directory repeats)
     = Ok (RunColdOpen directory repeats)).
Proof using disk_left.
  intros Hrun. split.
  - intros Hforce Hex Hmark Hdir. pose proof (spared_unless_forced _ _ _ Hrun Hforce) as Hu.
    simpl in Hu. subst u.
    destruct (prepare f (disk_at k) Refuse) as [r place] eqn:Hp.
    destruct (prepare_refuses _ _ _ _ _ Hp Hex) as [-> Hr]; [intros [|[|]]; congruence|].
    destruct Hr as [-> | ->]; eauto using benchmark_refused.
  - intros repeats Hr. apply spawned_arguments; [|done].
    eapply benchmark_directory; [done|apply default_data_not_force].
Qed.
End spares.

(** The program that is run is one that exists: the benchmark's own, or the one that took its
    place. *)
Theorem the_child_is_a_program_that_exists exists_file current path :
  executable exists_file current = Ok path →
  exists_file path = true ∧
  ∃ own, current = Some own ∧ (path = own ∨ from_utf8_lossy own = path ++ deleted_suffix).
Proof.
  unfold executable. destruct current as [own|]; simpl; [|done].
  destruct (exists_file own) eqn:Hown; [by intros [= <-]; eauto|].
  destruct (strip_suffix deleted_suffix (from_utf8_lossy own)) as [p|] eqn:Hs; simpl; [|done].
  destruct (exists_file p) eqn:Hp; simpl; [|done]. intros [= <-]. split; [done|].
  exists own. split; [done|]. right. unfold strip_suffix in Hs.
  apply fmap_Some in Hs as (q & Hq & ->). apply strip_prefix_Some in Hq.
  rewrite <- (reverse_involutive (from_utf8_lossy own)), Hq, reverse_app, reverse_involutive. done.
Qed.

(** ** What a cold open reports *)

Section reported.
Context `{BsonLib Document ObjectId Other Bytes BE} {IOE X : Type}.
Context `{!Commands K Document (Error BE IOE X Document)}.
Context (deserialize : Document → result BE Document) (error_text : Error BE IOE X Document → string).
Context (Client_new : string → io K (result (Error BE IOE X Document) unit)).
Context (Client_close : io K (result (Error BE IOE X Document) unit)).
Context (now : K → Z) (sampled_peak : K → Z) (status : K → option bytes).

(** So many searches that worked, one after the other. *)
Inductive searches (fuel : nat) : nat → K → K → Prop :=
| searches_none k : searches fuel 0 k k
| searches_one n found k k1 k' :
    search deserialize fuel k = (Returns (Ok found), k1) →
    searches fuel n k1 k' → searches fuel (S n) k k'.

Lemma repeat_search_searches fuel n k k' :
  repeat_search deserialize fuel n k = (Returns (Ok tt), k') → searches fuel n k k'.
Proof.
  revert k. induction n as [|n IH]; intros k; cbn [repeat_search].
  - intros [= ->]. constructor.
  - intros (found & k1 & Hs & Hr)%try_ok_inv. eauto using searches_one.
Qed.

(** A cold open that succeeds reports its own first search: the documents that search drained,
    the time from before the open to its last document, and the repeats asked for; and it has
    searched that many times, but never less than once. *)
Theorem a_cold_open_reports_its_first_search fuel directory repeats k k' lines :
  cold_open deserialize error_text Client_new Client_close now sampled_peak status
    fuel directory repeats (k, []) = (Returns (Ok tt), (k', lines)) →
  ∃ k1 k2 k3 matches, Client_new directory k = (Returns (Ok tt), k1) ∧
    search deserialize fuel k1 = (Returns (Ok matches), k2) ∧
    searches fuel (Z.to_nat (Z.max 1 repeats)) k1 k3 ∧
    take 3 lines =
      row "open to first $geoWithin result" (millis (saturating_sub (now k2) (now k)))
      ++ row "documents returned" (pretty matches)
      ++ row "$geoWithin repeats" (pretty (Z.to_N repeats)).
Proof.
  unfold cold_open. intros Hc. apply try_ok_inv in Hc as ([matches elapsed] & [ka la] & Ht & Hc).
  apply engine_call_ok in Ht as [Ht Hla]. simpl in Ht, Hla. subst la.
  apply time_ok in Ht as [Ht ->]. apply try_ok_inv in Ht as ([] & k1 & Hnew & Hsearch).
  apply try_ok_inv in Hc as ([] & [k3 l3] & Hrep & Hc).
  apply engine_call_ok in Hrep as [Hrep Hl3]. simpl in Hrep, Hl3. subst l3.
  apply repeat_search_searches in Hrep.
  exists k1, ka, k3, matches. split; [done|]. split; [done|]. split.
  { destruct (decide (1 < repeats)).
    - replace (Z.to_nat (Z.max 1 repeats)) with (S (Z.to_nat (repeats - 1))) by lia.
      by eapply searches_one.
    - replace (Z.to_nat (repeats - 1)) with 0%nat in Hrep by lia.
      replace (Z.to_nat (Z.max 1 repeats)) with 1%nat by lia. by eapply searches_one. }
  repeat (apply try_ok_inv in Hc as (? & [? ?] & Hp & Hc);
          first [apply engine_call_ok in Hp as [_ Hp]; simpl in Hp; subst
                |unfold print in Hp; simpl in Hp; simplify_eq
                |case_match; simplify_eq]).
  apply engine_call_ok in Hc as [_ Hc]. simpl in Hc. subst. done.
Qed.
End reported.

(** ** What the benchmark measures on *)

Section phases.
Context `{BsonLaws Document ObjectId Other Bytes BE} {IOE X GE G : Type}.
Context `{!Commands K Document (Error BE IOE X Document)}.
Context (deserialize serialize : Document → result BE Document) (new_id : G → G * ObjectId).
Context (read_document : bytes → result BE (Document * bytes)) (gunzip : bytes → result GE bytes).
Context (Client_new : string → io K (result (Error BE IOE X Document) unit)).
Context (now : K → Z) (sampled_peak : K → Z).
Context (disk_at : K → option BenchDir.node) (set_disk : option BenchDir.node → K → K).
Context (seed_metadata : string → option Z) (seed_file : string → option bytes).

(** Takes a step of a run that succeeded apart: the call it made and the lines it left. *)
Ltac run_step H :=
  let a := fresh "a" in let k := fresh "k" in let l := fresh "l" in let Hm := fresh "Hm" in
  apply try_ok_inv in H as (a & [k l] & Hm & H);
  first [apply engine_call_ok in Hm as [Hm _] | unfold print in Hm; injection Hm as <- <- <-];
  cbn [fst snd] in *.

(** A benchmark that got as far as its indexes cleared its directory to the marker alone, read
    the seed, opened a client there and inserted every copy of every place, in the batches of
    the load; it then measured the two searches that have no index, on what the load left and
    with nothing sent in between; and only then were the indexes built, both of them. *)
Theorem the_baselines_are_measured_before_any_index fuel f seed_path directory copies u g s seed m s' :
  measure_load deserialize serialize new_id read_document gunzip Client_new now sampled_peak
    disk_at set_disk seed_metadata seed_file fuel f seed_path directory copies u g s
  = (Returns (Ok (seed, m)), s') →
  prepare f (disk_at (fst s)) u = (Ok tt, Some fresh_directory) ∧
  load read_document gunzip (seed_metadata seed_path) (seed_file seed_path) = Some (Ok seed) ∧
  ∃ k_open batches k_loaded k_geo k_scanned,
    Client_new directory (set_disk (Some fresh_directory) (fst s)) = (Returns (Ok tt), k_open) ∧
    inserted (IOE := IOE) (X := X) serialize new_id batches k_open k_loaded ∧
    Forall2 (λ p r, replica (GE := GE) (snd p) (fst p) = Ok r)
      (planned (seed_documents seed) (Z.to_nat copies) 0) (concat batches) ∧
    latency now (iterations copies) (scanned_geo deserialize fuel) k_loaded
      = (Returns (Ok (m_scanned_geo m)), k_geo) ∧
    latency now (iterations copies) (scanned_text deserialize fuel) k_geo
      = (Returns (Ok (m_scanned_text m)), k_scanned) ∧
    build_indexes now index_commands k_scanned = (Returns (Ok (m_index_times m)), fst s').
Proof.
  unfold measure_load, take_peak. intros Hrun.
  run_step Hrun. rename Hm into Hprep. run_step Hrun. rename Hm into Hseed.
  do 5 run_step Hrun. run_step Hrun. rename Hm into Hopen. run_step Hrun. rename Hm into Hload.
  run_step Hrun. rename Hm into Hpeak. run_step Hrun. rename Hm into Hgeo.
  run_step Hrun. rename Hm into Hname. run_step Hrun. rename Hm into Hpeak2.
  run_step Hrun. rename Hm into Hindex. run_step Hrun. rename Hm into Hpeak3.
  unfold ret in Hrun. injection Hrun as <- <- <-.
  unfold prepare_directory in Hprep.
  destruct (prepare f (disk_at (fst s)) u) as [r place] eqn:Hp. injection Hprep as -> <-.
  destruct a. pose proof (prepare_ok _ _ _ _ Hp) as ->.
  unfold load_seed in Hseed. destruct (load _ _ _ _) as [r|]; [|done]. injection Hseed as -> <-.
  unfold read_off in *. simplify_eq. split; [done|]. split; [done|].
  destruct a1 as [[] opened], a2 as [g' loaded].
  apply time_ok in Hopen as [Hopen _]. apply time_ok in Hload as [Hload _].
  apply insert_copies_inserts in Hload as (batches & Hins & _ & Hall).
  eexists _, batches, _, _, _. split_and!; eauto.
Qed.
End phases.

(** ** Concrete runs *)

Definition somebodys_photos : BenchDir.node := NDir true [("holiday.jpg"%string, NFile 4096)].

(** An engine with a disk beside it, where opening a client leaves a journal. *)
Definition Machine : Type := Script * option BenchDir.node.
#[local] Instance Machine_Commands : Commands Machine Doc script_error := {
  Find.command database cmd := λ k, let '(r, script) := Find.command database cmd (fst k) in (r, (script, snd k));
}.
Definition machine_open (directory : string) : io Machine (result script_error unit) :=
  λ k, (Returns (Ok tt), (fst k, Some (NDir true [("journal"%string, NDir true [])]))).
Definition machine_benchmark (arguments : string * string) (copies : Z) (u : Unrecognised)
    : io (Machine * list string) (result (BenchError Empty_set unit script_error) unit) :=
  benchmark (G := nat) as_is as_is counting (λ _, Ok (a_corner, [])) (λ l, Ok l) machine_open
    (ret (Ok tt)) (λ k, Z.of_nat (length (sent (fst k)))) (λ _, 0) (λ _, None) snd
    (λ place k, (fst k, place)) (λ _, 0) (λ _, Some 2) (λ _, Some []) (λ _ _, Ok tt)
    10 no_faults (fst arguments) (snd arguments) copies u 0%nat.

Lemma run_spares_witness :
  machine_benchmark ("seed.gz", "/photos")%string 1 Refuse ((mkScript [] [], Some somebodys_photos), [])
  = (Returns (Err (BenchDirectory NotOurs)), ((mkScript [] [], Some somebodys_photos), [])) ∧
  main_arguments "/crate" (spawn_arguments "/photos" COLD_OPEN_REPEATS) = Ok (RunColdOpen "/photos" 5).
Proof.
  destruct (a_run_spares_what_is_not_its_own (GE := unit) (K := Machine) (G := nat) as_is as_is counting
    (λ _, Ok (a_corner, [])) (λ l, Ok l) machine_open (ret (Ok tt))
    (λ k, Z.of_nat (length (sent (fst k)))) (λ _, 0) (λ _, None) snd
    (λ place k, (fst k, place)) (λ _, 0) (λ _, Some 2) (λ _, Some []) (λ _ _, Ok tt)
    ltac:(by intros []) "/crate" ["seed.gz"; "/photos"]%string 10 no_faults "seed.gz" "/photos" 1
    Refuse 0%nat (mkScript [] [], Some somebodys_photos) []) as [Hspared Hchild];
    [vm_compute; reflexivity|].
  split; [|apply Hchild; unfold COLD_OPEN_REPEATS, usize_max; lia].
  destruct Hspared as (e & _ & Hrun); [set_solver|vm_compute; reflexivity..|vm_compute; discriminate|].
  etransitivity; [exact Hrun|]. vm_compute in Hrun. by injection Hrun as <-.
Defined.

(** "--force" may stand anywhere, and only it makes a run delete what it did not make. *)
Example force_anywhere :
  main_arguments "/crate" ["--force"; "seed.gz"; "/photos"; "0"]%string
  = Ok (RunBenchmark "seed.gz" "/photos" 0 Delete).
Proof. vm_compute. reflexivity. Qed.

(** The counts that "must be a positive integer" may be zero. *)
Lemma zero_counts_are_accepted manifest_dir :
  main_arguments manifest_dir ["seed.gz"; "data"; "0"]%string
  = Ok (RunBenchmark "seed.gz" "data" 0 Refuse) ∧
  main_arguments manifest_dir ["--cold-open"; "data"; "0"]%string = Ok (RunColdOpen "data" 0).
Proof. split; reflexivity. Qed.

(** A directory with two places and no index, opened cold and searched twice. *)
Definition cold_script : Script :=
  mkScript [cursor_reply 0 "firstBatch" [a_bridge; a_corner];
            cursor_reply 0 "firstBatch" [a_bridge; a_corner];
            doc [("nindexes"%string, Int32 0 : Bson Doc nat Empty_set); ("ok"%string, Int32 1)]] [].

Definition cold_status : bytes := terminated [B "VmHWM:     2048 kB"].

Definition cold_run : call (result (ColdError script_error) unit) * (Script * list string) :=
  cold_open as_is (λ _, "no index"%string) (λ _ k, (Returns (Ok tt), k)) (λ k, (Returns (Ok tt), k))
    (λ k, 1000000 * Z.of_nat (length (sent k))) (λ _, 1048576) (λ _, Some cold_status)
    10 "/data" 2 (cold_script, []).

Lemma cold_open_witness :
  take 3 (snd (snd cold_run)) =
    row "open to first $geoWithin result" "1.000 ms" ++ row "documents returned" "2"
    ++ row "$geoWithin repeats" "2".
Proof.
  destruct (a_cold_open_reports_its_first_search as_is (λ _, "no index"%string)
    (λ _ k, (Returns (Ok tt), k)) (λ k, (Returns (Ok tt), k))
    (λ k, 1000000 * Z.of_nat (length (sent k))) (λ _, 1048576) (λ _, Some cold_status)
    10 "/data" 2 cold_script (fst (snd cold_run)) (snd (snd cold_run)))
    as (k1 & k2 & k3 & matches & Hnew & Hsearch & _ & Hlines); [vm_compute; reflexivity|].
  injection Hnew as <-. vm_compute in Hsearch. injection Hsearch as <- <-.
  rewrite Hlines. vm_compute. reflexivity.
Defined.

(** A seed of two places loaded twice, into a directory that is not there yet. *)
Definition read_place (raw : bytes) : result Empty_set (Doc * bytes) :=
  match raw with
  | Byte.x00 :: rest => Ok (a_bridge, rest)
  | _ :: rest => Ok (a_corner, rest)
  | [] => Ok (a_corner, [])
  end.

Definition an_ok_reply : Doc := doc [("ok"%string, Int32 1 : Bson Doc nat Empty_set)].

Definition benchmark_script : Script :=
  mkScript (replicate 2 reply_to_two
            ++ replicate 16 (cursor_reply 0 "firstBatch" [a_bridge]) ++ replicate 2 an_ok_reply) [].

Definition benchmark_run : call (result (BenchError Empty_set unit script_error) (Seed Doc * Measured))
    * (Script * list string) :=
  measure_load as_is as_is counting read_place (λ l, Ok l) (λ _ k, (Returns (Ok tt), k))
    (λ k, Z.of_nat (length (sent k))) (λ k, Z.of_nat (length (sent k)))
    (λ _, None) (λ _ k, k) (λ _, Some 2) (λ _, Some [Byte.x00; Byte.x01])
    10 no_faults "seed.gz" "/data" 2 Refuse 0%nat (benchmark_script, []).

Definition measured_seed : Seed Doc := mkSeed [a_bridge; a_corner] 2 2.

Definition measured : Measured :=
  mkMeasured 0 2 2 18 20 (mkLatency 1 1 1 1) (mkLatency 1 1 1 1)
    [("2dsphere on loc"%string, 1); ("text on name + brand"%string, 1)].

Lemma baselines_witness :
  ∃ batches k_loaded, inserted (IOE := unit) (X := unit) as_is counting batches benchmark_script k_loaded ∧
    length (concat batches) = 4%nat.
Proof.
  destruct (the_baselines_are_measured_before_any_index (GE := unit) as_is as_is counting read_place
    (λ l, Ok l) (λ _ k, (Returns (Ok tt), k)) (λ k, Z.of_nat (length (sent k)))
    (λ k, Z.of_nat (length (sent k))) (λ _, None) (λ _ k, k) (λ _, Some 2)
    (λ _, Some [Byte.x00; Byte.x01]) 10 no_faults "seed.gz" "/data" 2 Refuse 0%nat
    (benchmark_script, []) measured_seed measured (snd benchmark_run))
    as (_ & _ & k_open & batches & k_loaded & _ & _ & Hopen & Hins & Hall & _);
    [vm_compute; reflexivity|].
  injection Hopen as <-. exists batches, k_loaded. split; [exact Hins|].
  rewrite <- (Forall2_length _ _ _ Hall). reflexivity.
Defined.
